(* ===== verification/_CoqProject ===== *)
-Q . S2P
Prelude.v
Status.v
Refcount.v
Wrapper.v
SmartPtr.v
WrapperFacts.v
Ownership.v
Interfaces.v
Demo.v
ComTheorems.v
Clients.v
Programs.v
Executor.v
ExecutorSem.v
ExecutorSafety.v
ExecutorTheorems.v
ExecutorWake.v
ExecutorFuture.v
WorkItem.v
WorkItemSem.v
WorkItemLogic.v
WorkItemSafety.v
WorkItemOrder.v
WorkItemTheorems.v
SecondaryTuples.v
InterfaceMacro.v
ImplMacro.v
MethodShims.v
Task.v
AsyncOp.v
AsyncTask.v
AsyncShims.v
Allocator.v
AllocatorTheorems.v
KBox.v
Unicode.v
UnicodeTheorems.v
Tracker.v
TrackedTasks.v
Timer.v
SpinLock.v
TimerTask.v
TimerTaskInv.v
TimerTaskProgress.v
TimerTaskTheorems.v
Descriptors.v
HostStubs.v
Trace.v
Examples.v
