(* ===== verification/Prelude.v ===== *)
(** * Verification of kcom

    kcom is a Rust crate for COM-style objects and asynchronous tasks in
    Windows kernel drivers.  This development translates its core into
    executable definitions and proves the properties its clients rely on.

    ** The program and its parts

    - Status codes ([src/src/iunknown.rs]): NTSTATUS, [Status] and the
      conversions between them, GUIDs and the IUnknown vtable.
    - Reference counts ([refcount.rs]): [add] and [sub] in three builds
      (plain, [refcount-hardening], [leaky-hardening]).  Every other shared
      object of the crate counts its references with them.
    - COM objects ([wrapper.rs], [traits.rs], [vtable.rs]): [ComObject] with
      one interface and [ComObjectN] with several, their IUnknown shims,
      aggregation into an outer object, the panic guard, destruction with the
      resurrection check; the QueryInterface functions that
      [macros/impl_interface.rs] generates.
    - Smart pointers ([smart_ptr.rs], [guard_ptr.rs]) and the constructors of
      [lib.rs] over them.
    - The interface macro ([macros/declare_interface.rs]): the vtable type of
      a declared interface, its constructors, and the shims through which a
      call on an interface pointer reaches the method of the object.
    - The executors ([executor.rs]): the DPC executor with its tasks, wakers,
      cancellation handles and poll budget; the work-item executor for WDM and
      KMDF drivers; the trackers of both; the kernel timer future; the stubs
      of host builds.
    - Cancellable futures ([task.rs]) and asynchronous operations
      ([async_com.rs]), which put a future behind a COM interface and run it
      on the executor.
    - Allocators and pinned boxes ([allocator.rs]) and UNICODE_STRING helpers
      ([unicode.rs]).
    - The PortCls descriptor macros ([descriptors.rs]), the trace hook
      ([trace.rs]) and [ensure!] ([macros/helpers.rs]).

    ** Files

    - [Prelude]: machine integers, layouts, results, faults, the state and
      fault monad in which sequential code is written, shared tactics.
    - [Status], [Refcount]: the two leaf components.
    - [Wrapper]: the memory of COM objects (a [gmap] from locations to object
      records, the state of foreign objects, a log of destructions), the
      vtables as tables of function names, and one definition per shim and
      constructor of [wrapper.rs].  Virtual calls go through [call], whose
      fuel bounds the nesting of calls, not their number.  The class
      [ComImpl] is the trait of that name; [DropGlue] is what the destructor
      of the wrapped type does to COM objects; [Allocator] and [Foreign] are
      allocators and objects implemented elsewhere.
    - [SmartPtr]: [ComRc] and the constructors that return one.
    - [WrapperFacts], [Ownership]: what the operations do to live objects, and
      the accounting of references held by programs and by objects.
    - [Interfaces]: the generated QueryInterface functions and what they
      answer.
    - [Demo]: concrete instances for the examples.
    - [ComTheorems], [Clients]: the theorems on objects, with the interface
      [GeneratedVtables] of what the macros promise about vtables, and on
      programs that use objects through [ComRc].
    - [Programs]: trees of atomic operations, a program logic over them, and
      sums over threads, shared by the two executors.
    - [Executor], [ExecutorSem]: the functions of the DPC executor as programs
      over atomic operations, and an executable semantics of their
      interleavings; [ExecutorSafety] is the invariant, [ExecutorTheorems] the
      theorems; [ExecutorWake] shows that the poll a wake-up is owed (the
      ghost field [m_owed] of the task) comes; [ExecutorFuture] records the
      polls and the drop of a task's future and gives clients the contract
      that every such history obeys.
    - [WorkItem], [WorkItemSem]: the same for the work-item executor, whose
      operations include the calls of the I/O manager or of KMDF that the
      class [TaskContext] stands for; [WorkItemLogic], [WorkItemSafety] and
      [WorkItemOrder] are its invariants, [WorkItemTheorems] its theorems.
    - [SecondaryTuples]: the impls [wrapper.rs] generates for tuples of
      secondary interfaces.  [InterfaceMacro]: the arms of the macro, what
      each method expands to, and when the expansion is well typed;
      [ImplMacro]: the arms of the impl macros of [impl_interface.rs], their
      defaults and expansion, up to the contract [GeneratedVtables] and
      [GeneratedQuery] of whole objects.  [MethodShims]: the synchronous
      shims over the layout of [ComObject] and [ComObjectN].
    - [Task], [AsyncOp]: [task.rs] and [async_com.rs]; [AsyncTask]: the async
      block of an operation as the future of a task, over the histories of
      [ExecutorFuture]; [AsyncShims]: the shims of async methods over the
      operations of [AsyncOp], for the executor of a driver and the stub of a
      host build.
    - [Allocator], [AllocatorTheorems]: kernel memory as bytes and pool
      blocks, [WdkAllocator] in every build, the ExAllocatePool2 cache; the
      interface [RawAllocator] and the proof that [WdkAllocator] meets it.
    - [KBox], [Unicode], [UnicodeTheorems]: clients of that interface.
    - [Tracker], [Timer]: the task trackers and the timer future, again as
      interleaved programs.  [TrackedTasks]: the product of one tracker and
      any number of tasks spawned on it, a driver that submits and unloads.
      [SpinLock]: the lock, its guard and the IRQL, and
      the timer with its locking spelled out.  [TimerTask]: the product of the
      executor and the timer, for a timer future that is a task;
      [TimerTaskInv] its invariant, [TimerTaskProgress] the proof that the two
      do not wait for each other for ever, [TimerTaskTheorems] the theorem.
    - [Descriptors]: the structs the descriptor macros build, over a memory of
      statics.  [HostStubs]: the stubs of host builds.  [Trace]: the hook and
      the text of its reports.
    - [Examples]: the programs of [examples/], from the interfaces they
      declare to the calls they make, over the models of the macros and of the
      objects; the futures of the executor examples.

    ** What the theorems show

    - Reference counts: within their range all builds are exact counters;
      hardened builds never leave the range, and stop (in every build, in a
      block that does not return) exactly when a step would; leaky saturation
      is not sticky.
    - Objects: one count per object whatever the pointer; destruction exactly
      once by the last release, with the exact outcome for every destructor
      that makes COM calls (one that takes references and gives them back
      destroys its object twice, and the primary pointer of a [ComObject]
      frees with the default allocator whichever one made the object);
      QueryInterface as an equivalence on the interfaces of an object,
      aggregation, constructors on success and failure, no panic through the
      three IUnknown slots (the method slots have no guard), detection of
      resurrection and its limits; programs over [ComRc] keep the counts exact, do not touch dead
      objects and, without ownership cycles, do not leak.
    - Executor: under every interleaving the block of a task is used and freed
      safely; futures are used by the contract of Rust's futures when DPC
      routines do not overlap (and a schedule where they do and are not);
      every wake-up of an incomplete task is answered by a poll, the spawn
      included; cancellation is taken once; both budgets bound the polls (the poll budget at one
      poll more than its documentation says).
    - End to end: an asynchronous operation on the executor shows what the
      user's future yields and drops everything once; a task that awaits a
      timer is completed, with nothing lost between the two and no deadlock.
    - Work items: the block is used and freed safely under every
      interleaving, and is freed at rest in the runs in which no item was
      deleted while queued nor used or run after that; items are deleted once and the future is used correctly
      when the task is not woken while one of its items runs, with schedules
      that break both otherwise; trackers are balanced.
    - Interfaces: which declarations compile, given the traits their types
      have ([TraitFacts]); where the fields of the objects lie, that the shims
      find the wrapped value in their own view of the struct and call the
      method on it, and the views for which they do not (the primary pointer
      of an object with several interfaces); async shims balance the
      references they take; which invocations of the impl macros type check,
      and that the vtables they make are those of the object's own wrapper
      instance, allocator included, as the theorems on objects assume.
    - Timer and trackers: memory safety and wake-ups of the timer future, with
      its locked sections as one step and with the lock explicit, without
      deadlock; once [drain] has returned nothing is left of any tracked task,
      and no task keeps it waiting ([TrackedTasks]); what the tracker of work
      items does not promise ([work_item_drain_misses_tasks]); schedules that
      break what is not covered.
    - Examples: the COM examples compile, and end with their assertions
      satisfied and their memory given back.
    - Futures and operations: each field is dropped once, results and
      cancellation are reported consistently, references balance.
    - Memory: allocations of positive size are aligned, fresh and inside their
      block, freeing finds the block again, boxes and strings own what they
      allocate and fail exactly when the allocator or the initialiser does,
      and strings round trip through UTF-16.
    - Descriptors: every list a descriptor macro is given can be read back
      through the struct, and is null exactly when it is empty.

    ** Bounds

    The target is 64-bit.  Recursion through virtual calls and through the
    poll loop of the executor carries fuel; the theorems give the amount that
    is enough (the number of live objects, the poll budget, eight polls per
    reading of the clock) and show that code returns within it.  Interleavings
    are sequences of atomic operations: memory orderings are not modelled.
    Sections under a spin lock are one step in [Timer], which [SpinLock]
    justifies.  References are bounded by hypothesis where the counter could
    otherwise overflow ([within_limit], [driver_within], [co_within]); every
    schedule of fewer than 2^31 - 3 events is within the bounds
    ([short_runs_are_within_limit], [short_driver_runs_are_within],
    [short_co_runs_are_within]).  Kernel routines, foreign objects, futures and
    destructors of the wrapped types are parameters.

    ** Not modelled

    The miri builds, which replace kernel calls by calls of the host; the
    re-exports of [ntddk.rs] and [lib.rs]; attributes, visibility and
    documentation that macros pass through; [unsafe] marker traits; the tests
    and benchmarks; the example of a timer in a driver, as a program (what it
    calls is in [TimerTask] and [TrackedTasks]).  What the kernel, the framework and PortCls do is
    a parameter or an operation of the semantics with its documented effect:
    pool routines, DPC and work-item queues, spin locks, timers, events,
    performance counters. *)

From Stdlib Require Export ZArith Lia.
From stdpp Require Export gmap list numbers.

#[global] Open Scope Z_scope.

(** ** Machine integers *)

(** A [w]-bit unsigned integer is a [Z] in [0, 2^w); [wrap w] is the
    reduction performed by a wrapping operation or an [as] cast. *)
Definition wrap (w z : Z) : Z := z mod 2 ^ w.
Definition in_width (w z : Z) : Prop := 0 <= z < 2 ^ w.

Definition u16_MAX : Z := 65535.
Definition u32_MAX : Z := 4294967295.
Definition u64_MAX : Z := 18446744073709551615.
(** The 64-bit targets the driver is built for. *)
Definition usize_MAX : Z := u64_MAX.
Definition i32_MAX : Z := 2147483647.

Definition u16 (z : Z) : Prop := 0 <= z <= u16_MAX.
Definition u32 (z : Z) : Prop := 0 <= z <= u32_MAX.
Definition u64 (z : Z) : Prop := 0 <= z <= u64_MAX.
Definition usize (z : Z) : Prop := 0 <= z <= usize_MAX.

(** [v.checked_add(k)] on [usize]. *)
Definition usize_checked_add (a b : Z) : option Z :=
  if a + b <=? usize_MAX then Some (a + b) else None.
(** [v.checked_mul(k)] on [usize]. *)
Definition usize_checked_mul (a b : Z) : option Z :=
  if a * b <=? usize_MAX then Some (a * b) else None.
(** [v as i32] on a [u32]: reinterpretation of the two's complement bits. *)
Definition u32_as_i32 (z : Z) : Z := if z <=? i32_MAX then z else z - 2 ^ 32.

(** ** Layouts *)

(** [core::alloc::Layout] *)
Record Layout : Type := mkLayout { size : Z; align : Z }.

#[global] Instance Layout_eq_dec : EqDecision Layout.
Proof. solve_decision. Defined.

(** ** Results of fallible code *)

Inductive result (A E : Type) : Type :=
| Ok (a : A)
| Err (e : E).
Arguments Ok {A E} a.
Arguments Err {A E} e.

#[global] Instance result_eq_dec {A E : Type} `{EqDecision A, EqDecision E} :
  EqDecision (result A E).
Proof. solve_decision. Defined.

Definition ok_or {A E : Type} (o : option A) (e : E) : result A E :=
  match o with Some a => Ok a | None => Err e end.

(** ** Outcomes

    A call either returns or stops the machine.  [Panic] is an unwinding Rust
    panic, [FailFast] the abort of the panic guard, [RefcountViolation] and
    [ResurrectionViolation] the two diverging error handlers, [UB] an access
    to memory that is not a live object, [OutOfFuel] an exhausted recursion
    bound of the model. *)
Inductive fault : Type :=
| Panic
| FailFast
| RefcountViolation
| ResurrectionViolation
| UB
| OutOfFuel.

#[global] Instance fault_eq_dec : EqDecision fault.
Proof. solve_decision. Defined.

Inductive outcome (A : Type) : Type :=
| Done (a : A)
| Fault (f : fault).
Arguments Done {A} a.
Arguments Fault {A} f.

#[global] Instance outcome_eq_dec {A : Type} `{EqDecision A} : EqDecision (outcome A).
Proof. solve_decision. Defined.

(** The state and fault monad the stateful components are written in. *)
Definition M (S A : Type) : Type := S -> outcome (A * S).

Definition mret {S A : Type} (a : A) : M S A := fun s => Done (a, s).
Definition mfault {S A : Type} (f : fault) : M S A := fun _ => Fault f.
Definition bind {S A B : Type} (c : M S A) (k : A -> M S B) : M S B :=
  fun s => match c s with
           | Done (a, s') => k a s'
           | Fault f => Fault f
           end.
Definition mget {S : Type} : M S S := fun s => Done (s, s).
Definition mput {S : Type} (s : S) : M S unit := fun _ => Done (tt, s).
Definition lift {S A : Type} (o : outcome A) : M S A :=
  fun s => match o with Done a => Done (a, s) | Fault f => Fault f end.

Declare Scope kcom_scope.
Delimit Scope kcom_scope with kcom.
#[global] Open Scope kcom_scope.

Notation "'let*' x ':=' c 'in' k" := (bind c (fun x => k))
  (at level 10, x pattern, c at level 100, k at level 200) : kcom_scope.
Notation "c ;; k" := (bind c (fun _ => k))
  (at level 100, k at level 200, right associativity) : kcom_scope.

(** ** Automation *)

Create HintDb kcom.

(** Split conjunctions and existentials of the context. *)
Ltac destr_hyps :=
  repeat match goal with
         | H : _ /\ _ |- _ => destruct H
         | H : exists _, _ |- _ => destruct H
         end.

(** Turn the boolean tests of the code into propositions. *)
Ltac to_prop :=
  repeat match goal with
         | H : (_ <=? _) = true |- _ => apply Z.leb_le in H
         | H : (_ <=? _) = false |- _ => apply Z.leb_gt in H
         | H : (_ <? _) = true |- _ => apply Z.ltb_lt in H
         | H : (_ <? _) = false |- _ => apply Z.ltb_ge in H
         | H : (_ =? _) = true |- _ => apply Z.eqb_eq in H
         | H : (_ =? _) = false |- _ => apply Z.eqb_neq in H
         | H : bool_decide _ = true |- _ => apply bool_decide_eq_true in H
         | H : bool_decide _ = false |- _ => apply bool_decide_eq_false in H
         | H : negb _ = true |- _ => apply negb_true_iff in H
         | H : negb _ = false |- _ => apply negb_false_iff in H
         end.

(** Case on the test or match that blocks the goal. *)
Ltac case_goal :=
  match goal with
  | |- context [if ?b then _ else _] => destruct b eqn:?
  | |- context [match ?x with _ => _ end] => destruct x eqn:?
  end.
Ltac case_hyp H :=
  match type of H with
  | context [if ?b then _ else _] => destruct b eqn:?
  | context [match ?x with _ => _ end] => destruct x eqn:?
  end.

Ltac widths := unfold wrap, in_width, u16, u32, u64, usize, u16_MAX, u32_MAX,
  usize_MAX, u64_MAX, i32_MAX in *.

(** ** Lemmas on integers *)

Lemma wrap_small w z : 0 <= z < 2 ^ w -> wrap w z = z.
Proof. intros. unfold wrap. apply Z.mod_small. lia. Qed.

Lemma wrap_range w z : 0 <= w -> 0 <= wrap w z < 2 ^ w.
Proof. intros. apply Z.mod_pos_bound. apply Z.pow_pos_nonneg; lia. Qed.

Lemma u32_as_i32_range z : u32 z -> - 2 ^ 31 <= u32_as_i32 z < 2 ^ 31.
Proof. unfold u32_as_i32. widths. intros. destruct (Z.leb_spec z 2147483647); lia. Qed.

(** ** Lemmas on the monad *)

Lemma bind_done {S A B : Type} (c : M S A) (k : A -> M S B) s a s' :
  c s = Done (a, s') -> bind c k s = k a s'.
Proof. intros H. unfold bind. by rewrite H. Qed.

Lemma bind_fault {S A B : Type} (c : M S A) (k : A -> M S B) s f :
  c s = Fault f -> bind c k s = Fault f.
Proof. intros H. unfold bind. by rewrite H. Qed.

Lemma bind_inv {S A B : Type} (c : M S A) (k : A -> M S B) s r :
  bind c k s = Done r -> exists a s', c s = Done (a, s') /\ k a s' = Done r.
Proof.
  unfold bind. intros H. destruct (c s) as [[a s']|f] eqn:E; [eauto|discriminate].
Qed.

Lemma bind_ret_r {S A : Type} (c : M S A) s : bind c mret s = c s.
Proof. unfold bind, mret. destruct (c s) as [[? ?]|?]; reflexivity. Qed.

Lemma bind_assoc {S A B C : Type} (c : M S A) (f : A -> M S B) (g : B -> M S C) s :
  bind (bind c f) g s = bind c (fun a => bind (f a) g) s.
Proof. unfold bind. destruct (c s) as [[? ?]|?]; reflexivity. Qed.

(** Step through a monadic computation in a hypothesis. *)
Ltac inv_bind H :=
  let a := fresh "a" in let s := fresh "s" in let H1 := fresh "Hc" in
  apply bind_inv in H as (a & s & H1 & H).
