(* ===== verification/Status.v ===== *)
(** * Status codes, interface identifiers and checked pointers

    Models [src/src/iunknown.rs] (NTSTATUS, [Status], [PendingResult],
    [IntoNtStatus], [GUID]), the interface metadata helper of
    [src/src/vtable.rs] and the conversions used by [KBoxError] in
    [src/src/allocator.rs].  An NTSTATUS is an [i32], kept as a [Z]. *)

From S2P Require Import Prelude.

(** ** NTSTATUS constants *)

Definition NTSTATUS : Type := Z.
Definition STATUS_SUCCESS : NTSTATUS := 0.
Definition STATUS_PENDING : NTSTATUS := u32_as_i32 0x00000103.
Definition STATUS_UNSUCCESSFUL : NTSTATUS := u32_as_i32 0xC0000001.
Definition STATUS_INVALID_PARAMETER : NTSTATUS := u32_as_i32 0xC000000D.
Definition STATUS_NOT_SUPPORTED : NTSTATUS := u32_as_i32 0xC00000BB.
Definition STATUS_CANCELLED : NTSTATUS := u32_as_i32 0xC0000120.
Definition STATUS_NOINTERFACE : NTSTATUS := u32_as_i32 0xC00002B9.
Definition STATUS_INSUFFICIENT_RESOURCES : NTSTATUS := u32_as_i32 0xC000009A.

(** ** The [Status] wrapper *)

Record Status : Type := mkStatus { raw : NTSTATUS }.

#[global] Instance Status_eq_dec : EqDecision Status.
Proof. solve_decision. Defined.

Module Status.
Definition SUCCESS : Status := mkStatus STATUS_SUCCESS.
Definition UNSUCCESSFUL : Status := mkStatus STATUS_UNSUCCESSFUL.
Definition INVALID_PARAMETER : Status := mkStatus STATUS_INVALID_PARAMETER.
Definition NOINTERFACE : Status := mkStatus STATUS_NOINTERFACE.
Definition INSUFFICIENT_RESOURCES : Status := mkStatus STATUS_INSUFFICIENT_RESOURCES.
Definition CANCELLED : Status := mkStatus STATUS_CANCELLED.
Definition PENDING : Status := mkStatus STATUS_PENDING.

Definition from_raw (r : NTSTATUS) : Status := mkStatus r.
Definition into_raw (s : Status) : NTSTATUS := raw s.
Definition is_success (s : Status) : bool := 0 <=? raw s.
Definition is_error (s : Status) : bool := raw s <? 0.

Definition to_result (s : Status) : result unit Status :=
  if is_success s then Ok tt else Err s.
End Status.

Inductive PendingResult (A : Type) : Type :=
| Ready (a : A)
| Pending.
Arguments Ready {A} a.
Arguments Pending {A}.

#[global] Instance PendingResult_eq_dec {A : Type} `{EqDecision A} :
  EqDecision (PendingResult A).
Proof. solve_decision. Defined.

Definition to_pending_result (s : Status) : result (PendingResult unit) Status :=
  if raw s =? STATUS_PENDING then Ok Pending
  else if Status.is_success s then Ok (Ready tt)
  else Err s.

(** ** Conversion of return values to NTSTATUS

    The trait [IntoNtStatus] and its three implementations, which the
    generated shims apply to what a method returns. *)
Class IntoNtStatus (A : Type) : Type := into_ntstatus : A -> NTSTATUS.

#[global] Instance NTSTATUS_into : IntoNtStatus NTSTATUS := fun s => s.
#[global] Instance Status_into : IntoNtStatus Status := fun s => raw s.
(** [Into<NTSTATUS>], reflexive and derived from [From<Status>]. *)
Class IntoRaw (A : Type) : Type := into : A -> NTSTATUS.
#[global] Instance NTSTATUS_into_raw : IntoRaw NTSTATUS := fun s => s.
#[global] Instance Status_into_raw : IntoRaw Status := fun value => raw value.
#[global] Instance result_into {A E : Type} `{IntoRaw E} :
  IntoNtStatus (result A E) :=
  fun r => match r with
           | Ok _ => STATUS_SUCCESS
           | Err err => into err
           end.

(** ** GUIDs *)

Record GUID : Type := mkGUID {
  data1 : Z;
  data2 : Z;
  data3 : Z;
  data4 : list Z
}.

#[global] Instance GUID_eq_dec : EqDecision GUID.
Proof. solve_decision. Defined.

Definition IID_IUNKNOWN : GUID := {|
  data1 := 0x00000000;
  data2 := 0x0000;
  data3 := 0x0000;
  data4 := [0xC0; 0x00; 0x00; 0x00; 0x00; 0x00; 0x00; 0x46]
|}.

(** The derived [==] on GUIDs. *)
Definition guid_eq (a b : GUID) : bool := bool_decide (a = b).

Lemma guid_eq_true a b : guid_eq a b = true <-> a = b.
Proof. apply bool_decide_eq_true. Qed.

Lemma guid_eq_refl a : guid_eq a a = true.
Proof. by apply guid_eq_true. Qed.

Lemma guid_eq_false a b : a <> b -> guid_eq a b = false.
Proof. intros H. by apply bool_decide_eq_false. Qed.

#[export] Hint Resolve guid_eq_false guid_eq_refl : kcom.

(** ** Properties *)

(** Every status is either a success or an error; [to_result] fails
    exactly on the errors and then returns the status itself, and
    [to_pending_result] refines it by singling out STATUS_PENDING, which
    [to_result] counts as a success. *)
Theorem to_result_pending_refines (s : Status) :
  Status.to_result s
    = match to_pending_result s with Ok _ => Ok tt | Err e => Err e end
  /\ (to_pending_result s = Ok Pending <-> raw s = STATUS_PENDING)
  /\ (Status.to_result s = Err s <-> Status.is_error s = true)
  /\ Status.is_error s = negb (Status.is_success s).
Proof.
  unfold Status.to_result, to_pending_result, Status.is_error, Status.is_success.
  destruct (Z.eqb_spec (raw s) STATUS_PENDING) as [E|E];
    [rewrite E; vm_compute; intuition congruence|].
  destruct (Z.leb_spec 0 (raw s)), (Z.ltb_spec (raw s) 0); try lia;
    intuition congruence.
Qed.
