(* ===== verification/Refcount.v ===== *)
(** * Reference counts

    Models [src/src/refcount.rs]: the shared [add] and [sub] on an
    [AtomicU32] in the three feature configurations.  An atomic
    read-modify-write is one step on the stored value; a call returns the
    value the function returns together with the value left in the cell, or
    the fault that stops the machine. *)

From S2P Require Import Prelude Status.

(** The cargo features [refcount-hardening] and [leaky-hardening] (the second
    implies the first), and whether the build is a debug build: arithmetic
    overflow checks follow [debug_assertions], as in the default profiles. *)
Inductive hardening : Type := Plain | Hardened | Leaky.

#[global] Instance hardening_eq_dec : EqDecision hardening.
Proof. solve_decision. Defined.

Record config : Type := mkConfig {
  hard : hardening;
  debug_assertions : bool
}.

Definition MAX_REFCOUNT : Z := i32_MAX.

(** [fetch_update]: the closure's new value is stored and the previous value
    returned, or the cell is left alone and the previous value is the error. *)
Definition fetch_update (f : Z -> option Z) (curr : Z) : result Z Z * Z :=
  match f curr with
  | Some next => (Ok curr, next)
  | None => (Err curr, curr)
  end.

(** [x + 1] and [x - 1] on [u32] outside the atomics: a panic when overflow
    checks are on, wrap-around otherwise. *)
Definition u32_succ (c : config) (x : Z) : outcome Z :=
  if x + 1 <=? u32_MAX then Done (x + 1)
  else if debug_assertions c then Fault Panic else Done (wrap 32 (x + 1)).
Definition u32_pred (c : config) (x : Z) : outcome Z :=
  if 0 <=? x - 1 then Done (x - 1)
  else if debug_assertions c then Fault Panic else Done (wrap 32 (x - 1)).

(** Return value paired with the new contents of the cell. *)
Definition with_cell (cell : Z) (r : outcome Z) : outcome (Z * Z) :=
  match r with Done v => Done (v, cell) | Fault f => Fault f end.

Definition add_update (curr : Z) : option Z :=
  if MAX_REFCOUNT <=? curr then None else Some (curr + 1).
Definition sub_update (curr : Z) : option Z :=
  if curr =? 0 then None else Some (curr - 1).

Definition add_plain (c : config) (rc : Z) : outcome (Z * Z) :=
  let cell := wrap 32 (rc + 1) in
  with_cell cell (u32_succ c rc).
Definition add_hardened (c : config) (rc : Z) : outcome (Z * Z) :=
  match fetch_update add_update rc with
  | (Ok prev, cell) => with_cell cell (u32_succ c prev)
  | (Err _, _) => Fault RefcountViolation
  end.
Definition add_leaky (c : config) (rc : Z) : outcome (Z * Z) :=
  match fetch_update add_update rc with
  | (Ok prev, cell) => with_cell cell (u32_succ c prev)
  | (Err _, cell) => Done (MAX_REFCOUNT, cell)
  end.

Definition sub_plain (c : config) (rc : Z) : outcome (Z * Z) :=
  let cell := wrap 32 (rc - 1) in
  with_cell cell (u32_pred c rc).
Definition sub_hardened (c : config) (rc : Z) : outcome (Z * Z) :=
  match fetch_update sub_update rc with
  | (Ok prev, cell) => with_cell cell (u32_pred c prev)
  | (Err _, _) => Fault RefcountViolation
  end.
Definition sub_leaky (c : config) (rc : Z) : outcome (Z * Z) :=
  match fetch_update sub_update rc with
  | (Ok prev, cell) => with_cell cell (u32_pred c prev)
  | (Err _, cell) => Done (MAX_REFCOUNT, cell)
  end.

Definition add (c : config) : Z -> outcome (Z * Z) :=
  match hard c with
  | Plain => add_plain c
  | Hardened => add_hardened c
  | Leaky => add_leaky c
  end.
Definition sub (c : config) : Z -> outcome (Z * Z) :=
  match hard c with
  | Plain => sub_plain c
  | Hardened => sub_hardened c
  | Leaky => sub_leaky c
  end.

(** ** The violation path

    What [refcount_violation] compiles to: each block of its body is kept or
    left out by its [cfg] condition, and the blocks that are kept run in
    order.  Only the report, in debug builds, returns. *)
Record violation_build : Type := mkBuild {
  vb_debug_assertions : bool;
  vb_driver : bool;
  vb_async_com_kernel : bool;
  vb_kernel_unicode : bool;
  vb_miri : bool;
  vb_test : bool
}.

Inductive violation_step : Type :=
| ReportError (status : NTSTATUS)
| KeBugCheckEx (code : Z)
| ProcessAbort
| SpinForever.

#[global] Instance violation_step_eq_dec : EqDecision violation_step.
Proof. solve_decision. Defined.

Definition cfg (condition : bool) (block : violation_step) : list violation_step :=
  if condition then [block] else [].

Definition refcount_violation (b : violation_build) : list violation_step :=
  let kernel := vb_async_com_kernel b || vb_kernel_unicode b in
  cfg (vb_debug_assertions b) (ReportError STATUS_UNSUCCESSFUL)
  ++ cfg (vb_driver b && kernel && negb (vb_miri b)) (KeBugCheckEx 0x4B434F4D)
  ++ cfg (negb (vb_driver b) && vb_test b) ProcessAbort
  ++ cfg (negb (vb_driver b) && negb (vb_test b)) SpinForever
  ++ cfg (vb_driver b && negb kernel) SpinForever
  ++ cfg (vb_driver b && kernel && vb_miri b) SpinForever.

Definition returns (s : violation_step) : bool :=
  match s with ReportError _ => true | _ => false end.

(** ** Histories

    A history is a sequence of atomic [add]s and [sub]s on one cell, in the
    order in which they take effect. *)
Inductive rc_op : Type := Inc | Dec.

Definition apply_op (c : config) (o : rc_op) (rc : Z) : outcome (Z * Z) :=
  match o with Inc => add c rc | Dec => sub c rc end.

Fixpoint run (c : config) (rc : Z) (ops : list rc_op) : outcome (list Z * Z) :=
  match ops with
  | [] => Done ([], rc)
  | o :: ops =>
      match apply_op c o rc with
      | Fault f => Fault f
      | Done (v, rc') =>
          match run c rc' ops with
          | Fault f => Fault f
          | Done (vs, rc'') => Done (v :: vs, rc'')
          end
      end
  end.

(** The abstract counter: an unbounded integer, and the values it takes. *)
Definition delta (o : rc_op) : Z := match o with Inc => 1 | Dec => -1 end.
Fixpoint counts (n : Z) (ops : list rc_op) : list Z :=
  match ops with
  | [] => []
  | o :: ops => (n + delta o) :: counts (n + delta o) ops
  end.
Fixpoint net (ops : list rc_op) : Z :=
  match ops with [] => 0 | o :: ops => delta o + net ops end.

(** Every value the counter takes lies in [0, MAX_REFCOUNT]. *)
Definition in_range (n : Z) (ops : list rc_op) : Prop :=
  Forall (fun v => 0 <= v <= MAX_REFCOUNT) (counts n ops).
#[global] Instance in_range_dec n ops : Decision (in_range n ops).
Proof. unfold in_range. apply _. Defined.

(** ** One operation *)

Ltac unfold_rc := unfold add, sub, add_plain, add_hardened, add_leaky, sub_plain,
  sub_hardened, sub_leaky, fetch_update, add_update, sub_update, u32_succ,
  u32_pred, with_cell, MAX_REFCOUNT in *; widths.

Ltac rc_cases :=
  repeat (first [ case_goal | progress to_prop ]); simpl in *;
  try congruence; try lia; try (repeat f_equal; rewrite ?Z.mod_small by lia; lia).

Lemma add_ok c rc : 0 <= rc < MAX_REFCOUNT -> add c rc = Done (rc + 1, rc + 1).
Proof. destruct c as [[] []]; intros; unfold_rc; simpl; rc_cases. Qed.

Lemma sub_ok c rc : 0 < rc <= u32_MAX -> sub c rc = Done (rc - 1, rc - 1).
Proof. destruct c as [[] []]; intros; unfold_rc; simpl; rc_cases. Qed.

(** Below [u32::MAX] the unhardened [add] is exact too. *)
Lemma add_plain_ok c rc :
  hard c = Plain -> 0 <= rc < u32_MAX -> add c rc = Done (rc + 1, rc + 1).
Proof. destruct c as [[] []]; intros; unfold_rc; simpl in *; rc_cases. Qed.

Lemma u32_mod z : 0 <= z mod 2 ^ 32 <= 4294967295.
Proof. pose proof (Z.mod_pos_bound z (2 ^ 32)). lia. Qed.

Lemma add_no_violation_range c rc v rc' :
  u32 rc -> add c rc = Done (v, rc') -> u32 rc'.
Proof.
  destruct c as [[] []]; unfold_rc; intros Hr H; simpl in *;
    repeat (case_hyp H; to_prop; simpl in *; try congruence);
    injection H as <- <-; try lia; apply u32_mod.
Qed.

Lemma sub_range c rc v rc' :
  u32 rc -> sub c rc = Done (v, rc') -> u32 rc'.
Proof.
  destruct c as [[] []]; unfold_rc; intros Hr H; simpl in *;
    repeat (case_hyp H; to_prop; simpl in *; try congruence);
    injection H as <- <-; try lia; apply u32_mod.
Qed.

(** A [sub] that returns zero is the one that takes the count from one to
    zero, in every configuration. *)
Lemma sub_zero c rc rc' :
  u32 rc -> sub c rc = Done (0, rc') -> rc = 1 /\ rc' = 0.
Proof.
  destruct c as [[] []]; unfold_rc; intros Hr H; simpl in *;
    repeat (case_hyp H; to_prop; simpl in *; try congruence);
    injection H as Hv <-; try lia;
    (destruct (Z.eq_dec rc 0) as [->|]; [vm_compute in Hv; congruence|]);
    rewrite ?Z.mod_small in * by lia; lia.
Qed.

#[export] Hint Resolve add_ok sub_ok add_no_violation_range sub_range : kcom.

Lemma apply_op_ok c o n :
  0 <= n <= MAX_REFCOUNT -> 0 <= n + delta o <= MAX_REFCOUNT ->
  apply_op c o n = Done (n + delta o, n + delta o).
Proof.
  destruct o; simpl; intros.
  - apply add_ok. lia.
  - apply sub_ok. unfold_rc. lia.
Qed.

Lemma in_range_cons n o ops :
  in_range n (o :: ops) <-> 0 <= n + delta o <= MAX_REFCOUNT /\ in_range (n + delta o) ops.
Proof. unfold in_range. simpl. apply Forall_cons_iff. Qed.

(** ** Properties *)

Section Histories.
Context (c : config).

Lemma run_in_range n ops :
  0 <= n <= MAX_REFCOUNT -> in_range n ops ->
  run c n ops = Done (counts n ops, n + net ops).
Proof.
  revert n. induction ops as [|o ops IH]; intros n Hn Hr; simpl.
  - by rewrite Z.add_0_r.
  - apply in_range_cons in Hr as [Ho Hr].
    rewrite apply_op_ok, IH by auto. do 2 f_equal. lia.
Qed.
End Histories.

(** C27: while the number of references stays within [0, i32::MAX] the cell
    is an exact counter: every configuration returns the values of the
    abstract counter and leaves its final value in the cell, so the hardened
    builds cannot be told apart from the plain one. *)
Theorem run_refines_counter (c : config) (n : Z) (ops : list rc_op) :
  0 <= n <= MAX_REFCOUNT -> in_range n ops ->
  run c n ops = Done (counts n ops, n + net ops)
  /\ (forall c', run c' n ops = run c n ops).
Proof.
  intros Hn Hr. split; [by apply run_in_range|].
  intros c'. by rewrite !run_in_range.
Qed.

Lemma run_refines_counter_witness :
  run (mkConfig Hardened true) 1 [Inc; Inc; Dec; Dec; Dec] = Done ([2; 3; 2; 1; 0], 0)
  /\ (forall c', run c' 1 [Inc; Inc; Dec; Dec; Dec]
                 = run (mkConfig Hardened true) 1 [Inc; Inc; Dec; Dec; Dec]).
Proof.
  apply (run_refines_counter (mkConfig Hardened true) 1 [Inc; Inc; Dec; Dec; Dec]).
  - unfold MAX_REFCOUNT, i32_MAX. lia.
  - unfold in_range, MAX_REFCOUNT, i32_MAX. simpl. repeat constructor; lia.
Defined.

Lemma apply_op_hardened_out c o n :
  hard c = Hardened -> 0 <= n <= MAX_REFCOUNT ->
  ~ (0 <= n + delta o <= MAX_REFCOUNT) ->
  apply_op c o n = Fault RefcountViolation.
Proof.
  intros Hh Hn Ho. destruct c as [h b], o; simpl in *; subst h;
    unfold_rc; simpl; rc_cases.
Qed.

(** With [refcount-hardening] the count never wraps: a history either
    runs exactly as the abstract counter, or stops at the refcount violation,
    and the latter happens exactly when the abstract counter would leave
    [0, i32::MAX]. *)
Theorem hardened_run_exact_or_violation (b : bool) (n : Z) (ops : list rc_op) :
  0 <= n <= MAX_REFCOUNT ->
  run (mkConfig Hardened b) n ops
  = if decide (in_range n ops)
    then Done (counts n ops, n + net ops)
    else Fault RefcountViolation.
Proof.
  revert n. induction ops as [|o ops IH]; intros n Hn.
  - rewrite decide_True by constructor. by rewrite run_in_range by (done || constructor).
  - case_decide as Hr; [by apply run_in_range|].
    cbn [run].
    destruct (decide (0 <= n + delta o <= MAX_REFCOUNT)) as [Ho|Ho].
    + rewrite apply_op_ok, IH by auto.
      rewrite decide_False; [done|]. intros Hr'. apply Hr, in_range_cons. auto.
    + by rewrite apply_op_hardened_out.
Qed.

Lemma hardened_run_exact_or_violation_witness :
  run (mkConfig Hardened false) 1 [Dec; Dec; Inc] = Fault RefcountViolation.
Proof.
  rewrite (hardened_run_exact_or_violation false 1 [Dec; Dec; Inc]).
  - reflexivity.
  - unfold MAX_REFCOUNT, i32_MAX. lia.
Defined.

Lemma leaky_step b o n :
  0 <= n <= MAX_REFCOUNT ->
  exists v n', apply_op (mkConfig Leaky b) o n = Done (v, n')
    /\ 0 <= v <= MAX_REFCOUNT /\ 0 <= n' <= MAX_REFCOUNT.
Proof.
  intros Hn. destruct (decide (0 <= n + delta o <= MAX_REFCOUNT)) as [Ho|Ho].
  - rewrite apply_op_ok by done. eauto.
  - assert (0 <= MAX_REFCOUNT <= MAX_REFCOUNT) by (unfold MAX_REFCOUNT, i32_MAX; lia).
    destruct o; cbn [delta apply_op] in *;
      unfold add, sub, add_leaky, sub_leaky, fetch_update, add_update, sub_update; cbn [hard].
    + rewrite (proj2 (Z.leb_le MAX_REFCOUNT n)) by lia. eauto.
    + rewrite (proj2 (Z.eqb_eq n 0)) by lia. eauto.
Qed.

(** With [leaky-hardening] no history stops the machine, and the cell and the
    returned values stay within [0, i32::MAX]. *)
Lemma leaky_run_total b n ops :
  0 <= n <= MAX_REFCOUNT ->
  exists vs n', run (mkConfig Leaky b) n ops = Done (vs, n')
    /\ Forall (fun v => 0 <= v <= MAX_REFCOUNT) vs /\ 0 <= n' <= MAX_REFCOUNT.
Proof.
  revert n. induction ops as [|o ops IH]; intros n Hn; cbn [run].
  - by exists [], n.
  - destruct (leaky_step b o n Hn) as (v & n1 & -> & Hv & Hn1).
    destruct (IH n1 Hn1) as (vs & n2 & -> & Hvs & Hn2).
    exists (v :: vs), n2. split; [done|]. split; [by constructor|done].
Qed.

Lemma final_in_range n ops :
  0 <= n <= MAX_REFCOUNT -> in_range n ops -> 0 <= n + net ops <= MAX_REFCOUNT.
Proof.
  revert n. induction ops as [|o ops IH]; intros n Hn Hr; cbn [net]; [lia|].
  apply in_range_cons in Hr as [Ho Hr]. specialize (IH _ Ho Hr). lia.
Qed.

(** The blocks of [refcount_violation] never let it return: in every build
    the report is followed by exactly one block, which does not return. *)
Lemma violation_stops b :
  exists stop, filter (fun s => returns s = false) (refcount_violation b) = [stop]
    /\ list.last (refcount_violation b) = Some stop.
Proof. destruct b as [[] [] [] [] [] []]; eexists; split; reflexivity. Qed.

(** C28: the bounds of hardened counts.  With either hardening feature, from a
    count within [0, i32::MAX], a history of adds and subs in any order
    either runs to its end with the cell and every returned value within
    [0, i32::MAX], or it stops in [refcount_violation].  It can stop only
    without [leaky-hardening], and then stops exactly when the exact counter
    would leave the bounds; and [refcount_violation] ends every build in
    exactly one block that does not return (a bug check, an abort or a
    spin), so no history goes on after it. *)
Theorem hardened_counts_stay_in_bounds (c : config) (vb : violation_build) (n : Z) (ops : list rc_op) :
  hard c <> Plain -> 0 <= n <= MAX_REFCOUNT ->
  match run c n ops with
  | Done (vs, n') =>
      Forall (fun v => 0 <= v <= MAX_REFCOUNT) vs /\ 0 <= n' <= MAX_REFCOUNT
      /\ (hard c = Hardened -> vs = counts n ops /\ n' = n + net ops)
  | Fault f => f = RefcountViolation /\ hard c = Hardened /\ ~ in_range n ops
  end
  /\ exists stop, filter (fun s => returns s = false) (refcount_violation vb) = [stop]
       /\ list.last (refcount_violation vb) = Some stop.
Proof.
  intros Hc Hn. split; [|apply violation_stops]. destruct c as [[] b]; [done| |].
  - rewrite hardened_run_exact_or_violation by done. case_decide as Hr; [|done].
    split; [exact Hr|]. split; [by apply final_in_range|done].
  - destruct (leaky_run_total b n ops Hn) as (vs & n' & -> & Hvs & Hn'). done.
Qed.

Lemma hardened_counts_stay_in_bounds_witness :
  match run (mkConfig Leaky true) MAX_REFCOUNT [Inc; Inc; Dec] with
  | Done (vs, n') =>
      Forall (fun v => 0 <= v <= MAX_REFCOUNT) vs /\ 0 <= n' <= MAX_REFCOUNT
      /\ (Leaky = Hardened -> vs = counts MAX_REFCOUNT [Inc; Inc; Dec]
                            /\ n' = MAX_REFCOUNT + net [Inc; Inc; Dec])
  | Fault f => f = RefcountViolation /\ Leaky = Hardened /\ ~ in_range MAX_REFCOUNT [Inc; Inc; Dec]
  end
  /\ exists stop, filter (fun s => returns s = false)
                    (refcount_violation (mkBuild true true true false false false)) = [stop]
       /\ list.last (refcount_violation (mkBuild true true true false false false)) = Some stop.
Proof.
  apply (hardened_counts_stay_in_bounds (mkConfig Leaky true) (mkBuild true true true false false false)
    MAX_REFCOUNT [Inc; Inc; Dec]); [discriminate|unfold MAX_REFCOUNT, i32_MAX; lia].
Defined.

(** Releasing all but one of [n] references and then the last one. *)
Lemma run_all_dec c n :
  Z.of_nat n <= MAX_REFCOUNT ->
  exists vs, run c (Z.of_nat n) (replicate n Dec) = Done (vs, 0)
             /\ ((0 < n)%nat -> List.last vs 1 = 0).
Proof.
  induction n as [|n IH]; intros Hn.
  - exists []. split; [done|lia].
  - cbn [replicate run]. rewrite apply_op_ok by (simpl; lia).
    replace (Z.of_nat (S n) + delta Dec) with (Z.of_nat n) by (simpl; lia).
    destruct IH as (vs & E & Hlast); [lia|].
    exists (Z.of_nat n :: vs). rewrite E. split; [done|]. intros _.
    destruct n as [|n]; [cbn in E; injection E as <-; done|].
    destruct vs as [|v vs]; [cbn [run replicate] in E; repeat case_hyp E; congruence|].
    cbn [List.last]. apply Hlast. lia.
Qed.

Lemma net_all_dec k : net (replicate k Dec) = - Z.of_nat k.
Proof. induction k; cbn [replicate net delta]; lia. Qed.

Lemma leaky_saturated_run b k :
  Z.of_nat k = MAX_REFCOUNT -> (0 < k)%nat ->
  exists vs,
    run (mkConfig Leaky b) MAX_REFCOUNT (Inc :: replicate k Dec) = Done (vs, 0)
    /\ List.last vs 1 = 0
    /\ MAX_REFCOUNT + net (Inc :: replicate k Dec) = 1.
Proof.
  intros Hk Hpos.
  destruct (run_all_dec (mkConfig Leaky b) k) as (vs & E & Hl); [lia|].
  rewrite Hk in E. exists (MAX_REFCOUNT :: vs). split; [|split].
  - cbn [run apply_op]. unfold add, add_leaky, fetch_update, add_update; cbn [hard].
    rewrite Z.leb_refl. by rewrite E.
  - specialize (Hl Hpos). destruct vs; done.
  - cbn [net delta]. rewrite net_all_dec. lia.
Qed.

(** [leaky-hardening] does not keep a saturated object alive.  An [add]
    at the limit succeeds without being counted, so with i32::MAX + 1
    references handed out, releasing i32::MAX of them returns zero, the value
    on which the callers destroy the object, while one reference is still
    outstanding. *)
Theorem leaky_saturation_is_not_sticky (b : bool) :
  exists k vs,
    Z.of_nat k = MAX_REFCOUNT
    /\ run (mkConfig Leaky b) MAX_REFCOUNT (Inc :: replicate k Dec) = Done (vs, 0)
    /\ List.last vs 1 = 0
    /\ MAX_REFCOUNT + net (Inc :: replicate k Dec) = 1.
Proof.
  destruct (Z_of_nat_complete MAX_REFCOUNT) as [k Hk]; [done|].
  destruct (leaky_saturated_run b k) as (vs & H); [done| |eauto].
  unfold MAX_REFCOUNT, i32_MAX in Hk. lia.
Qed.

(** Without hardening the cell wraps: an [add] on a count of u32::MAX
    stores zero, and with overflow checks compiled in the call panics before
    it returns. *)
Theorem plain_add_wraps :
  add (mkConfig Plain false) u32_MAX = Done (0, 0)
  /\ add (mkConfig Plain true) u32_MAX = Fault Panic
  /\ sub (mkConfig Plain false) 0 = Done (u32_MAX, u32_MAX)
  /\ sub (mkConfig Plain true) 0 = Fault Panic.
Proof. repeat split; vm_compute; reflexivity. Qed.
