(* ===== verification/Wrapper.v ===== *)
(** * COM objects and their IUnknown shims

    Models [src/src/wrapper.rs]: [ComObject] and [ComObjectN], their
    constructors, and the [AddRef], [Release] and [QueryInterface] shims on
    the primary, secondary and non-delegating interfaces, with aggregation,
    the panic guard and the resurrection check; the vtable constructors of
    [src/src/iunknown.rs] and [src/src/macros/declare_interface.rs].

    The memory is a map from allocated objects to their fields.  An
    interface pointer names the object and the sub-object it points to: the
    object itself (whose first field is the primary vtable), an entry of
    [secondaries], or the [non_delegating_unknown] field.  Reading through a
    pointer to a freed object is [UB].  The shims have the same text for
    [ComObject] and [ComObjectN]; both families are written out. *)

From S2P Require Import Prelude Status Refcount.

(** ** Pointers, function pointers and vtables *)

Abbreviation loc := positive (only parsing).

Inductive ptr : Type :=
| null
| obj (l : loc)            (* a ComObject / ComObjectN *)
| sec (l : loc) (i : nat)  (* entry [i] of its [secondaries] *)
| nd (l : loc)             (* its [non_delegating_unknown] *)
| ext (e : nat).           (* a COM object that this crate did not create *)

#[global] Instance ptr_eq_dec : EqDecision ptr.
Proof. solve_decision. Defined.

Definition is_null (p : ptr) : bool := match p with null => true | _ => false end.

(** The values of the vtable slots: which function they point to. *)
Inductive ref_fn : Type :=
| fn_add_ref | fn_release
| fn_nd_add_ref | fn_nd_release
| fn_N_add_ref | fn_N_release
| fn_N_add_ref_secondary (i : nat) | fn_N_release_secondary (i : nat)
| fn_N_nd_add_ref | fn_N_nd_release
| fn_ext_add_ref | fn_ext_release.

Inductive qi_fn : Type :=
| fn_query_interface
| fn_nd_query_interface
| fn_N_query_interface
| fn_N_query_interface_secondary (i : nat)
| fn_N_nd_query_interface
| fn_ext_query_interface.

Record IUnknownVtbl : Type := mkVtbl {
  QueryInterface : qi_fn;
  AddRef : ref_fn;
  Release : ref_fn
}.

(** An interface vtable starts with the IUnknown slots; [vt_iid] records the
    interface whose methods follow. *)
Record InterfaceVtable : Type := mkIVtbl {
  vt_unknown : IUnknownVtbl;
  vt_iid : GUID
}.

Definition IUnknownVtbl_new : IUnknownVtbl :=
  {| QueryInterface := fn_query_interface; AddRef := fn_add_ref; Release := fn_release |}.
Definition IUnknownVtbl_new_primary : IUnknownVtbl :=
  {| QueryInterface := fn_N_query_interface; AddRef := fn_N_add_ref; Release := fn_N_release |}.
(** [__kcom_parent_vtbl_secondary!] *)
Definition IUnknownVtbl_secondary (i : nat) : IUnknownVtbl :=
  {| QueryInterface := fn_N_query_interface_secondary i;
     AddRef := fn_N_add_ref_secondary i;
     Release := fn_N_release_secondary i |}.
(** [ComObject::NON_DELEGATING_VTABLE] and [ComObjectN::NON_DELEGATING_VTABLE] *)
Definition NON_DELEGATING_VTABLE : IUnknownVtbl :=
  {| QueryInterface := fn_nd_query_interface; AddRef := fn_nd_add_ref;
     Release := fn_nd_release |}.
Definition N_NON_DELEGATING_VTABLE : IUnknownVtbl :=
  {| QueryInterface := fn_N_nd_query_interface; AddRef := fn_N_nd_add_ref;
     Release := fn_N_nd_release |}.
Definition ext_vtbl : IUnknownVtbl :=
  {| QueryInterface := fn_ext_query_interface; AddRef := fn_ext_add_ref;
     Release := fn_ext_release |}.

(** ** What the wrapped type and its environment provide *)

(** The trait [ComImpl<I>] of [src/src/traits.rs], for every interface type
    the wrapped type implements. *)
Class ComImpl (I T : Type) : Type := {
  VTABLE : I -> T -> InterfaceVtable;
  query_interface : I -> T -> ptr -> GUID -> option ptr
}.

(** What [Drop for T] does to COM objects: the reference operations it
    performs, or a panic, and the value it leaves behind. *)
Inductive com_call : Type :=
| CallAddRef (p : ptr)
| CallRelease (p : ptr)
| CallPanic.

Class DropGlue (T : Type) : Type := drop_glue : T -> T * list com_call.

(** An allocator picks a block that is not in use, or fails.  [A] holds the
    values of all allocator types; [GlobalAllocator] is the default one. *)
Class Allocator (A : Type) : Type := {
  GlobalAllocator : A;
  alloc_block : A -> gset loc -> option loc;
  alloc_fresh : forall a used l, alloc_block a used = Some l -> l ∉ used
}.

(** The IUnknown methods of objects implemented elsewhere. *)
Class Foreign (X : Type) : Type := {
  ext_AddRef : nat -> X -> Z * X;
  ext_Release : nat -> X -> Z * X;
  ext_QueryInterface :
    nat -> option GUID -> option ptr -> X -> (NTSTATUS * option ptr) * X
}.

(** ** Objects and memory *)

Record InterfaceEntryN : Type := mkEntry {
  se_vtable : InterfaceVtable;
  se_parent : ptr
}.

Record NonDelegatingIUnknown : Type := mkNd {
  nd_vtable : IUnknownVtbl;
  nd_parent : ptr
}.

(** Which of the two structs the object is. *)
Inductive wrapper_kind : Type := Single | Multi.

#[global] Instance wrapper_kind_eq_dec : EqDecision wrapper_kind.
Proof. solve_decision. Defined.

Record ComObject {I T A : Type} : Type := mkObject {
  kind : wrapper_kind;
  iface : I;                 (* the interface type parameter *)
  vtable : InterfaceVtable;
  secondaries : list InterfaceEntryN;
  non_delegating_unknown : NonDelegatingIUnknown;
  ref_count : Z;
  outer_unknown : option ptr;
  inner : T;
  alloc : A
}.
Arguments ComObject : clear implicits.

Inductive event (A : Type) : Type :=
| DropInner (l : loc)           (* drop_in_place on [inner] *)
| Dealloc (a : A) (l : loc)     (* [alloc.dealloc] of the object *)
| DropUnplaced.                 (* [inner] dropped because allocation failed *)
Arguments DropInner {A} l.
Arguments Dealloc {A} a l.
Arguments DropUnplaced {A}.

Record world {I T A X : Type} : Type := mkWorld {
  heap : gmap loc (ComObject I T A);
  ext_state : X;
  log : list (event A)
}.
Arguments world : clear implicits.

Section Shims.
Context {I T A X : Type}.
Context `{!ComImpl I T, !DropGlue T, !Allocator A, !Foreign X}.
Context (c : config).

Abbreviation W := (world I T A X).
Abbreviation Obj := (ComObject I T A).

(** ** Memory accesses *)

Definition get_obj (l : loc) : M W Obj :=
  fun w => match heap w !! l with
           | Some o => Done (o, w)
           | None => Fault UB
           end.

Definition put_obj (l : loc) (o : Obj) : M W unit :=
  fun w => Done (tt, mkWorld _ _ _ _ (<[l := o]> (heap w)) (ext_state w) (log w)).

Definition emit (e : event A) : M W unit :=
  fun w => Done (tt, mkWorld _ _ _ _ (heap w) (ext_state w) (log w ++ [e])).

Definition set_ref_count (o : Obj) (n : Z) : Obj :=
  mkObject _ _ _ (kind o) (iface o) (vtable o) (secondaries o)
    (non_delegating_unknown o) n (outer_unknown o) (inner o) (alloc o).
Definition set_inner (o : Obj) (t : T) : Obj :=
  mkObject _ _ _ (kind o) (iface o) (vtable o) (secondaries o)
    (non_delegating_unknown o) (ref_count o) (outer_unknown o) t (alloc o).

(** [refcount::add] on the [ref_count] of [l] and [refcount::sub]. *)
Definition refcount_add (l : loc) : M W Z :=
  let* o := get_obj l in
  let* r := lift (Refcount.add c (ref_count o)) in
  put_obj l (set_ref_count o (snd r)) ;;
  mret (fst r).
Definition refcount_sub (l : loc) : M W Z :=
  let* o := get_obj l in
  let* r := lift (Refcount.sub c (ref_count o)) in
  put_obj l (set_ref_count o (snd r)) ;;
  mret (fst r).

(** The vtable behind an interface pointer, read at offset 0. *)
Definition unknown_vtbl (p : ptr) : M W IUnknownVtbl :=
  match p with
  | null => mfault UB
  | obj l => let* o := get_obj l in mret (vt_unknown (vtable o))
  | sec l i =>
      let* o := get_obj l in
      match secondaries o !! i with
      | Some e => mret (vt_unknown (se_vtable e))
      | None => mfault UB
      end
  | nd l => let* o := get_obj l in mret (nd_vtable (non_delegating_unknown o))
  | ext _ => mret ext_vtbl
  end.

(** [this as *const Self] *)
Definition from_ptr (this : ptr) : M W (loc * Obj) :=
  match this with
  | obj l => let* o := get_obj l in mret (l, o)
  | _ => mfault UB
  end.

(** The [parent] field behind a secondary interface pointer. *)
Definition parent_from_ptr (p : ptr) : M W ptr :=
  match p with
  | sec l i =>
      let* o := get_obj l in
      match secondaries o !! i with
      | Some e => mret (se_parent e)
      | None => mfault UB
      end
  | _ => mfault UB
  end.

(** The [parent] field behind a non-delegating IUnknown pointer. *)
Definition non_delegating_parent_ptr (p : ptr) : M W ptr :=
  match p with
  | nd l => let* o := get_obj l in mret (nd_parent (non_delegating_unknown o))
  | _ => mfault UB
  end.

Definition from_non_delegating (p : ptr) : M W (loc * Obj) :=
  let* parent := non_delegating_parent_ptr p in from_ptr parent.

Definition from_secondary_ptr (p : ptr) : M W (loc * Obj) :=
  let* parent := parent_from_ptr p in from_ptr parent.

Definition dealloc (a : A) (l : loc) : M W unit :=
  let* _ := get_obj l in
  fun w => Done (tt, mkWorld _ _ _ _ (delete l (heap w)) (ext_state w)
                       (log w ++ [Dealloc a l])).

(** [PanicGuard]: armed for the whole body of a shim and forgotten on every
    return, so it only runs when a panic unwinds, and then never returns. *)
Definition with_panic_guard {B : Type} (body : M W B) : M W B :=
  fun w => match body w with
           | Fault Panic => Fault FailFast
           | r => r
           end.

(** ** IUnknown shims

    A shim calls other IUnknown methods through vtables: [rec] stands for
    the call of an [AddRef] or [Release] slot, [qrec] for the call of a
    [QueryInterface] slot. *)
Section OpenRecursion.
Context (rec : ref_fn -> ptr -> M W Z).
Context (qrec : qi_fn -> ptr -> option GUID -> option ptr -> M W (NTSTATUS * option ptr)).

Definition delegating_add_ref (outer : option ptr) (l : loc) : M W Z :=
  match outer with
  | Some outer =>
      if negb (is_null outer) then
        let* vtbl := unknown_vtbl outer in
        rec (AddRef vtbl) outer
      else refcount_add l
  | None => refcount_add l
  end.

Definition delegating_release (outer : option ptr) (l : loc) (release_inner : M W unit) : M W Z :=
  let own :=
    let* count := refcount_sub l in
    (if count =? 0 then release_inner else mret tt) ;;
    mret count in
  match outer with
  | Some outer =>
      if negb (is_null outer) then
        let* vtbl := unknown_vtbl outer in
        rec (Release vtbl) outer
      else own
  | None => own
  end.

(** What [Drop for T] does. *)
Fixpoint run_calls (cs : list com_call) : M W unit :=
  match cs with
  | [] => mret tt
  | CallAddRef p :: cs =>
      (let* vtbl := unknown_vtbl p in rec (AddRef vtbl) p) ;; run_calls cs
  | CallRelease p :: cs =>
      (let* vtbl := unknown_vtbl p in rec (Release vtbl) p) ;; run_calls cs
  | CallPanic :: _ => mfault Panic
  end.

(** [core::ptr::drop_in_place] on [inner]. *)
Definition drop_in_place_inner (l : loc) : M W unit :=
  let* o := get_obj l in
  let '(t, cs) := drop_glue (inner o) in
  put_obj l (set_inner o t) ;;
  emit (DropInner l) ;;
  run_calls cs.

(** The [release_inner] closure of the shims, which is also the tail of the
    non-delegating release.  [read_alloc] reads the [alloc] field at the allocator type the shim is instantiated with. *)
Definition release_inner (read_alloc : Obj -> A) (l : loc) : M W unit :=
  let* o := get_obj l in
  let a := read_alloc o in
  drop_in_place_inner l ;;
  let* o' := get_obj l in
  let resurrected := ref_count o' in
  if negb (resurrected =? 0) then mfault ResurrectionViolation
  else dealloc a l.

(** *** [ComObject]

    [IUnknownVtbl::new] names [ComObject::<T, I>], that is the shims of the
    instance with the default allocator type, for every object: reading the
    (zero-sized) [alloc] field at that type yields [GlobalAllocator].  The
    non-delegating vtable names the shims of the object's own instance. *)

Definition shim_add_ref (this : ptr) : M W Z :=
  with_panic_guard (
    let* (l, wrapper) := from_ptr this in
    delegating_add_ref (outer_unknown wrapper) l).

Definition shim_release (this : ptr) : M W Z :=
  with_panic_guard (
    let* (l, wrapper) := from_ptr this in
    delegating_release (outer_unknown wrapper) l (release_inner (fun _ => GlobalAllocator) l)).

(** The tail the [QueryInterface] shims share once delegation is ruled out:
    [self_add_ref] and [self] are the AddRef and the pointer returned for
    IID_IUNKNOWN, [primary] the pointer passed to [ComImpl]. *)
Definition query_own (wrapper : Obj) (self_add_ref : M W Z) (self primary : ptr)
    (riid : option GUID) (ppv : option ptr) : M W (NTSTATUS * option ptr) :=
  match ppv, riid with
  | Some _, Some riid =>
      if guid_eq riid IID_IUNKNOWN then
        self_add_ref ;;
        mret (STATUS_SUCCESS, Some self)
      else
        match query_interface (iface wrapper) (inner wrapper) primary riid with
        | Some p =>
            let* vtbl := unknown_vtbl p in
            rec (AddRef vtbl) p ;;
            mret (STATUS_SUCCESS, Some p)
        | None => mret (STATUS_NOINTERFACE, Some null)
        end
  | _, _ => mret (STATUS_NOINTERFACE, ppv)
  end.

Definition delegating_query (outer : option ptr) (riid : option GUID) (ppv : option ptr)
    (own : M W (NTSTATUS * option ptr)) : M W (NTSTATUS * option ptr) :=
  match outer with
  | Some outer =>
      if negb (is_null outer) then
        let* vtbl := unknown_vtbl outer in
        qrec (QueryInterface vtbl) outer riid ppv
      else own
  | None => own
  end.

Definition shim_query_interface (this : ptr) (riid : option GUID) (ppv : option ptr)
    : M W (NTSTATUS * option ptr) :=
  with_panic_guard (
    let* (l, wrapper) := from_ptr this in
    delegating_query (outer_unknown wrapper) riid ppv
      (query_own wrapper (shim_add_ref this) this this riid ppv)).

Definition shim_non_delegating_add_ref (this : ptr) : M W Z :=
  with_panic_guard (
    let* (l, _) := from_non_delegating this in
    refcount_add l).

Definition shim_non_delegating_release (this : ptr) : M W Z :=
  with_panic_guard (
    let* parent := non_delegating_parent_ptr this in
    let* (l, _) := from_ptr parent in
    let* count := refcount_sub l in
    (if count =? 0 then release_inner alloc l else mret tt) ;;
    mret count).

Definition shim_non_delegating_query_interface (this : ptr) (riid : option GUID)
    (ppv : option ptr) : M W (NTSTATUS * option ptr) :=
  with_panic_guard (
    let* (l, wrapper) := from_non_delegating this in
    let delegating_ptr := obj l in
    query_own wrapper (shim_non_delegating_add_ref this) this delegating_ptr riid ppv).

(** *** [ComObjectN]

    Its vtables are built for the allocator type given to the macros, which
    is the one the object is created with. *)

Definition N_shim_add_ref (this : ptr) : M W Z :=
  with_panic_guard (
    let* (l, wrapper) := from_ptr this in
    delegating_add_ref (outer_unknown wrapper) l).

Definition N_shim_release (this : ptr) : M W Z :=
  with_panic_guard (
    let* (l, wrapper) := from_ptr this in
    delegating_release (outer_unknown wrapper) l (release_inner alloc l)).

Definition N_shim_query_interface (this : ptr) (riid : option GUID) (ppv : option ptr)
    : M W (NTSTATUS * option ptr) :=
  with_panic_guard (
    let* (l, wrapper) := from_ptr this in
    delegating_query (outer_unknown wrapper) riid ppv
      (query_own wrapper (N_shim_add_ref this) this this riid ppv)).

Definition N_shim_add_ref_secondary (this : ptr) : M W Z :=
  with_panic_guard (
    let* (l, wrapper) := from_secondary_ptr this in
    delegating_add_ref (outer_unknown wrapper) l).

Definition N_shim_release_secondary (this : ptr) : M W Z :=
  with_panic_guard (
    let* primary := parent_from_ptr this in
    N_shim_release primary).

Definition N_shim_query_interface_secondary (this : ptr) (riid : option GUID)
    (ppv : option ptr) : M W (NTSTATUS * option ptr) :=
  with_panic_guard (
    let* primary := parent_from_ptr this in
    let* (l, wrapper) := from_ptr primary in
    delegating_query (outer_unknown wrapper) riid ppv
      (query_own wrapper (N_shim_add_ref primary) primary primary riid ppv)).

Definition N_shim_non_delegating_add_ref (this : ptr) : M W Z :=
  with_panic_guard (
    let* (l, _) := from_non_delegating this in
    refcount_add l).

Definition N_shim_non_delegating_release (this : ptr) : M W Z :=
  with_panic_guard (
    let* parent := non_delegating_parent_ptr this in
    let* (l, _) := from_ptr parent in
    let* count := refcount_sub l in
    (if count =? 0 then release_inner alloc l else mret tt) ;;
    mret count).

Definition N_shim_non_delegating_query_interface (this : ptr) (riid : option GUID)
    (ppv : option ptr) : M W (NTSTATUS * option ptr) :=
  with_panic_guard (
    let* (l, wrapper) := from_non_delegating this in
    let* primary := non_delegating_parent_ptr this in
    query_own wrapper (N_shim_non_delegating_add_ref this) this primary riid ppv).

(** *** Calls through the slots *)

Definition on_ext (f : nat -> X -> Z * X) (this : ptr) : M W Z :=
  match this with
  | ext e => fun w => let '(r, x) := f e (ext_state w) in
                      Done (r, mkWorld _ _ _ _ (heap w) x (log w))
  | _ => mfault UB
  end.

Definition call_ref_fn (f : ref_fn) (this : ptr) : M W Z :=
  match f with
  | fn_add_ref => shim_add_ref this
  | fn_release => shim_release this
  | fn_nd_add_ref => shim_non_delegating_add_ref this
  | fn_nd_release => shim_non_delegating_release this
  | fn_N_add_ref => N_shim_add_ref this
  | fn_N_release => N_shim_release this
  | fn_N_add_ref_secondary _ => N_shim_add_ref_secondary this
  | fn_N_release_secondary _ => N_shim_release_secondary this
  | fn_N_nd_add_ref => N_shim_non_delegating_add_ref this
  | fn_N_nd_release => N_shim_non_delegating_release this
  | fn_ext_add_ref => on_ext ext_AddRef this
  | fn_ext_release => on_ext ext_Release this
  end.

Definition call_qi_fn (f : qi_fn) (this : ptr) (riid : option GUID) (ppv : option ptr)
    : M W (NTSTATUS * option ptr) :=
  match f with
  | fn_query_interface => shim_query_interface this riid ppv
  | fn_nd_query_interface => shim_non_delegating_query_interface this riid ppv
  | fn_N_query_interface => N_shim_query_interface this riid ppv
  | fn_N_query_interface_secondary _ => N_shim_query_interface_secondary this riid ppv
  | fn_N_nd_query_interface => N_shim_non_delegating_query_interface this riid ppv
  | fn_ext_query_interface =>
      match this with
      | ext e => fun w => let '(r, x) := ext_QueryInterface e riid ppv (ext_state w) in
                          Done (r, mkWorld _ _ _ _ (heap w) x (log w))
      | _ => mfault UB
      end
  end.
End OpenRecursion.

(** Closing the recursion: [fuel] bounds the depth of nested virtual calls
    (delegation to an outer object, and releases performed by destructors). *)
Fixpoint call (fuel : nat) (f : ref_fn) (this : ptr) : M W Z :=
  match fuel with
  | O => mfault OutOfFuel
  | S fuel => call_ref_fn (call fuel) f this
  end.

Fixpoint call_qi (fuel : nat) (f : qi_fn) (this : ptr) (riid : option GUID)
    (ppv : option ptr) : M W (NTSTATUS * option ptr) :=
  match fuel with
  | O => mfault OutOfFuel
  | S fuel => call_qi_fn (call fuel) (call_qi fuel) f this riid ppv
  end.

(** A virtual call through an interface pointer, as a client makes it. *)
Definition AddRef_of (fuel : nat) (p : ptr) : M W Z :=
  let* vtbl := unknown_vtbl p in call fuel (AddRef vtbl) p.
Definition Release_of (fuel : nat) (p : ptr) : M W Z :=
  let* vtbl := unknown_vtbl p in call fuel (Release vtbl) p.
Definition QueryInterface_of (fuel : nat) (p : ptr) (riid : option GUID) (ppv : option ptr)
    : M W (NTSTATUS * option ptr) :=
  let* vtbl := unknown_vtbl p in call_qi fuel (QueryInterface vtbl) p riid ppv.

(** ** Construction *)

(** [alloc.alloc(Self::LAYOUT)]: the address of a new block, or null. *)
Definition alloc_object (a : A) : M W (option loc) :=
  fun w => Done (alloc_block a (dom (heap w)), w).

(** Dropping a value that was moved into a constructor that fails. *)
Definition drop_value (fuel : nat) (t : T) : M W unit :=
  let '(_, cs) := drop_glue t in
  emit DropUnplaced ;;
  run_calls (call fuel) cs.

Definition set_nd_parent (o : Obj) (p : ptr) : Obj :=
  mkObject _ _ _ (kind o) (iface o) (vtable o) (secondaries o)
    (mkNd (nd_vtable (non_delegating_unknown o)) p)
    (ref_count o) (outer_unknown o) (inner o) (alloc o).
Definition set_secondaries (o : Obj) (es : list InterfaceEntryN) : Obj :=
  mkObject _ _ _ (kind o) (iface o) (vtable o) es (non_delegating_unknown o)
    (ref_count o) (outer_unknown o) (inner o) (alloc o).

Definition init_non_delegating_ptr (l : loc) : M W unit :=
  let* o := get_obj l in put_obj l (set_nd_parent o (obj l)).

(** [SecondaryList::init] of the entry tuples. *)
Definition secondary_init (es : list InterfaceEntryN) (parent : ptr) : list InterfaceEntryN :=
  map (fun e => mkEntry (se_vtable e) parent) es.

Definition init_secondary_ptr (l : loc) : M W unit :=
  let* o := get_obj l in
  put_obj l (set_secondaries o (secondary_init (secondaries o) (obj l))).

(** [SecondaryComImpl::secondary_entries] of the interface tuple [ss]. *)
Definition secondary_entries (ss : list I) (t : T) : list InterfaceEntryN :=
  map (fun s => mkEntry (VTABLE s t) null) ss.

(** [ComObject::try_new_in] *)
Definition try_new_in (fuel : nat) (i : I) (t : T) (a : A) : M W (option ptr) :=
  let* p := alloc_object a in
  match p with
  | None => drop_value fuel t ;; mret None
  | Some l =>
      put_obj l {|
        kind := Single;
        iface := i;
        vtable := VTABLE i t;
        secondaries := [];
        non_delegating_unknown := {| nd_vtable := NON_DELEGATING_VTABLE; nd_parent := null |};
        ref_count := 1;
        outer_unknown := None;
        inner := t;
        alloc := a
      |} ;;
      init_non_delegating_ptr l ;;
      mret (Some (obj l))
  end.

Definition new_in (fuel : nat) (i : I) (t : T) (a : A) : M W (result ptr NTSTATUS) :=
  let* p := try_new_in fuel i t a in
  mret (ok_or p STATUS_INSUFFICIENT_RESOURCES).

(** [try_new_in_with_layout]; [LAYOUT] is the layout of the struct. *)
Definition try_new_in_with_layout (fuel : nat) (i : I) (t : T) (a : A)
    (LAYOUT layout : Layout) : M W (option ptr) :=
  if negb (bool_decide (layout = LAYOUT)) then drop_value fuel t ;; mret None
  else try_new_in fuel i t a.

(** [&mut ptr.non_delegating_unknown] *)
Definition non_delegating_ptr (l : loc) : ptr := nd l.

Definition try_new_aggregated_in (fuel : nat) (i : I) (t : T) (outer : ptr) (a : A)
    : M W (option ptr) :=
  let* p := alloc_object a in
  match p with
  | None => drop_value fuel t ;; mret None
  | Some l =>
      put_obj l {|
        kind := Single;
        iface := i;
        vtable := VTABLE i t;
        secondaries := [];
        non_delegating_unknown := {| nd_vtable := NON_DELEGATING_VTABLE; nd_parent := null |};
        ref_count := 1;
        outer_unknown := Some outer;
        inner := t;
        alloc := a
      |} ;;
      init_non_delegating_ptr l ;;
      mret (Some (non_delegating_ptr l))
  end.

Definition new_aggregated_in (fuel : nat) (i : I) (t : T) (outer : ptr) (a : A)
    : M W (result ptr NTSTATUS) :=
  let* p := try_new_aggregated_in fuel i t outer a in
  mret (ok_or p STATUS_INSUFFICIENT_RESOURCES).

Definition is_aggregated (o : Obj) : bool :=
  match outer_unknown o with Some _ => true | None => false end.

(** [ComObjectN::try_new_in] *)
Definition N_try_new_in (fuel : nat) (p : I) (ss : list I) (t : T) (a : A)
    : M W (option ptr) :=
  let* q := alloc_object a in
  match q with
  | None => drop_value fuel t ;; mret None
  | Some l =>
      put_obj l {|
        kind := Multi;
        iface := p;
        vtable := VTABLE p t;
        secondaries := secondary_entries ss t;
        non_delegating_unknown := {| nd_vtable := N_NON_DELEGATING_VTABLE; nd_parent := null |};
        ref_count := 1;
        outer_unknown := None;
        inner := t;
        alloc := a
      |} ;;
      init_non_delegating_ptr l ;;
      init_secondary_ptr l ;;
      mret (Some (obj l))
  end.

Definition N_new_in (fuel : nat) (p : I) (ss : list I) (t : T) (a : A)
    : M W (result ptr NTSTATUS) :=
  let* q := N_try_new_in fuel p ss t a in
  mret (ok_or q STATUS_INSUFFICIENT_RESOURCES).

(** [ComObjectN::secondary_ptr] *)
Definition secondary_ptr (p : ptr) (i : nat) : ptr :=
  match p with obj l => sec l i | _ => null end.

End Shims.
