(* ===== verification/SmartPtr.v ===== *)
(** * The COM smart pointer

    Models [src/src/smart_ptr.rs]: [ComRc], which owns one reference, and the
    constructors of [src/src/wrapper.rs] that return one, the constructors
    that [impl_com_object!] of [src/src/lib.rs] generates, and [GuardPtr] of
    [src/src/guard_ptr.rs].  A [ComRc] is the
    non-null interface pointer it holds; its methods are virtual IUnknown
    calls on the memory of [Wrapper]. *)

From S2P Require Import Prelude Status Refcount Wrapper.

(** [ComRc<T>]; the pointer is never null. *)
Record ComRc : Type := mkRc { rc_ptr : ptr }.

#[global] Instance ComRc_eq_dec : EqDecision ComRc.
Proof. solve_decision. Defined.

(** [GuardPtr] is a pointer that is not null; [new] panics on null. *)
Record GuardPtr : Type := mkGuard { guard_ptr : ptr }.
Definition GuardPtr_new (p : ptr) : outcome GuardPtr :=
  if is_null p then Fault Panic else Done (mkGuard p).
Definition GuardPtr_as_ptr (g : GuardPtr) : ptr := guard_ptr g.
Definition GuardPtr_try_new (p : ptr) : option GuardPtr :=
  if is_null p then None else Some (mkGuard p).

Section SmartPtr.
Context {I T A X : Type}.
Context `{!ComImpl I T, !DropGlue T, !Allocator A, !Foreign X}.
Context (c : config) (fuel : nat).

Abbreviation W := (world I T A X).

(** The virtual calls [add_ref] and [release] of the module. *)
Definition add_ref (p : ptr) : M W Z := AddRef_of c fuel p.
Definition release (p : ptr) : M W Z := Release_of c fuel p.

Definition from_raw (p : ptr) : option ComRc :=
  if is_null p then None else Some (mkRc p).

Definition try_from_raw (p : ptr) : option ComRc := from_raw p.

(** [NonNull::new_unchecked] on a null pointer is undefined behaviour. *)
Definition from_raw_unchecked (p : ptr) : outcome ComRc :=
  if is_null p then Fault UB else Done (mkRc p).

Definition from_raw_or_status (p : ptr) : result ComRc Status :=
  ok_or (if is_null p then None else Some (mkRc p)) Status.NOINTERFACE.

Definition from_raw_addref (p : ptr) : M W (option ComRc) :=
  if is_null p then mret None
  else
    add_ref p ;;
    mret (from_raw p).

Definition as_ptr (r : ComRc) : ptr := rc_ptr r.
Definition into_raw (r : ComRc) : ptr := rc_ptr r.

(** [ComRc::query_interface::<U>] for an interface with identifier [iid]. *)
Definition rc_query_interface (r : ComRc) (iid : GUID) : M W (result ComRc Status) :=
  let* (status, out) := QueryInterface_of c fuel (rc_ptr r) (Some iid) (Some null) in
  let status := Status.from_raw status in
  if Status.is_error status then mret (Err status)
  else mret (from_raw_or_status (default null out)).

Definition rc_clone (r : ComRc) : M W ComRc :=
  add_ref (rc_ptr r) ;;
  mret (mkRc (rc_ptr r)).

Definition rc_drop (r : ComRc) : M W unit :=
  release (rc_ptr r) ;;
  mret tt.

(** [ComObject::try_new_rc_in] and [new_rc_in]. *)
Definition try_new_rc_in (i : I) (t : T) (a : A) : M W (option ComRc) :=
  let* p := try_new_in c fuel i t a in
  match p with
  | None => mret None
  | Some p => let* r := lift (from_raw_unchecked p) in mret (Some r)
  end.

Definition new_rc_in (i : I) (t : T) (a : A) : M W (result ComRc NTSTATUS) :=
  let* r := try_new_rc_in i t a in
  mret (ok_or r STATUS_INSUFFICIENT_RESOURCES).

(** [ComObjectN::try_new_rc_in] and [new_rc_in]. *)
Definition N_try_new_rc_in (p : I) (ss : list I) (t : T) (a : A) : M W (option ComRc) :=
  let* q := N_try_new_in c fuel p ss t a in
  match q with
  | None => mret None
  | Some q => let* r := lift (from_raw_unchecked q) in mret (Some r)
  end.

Definition N_new_rc_in (p : I) (ss : list I) (t : T) (a : A) : M W (result ComRc NTSTATUS) :=
  let* r := N_try_new_rc_in p ss t a in
  mret (ok_or r STATUS_INSUFFICIENT_RESOURCES).

(** The constructors with the default allocator. *)
Definition new (i : I) (t : T) : M W (result ptr NTSTATUS) := new_in c fuel i t GlobalAllocator.
Definition try_new (i : I) (t : T) : M W (option ptr) := try_new_in c fuel i t GlobalAllocator.
Definition new_rc (i : I) (t : T) : M W (result ComRc NTSTATUS) := new_rc_in i t GlobalAllocator.
Definition try_new_rc (i : I) (t : T) : M W (option ComRc) := try_new_rc_in i t GlobalAllocator.
Definition new_aggregated (i : I) (t : T) (outer : ptr) : M W (result ptr NTSTATUS) :=
  new_aggregated_in c fuel i t outer GlobalAllocator.
Definition try_new_aggregated (i : I) (t : T) (outer : ptr) : M W (option ptr) :=
  try_new_aggregated_in c fuel i t outer GlobalAllocator.
Definition N_new (p : I) (ss : list I) (t : T) : M W (result ptr NTSTATUS) :=
  N_new_in c fuel p ss t GlobalAllocator.
Definition N_try_new (p : I) (ss : list I) (t : T) : M W (option ptr) :=
  N_try_new_in c fuel p ss t GlobalAllocator.
Definition N_new_rc (p : I) (ss : list I) (t : T) : M W (result ComRc NTSTATUS) :=
  N_new_rc_in p ss t GlobalAllocator.
Definition N_try_new_rc (p : I) (ss : list I) (t : T) : M W (option ComRc) :=
  N_try_new_rc_in p ss t GlobalAllocator.

(** [impl_com_object!] *)
Definition new_com (i : I) (t : T) : M W (result ptr NTSTATUS) := new i t.
Definition new_com_rc (i : I) (t : T) : M W (result ComRc NTSTATUS) := new_rc i t.
Definition new_com_in (i : I) (t : T) (a : A) : M W (result ptr NTSTATUS) := new_in c fuel i t a.
Definition new_com_rc_in (i : I) (t : T) (a : A) : M W (result ComRc NTSTATUS) := new_rc_in i t a.
Definition try_new_com (i : I) (t : T) : M W (option ptr) := try_new i t.
Definition try_new_com_rc (i : I) (t : T) : M W (option ComRc) := try_new_rc i t.
Definition try_new_com_in (i : I) (t : T) (a : A) : M W (option ptr) := try_new_in c fuel i t a.
Definition try_new_com_rc_in (i : I) (t : T) (a : A) : M W (option ComRc) := try_new_rc_in i t a.
Definition new_com_aggregated (i : I) (t : T) (outer : ptr) : M W (result ptr NTSTATUS) :=
  new_aggregated i t outer.
Definition new_com_aggregated_in (i : I) (t : T) (outer : ptr) (a : A) : M W (result ptr NTSTATUS) :=
  new_aggregated_in c fuel i t outer a.
Definition try_new_com_aggregated (i : I) (t : T) (outer : ptr) : M W (option ptr) :=
  try_new_aggregated i t outer.
Definition try_new_com_aggregated_in (i : I) (t : T) (outer : ptr) (a : A) : M W (option ptr) :=
  try_new_aggregated_in c fuel i t outer a.
End SmartPtr.
