(* ===== verification/WrapperFacts.v ===== *)
(** * Facts on the IUnknown shims

    The well-formedness of objects built by the constructors of [Wrapper],
    what a virtual [AddRef], [Release] or [QueryInterface] through any of an
    object's interface pointers does to the memory, how often it destroys and
    frees an object, and the theorems on
    aggregation, identity, error paths and the panic guard. *)

From S2P Require Import Prelude Status Refcount Wrapper.

Section Facts.
Context {I T A X : Type}.
Context `{!ComImpl I T, !DropGlue T, !Allocator A, !Foreign X}.
Context (c : config).

Abbreviation W := (world I T A X).
Abbreviation Obj := (ComObject I T A).
Implicit Types (w : W) (o : Obj) (l : loc) (p : ptr).

(** ** Well-formed objects *)

Definition unknown_vtbl_of (k : wrapper_kind) : IUnknownVtbl :=
  match k with Single => IUnknownVtbl_new | Multi => IUnknownVtbl_new_primary end.
Definition nd_vtbl_of (k : wrapper_kind) : IUnknownVtbl :=
  match k with Single => NON_DELEGATING_VTABLE | Multi => N_NON_DELEGATING_VTABLE end.

(** The back pointers lead to the object, and every vtable starts with the
    shims of its sub-object. *)
Record wf_obj (l : loc) (o : Obj) : Prop := {
  wf_nd_parent : nd_parent (non_delegating_unknown o) = obj l;
  wf_nd_vtable : nd_vtable (non_delegating_unknown o) = nd_vtbl_of (kind o);
  wf_vtable : vt_unknown (vtable o) = unknown_vtbl_of (kind o);
  wf_entries : forall i e, secondaries o !! i = Some e ->
    se_parent e = obj l /\ vt_unknown (se_vtable e) = IUnknownVtbl_secondary i;
  wf_count : u32 (ref_count o)
}.

Definition wf_world (w : W) : Prop := map_Forall wf_obj (heap w).

(** The interface pointers of the object at [l]. *)
Definition own_ptr (l : loc) (o : Obj) (p : ptr) : Prop :=
  match p with
  | obj l' => l' = l
  | sec l' i => l' = l /\ (i < length (secondaries o))%nat
  | nd l' => l' = l
  | _ => False
  end.

#[global] Instance own_ptr_dec l o p : Decision (own_ptr l o p).
Proof. destruct p; simpl; apply _. Defined.

(** Not aggregated, or aggregated with a null outer pointer. *)
Definition standalone (o : Obj) : Prop :=
  match outer_unknown o with Some p => is_null p = true | None => True end.

Lemma set_ref_count_wf l o n : wf_obj l o -> u32 n -> wf_obj l (set_ref_count o n).
Proof. intros [] ?. by split. Qed.

Lemma set_inner_wf l o t : wf_obj l o -> wf_obj l (set_inner o t).
Proof. intros []. by split. Qed.

Lemma wf_world_insert w l o x lg :
  wf_world w -> wf_obj l o -> wf_world (mkWorld _ _ _ _ (<[l := o]> (heap w)) x lg).
Proof. intros. by apply map_Forall_insert_2. Qed.

(** ** Memory accesses on a live object *)

Section Live.
Context (w : W) (l : loc) (o : Obj).
Context (Hl : heap w !! l = Some o).

Lemma get_obj_live : get_obj l w = Done (o, w).
Proof. unfold get_obj. by rewrite Hl. Qed.

Definition write_obj (o' : Obj) : W :=
  mkWorld _ _ _ _ (<[l := o']> (heap w)) (ext_state w) (log w).

Lemma refcount_add_live v n :
  Refcount.add c (ref_count o) = Done (v, n) ->
  refcount_add c l w = Done (v, write_obj (set_ref_count o n)).
Proof.
  intros E. unfold refcount_add. erewrite bind_done by apply get_obj_live.
  unfold bind, lift. by rewrite E.
Qed.

Lemma refcount_sub_live v n :
  Refcount.sub c (ref_count o) = Done (v, n) ->
  refcount_sub c l w = Done (v, write_obj (set_ref_count o n)).
Proof.
  intros E. unfold refcount_sub. erewrite bind_done by apply get_obj_live.
  unfold bind, lift. by rewrite E.
Qed.

Lemma from_ptr_live : from_ptr (obj l) w = Done ((l, o), w).
Proof. simpl. by erewrite bind_done by apply get_obj_live. Qed.

Context (Hwf : wf_obj l o).

Lemma unknown_vtbl_live p :
  own_ptr l o p ->
  unknown_vtbl p w
  = Done (match p with
          | obj _ => unknown_vtbl_of (kind o)
          | sec _ i => IUnknownVtbl_secondary i
          | _ => nd_vtbl_of (kind o)
          end, w).
Proof.
  destruct p as [|l'|l' i|l'|]; simpl; try tauto.
  - intros ->. erewrite bind_done by apply get_obj_live. by rewrite (wf_vtable _ _ Hwf).
  - intros [-> Hi]. erewrite bind_done by apply get_obj_live.
    destruct (lookup_lt_is_Some_2 _ _ Hi) as [e He]. rewrite He.
    by destruct (wf_entries _ _ Hwf i e He) as [_ ->].
  - intros ->. erewrite bind_done by apply get_obj_live. by rewrite (wf_nd_vtable _ _ Hwf).
Qed.

Lemma parent_from_ptr_live i :
  (i < length (secondaries o))%nat -> parent_from_ptr (sec l i) w = Done (obj l, w).
Proof.
  intros Hi. simpl. erewrite bind_done by apply get_obj_live.
  destruct (lookup_lt_is_Some_2 _ _ Hi) as [e He]. rewrite He.
  by destruct (wf_entries _ _ Hwf i e He) as [-> _].
Qed.

Lemma from_secondary_ptr_live i :
  (i < length (secondaries o))%nat -> from_secondary_ptr (sec l i) w = Done ((l, o), w).
Proof.
  intros Hi. unfold from_secondary_ptr.
  erewrite bind_done by (by apply parent_from_ptr_live). apply from_ptr_live.
Qed.

Lemma non_delegating_parent_live : non_delegating_parent_ptr (nd l) w = Done (obj l, w).
Proof.
  simpl. erewrite bind_done by apply get_obj_live. by rewrite (wf_nd_parent _ _ Hwf).
Qed.

Lemma from_non_delegating_live : from_non_delegating (nd l) w = Done ((l, o), w).
Proof.
  unfold from_non_delegating. erewrite bind_done by apply non_delegating_parent_live.
  apply from_ptr_live.
Qed.
End Live.

(** ** The panic guard *)

Lemma guard_done {B : Type} (body : M W B) w r :
  body w = Done r -> with_panic_guard body w = Done r.
Proof. intros E. unfold with_panic_guard. by rewrite E. Qed.

Lemma guard_idem {B : Type} (body : M W B) w :
  with_panic_guard (with_panic_guard body) w = with_panic_guard body w.
Proof. unfold with_panic_guard. destruct (body w) as [|[]]; reflexivity. Qed.

Lemma guard_no_panic {B : Type} (body : M W B) w :
  with_panic_guard body w <> Fault Panic.
Proof. unfold with_panic_guard. destruct (body w) as [|[]]; congruence. Qed.

Lemma guard_ext {B : Type} (b1 b2 : M W B) w1 w2 :
  b1 w1 = b2 w2 -> with_panic_guard b1 w1 = with_panic_guard b2 w2.
Proof. unfold with_panic_guard. by intros ->. Qed.

(** ** Calls on a live object resolve to operations on its own count

    [release_own] is the release without delegation. *)
Definition release_own (rec : ref_fn -> ptr -> M W Z) (read_alloc : Obj -> A) (l : loc) : M W Z :=
  let* count := refcount_sub c l in
  (if count =? 0 then release_inner rec read_alloc l else mret tt) ;;
  mret count.

(** How the Release of the interface pointer [p] reads the allocator. *)
Definition alloc_reader (o : Obj) (p : ptr) : Obj -> A :=
  match kind o, p with
  | Single, obj _ => fun _ => GlobalAllocator
  | _, _ => alloc
  end.

(** The pointers whose IUnknown calls act on the object's own count: all of
    them when it stands alone, the non-delegating one when it is aggregated. *)
Definition counts_itself (o : Obj) (p : ptr) : Prop :=
  standalone o \/ exists l, p = nd l.

(** The allocator the last Release through [p] gives the block to. *)
Definition freeing_alloc (o : Obj) (p : ptr) : A :=
  match kind o, p with
  | Single, obj _ => GlobalAllocator
  | _, _ => alloc o
  end.

Lemma alloc_reader_freeing o n p : alloc_reader (set_ref_count o n) p (set_ref_count (set_ref_count o n) 0) = freeing_alloc o p.
Proof. unfold alloc_reader, freeing_alloc. cbn. by destruct (kind o), p. Qed.

Lemma delegating_add_ref_standalone (rec : ref_fn -> ptr -> M W Z) o l :
  standalone o -> delegating_add_ref c rec (outer_unknown o) l = refcount_add c l.
Proof. unfold standalone, delegating_add_ref. by destruct (outer_unknown o) as [[]|]. Qed.

Lemma delegating_release_standalone (rec : ref_fn -> ptr -> M W Z) ra o l :
  standalone o ->
  delegating_release c rec (outer_unknown o) l (release_inner rec ra l) = release_own rec ra l.
Proof. unfold standalone, delegating_release. by destruct (outer_unknown o) as [[]|]. Qed.

Lemma delegating_query_standalone
    (qrec : qi_fn -> ptr -> option GUID -> option ptr -> M W (NTSTATUS * option ptr))
    o riid ppv own :
  standalone o ->
  delegating_query qrec (outer_unknown o) riid ppv own = own.
Proof. unfold standalone, delegating_query. by destruct (outer_unknown o) as [[]|]. Qed.

Lemma AddRef_own n w l o p :
  heap w !! l = Some o -> wf_obj l o -> own_ptr l o p -> counts_itself o p ->
  AddRef_of c (S n) p w = with_panic_guard (refcount_add c l) w.
Proof.
  intros Hl Hwf Hp Hc. unfold AddRef_of.
  erewrite bind_done by (by eapply unknown_vtbl_live).
  destruct p as [|l'|l' i|l'|]; simpl in Hp; try tauto.
  - subst l'. destruct Hc as [Hs|[? ?]]; [|done].
    destruct (kind o); cbn [unknown_vtbl_of IUnknownVtbl_new IUnknownVtbl_new_primary AddRef call call_ref_fn];
      apply guard_ext; erewrite bind_done by (by apply from_ptr_live);
      cbv beta iota; by rewrite delegating_add_ref_standalone.
  - destruct Hp as [-> Hi], Hc as [Hs|[? ?]]; [|done].
    cbn [IUnknownVtbl_secondary AddRef call call_ref_fn]. apply guard_ext.
    erewrite bind_done by (by eapply from_secondary_ptr_live).
    cbv beta iota; by rewrite delegating_add_ref_standalone.
  - subst l'. destruct (kind o); cbn [nd_vtbl_of NON_DELEGATING_VTABLE N_NON_DELEGATING_VTABLE AddRef call call_ref_fn];
      apply guard_ext; by erewrite bind_done by (by eapply from_non_delegating_live).
Qed.

Lemma Release_own n w l o p :
  heap w !! l = Some o -> wf_obj l o -> own_ptr l o p -> counts_itself o p ->
  Release_of c (S n) p w = with_panic_guard (release_own (call c n) (alloc_reader o p) l) w.
Proof.
  intros Hl Hwf Hp Hc. unfold Release_of, alloc_reader.
  erewrite bind_done by (by eapply unknown_vtbl_live).
  destruct p as [|l'|l' i|l'|]; simpl in Hp; try tauto.
  - subst l'. destruct Hc as [Hs|[? ?]]; [|done].
    destruct (kind o); cbn [unknown_vtbl_of IUnknownVtbl_new IUnknownVtbl_new_primary Release call call_ref_fn];
      apply guard_ext; erewrite bind_done by (by apply from_ptr_live);
      cbv beta iota; by rewrite delegating_release_standalone.
  - destruct Hp as [-> Hi], Hc as [Hs|[? ?]]; [|done].
    cbn [IUnknownVtbl_secondary Release call call_ref_fn].
    rewrite <- (guard_idem (release_own _ _ _)). apply guard_ext.
    erewrite bind_done by (by eapply parent_from_ptr_live).
    apply guard_ext. erewrite bind_done by (by apply from_ptr_live).
    cbv beta iota; rewrite delegating_release_standalone by done; by destruct (kind o).
  - subst l'. destruct (kind o); cbn [nd_vtbl_of NON_DELEGATING_VTABLE N_NON_DELEGATING_VTABLE Release call call_ref_fn];
      apply guard_ext; erewrite bind_done by (by eapply non_delegating_parent_live);
      by erewrite bind_done by (by apply from_ptr_live).
Qed.

(** An [AddRef] that the count has room for, and a [Release] of a reference
    that is not the last one. *)
Lemma AddRef_counts n w l o p :
  heap w !! l = Some o -> wf_obj l o -> own_ptr l o p -> counts_itself o p ->
  0 <= ref_count o < MAX_REFCOUNT ->
  AddRef_of c (S n) p w
  = Done (ref_count o + 1, write_obj w l (set_ref_count o (ref_count o + 1))).
Proof.
  intros Hl Hwf Hp Hc Hr. erewrite AddRef_own by eassumption.
  apply guard_done, refcount_add_live; [done|]. by apply add_ok.
Qed.

Lemma release_own_not_last rec ra w l o :
  heap w !! l = Some o -> 1 < ref_count o <= u32_MAX ->
  release_own rec ra l w
  = Done (ref_count o - 1, write_obj w l (set_ref_count o (ref_count o - 1))).
Proof.
  intros Hl Hr. unfold release_own.
  erewrite bind_done by (apply refcount_sub_live; [done|apply sub_ok; lia]).
  by rewrite (proj2 (Z.eqb_neq (ref_count o - 1) 0)) by lia.
Qed.

Lemma Release_counts n w l o p :
  heap w !! l = Some o -> wf_obj l o -> own_ptr l o p -> counts_itself o p ->
  1 < ref_count o ->
  Release_of c (S n) p w
  = Done (ref_count o - 1, write_obj w l (set_ref_count o (ref_count o - 1))).
Proof.
  intros Hl Hwf Hp Hc Hr. erewrite Release_own by eassumption.
  apply guard_done, release_own_not_last; [done|]. pose proof (wf_count _ _ Hwf).
  unfold u32 in *. lia.
Qed.

(** ** The last release *)

(** The memory while [inner] is being dropped: the count is zero and the
    destructor has started. *)
Definition dying (w : W) (l : loc) (o : Obj) (t : T) : W :=
  mkWorld _ _ _ _ (<[l := set_inner (set_ref_count o 0) t]> (heap w)) (ext_state w)
    (log w ++ [DropInner l]).

(** The memory after the block has been returned to its allocator. *)
Definition freed (w : W) (l : loc) (a : A) : W :=
  mkWorld _ _ _ _ (delete l (heap w)) (ext_state w) (log w ++ [Dealloc a l]).

Lemma release_own_last rec ra w l o t cs :
  heap w !! l = Some o -> ref_count o = 1 -> drop_glue (inner o) = (t, cs) ->
  release_own rec ra l w
  = match run_calls rec cs (dying w l o t) with
    | Fault f => Fault f
    | Done (_, w') =>
        match heap w' !! l with
        | None => Fault UB
        | Some o' =>
            if ref_count o' =? 0 then Done (0, freed w' l (ra (set_ref_count o 0)))
            else Fault ResurrectionViolation
        end
    end.
Proof.
  intros Hl Hr Hd. unfold release_own.
  assert (Hs : Refcount.sub c (ref_count o) = Done (0, 0))
    by (rewrite Hr; apply (sub_ok c 1); unfold u32_MAX; lia).
  erewrite bind_done by (by apply refcount_sub_live, Hs).
  cbv beta. rewrite Z.eqb_refl.
  assert (Hg : get_obj l (write_obj w l (set_ref_count o 0))
               = Done (set_ref_count o 0, write_obj w l (set_ref_count o 0)))
    by (apply get_obj_live; apply lookup_insert_eq).
  assert (Hdrop : drop_in_place_inner rec l (write_obj w l (set_ref_count o 0))
                  = run_calls rec cs (dying w l o t)).
  { unfold drop_in_place_inner. erewrite bind_done by apply Hg.
    cbn [set_ref_count inner]. rewrite Hd. unfold bind, put_obj, emit, write_obj, dying.
    cbn [heap ext_state log]. by rewrite insert_insert_eq. }
  unfold release_inner, bind. rewrite Hg, Hdrop.
  destruct (run_calls rec cs (dying w l o t)) as [[[] w']|f]; [|done].
  unfold get_obj at 1. destruct (heap w' !! l) as [o'|] eqn:E; [|done].
  destruct (ref_count o' =? 0); cbn [negb]; [|done].
  unfold dealloc, bind, get_obj. by rewrite E.
Qed.

(** ** What the log says of one block

    How often the value at [l] was destroyed, and how often its block was
    given back. *)
Definition drops (l : loc) (evs : list (event A)) : nat :=
  length (List.filter (fun e => match e with DropInner k => bool_decide (k = l) | _ => false end) evs).
Definition frees (l : loc) (evs : list (event A)) : nat :=
  length (List.filter (fun e => match e with Dealloc _ k => bool_decide (k = l) | _ => false end) evs).

Lemma drops_app l e1 e2 : drops l (e1 ++ e2) = (drops l e1 + drops l e2)%nat.
Proof. unfold drops. by rewrite List.filter_app, length_app. Qed.
Lemma frees_app l e1 e2 : frees l (e1 ++ e2) = (frees l e1 + frees l e2)%nat.
Proof. unfold frees. by rewrite List.filter_app, length_app. Qed.

(** As long as the block at [l] is there, nothing was logged about it. *)
Definition steady (l : loc) (w w' : W) : Prop :=
  l ∈ dom (heap w') ->
  l ∈ dom (heap w) /\ drops l (log w') = drops l (log w) /\ frees l (log w') = frees l (log w).

Definition keeps {B : Type} (l : loc) (m : M W B) : Prop :=
  forall w b w', m w = Done (b, w') -> steady l w w'.

Lemma steady_trans l w1 w2 w3 : steady l w1 w2 -> steady l w2 w3 -> steady l w1 w3.
Proof.
  intros H1 H2 Hl. destruct (H2 Hl) as (H & -> & ->), (H1 H) as (? & -> & ->). done.
Qed.

Lemma keeps_ret {B : Type} l (b : B) : keeps l (mret b).
Proof. intros w b' w' [= <- <-] Hl. done. Qed.

Lemma keeps_fault {B : Type} l f : keeps l (mfault (A := B) f).
Proof. intros w b' w' [=]. Qed.

Lemma keeps_lift {B : Type} l (r : outcome B) : keeps l (lift r).
Proof. intros w b w' H Hl. unfold lift in H. destruct r; [|done]. by injection H as <- <-. Qed.

Lemma keeps_bind {B C : Type} l (m : M W B) (f : B -> M W C) :
  keeps l m -> (forall b, keeps l (f b)) -> keeps l (bind m f).
Proof.
  intros Hm Hf w c' w' H. apply bind_inv in H as (b & w1 & H1 & H2).
  eapply steady_trans; [by eapply Hm|by eapply Hf].
Qed.

Lemma keeps_guard {B : Type} l (m : M W B) : keeps l m -> keeps l (with_panic_guard m).
Proof.
  intros Hm w b w' H. apply (Hm w b). unfold with_panic_guard in H. by destruct (m w) as [|[]].
Qed.

Lemma keeps_get l k : keeps l (get_obj k).
Proof. intros w o w' H Hl. unfold get_obj in H. case_match; [|done]. by injection H as <- <-. Qed.

(** Reading an object and writing it back changed. *)
Lemma keeps_update {B : Type} l k (f : Obj -> outcome (B * Obj)) :
  keeps l (fun w => match heap w !! k with
                    | Some o => match f o with
                                | Done (b, o') => Done (b, write_obj w k o')
                                | Fault e => Fault e
                                end
                    | None => Fault UB
                    end).
Proof.
  intros w b w' H Hl. destruct (heap w !! k) as [o|] eqn:E; [|done].
  destruct (f o) as [[b' o']|]; [|done]. injection H as <- <-.
  cbn in *. rewrite dom_insert_L in Hl.
  assert (k ∈ dom (heap w)) by (apply elem_of_dom; eauto). split; [set_solver|done].
Qed.

Lemma keeps_refcount l k : keeps l (refcount_add c k) /\ keeps l (refcount_sub c k).
Proof.
  split; intros w b w' H.
  - apply (keeps_update l k (fun o => match Refcount.add c (ref_count o) with
      | Done r => Done (fst r, set_ref_count o (snd r)) | Fault e => Fault e end) w b w').
    rewrite <- H. unfold refcount_add, bind, get_obj, lift, put_obj, mret, write_obj.
    destruct (heap w !! k); [|done]. by destruct (Refcount.add _ _).
  - apply (keeps_update l k (fun o => match Refcount.sub c (ref_count o) with
      | Done r => Done (fst r, set_ref_count o (snd r)) | Fault e => Fault e end) w b w').
    rewrite <- H. unfold refcount_sub, bind, get_obj, lift, put_obj, mret, write_obj.
    destruct (heap w !! k); [|done]. by destruct (Refcount.sub _ _).
Qed.

Lemma keeps_on_ext l f p : keeps l (on_ext (A := A) (I := I) (T := T) (X := X) f p).
Proof.
  intros w b w' H. unfold on_ext in H. destruct p; try done. destruct (f e (ext_state w)).
  by injection H as <- <-.
Qed.

Ltac keeps :=
  repeat (first [apply keeps_ret | apply keeps_fault | apply keeps_lift | apply keeps_get
                | apply keeps_guard | apply keeps_refcount | apply keeps_on_ext
                | done
                | match goal with
                  | |- keeps _ (bind _ _) => apply keeps_bind; [|intros ?]
                  | |- keeps _ (let '_ := ?x in _) => destruct x
                  | |- keeps _ (match ?x with _ => _ end) => destruct x
                  end]).

Lemma keeps_vtbl l p : keeps l (unknown_vtbl p).
Proof. unfold unknown_vtbl. keeps. Qed.

Section KeepsOpen.
Context (l : loc) (rec : ref_fn -> ptr -> M W Z).
Context (Hrec : forall f p, keeps l (rec f p)).

Lemma keeps_run_calls cs : keeps l (run_calls rec cs).
Proof.
  induction cs as [|[p|p|] cs IH]; cbn [run_calls]; keeps; try apply keeps_vtbl; apply Hrec.
Qed.

Lemma keeps_release_inner ra k : keeps l (release_inner rec ra k).
Proof.
  unfold release_inner. apply keeps_bind; [apply keeps_get|intros o]. cbv zeta.
  intros w b w' H. apply bind_inv in H as (u & w1 & Hd & H).
  apply bind_inv in H as (o1 & w2 & Hg & H). unfold get_obj in Hg.
  destruct (heap w1 !! k) as [ok|] eqn:Ek; [|done]. injection Hg as <- <-.
  destruct (negb _); [done|]. unfold dealloc, bind, get_obj in H. rewrite Ek in H.
  injection H as <- <-. intros Hl. cbn in Hl. rewrite dom_delete_L in Hl.
  assert (Hlk : k <> l) by set_solver. cbn [heap log].
  rewrite drops_app, frees_app. cbn. rewrite (bool_decide_eq_false_2 (k = l)) by done. cbn.
  unfold drop_in_place_inner in Hd. apply bind_inv in Hd as (o2 & w3 & Hg & Hd).
  unfold get_obj in Hg. destruct (heap w !! k) as [o3|] eqn:Ek3; [|done]. injection Hg as <- <-.
  destruct (drop_glue (inner o3)) as [t cs].
  apply bind_inv in Hd as (u1 & w4 & Hp & Hd). injection Hp as <- <-.
  apply bind_inv in Hd as (u2 & w5 & He & Hd). injection He as <- <-.
  apply keeps_run_calls in Hd. destruct Hd as (Hin & Hdr & Hfr); [set_solver|]. cbn [heap log] in Hin, Hdr, Hfr.
  rewrite dom_insert_L in Hin. rewrite Hdr, Hfr, drops_app, frees_app. cbn.
  rewrite (bool_decide_eq_false_2 (k = l)) by done. cbn. split; [set_solver|lia].
Qed.

Lemma keeps_call_ref_fn f p : keeps l (call_ref_fn c rec f p).
Proof.
  assert (Hi := keeps_release_inner).
  destruct f; cbn [call_ref_fn];
    unfold shim_add_ref, shim_release, shim_non_delegating_add_ref, shim_non_delegating_release,
      N_shim_add_ref, N_shim_release, N_shim_add_ref_secondary, N_shim_release_secondary,
      N_shim_non_delegating_add_ref, N_shim_non_delegating_release, N_shim_release,
      delegating_add_ref, delegating_release, from_ptr, from_non_delegating, from_secondary_ptr,
      non_delegating_parent_ptr, parent_from_ptr;
    keeps; unfold from_ptr; keeps; solve [apply Hi | apply keeps_vtbl | apply Hrec].
Qed.
End KeepsOpen.

Lemma keeps_call l n f p : keeps l (call c n f p).
Proof.
  revert f p. induction n as [|n IH]; intros f p; cbn [call]; [apply keeps_fault|].
  by apply keeps_call_ref_fn.
Qed.

(** Whatever COM calls a destructor makes, the object it belongs to is
    destroyed and given back once, unless they free it. *)
Lemma destructor_logs_once n w l o t cs w2 :
  run_calls (call c n) cs (dying w l o t) = Done (tt, w2) -> l ∈ dom (heap w2) ->
  drops l (log w2) = S (drops l (log w)) /\ frees l (log w2) = frees l (log w).
Proof.
  intros H Hl. apply (keeps_run_calls l) in H; [|intros; apply keeps_call].
  destruct (H Hl) as (_ & -> & ->). unfold dying. cbn [log]. rewrite drops_app, frees_app. cbn.
  rewrite bool_decide_eq_true_2 by done. cbn. lia.
Qed.

Lemma write_obj_own w l o n p :
  own_ptr l o p -> own_ptr l (set_ref_count o n) p.
Proof. by destruct p. Qed.

Lemma AddRef_of_dead n w l p :
  heap w !! l = None -> match p with obj k | sec k _ | nd k => k = l | _ => False end ->
  AddRef_of c n p w = Fault UB /\ Release_of c n p w = Fault UB.
Proof.
  intros Hl Hp. unfold AddRef_of, Release_of, bind.
  destruct p; try tauto; subst; simpl; unfold bind, get_obj; by rewrite Hl.
Qed.

(** ** QueryInterface *)

(** [query_interface] follows the contract of [ComImpl]: what it returns is
    an interface pointer of the same object. *)
Definition qi_contract (l : loc) (o : Obj) : Prop :=
  forall g p, query_interface (iface o) (inner o) (obj l) g = Some p -> own_ptr l o p.

(** What [QueryInterface] answers on an object that stands alone. *)
Definition qi_answer (w : W) (l : loc) (o : Obj) (g : GUID) : (NTSTATUS * option ptr) * W :=
  let counted := write_obj w l (set_ref_count o (ref_count o + 1)) in
  if guid_eq g IID_IUNKNOWN then ((STATUS_SUCCESS, Some (obj l)), counted)
  else match query_interface (iface o) (inner o) (obj l) g with
       | Some p => ((STATUS_SUCCESS, Some p), counted)
       | None => ((STATUS_NOINTERFACE, Some null), w)
       end.

Lemma query_own_answer n w l o add old g :
  heap w !! l = Some o -> wf_obj l o -> standalone o -> qi_contract l o ->
  0 <= ref_count o < MAX_REFCOUNT ->
  add w = Done (ref_count o + 1, write_obj w l (set_ref_count o (ref_count o + 1))) ->
  query_own (call c (S n)) o add (obj l) (obj l) (Some g) (Some old) w
  = Done (qi_answer w l o g).
Proof.
  intros Hl Hwf Hs Hq Hr Hadd. unfold query_own, qi_answer.
  destruct (guid_eq g IID_IUNKNOWN); [by erewrite bind_done by apply Hadd|].
  destruct (query_interface _ _ _ _) as [p|] eqn:E; [|done].
  assert (Ha : AddRef_of c (S n) p w
               = Done (ref_count o + 1, write_obj w l (set_ref_count o (ref_count o + 1))))
    by (eapply AddRef_counts; eauto; by left).
  unfold AddRef_of in Ha.
  apply bind_inv in Ha as (v & w' & Hv & Ha).
  erewrite bind_done by apply Hv. by erewrite bind_done by apply Ha.
Qed.

Lemma shim_add_ref_live rec w l o :
  heap w !! l = Some o -> standalone o -> 0 <= ref_count o < MAX_REFCOUNT ->
  shim_add_ref c rec (obj l) w
  = Done (ref_count o + 1, write_obj w l (set_ref_count o (ref_count o + 1))).
Proof.
  intros Hl Hs Hr. apply guard_done. erewrite bind_done by (by apply from_ptr_live).
  cbv beta iota. rewrite delegating_add_ref_standalone by done.
  apply refcount_add_live; [done|by apply add_ok].
Qed.

(** The pointers through which an ordinary client holds the object. *)
Definition client_ptr (l : loc) (o : Obj) (p : ptr) : Prop :=
  own_ptr l o p /\ p <> nd l.

Lemma QueryInterface_answer n w l o p old g :
  heap w !! l = Some o -> wf_obj l o -> standalone o -> qi_contract l o ->
  0 <= ref_count o < MAX_REFCOUNT -> client_ptr l o p ->
  QueryInterface_of c (S (S n)) p (Some g) (Some old) w = Done (qi_answer w l o g).
Proof.
  intros Hl Hwf Hs Hq Hr [Hp Hnd]. unfold QueryInterface_of.
  erewrite bind_done by (by eapply unknown_vtbl_live).
  destruct p as [|l'|l' i|l'|]; simpl in Hp; try tauto.
  - subst l'. destruct (kind o);
      cbn [unknown_vtbl_of IUnknownVtbl_new IUnknownVtbl_new_primary QueryInterface call_qi call_qi_fn];
      apply guard_done; erewrite bind_done by (by apply from_ptr_live);
      cbv beta iota; rewrite delegating_query_standalone by done;
      apply query_own_answer; try done; by apply shim_add_ref_live.
  - destruct Hp as [-> Hi].
    cbn [IUnknownVtbl_secondary QueryInterface call_qi call_qi_fn]. apply guard_done.
    erewrite bind_done by (by eapply parent_from_ptr_live).
    erewrite bind_done by (by apply from_ptr_live).
    cbv beta iota. rewrite delegating_query_standalone by done.
    apply query_own_answer; try done. by apply shim_add_ref_live.
  - by subst.
Qed.
(** QueryInterface with a null argument. *)
Lemma QueryInterface_null n w l o p riid ppv :
  heap w !! l = Some o -> wf_obj l o -> standalone o -> client_ptr l o p ->
  riid = None \/ ppv = None ->
  QueryInterface_of c (S n) p riid ppv w = Done ((STATUS_NOINTERFACE, ppv), w).
Proof.
  intros Hl Hwf Hs [Hp Hnd] Hnull. unfold QueryInterface_of.
  erewrite bind_done by (by eapply unknown_vtbl_live).
  assert (Hq : forall rec o' add self prim,
    query_own rec o' add self prim riid ppv w = Done ((STATUS_NOINTERFACE, ppv), w))
    by (intros; unfold query_own; destruct Hnull as [->| ->]; [by destruct ppv|done]).
  destruct p as [|l'|l' i|l'|]; simpl in Hp; try tauto.
  - subst l'. destruct (kind o); apply guard_done;
      erewrite bind_done by (by apply from_ptr_live);
      cbv beta iota; by rewrite delegating_query_standalone.
  - destruct Hp as [-> Hi]. apply guard_done.
    erewrite bind_done by (by eapply parent_from_ptr_live).
    erewrite bind_done by (by apply from_ptr_live).
    cbv beta iota. by rewrite delegating_query_standalone.
  - by subst.
Qed.
End Facts.
