(* ===== verification/Ownership.v ===== *)
(** * Reference accounting over the object graph

    COM objects own references to other COM objects (fields of type [ComRc]
    that [Drop] releases), so one Release can destroy a whole part of the
    object graph through nested calls.  This file accounts for every
    reference: those held by clients and those owned by live objects.  It
    shows that Release keeps the accounting exact however deep the
    destruction goes, and derives safety and leak freedom of programs that
    use [ComRc] ([src/src/smart_ptr.rs] over [src/src/wrapper.rs]). *)

From S2P Require Import Prelude Status Refcount Wrapper SmartPtr WrapperFacts.

(** What the wrapped type owns: dropping it releases exactly these references
    and leaves nothing to release. *)
Class OwnsRefs (T : Type) `{!DropGlue T} : Type := {
  owned : T -> list ptr;
  owned_drop : forall t, exists t', drop_glue t = (t', map CallRelease (owned t)) /\ owned t' = []
}.

(** ** Counting references *)

Definition target (p : ptr) : option loc :=
  match p with obj l | sec l _ | nd l => Some l | _ => None end.

Definition refs_to (l : loc) (ps : list ptr) : Z :=
  Z.of_nat (length (filter (fun p => target p = Some l) ps)).

#[global] Instance refs_to_perm l : Proper ((≡ₚ) ==> (=)) (refs_to l).
Proof. intros ps qs H. unfold refs_to. by rewrite H. Qed.

Lemma refs_to_cons_eq l p ps : target p = Some l -> refs_to l (p :: ps) = refs_to l ps + 1.
Proof. intros H. unfold refs_to. rewrite filter_cons_True by done. cbn [length]. lia. Qed.

Lemma refs_to_cons_ne l p ps : target p <> Some l -> refs_to l (p :: ps) = refs_to l ps.
Proof. intros H. unfold refs_to. by rewrite filter_cons_False. Qed.

Lemma refs_to_nonneg l ps : 0 <= refs_to l ps.
Proof. unfold refs_to. lia. Qed.

Lemma refs_to_zero l ps p : refs_to l ps = 0 -> p ∈ ps -> target p <> Some l.
Proof.
  intros Hz Hp Ht. apply elem_of_Permutation in Hp as [qs Hqs].
  rewrite Hqs, refs_to_cons_eq in Hz by done. pose proof (refs_to_nonneg l qs). lia.
Qed.

Lemma refs_to_none l ps : (forall p, p ∈ ps -> target p <> Some l) -> refs_to l ps = 0.
Proof.
  induction ps as [|p ps IH]; intros H; [done|].
  rewrite refs_to_cons_ne by (apply H; left). apply IH. intros q Hq. apply H. by right.
Qed.

Lemma refs_to_pos l ps : 0 < refs_to l ps -> exists p, p ∈ ps /\ target p = Some l.
Proof.
  induction ps as [|p ps IH]; [done|]. destruct (decide (target p = Some l)) as [Hp|Hp].
  - intros _. exists p. split; [by left|done].
  - rewrite refs_to_cons_ne by done. intros (q & Hq & Ht)%IH. exists q. split; [by right|done].
Qed.

Section Accounting.
Context {I T A X : Type}.
Context `{!ComImpl I T, !DropGlue T, !OwnsRefs T, !Allocator A, !Foreign X}.
Context (c : config).

Abbreviation W := (world I T A X).
Abbreviation Obj := (ComObject I T A).
Abbreviation Heap := (gmap loc Obj).
Implicit Types (w : W) (o : Obj) (l : loc) (p : ptr) (h : Heap).

Lemma own_ptr_target l o p : own_ptr l o p -> target p = Some l.
Proof. destruct p; cbn; try tauto; [by intros ->|by intros [-> _]|by intros ->]. Qed.

(** The references owned by the objects of a heap. *)
Definition heap_refs (h : Heap) : list ptr :=
  map_to_list h ≫= (fun lo => owned (inner (snd lo))).

Lemma heap_refs_insert h l o :
  h !! l = None -> heap_refs (<[l := o]> h) ≡ₚ owned (inner o) ++ heap_refs h.
Proof. intros H. unfold heap_refs. by rewrite map_to_list_insert. Qed.

Lemma heap_refs_delete h l o :
  h !! l = Some o -> heap_refs h ≡ₚ owned (inner o) ++ heap_refs (delete l h).
Proof. intros H. unfold heap_refs. by rewrite <- (map_to_list_delete h l o H). Qed.

Lemma heap_refs_replace h l o o' :
  h !! l = Some o ->
  owned (inner o) ++ heap_refs (<[l := o']> h) ≡ₚ owned (inner o') ++ heap_refs h.
Proof.
  intros H. rewrite (heap_refs_delete h l o H), <- insert_delete_eq, heap_refs_insert by apply lookup_delete_eq.
  by rewrite !(assoc_L (++)), (comm (++) (owned (inner o))).
Qed.

Lemma heap_refs_set_count h l o n :
  h !! l = Some o -> heap_refs (<[l := set_ref_count o n]> h) ≡ₚ heap_refs h.
Proof. intros H. eapply Permutation_app_inv_l, (heap_refs_replace h l o (set_ref_count o n) H). Qed.

(** ** The accounting *)

(** Every object is well formed and stands alone, its count is the number of
    references to it in [R], and every reference of [R] leads to a live
    object. *)
Record accounted (h : Heap) (R : list ptr) : Prop := {
  acct_obj : forall l o, h !! l = Some o -> wf_obj l o /\ standalone o;
  acct_count : forall l o, h !! l = Some o -> ref_count o = refs_to l R;
  acct_valid : forall p, p ∈ R -> exists l o, h !! l = Some o /\ own_ptr l o p
}.

#[global] Instance accounted_perm h : Proper ((≡ₚ) ==> iff) (accounted h).
Proof.
  assert (Hone : forall R R', R ≡ₚ R' -> accounted h R -> accounted h R').
  { intros R R' HR [Ho Hc Hv]. split; [done| |].
    - intros l o Hl. rewrite <- HR. eauto.
    - intros p Hp. apply Hv. by rewrite HR. }
  intros R R' HR. split; apply Hone; [done|by symmetry].
Qed.

Section Changes.
Context (h : Heap) (R : list ptr) (l : loc) (o : Obj).
Context (Hl : h !! l = Some o).

(** Replacing the object at [l] by one with the same shape. *)
Lemma accounted_replace R' o' :
  accounted h R -> wf_obj l o' -> standalone o' -> secondaries o' = secondaries o ->
  ref_count o' = refs_to l R' ->
  (forall k, k <> l -> refs_to k R' = refs_to k R) ->
  (forall p, p ∈ R' -> p ∈ R) ->
  accounted (<[l := o']> h) R'.
Proof.
  intros [Ho Hc Hv] Hwf Hs Hsec Hn Hk Hin. split.
  - intros k x [[<- <-]|[Hne Hx]]%lookup_insert_Some; [done|eauto].
  - intros k x [[<- <-]|[Hne Hx]]%lookup_insert_Some; [done|]. rewrite Hk by done. eauto.
  - intros p Hp. destruct (Hv p (Hin p Hp)) as (k & x & Hx & Hown).
    destruct (decide (k = l)) as [->|Hne].
    + exists l, o'. split; [apply lookup_insert_eq|]. rewrite Hl in Hx. injection Hx as <-.
      destruct p; cbn in *; by rewrite ?Hsec.
    + exists k, x. by rewrite lookup_insert_ne.
Qed.

Lemma accounted_dec p :
  accounted h (p :: R) -> own_ptr l o p ->
  accounted (<[l := set_ref_count o (ref_count o - 1)]> h) R.
Proof.
  intros Ha Hp. pose proof (own_ptr_target _ _ _ Hp) as Ht.
  destruct (acct_obj _ _ Ha l o Hl) as [Hwf Hs].
  pose proof (acct_count _ _ Ha l o Hl) as Hc. rewrite refs_to_cons_eq in Hc by done.
  pose proof (refs_to_nonneg l R). destruct Ha as [Ho Hcs Hv].
  assert (Hu : u32 (ref_count o - 1)) by (pose proof (wf_count _ _ Hwf); widths; lia).
  split.
  - intros k x [[<- <-]|[Hne Hx]]%lookup_insert_Some; [|eauto].
    split; [by apply set_ref_count_wf|done].
  - intros k x [[<- <-]|[Hne Hx]]%lookup_insert_Some; [cbn; lia|].
    rewrite (Hcs k x Hx). apply refs_to_cons_ne. congruence.
  - intros q Hq. destruct (Hv q) as (k & x & Hx & Hown); [by right|].
    destruct (decide (k = l)) as [->|Hne].
    + rewrite Hl in Hx. injection Hx as <-. eexists l, _. split; [apply lookup_insert_eq|].
      by destruct q.
    + exists k, x. by rewrite lookup_insert_ne.
Qed.

Lemma accounted_inc p :
  accounted h R -> own_ptr l o p -> ref_count o < MAX_REFCOUNT ->
  accounted (<[l := set_ref_count o (ref_count o + 1)]> h) (p :: R).
Proof.
  intros [Ho Hcs Hv] Hp Hmax. pose proof (own_ptr_target _ _ _ Hp) as Ht.
  destruct (Ho l o Hl) as [Hwf Hs].
  assert (Hu : u32 (ref_count o + 1))
    by (pose proof (wf_count _ _ Hwf); unfold MAX_REFCOUNT in *; widths; lia).
  split.
  - intros k x [[<- <-]|[Hne Hx]]%lookup_insert_Some; [|eauto].
    split; [by apply set_ref_count_wf|done].
  - intros k x [[<- <-]|[Hne Hx]]%lookup_insert_Some.
    + rewrite refs_to_cons_eq by done. cbn. by rewrite (Hcs l o Hl).
    + rewrite refs_to_cons_ne by congruence. eauto.
  - intros q Hq. assert (Hq' : q = p \/ q ∈ R) by (by apply elem_of_cons in Hq).
    assert (exists k x, h !! k = Some x /\ own_ptr k x q) as (k & x & Hx & Hown)
      by (destruct Hq' as [->|Hq']; eauto).
    destruct (decide (k = l)) as [->|Hne].
    + rewrite Hl in Hx. injection Hx as <-. eexists l, _. split; [apply lookup_insert_eq|].
      by destruct q.
    + exists k, x. by rewrite lookup_insert_ne.
Qed.

Lemma accounted_set_inner t :
  accounted h R -> accounted (<[l := set_inner o t]> h) R.
Proof.
  intros Ha. destruct (acct_obj _ _ Ha l o Hl) as [Hwf Hs].
  apply accounted_replace; try done; [by apply set_inner_wf|]. by apply (acct_count _ _ Ha l o).
Qed.

Lemma accounted_delete : accounted h R -> ref_count o = 0 -> accounted (delete l h) R.
Proof.
  intros [Ho Hcs Hv] Hz. split.
  - intros k x [_ Hx]%lookup_delete_Some. eauto.
  - intros k x [_ Hx]%lookup_delete_Some. eauto.
  - intros p Hp. destruct (Hv p Hp) as (k & x & Hx & Hown). exists k, x.
    split; [|done]. rewrite lookup_delete_ne; [done|]. intros <-.
    rewrite (Hcs l o Hl) in Hz. eapply refs_to_zero; [exact Hz|exact Hp|eapply own_ptr_target; eassumption].
Qed.
End Changes.

Lemma accounted_insert h R l o p :
  accounted h R -> h !! l = None -> wf_obj l o -> standalone o -> ref_count o = 1 ->
  own_ptr l o p -> accounted (<[l := o]> h) (p :: R).
Proof.
  intros [Ho Hcs Hv] Hl Hwf Hs Hr Hp. pose proof (own_ptr_target _ _ _ Hp) as Ht.
  assert (Hne : forall q, q ∈ R -> target q <> Some l).
  { intros q Hq. destruct (Hv q Hq) as (k & x & Hx & Hown). apply own_ptr_target in Hown.
    congruence. }
  split.
  - intros k x [[<- <-]|[_ Hx]]%lookup_insert_Some; [done|eauto].
  - intros k x [[<- <-]|[Hk Hx]]%lookup_insert_Some.
    + rewrite refs_to_cons_eq, (refs_to_none l R) by done. by rewrite Hr.
    + rewrite refs_to_cons_ne by congruence. eauto.
  - intros q [->|Hq]%elem_of_cons; [by exists l, o; rewrite lookup_insert_eq|].
    destruct (Hv q Hq) as (k & x & Hx & Hown). exists k, x. rewrite lookup_insert_ne; [done|congruence].
Qed.

(** The memory when clients hold the references [E]. *)
Definition inv (E : list ptr) (w : W) : Prop :=
  accounted (heap w) (E ++ heap_refs (heap w)).

#[global] Instance inv_perm : Proper ((≡ₚ) ==> (=) ==> iff) inv.
Proof. intros E E' HE w ? <-. unfold inv. by rewrite HE. Qed.
(** ** What a Release may do *)

(** Objects whose count is not zero; the others are being destroyed. *)
Definition alive (w : W) : gset loc :=
  dom (filter (fun lo => ref_count (snd lo) <> 0) (heap w)).

Lemma elem_of_alive w l : l ∈ alive w <-> exists o, heap w !! l = Some o /\ ref_count o <> 0.
Proof.
  unfold alive. rewrite elem_of_dom. split.
  - intros [o Ho]. apply map_lookup_filter_Some in Ho as [? ?]. eauto.
  - intros (o & ? & ?). exists o. by apply map_lookup_filter_Some.
Qed.

(** Whether the object at [l] went away between two memories. *)
Definition destroyed (w w' : W) (l : loc) : nat :=
  match heap w !! l, heap w' !! l with Some _, None => 1 | _, _ => 0 end.

(** From [w] to [w'] some objects lost references and some were destroyed:
    the ones that remain only changed their counts, no object is left half
    destroyed, those that were being destroyed already are untouched, and
    each destroyed object was dropped once and freed once. *)
Record shrinks (w w' : W) : Prop := {
  shr_dying : forall l o, heap w !! l = Some o -> ref_count o = 0 -> heap w' !! l = Some o;
  shr_origin : forall l o', heap w' !! l = Some o' ->
    exists o, heap w !! l = Some o /\ o' = set_ref_count o (ref_count o')
              /\ (ref_count o' = 0 -> ref_count o = 0);
  shr_ext : ext_state w' = ext_state w;
  shr_log : exists evs, log w' = log w ++ evs /\
    forall l, drops l evs = destroyed w w' l /\ frees l evs = destroyed w w' l
}.

Lemma shrinks_refl w : shrinks w w.
Proof.
  split; try done.
  - intros l o Ho. exists o. split; [done|]. split; [by destruct o|done].
  - exists []. rewrite app_nil_r. split; [done|]. intros l. unfold destroyed.
    by destruct (heap w !! l).
Qed.

Lemma destroyed_trans w1 w2 w3 l :
  shrinks w1 w2 -> shrinks w2 w3 ->
  destroyed w1 w3 l = (destroyed w1 w2 l + destroyed w2 w3 l)%nat.
Proof.
  intros H1 H2. unfold destroyed.
  destruct (heap w3 !! l) as [o3|] eqn:E3.
  - destruct (shr_origin _ _ H2 l o3 E3) as (o2 & E2 & _). rewrite E2.
    destruct (shr_origin _ _ H1 l o2 E2) as (o1 & E1 & _). by rewrite E1.
  - destruct (heap w2 !! l) as [o2|] eqn:E2.
    + destruct (shr_origin _ _ H1 l o2 E2) as (o1 & E1 & _). by rewrite E1.
    + by destruct (heap w1 !! l).
Qed.

Lemma shrinks_trans w1 w2 w3 : shrinks w1 w2 -> shrinks w2 w3 -> shrinks w1 w3.
Proof.
  intros H1 H2. pose proof (fun l => destroyed_trans w1 w2 w3 l H1 H2) as Hd.
  destruct H1 as [Hz1 Ho1 Hx1 (e1 & Hl1 & He1)], H2 as [Hz2 Ho2 Hx2 (e2 & Hl2 & He2)]. split.
  - eauto.
  - intros l o3 H3. destruct (Ho2 l o3 H3) as (o2 & H2 & Heq2 & Hc2).
    destruct (Ho1 l o2 H2) as (o1 & H1 & Heq1 & Hc1). exists o1. split; [done|]. split; [|auto].
    rewrite Heq2, Heq1. by destruct o1.
  - congruence.
  - exists (e1 ++ e2). rewrite Hl2, Hl1, app_assoc. split; [done|]. intros l.
    rewrite Hd, drops_app, frees_app. destruct (He1 l), (He2 l). lia.
Qed.

Lemma shrinks_alive w w' : shrinks w w' -> alive w' ⊆ alive w.
Proof.
  intros H l (o' & Ho' & Hp)%elem_of_alive. apply elem_of_alive.
  destruct (shr_origin _ _ H l o' Ho') as (o & Ho & _ & _). exists o. split; [done|].
  intros Hz. rewrite (shr_dying _ _ H l o Ho Hz) in Ho'. by injection Ho' as <-.
Qed.

(** ** Release keeps the accounting *)

Lemma inv_lookup E w p :
  inv (p :: E) w ->
  exists l o, heap w !! l = Some o /\ own_ptr l o p /\ wf_obj l o /\ standalone o /\ 1 <= ref_count o.
Proof.
  intros Hi. destruct (acct_valid _ _ Hi p) as (l & o & Hl & Hp); [by left|].
  destruct (acct_obj _ _ Hi l o Hl) as [Hwf Hs]. exists l, o. do 4 (split; [done|]).
  rewrite (acct_count _ _ Hi l o Hl). cbn [app]. rewrite refs_to_cons_eq by (by eapply own_ptr_target).
  pose proof (refs_to_nonneg l (E ++ heap_refs (heap w))). lia.
Qed.

Lemma release_not_last E w p l o :
  inv (p :: E) w -> heap w !! l = Some o -> own_ptr l o p -> 1 < ref_count o ->
  let w' := write_obj w l (set_ref_count o (ref_count o - 1)) in
  inv E w' /\ shrinks w w'.
Proof.
  intros Hi Hl Hp Hr w'. split.
  - unfold inv, w'. cbn [write_obj heap]. rewrite heap_refs_set_count by done.
    by eapply accounted_dec.
  - unfold w'. split; cbn [write_obj heap ext_state log].
    + intros k x Hx Hz. rewrite lookup_insert_ne; [done|]. intros <-.
      rewrite Hl in Hx. injection Hx as <-. lia.
    + intros k x [[<- <-]|[_ Hx]]%lookup_insert_Some.
      * exists o. split; [done|]. cbn. split; [done|lia].
      * exists x. split; [done|]. by destruct x.
    + done.
    + exists []. rewrite app_nil_r. split; [done|]. intros k. unfold destroyed. cbn.
      destruct (decide (k = l)) as [->|Hne].
      * rewrite lookup_insert_eq. by destruct (heap w !! l).
      * rewrite lookup_insert_ne by done. by destruct (heap w !! k).
Qed.

(** The last reference is gone: the object is dying, and what it owned is
    now in the hands of its destructor. *)
Lemma inv_dying E w p l o t :
  inv (p :: E) w -> heap w !! l = Some o -> own_ptr l o p -> ref_count o = 1 -> owned t = [] ->
  inv (owned (inner o) ++ E) (dying w l o t).
Proof.
  intros Hi Hl Hp Hr Ht. unfold inv in *. cbn [app] in Hi.
  pose proof (accounted_dec _ _ _ _ Hl _ Hi Hp) as Ha. rewrite Hr in Ha.
  assert (Hl1 : <[l := set_ref_count o 0]> (heap w) !! l = Some (set_ref_count o 0))
    by apply lookup_insert_eq.
  pose proof (accounted_set_inner _ _ _ _ Hl1 t Ha) as Hb. rewrite insert_insert_eq in Hb.
  cbn [dying heap]. revert Hb. apply accounted_perm.
  pose proof (heap_refs_replace (heap w) l o (set_inner (set_ref_count o 0) t) Hl) as Hp1.
  cbn [set_inner inner] in Hp1. rewrite Ht in Hp1. cbn [app] in Hp1.
  rewrite <- Hp1. by rewrite !(assoc_L (++)), (comm (++) E).
Qed.

Lemma alive_dying w l o t :
  heap w !! l = Some o -> ref_count o = 1 -> (base.size (alive (dying w l o t)) < base.size (alive w))%nat.
Proof.
  intros Hl Hr. apply subset_size. split.
  - intros k (x & Hx & Hz)%elem_of_alive. apply elem_of_alive. cbn in Hx.
    apply lookup_insert_Some in Hx as [[<- <-]|[_ Hx]]; [done|eauto].
  - intros Hsub. assert (Hin : l ∈ alive (dying w l o t)).
    { apply Hsub, elem_of_alive. exists o. split; [done|lia]. }
    apply elem_of_alive in Hin as (x & Hx & Hz). cbn in Hx. rewrite lookup_insert_eq in Hx.
    injection Hx as <-. done.
Qed.

(** The destructor is done: the block can go. *)
Lemma release_last E w w2 l o t a :
  heap w !! l = Some o -> ref_count o = 1 -> owned t = [] ->
  shrinks (dying w l o t) w2 -> inv E w2 ->
  heap w2 !! l = Some (set_inner (set_ref_count o 0) t)
  /\ inv E (freed w2 l a) /\ shrinks w (freed w2 l a).
Proof.
  intros Hl Hr Ht Hs Hi.
  assert (Hl2 : heap w2 !! l = Some (set_inner (set_ref_count o 0) t))
    by (apply (shr_dying _ _ Hs); [apply lookup_insert_eq|done]).
  split; [done|]. split.
  { unfold inv. cbn [freed heap]. pose proof (accounted_delete _ _ _ _ Hl2 Hi eq_refl) as Ha.
    pose proof (heap_refs_delete (heap w2) l _ Hl2) as Hp. cbn [set_inner inner] in Hp.
    rewrite Ht in Hp. cbn [app] in Hp. by rewrite <- Hp. }
  destruct Hs as [Hz Ho Hx (evs & Hlog & Hev)]. split; cbn [freed heap ext_state log].
  - intros k x Hk Hk0. assert (k <> l) by (intros ->; rewrite Hl in Hk; injection Hk as <-; lia).
    rewrite lookup_delete_ne by done. apply Hz; [|done]. cbn. by rewrite lookup_insert_ne.
  - intros k x [Hne Hk]%lookup_delete_Some. destruct (Ho k x Hk) as (x0 & Hx0 & Heq).
    cbn in Hx0. rewrite lookup_insert_ne in Hx0 by done. eauto.
  - done.
  - exists (DropInner l :: evs ++ [Dealloc a l]). rewrite Hlog. cbn [dying log].
    split; [by rewrite <- !app_assoc|]. intros k. change (DropInner l :: evs ++ [Dealloc a l]) with ([DropInner l] ++ evs ++ [Dealloc a l]). rewrite !drops_app, !frees_app.
    destruct (Hev k) as [-> ->]. unfold destroyed, drops, frees, freed, dying. cbn.
    destruct (decide (k = l)) as [->|Hne].
    + rewrite lookup_insert_eq, Hl2, Hl, lookup_delete_eq, bool_decide_true by done. done.
    + rewrite lookup_insert_ne, lookup_delete_ne, bool_decide_false by done. cbn. split; lia.
Qed.

(** A run of Releases, given that each of them keeps the accounting. *)
Lemma run_releases n :
  (forall E w p, inv (p :: E) w -> (base.size (alive w) < n)%nat ->
     exists v w', Release_of c n p w = Done (v, w') /\ inv E w' /\ shrinks w w') ->
  forall ps E w, inv (ps ++ E) w -> (base.size (alive w) < n)%nat ->
  exists w', run_calls (call c n) (map CallRelease ps) w = Done (tt, w') /\ inv E w' /\ shrinks w w'.
Proof.
  intros Hone ps. induction ps as [|p ps IH]; intros E w Hi Hn; cbn [map run_calls].
  - exists w. split; [done|]. split; [done|apply shrinks_refl].
  - destruct (Hone (ps ++ E) w p Hi Hn) as (v & w1 & Hr & Hi1 & Hs1).
    destruct (IH E w1 Hi1) as (w2 & Hr2 & Hi2 & Hs2).
    { apply shrinks_alive, subseteq_size in Hs1. lia. }
    exists w2. split; [by erewrite bind_done by apply Hr|].
    split; [done|by eapply shrinks_trans].
Qed.

Lemma Release_keeps_accounts n E w p :
  inv (p :: E) w -> (base.size (alive w) < n)%nat ->
  exists v w', Release_of c n p w = Done (v, w') /\ inv E w' /\ shrinks w w'.
Proof.
  revert E w p. induction n as [|n IH]; intros E w p Hi Hn; [lia|].
  destruct (inv_lookup _ _ _ Hi) as (l & o & Hl & Hp & Hwf & Hs & Hr).
  destruct (decide (1 < ref_count o)) as [Hgt|Hle].
  - eexists _, _. split; [eapply Release_counts; eauto; by left|]. by eapply release_not_last.
  - assert (Hone : ref_count o = 1) by lia.
    destruct (owned_drop (inner o)) as (t & Hd & Ht).
    pose proof (inv_dying E w p l o t Hi Hl Hp Hone Ht) as Hi1.
    destruct (run_releases n IH (owned (inner o)) E _ Hi1) as (w2 & Hr2 & Hi2 & Hs2).
    { pose proof (alive_dying w l o t Hl Hone). lia. }
    destruct (release_last E w w2 l o t (alloc_reader o p (set_ref_count o 0)) Hl Hone Ht Hs2 Hi2)
      as (Hl2 & Hi3 & Hs3).
    eexists 0, _. split; [|split; [exact Hi3|exact Hs3]].
    erewrite Release_own; [|done|done|done|by left]. apply guard_done.
    erewrite release_own_last by done. by rewrite Hr2, Hl2.
Qed.
End Accounting.
