(* ===== verification/Interfaces.v ===== *)
(** * Generated QueryInterface implementations

    Models the [query_interface] functions that the macros of
    [src/src/macros/impl_interface.rs] generate, the default one of
    [src/src/traits.rs] and [match_interface_ptr] of [src/src/vtable.rs]. *)

From S2P Require Import Prelude Status Refcount Wrapper.

(** The implementation a macro falls back to when no IID matches. *)
Abbreviation qi_impl := (ptr -> GUID -> option ptr) (only parsing).

(** [impl ComImpl<IUnknownVtbl> for T] *)
Definition default_query_interface : qi_impl := fun _this _riid => None.

(** [match_interface_ptr::<T>] for an interface with identifier [iid]. *)
Definition match_interface_ptr (iid riid : GUID) (p : ptr) : option ptr :=
  if negb (guid_eq riid iid) then None
  else if is_null p then None else Some p.

(** [impl_query_interface!(@return ...)] on an explicit pointer expression;
    debug builds assert that it is not null. *)
Definition qi_return (c : config) (p : ptr) : outcome (option ptr) :=
  if is_null p then (if debug_assertions c then Fault Panic else Done None) else Done (Some p).

(** [impl_query_interface!]: the interfaces with explicit pointers, in order. *)
Fixpoint qi_listed (c : config) (ifaces : list (GUID * ptr)) (fallback : qi_impl)
    (this : ptr) (riid : GUID) : outcome (option ptr) :=
  match ifaces with
  | (iid, p) :: rest =>
      if guid_eq riid iid then qi_return c p
      else qi_listed c rest fallback this riid
  | [] => Done (fallback this riid)
  end.

(** The primary interface is answered with [this], or with the pointer given
    for it. *)
Definition impl_query_interface (c : config) (primary : GUID) (primary_ptr : option ptr)
    (ifaces : list (GUID * ptr)) (fallback : qi_impl) (this : ptr) (riid : GUID)
    : outcome (option ptr) :=
  if guid_eq riid primary then
    match primary_ptr with
    | Some p => qi_return c p
    | None => if debug_assertions c && is_null this then Fault Panic else Done (Some this)
    end
  else qi_listed c ifaces fallback this riid.

(** [impl_com_interface!(@impl_single ...)] *)
Definition impl_single (iid : GUID) (fallback : qi_impl) : qi_impl :=
  fun this riid =>
    if is_null this then None
    else if guid_eq riid iid then Some this
    else fallback this riid.

(** [__kcom_qi_match_secondaries_from_wrapper!]: [Some r] is an early return
    of [r], [None] falls through. *)
Fixpoint qi_match_secondaries (wrapper : ptr) (riid : GUID) (secs : list GUID) (index : nat)
    : option (option ptr) :=
  match secs with
  | head :: tail =>
      if guid_eq riid head then
        let p := secondary_ptr wrapper index in
        if is_null p then Some None else Some (Some p)
      else qi_match_secondaries wrapper riid tail (index + 1)
  | [] => None
  end.

(** [impl_com_interface!(@impl_primary ...)] *)
Definition impl_primary (iid : GUID) (secs : list GUID) (fallback : qi_impl) : qi_impl :=
  fun this riid =>
    if is_null this then None
    else if guid_eq riid iid then Some this
    else match qi_match_secondaries this riid secs 0 with
         | Some r => r
         | None => fallback this riid
         end.

(** [impl_com_interface_multiple!(@impl ...)], for a secondary interface. *)
Definition impl_multiple (primary : GUID) (secs : list GUID) (fallback : qi_impl) : qi_impl :=
  fun this riid =>
    if is_null this then None
    else
      let primary_ptr := this in
      if guid_eq riid primary then Some primary_ptr
      else match qi_match_secondaries this riid secs 0 with
           | Some r => r
           | None => fallback this riid
           end.

(** ** Lemmas *)

Lemma qi_match_secondaries_hit l secs g i k :
  secs !! i = Some g -> (forall j, (j < i)%nat -> secs !! j <> Some g) ->
  qi_match_secondaries (obj l) g secs k = Some (Some (sec l (k + i))).
Proof.
  revert i k. induction secs as [|h secs IH]; intros i k Hi Hfirst; [done|].
  cbn [qi_match_secondaries]. destruct (guid_eq g h) eqn:E.
  - apply guid_eq_true in E as <-. destruct i as [|i].
    + rewrite Nat.add_0_r. done.
    + exfalso. apply (Hfirst 0%nat); [lia|done].
  - destruct i as [|i].
    + injection Hi as ->. by rewrite guid_eq_refl in E.
    + rewrite (IH i); [do 3 f_equal; lia|done|].
      intros j Hj. apply (Hfirst (S j)). lia.
Qed.

Lemma qi_match_secondaries_miss p secs g k :
  g ∉ secs -> qi_match_secondaries p g secs k = None.
Proof.
  revert k. induction secs as [|h secs IH]; intros k Hg; [done|].
  apply not_elem_of_cons in Hg as [Hh Hg]. cbn [qi_match_secondaries].
  rewrite guid_eq_false by done. by apply IH.
Qed.

Lemma qi_match_secondaries_inv l secs g k q :
  qi_match_secondaries (obj l) g secs k = Some (Some q) ->
  exists i, q = sec l (k + i) /\ secs !! i = Some g.
Proof.
  revert k. induction secs as [|h secs IH]; intros k H; [done|].
  cbn [qi_match_secondaries] in H. destruct (guid_eq g h) eqn:E.
  - apply guid_eq_true in E as <-. injection H as <-. exists 0%nat.
    by rewrite Nat.add_0_r.
  - apply IH in H as (i & -> & Hi). exists (S i). split; [f_equal; lia|done].
Qed.

Lemma impl_primary_secondary l iid secs fb g i :
  NoDup (iid :: secs) -> secs !! i = Some g -> impl_primary iid secs fb (obj l) g = Some (sec l i).
Proof.
  intros Hnd Hi. apply list.NoDup_cons in Hnd as [Hn Hnd]. unfold impl_primary. cbn [is_null].
  rewrite guid_eq_false; [|intros ->; apply Hn; by eapply list_elem_of_lookup_2].
  erewrite (qi_match_secondaries_hit l secs g i 0); [done|done|].
  intros j Hj Hj'. pose proof (list.NoDup_lookup _ _ _ _ Hnd Hi Hj'). lia.
Qed.

Lemma impl_primary_primary l iid secs fb : impl_primary iid secs fb (obj l) iid = Some (obj l).
Proof. unfold impl_primary. cbn [is_null]. by rewrite guid_eq_refl. Qed.

Lemma impl_primary_inv l iid secs g q :
  impl_primary iid secs default_query_interface (obj l) g = Some q ->
  (q = obj l /\ g = iid) \/ (exists i, q = sec l i /\ secs !! i = Some g).
Proof.
  unfold impl_primary. cbn [is_null]. destruct (guid_eq g iid) eqn:E.
  - apply guid_eq_true in E as ->. intros [= <-]. by left.
  - destruct (qi_match_secondaries (obj l) g secs 0) as [[q'|]|] eqn:Em; try done.
    intros [= <-]. right. by apply qi_match_secondaries_inv in Em.
Qed.

(** The primary and the secondary interfaces of one object generate the same
    QueryInterface function. *)
Lemma impl_multiple_primary iid secs fb this g :
  impl_multiple iid secs fb this g = impl_primary iid secs fb this g.
Proof. reflexivity. Qed.
