(* ===== verification/Demo.v ===== *)
(** * A concrete instantiation

    Instances of the interfaces of [Wrapper] used by the examples: a wrapped
    type whose destructor performs a given script of reference operations and
    whose QueryInterface is the one the macros generate, an allocator that
    returns the first block above all used ones (or always fails), and a
    foreign outer object that counts its references. *)

From S2P Require Import Prelude Status Refcount Wrapper WrapperFacts Interfaces.

(** Interface types are numbers; their identifiers are distinct. *)
Definition demo_iid (i : nat) : GUID := mkGUID (Z.of_nat i + 1) 0 0 [1; 2; 3; 4; 5; 6; 7; 8].

Record demo : Type := mkDemo {
  demo_tuple : option (nat * list nat);  (* primary and secondaries of a [ComObjectN] *)
  demo_script : list com_call;           (* what [Drop] does *)
  demo_owns : list ptr                   (* the [ComRc] fields, dropped after [Drop] *)
}.

Fixpoint index_of (i : nat) (ss : list nat) : nat :=
  match ss with
  | [] => 0
  | s :: ss => if Nat.eqb i s then 0%nat else S (index_of i ss)
  end.

Definition demo_vtable (i : nat) (t : demo) : InterfaceVtable :=
  match demo_tuple t with
  | None => mkIVtbl IUnknownVtbl_new (demo_iid i)
  | Some (p, ss) =>
      if Nat.eqb i p then mkIVtbl IUnknownVtbl_new_primary (demo_iid i)
      else if existsb (Nat.eqb i) ss
           then mkIVtbl (IUnknownVtbl_secondary (index_of i ss)) (demo_iid i)
           else mkIVtbl IUnknownVtbl_new (demo_iid i)
  end.

Definition demo_query (i : nat) (t : demo) : ptr -> GUID -> option ptr :=
  match demo_tuple t with
  | None => impl_single (demo_iid i) default_query_interface
  | Some (p, ss) => impl_primary (demo_iid p) (map demo_iid ss) default_query_interface
  end.

#[global] Instance demo_com : ComImpl nat demo := {|
  VTABLE := demo_vtable;
  query_interface := demo_query
|}.

#[global] Instance demo_drop : DropGlue demo := fun t =>
  (mkDemo (demo_tuple t) [] [], demo_script t ++ map CallRelease (demo_owns t)).

(** The global allocator, another one, and one that always fails. *)
Inductive demo_alloc : Type := global_alloc | pool_alloc | broken_alloc.

Definition demo_alloc_block (a : demo_alloc) (used : gset loc) : option loc :=
  match a with
  | broken_alloc => None
  | _ => Some (Pos.succ (foldr Pos.max 1%positive (elements used)))
  end.

Lemma foldr_max_ge (x : loc) (xs : list loc) :
  x ∈ xs -> (x <= foldr Pos.max 1 xs)%positive.
Proof.
  induction xs as [|y xs IH]; intros H; [by apply not_elem_of_nil in H|].
  apply elem_of_cons in H as [->|H]; simpl; [lia|]. specialize (IH H). lia.
Qed.

Lemma demo_alloc_fresh (a : demo_alloc) (used : gset loc) (l : loc) :
  demo_alloc_block a used = Some l -> l ∉ used.
Proof.
  unfold demo_alloc_block. destruct a; [| |done]; intros [= <-] Hin;
    apply elem_of_elements, foldr_max_ge in Hin; lia.
Qed.

#[global] Instance demo_allocator : Allocator demo_alloc := {|
  GlobalAllocator := global_alloc;
  alloc_block := demo_alloc_block;
  alloc_fresh := demo_alloc_fresh
|}.

#[global] Instance demo_foreign : Foreign Z := {|
  ext_AddRef := fun _ n => (n + 1, n + 1);
  ext_Release := fun _ n => (n - 1, n - 1);
  ext_QueryInterface := fun e riid ppv n =>
    match ppv with
    | Some _ => ((STATUS_SUCCESS, Some (ext e)), n + 1)
    | None => ((STATUS_NOINTERFACE, None), n)
    end
|}.

Abbreviation demo_world := (world nat demo demo_alloc Z) (only parsing).

(** An empty memory with an outer object holding one reference to itself. *)
Definition demo_empty : demo_world := mkWorld _ _ _ _ ∅ 1 [].
Definition demo_cfg : config := mkConfig Hardened true.

(** A plain object at location 2, with [n] references. *)
Definition demo_plain (t : demo) (n : Z) : ComObject nat demo demo_alloc :=
  mkObject _ _ _ Single 0%nat (demo_vtable 0 t) [] (mkNd NON_DELEGATING_VTABLE (obj 2)) n None t global_alloc.
(** An object at location 2 aggregated into the foreign outer object. *)
Definition demo_aggregated (t : demo) (n : Z) : ComObject nat demo demo_alloc :=
  mkObject _ _ _ Single 0%nat (demo_vtable 0 t) [] (mkNd NON_DELEGATING_VTABLE (obj 2)) n
    (Some (ext 0)) t global_alloc.
Definition demo_with (o : ComObject nat demo demo_alloc) : demo_world :=
  mkWorld _ _ _ _ {[ 2%positive := o ]} 1 [].

Definition demo_unit : demo := mkDemo None [] [].

Lemma demo_plain_wf t n : demo_tuple t = None -> u32 n -> wf_obj 2 (demo_plain t n).
Proof.
  intros Ht Hn. split; try done. simpl. unfold demo_vtable. by rewrite Ht.
Qed.

Lemma demo_aggregated_wf t n : demo_tuple t = None -> u32 n -> wf_obj 2 (demo_aggregated t n).
Proof.
  intros Ht Hn. split; try done. simpl. unfold demo_vtable. by rewrite Ht.
Qed.

Lemma demo_plain_contract t n : demo_tuple t = None -> qi_contract 2 (demo_plain t n).
Proof.
  intros Ht g p. cbn. unfold demo_query. rewrite Ht. unfold impl_single. cbn.
  destruct (guid_eq _ _); [|done]. by intros [= <-].
Qed.
