(* ===== verification/ComTheorems.v ===== *)
(** * Theorems on COM objects

    Construction, lifetime through any interface pointer, QueryInterface,
    aggregation, the panic guard and the resurrection check, for the shims of
    [Wrapper] and the generated implementations of [Interfaces]. *)

From S2P Require Import Prelude Status Refcount Wrapper WrapperFacts Interfaces Demo.

Section Theorems.
Context {I T A X : Type}.
Context `{!ComImpl I T, !DropGlue T, !Allocator A, !Foreign X}.
Context (c : config).

Abbreviation W := (world I T A X).
Abbreviation Obj := (ComObject I T A).
Implicit Types (w : W) (o : Obj) (l : loc) (p : ptr).

(** ** Reference histories through interface pointers *)

(** A client history: reference operations through interface pointers. *)
Fixpoint run_client (fuel : nat) (h : list (rc_op * ptr)) : M W (list Z) :=
  match h with
  | [] => mret []
  | (o, p) :: h =>
      let* v := (match o with Inc => AddRef_of c fuel p | Dec => Release_of c fuel p end) in
      let* vs := run_client fuel h in
      mret (v :: vs)
  end.

(** Every count on the way is positive and below the limit. *)
Definition stays_alive (n : Z) (ops : list rc_op) : Prop :=
  Forall (fun v => 1 <= v <= MAX_REFCOUNT) (counts n ops).

Lemma write_write w l o1 o2 : write_obj (write_obj w l o1) l o2 = write_obj w l o2.
Proof. unfold write_obj. simpl. by rewrite insert_insert_eq. Qed.

Lemma write_id w l o : heap w !! l = Some o -> write_obj w l o = w.
Proof. destruct w. unfold write_obj. simpl. intros. by rewrite insert_id. Qed.

Lemma set_ref_count_id o : set_ref_count o (ref_count o) = o.
Proof. by destruct o. Qed.

Lemma client_step n w l o op p :
  heap w !! l = Some o -> wf_obj l o -> own_ptr l o p -> counts_itself o p ->
  0 <= ref_count o <= MAX_REFCOUNT -> 1 <= ref_count o + delta op <= MAX_REFCOUNT ->
  (match op with Inc => AddRef_of c (S n) p | Dec => Release_of c (S n) p end) w
  = Done (ref_count o + delta op, write_obj w l (set_ref_count o (ref_count o + delta op))).
Proof.
  intros. destruct op; simpl in *.
  - eapply AddRef_counts; eauto. lia.
  - eapply Release_counts; eauto. lia.
Qed.

Lemma run_client_alive n h w l o :
  heap w !! l = Some o -> wf_obj l o ->
  Forall (fun op => own_ptr l o (snd op) /\ counts_itself o (snd op)) h ->
  0 <= ref_count o <= MAX_REFCOUNT ->
  stays_alive (ref_count o) (map fst h) ->
  run_client (S n) h w
  = Done (counts (ref_count o) (map fst h),
          write_obj w l (set_ref_count o (ref_count o + net (map fst h)))).
Proof.
  revert w o. induction h as [|[op p] h IH]; intros w o Hl Hwf Hh Hr Hs.
  - simpl. rewrite Z.add_0_r, set_ref_count_id, write_id by done. done.
  - apply Forall_cons_iff in Hh as [[Hp Hc] Hh]. 
    unfold stays_alive in Hs. cbn [map counts fst] in Hs.
    apply Forall_cons_iff in Hs as [Hv Hs].
    cbn [fst snd] in Hp, Hc, Hv, Hs. cbn [run_client map fst]. erewrite bind_done by (by eapply client_step).
    set (w1 := write_obj w l _). set (o1 := set_ref_count o _) in w1.
    assert (Hl1 : heap w1 !! l = Some o1) by apply lookup_insert_eq.
    erewrite bind_done.
    2: { apply (IH w1 o1); try done.
         - apply set_ref_count_wf; [done|]. unfold u32, MAX_REFCOUNT, u32_MAX, i32_MAX in *. lia.
         - cbn. unfold MAX_REFCOUNT in *. lia. }
    unfold mret. do 2 f_equal. unfold w1. rewrite write_write. f_equal.
    unfold o1, set_ref_count. simpl. f_equal. lia.
Qed.

Lemma run_client_app fuel h1 h2 w :
  run_client fuel (h1 ++ h2) w
  = (let* vs1 := run_client fuel h1 in
     let* vs2 := run_client fuel h2 in mret (vs1 ++ vs2)) w.
Proof.
  revert w. induction h1 as [|[op p] h1 IH]; intros w; cbn [app run_client].
  - rewrite (bind_done _ _ w [] w) by done. cbn [app]. by rewrite bind_ret_r.
  - unfold bind in *.
    set (step := match op with Inc => AddRef_of c fuel p | Dec => Release_of c fuel p end).
    destruct (step w) as [[v w1]|]; [|done].
    rewrite IH. destruct (run_client fuel h1 w1) as [[vs1 w2]|]; [|done].
    unfold mret. destruct (run_client fuel h2 w2) as [[vs2 w3]|]; done.
Qed.

(** The last Release of an object whose destructor makes no COM calls. *)
Lemma Release_last_quiet n w l o p t :
  heap w !! l = Some o -> wf_obj l o -> ref_count o = 1 -> own_ptr l o p -> counts_itself o p ->
  drop_glue (inner o) = (t, []) ->
  Release_of c (S n) p w
  = Done (0, mkWorld _ _ _ _ (delete l (heap w)) (ext_state w)
               (log w ++ [DropInner l; Dealloc (freeing_alloc o p) l])).
Proof.
  intros Hl Hwf Hr Hp Hc Hd. erewrite Release_own by done.
  apply guard_done. erewrite release_own_last by done.
  cbn [run_calls mret]. unfold mret, dying at 1. cbn [heap].
  rewrite lookup_insert_eq. cbn [set_inner set_ref_count ref_count Z.eqb].
  replace (alloc_reader o p _) with (freeing_alloc o p)
    by (unfold alloc_reader, freeing_alloc; by destruct (kind o), p).
  unfold freed, dying. cbn [heap ext_state log]. by rewrite delete_insert_eq, <- app_assoc.
Qed.

(** What the last Release of [o] answers, when its destructor runs [cs]. *)
Lemma Release_last n w l o p t cs :
  heap w !! l = Some o -> wf_obj l o -> ref_count o = 1 -> own_ptr l o p -> counts_itself o p ->
  drop_glue (inner o) = (t, cs) ->
  Release_of c (S n) p w
  = match run_calls (call c n) cs (dying w l o t) with
    | Fault Panic => Fault FailFast
    | Fault f => Fault f
    | Done (_, w') =>
        match heap w' !! l with
        | None => Fault UB
        | Some o' =>
            if ref_count o' =? 0 then Done (0, freed w' l (freeing_alloc o p))
            else Fault ResurrectionViolation
        end
    end.
Proof.
  intros Hl Hwf Hr Hp Hc Hd. erewrite Release_own by done. unfold with_panic_guard.
  erewrite release_own_last by done.
  replace (alloc_reader o p _) with (freeing_alloc o p)
    by (unfold alloc_reader, freeing_alloc; by destruct (kind o), p).
  destruct (run_calls _ _ _) as [[u w']|[]]; try done.
  destruct (heap w' !! l); [|done]. by destruct (_ =? 0).
Qed.

(** C1: the lifetime of an object.  AddRef and Release through the pointers
    that act on its own count (all of its interface pointers when it stands
    alone, the non-delegating one when it is aggregated) share one count:
    while the count stays positive each call returns the new count and
    nothing else changes.  The Release that takes it to zero first destroys
    the inner value, whose destructor may make any COM calls [cs], while the
    object is still there with the count zero.  When the destructor leaves
    the object there with that count, as one that does not touch it does, the
    block is given back right after it, and the value was destroyed once and
    the block given back once; a destructor that keeps new references to the
    object ends in the resurrection check; one that takes a reference and
    gives it back has destroyed and freed the object itself, which the code
    does not notice ([UB]); and a panic of the destructor aborts.  The block
    goes to the allocator stored in the object, except that the primary
    interface of a [ComObject] always gives it to the default allocator,
    whichever one the object was made with. *)
Theorem object_lifetime (n : nat) (h : list (rc_op * ptr)) (w : W) (l : loc) (o : Obj)
    (last : ptr) (t : T) (cs : list com_call) :
  heap w !! l = Some o -> wf_obj l o -> 1 <= ref_count o <= MAX_REFCOUNT ->
  Forall (fun op => own_ptr l o (snd op) /\ counts_itself o (snd op)) h ->
  own_ptr l o last -> counts_itself o last ->
  stays_alive (ref_count o) (map fst h) ->
  drop_glue (inner o) = (t, cs) ->
  let destructor := run_calls (call c n) cs (dying w l o t) in
  run_client (S n) h w
    = Done (counts (ref_count o) (map fst h),
            write_obj w l (set_ref_count o (ref_count o + net (map fst h))))
  /\ (ref_count o + net (map fst h) = 1 ->
      run_client (S n) (h ++ [(Dec, last)]) w
      = match destructor with
        | Fault Panic => Fault FailFast
        | Fault f => Fault f
        | Done (_, w') =>
            match heap w' !! l with
            | None => Fault UB
            | Some o' =>
                if ref_count o' =? 0 then
                  Done (counts (ref_count o) (map fst h) ++ [0],
                        mkWorld _ _ _ _ (delete l (heap w')) (ext_state w')
                          (log w' ++ [Dealloc (freeing_alloc o last) l]))
                else Fault ResurrectionViolation
            end
        end)
  /\ (forall w', destructor = Done (tt, w') -> l ∈ dom (heap w') ->
      drops l (log w') = S (drops l (log w)) /\ frees l (log w') = frees l (log w))
  /\ (cs = [] -> exists w', destructor = Done (tt, w') /\ log w' = log w ++ [DropInner l]
      /\ ext_state w' = ext_state w /\ heap w' = <[l := set_inner (set_ref_count o 0) t]> (heap w)).
Proof.
  intros Hl Hwf Hr Hh Hlast Hs Halive Hd destructor.
  assert (Hrun : run_client (S n) h w
    = Done (counts (ref_count o) (map fst h),
            write_obj w l (set_ref_count o (ref_count o + net (map fst h))))).
  { apply run_client_alive; try done. lia. }
  split; [done|]. split; [|split].
  - intros Hone. rewrite run_client_app. erewrite bind_done by exact Hrun. rewrite Hone.
    cbn [run_client]. unfold bind at 1 2.
    erewrite (Release_last n _ l (set_ref_count o 1));
      [|apply lookup_insert_eq|by apply set_ref_count_wf|done..].
    replace (dying (write_obj w l (set_ref_count o 1)) l (set_ref_count o 1) t) with (dying w l o t)
      by (unfold dying, write_obj; cbn; by rewrite insert_insert_eq).
    fold destructor. destruct destructor as [[u w']|[]]; try done.
    destruct (heap w' !! l) as [o'|]; [|done]. by destruct (ref_count o' =? 0).
  - intros w' Hw' Hin. by apply (destructor_logs_once c n w l o t cs).
  - intros ->. eexists. split; [done|]. by split.
Qed.

(** ** Aggregation *)

Definition set_ext (w : W) (x : X) : W := mkWorld _ _ _ _ (heap w) x (log w).

(** What a method of a foreign object returns and does to its state. *)
Definition foreign {B : Type} (w : W) (rx : B * X) : outcome (B * W) :=
  Done (fst rx, set_ext w (snd rx)).

Section Delegation.
Context (n : nat) (w : W) (l : loc) (o : Obj) (e : nat).
Context (Hl : heap w !! l = Some o) (Hwf : wf_obj l o).
Context (Hout : outer_unknown o = Some (ext e)).

Lemma call_ext_add_ref : call c (S n) fn_ext_add_ref (ext e) w = foreign w (ext_AddRef e (ext_state w)).
Proof. unfold foreign. simpl. by destruct (ext_AddRef e (ext_state w)). Qed.

Lemma call_ext_release : call c (S n) fn_ext_release (ext e) w = foreign w (ext_Release e (ext_state w)).
Proof. unfold foreign. simpl. by destruct (ext_Release e (ext_state w)). Qed.

Lemma call_ext_query riid ppv :
  call_qi c (S n) fn_ext_query_interface (ext e) riid ppv w
  = foreign w (ext_QueryInterface e riid ppv (ext_state w)).
Proof. unfold foreign. simpl. by destruct (ext_QueryInterface e riid ppv (ext_state w)). Qed.

Ltac delegate :=
  rewrite Hout;
  cbn [delegating_add_ref delegating_release delegating_query is_null negb];
  erewrite bind_done by reflexivity;
  first [apply call_ext_add_ref | apply call_ext_release | apply call_ext_query].

Ltac enter_shim p Hp Hnd :=
  erewrite bind_done by (by eapply unknown_vtbl_live);
  destruct p as [|l'|l' i|l'|]; simpl in Hp;
  [ done
  | subst l'; destruct (kind o); apply guard_done; erewrite bind_done by (by apply from_ptr_live);
    cbv beta iota; delegate
  | idtac | subst l'; congruence | done ].

Lemma aggregated_add_ref p :
  client_ptr l o p -> AddRef_of c (S (S n)) p w = foreign w (ext_AddRef e (ext_state w)).
Proof.
  intros [Hp Hnd]. unfold AddRef_of. enter_shim p Hp Hnd. destruct Hp as [-> Hi]. apply guard_done.
  erewrite bind_done by (by eapply from_secondary_ptr_live). cbv beta iota. delegate.
Qed.

Lemma aggregated_release p :
  client_ptr l o p -> Release_of c (S (S n)) p w = foreign w (ext_Release e (ext_state w)).
Proof.
  intros [Hp Hnd]. unfold Release_of. enter_shim p Hp Hnd. destruct Hp as [-> Hi]. apply guard_done.
  erewrite bind_done by (by eapply parent_from_ptr_live).
  apply guard_done. erewrite bind_done by (by apply from_ptr_live). cbv beta iota. delegate.
Qed.

Lemma aggregated_query p riid ppv :
  client_ptr l o p ->
  QueryInterface_of c (S (S n)) p riid ppv w
  = foreign w (ext_QueryInterface e riid ppv (ext_state w)).
Proof.
  intros [Hp Hnd]. unfold QueryInterface_of. enter_shim p Hp Hnd. destruct Hp as [-> Hi]. apply guard_done.
  erewrite bind_done by (by eapply parent_from_ptr_live).
  erewrite bind_done by (by apply from_ptr_live). cbv beta iota. delegate.
Qed.
End Delegation.

(** C26: an aggregated object leaves its identity and its lifetime to the
    outer object: AddRef, Release and QueryInterface through its primary or
    any secondary interface return what the outer object's method returns,
    change only the outer object's state, and never touch the inner object's
    own count. *)
Theorem aggregated_delegates_to_outer (n : nat) (w : W) (l : loc) (o : Obj) (e : nat) (p : ptr)
    (riid : option GUID) (ppv : option ptr) :
  heap w !! l = Some o -> wf_obj l o -> outer_unknown o = Some (ext e) -> client_ptr l o p ->
  AddRef_of c (S (S n)) p w = foreign w (ext_AddRef e (ext_state w))
  /\ Release_of c (S (S n)) p w = foreign w (ext_Release e (ext_state w))
  /\ QueryInterface_of c (S (S n)) p riid ppv w
     = foreign w (ext_QueryInterface e riid ppv (ext_state w)).
Proof.
  intros. split; [|split].
  - by eapply aggregated_add_ref.
  - by eapply aggregated_release.
  - by eapply aggregated_query.
Qed.

(** The non-delegating QueryInterface, which the outer object calls. *)
Lemma nd_query n w l o riid ppv :
  heap w !! l = Some o -> wf_obj l o ->
  0 <= ref_count o < MAX_REFCOUNT ->
  QueryInterface_of c (S n) (nd l) riid ppv w
  = with_panic_guard (query_own (call c n) o
      (fun w => Done (ref_count o + 1, write_obj w l (set_ref_count o (ref_count o + 1))))
      (nd l) (obj l) riid ppv) w.
Proof.
  intros Hl Hwf Hr. unfold QueryInterface_of.
  erewrite bind_done by (by eapply unknown_vtbl_live).
  assert (Hadd : with_panic_guard (let* (l, _) := from_non_delegating (nd l) in refcount_add c l) w
    = Done (ref_count o + 1, write_obj w l (set_ref_count o (ref_count o + 1)))).
  { apply guard_done. erewrite bind_done by (by eapply from_non_delegating_live).
    apply refcount_add_live; [done|by apply add_ok]. }
  destruct (kind o); apply guard_ext;
    erewrite bind_done by (by eapply from_non_delegating_live); cbv beta iota;
    [|erewrite bind_done by (by eapply non_delegating_parent_live)];
    unfold query_own; destruct ppv, riid; try done; destruct (guid_eq _ _); try done;
    by erewrite bind_done by exact Hadd.
Qed.

(** The non-delegating QueryInterface of an aggregated object: asked for
    IUnknown it returns itself and counts on the inner object; asked for an
    interface the object implements it returns the delegating pointer and
    counts on the outer object; otherwise it fails, stores null and changes
    nothing. *)
Theorem aggregated_non_delegating_query (n : nat) (w : W) (l : loc) (o : Obj) (e : nat)
    (g : GUID) (old : ptr) :
  heap w !! l = Some o -> wf_obj l o -> outer_unknown o = Some (ext e) ->
  0 <= ref_count o < MAX_REFCOUNT ->
  (forall q, query_interface (iface o) (inner o) (obj l) g = Some q -> client_ptr l o q) ->
  QueryInterface_of c (S (S (S n))) (nd l) (Some g) (Some old) w
  = if guid_eq g IID_IUNKNOWN then
      Done ((STATUS_SUCCESS, Some (nd l)), write_obj w l (set_ref_count o (ref_count o + 1)))
    else match query_interface (iface o) (inner o) (obj l) g with
         | Some q => Done ((STATUS_SUCCESS, Some q), set_ext w (snd (ext_AddRef e (ext_state w))))
         | None => Done ((STATUS_NOINTERFACE, Some null), w)
         end.
Proof.
  intros Hl Hwf Hout Hr Hq. erewrite nd_query by done. unfold query_own.
  destruct (guid_eq g IID_IUNKNOWN); [by apply guard_done|].
  destruct (query_interface _ _ _ _) as [q|] eqn:E; apply guard_done; [|done].
  pose proof (aggregated_add_ref n w l o e Hl Hwf Hout q (Hq q eq_refl)) as Ha.
  unfold AddRef_of in Ha. apply bind_inv in Ha as (v & w' & Hv & Ha).
  erewrite bind_done by apply Hv. by erewrite bind_done by apply Ha.
Qed.

(** ** Construction *)

(** What the macros promise about the vtables of the primary interface [p]
    and the secondary interfaces [ss] of a type: the IUnknown slots of each
    vtable are the shims of the sub-object it is installed in. *)
Class GeneratedVtables (p : I) (ss : list I) (t : T) : Prop := {
  gen_primary : vt_unknown (VTABLE p t) = IUnknownVtbl_new_primary;
  gen_secondary : forall i s, ss !! i = Some s -> vt_unknown (VTABLE s t) = IUnknownVtbl_secondary i
}.

(** The object [ComObjectN::try_new_in] builds at [l]. *)
Definition fresh_objectN (l : loc) (p : I) (ss : list I) (t : T) (a : A) : Obj := {|
  kind := Multi; iface := p; vtable := VTABLE p t;
  secondaries := map (fun s => mkEntry (VTABLE s t) (obj l)) ss;
  non_delegating_unknown := mkNd N_NON_DELEGATING_VTABLE (obj l);
  ref_count := 1; outer_unknown := None; inner := t; alloc := a |}.

(** The object [ComObject::try_new_in] or [try_new_aggregated_in] builds. *)
Definition fresh_object (l : loc) (i : I) (outer : option ptr) (t : T) (a : A) : Obj := {|
  kind := Single; iface := i; vtable := VTABLE i t; secondaries := [];
  non_delegating_unknown := mkNd NON_DELEGATING_VTABLE (obj l);
  ref_count := 1; outer_unknown := outer; inner := t; alloc := a |}.

Lemma fresh_objectN_wf l (p : I) ss t a : GeneratedVtables p ss t -> wf_obj l (fresh_objectN l p ss t a).
Proof.
  intros [Hp Hs]. split; try done.
  - intros i e He. cbn in He. apply list_lookup_fmap_Some in He as (s & -> & Hi). split; [done|]. by apply Hs.
Qed.

Lemma fresh_object_wf l i outer t a :
  vt_unknown (VTABLE i t) = IUnknownVtbl_new -> wf_obj l (fresh_object l i outer t a).
Proof. intros Hv. by split. Qed.

Lemma drop_value_quiet fuel t t' (w : W) :
  drop_glue t = (t', []) ->
  drop_value c fuel t w
  = Done (tt, mkWorld _ _ _ _ (heap w) (ext_state w) (log w ++ [DropUnplaced])).
Proof. unfold drop_value. by intros ->. Qed.

Lemma N_new_in_result fuel (p : I) ss t a w :
  N_new_in c fuel p ss t a w
  = match alloc_block a (dom (heap w)) with
    | Some l => Done (Ok (obj l), write_obj w l (fresh_objectN l p ss t a))
    | None => bind (drop_value c fuel t) (fun _ => mret (Err STATUS_INSUFFICIENT_RESOURCES)) w
    end.
Proof.
  unfold N_new_in, N_try_new_in, alloc_object, bind.
  destruct (alloc_block a (dom (heap w))) as [l|].
  - unfold put_obj, init_non_delegating_ptr, init_secondary_ptr, bind, get_obj, put_obj, mret, write_obj.
    cbn [heap ext_state log]. rewrite !lookup_insert_eq. cbn [heap ext_state log].
    rewrite !lookup_insert_eq. cbn [heap ext_state log ok_or]. rewrite !insert_insert_eq.
    do 4 f_equal. unfold fresh_objectN, set_secondaries, set_nd_parent, secondary_init, secondary_entries.
    cbn. f_equal. rewrite map_map. done.
  - by destruct (drop_value c fuel t w) as [[[] ?]|].
Qed.

Lemma new_in_result fuel i t a w :
  new_in c fuel i t a w
  = match alloc_block a (dom (heap w)) with
    | Some l => Done (Ok (obj l), write_obj w l (fresh_object l i None t a))
    | None => bind (drop_value c fuel t) (fun _ => mret (Err STATUS_INSUFFICIENT_RESOURCES)) w
    end.
Proof.
  unfold new_in, try_new_in, alloc_object, bind.
  destruct (alloc_block a (dom (heap w))) as [l|].
  - unfold put_obj, init_non_delegating_ptr, bind, get_obj, put_obj, mret, write_obj.
    cbn [heap ext_state log]. rewrite !lookup_insert_eq. cbn [heap ext_state log ok_or].
    by rewrite !insert_insert_eq.
  - by destruct (drop_value c fuel t w) as [[[] ?]|].
Qed.

Lemma new_aggregated_in_result fuel i t outer a w :
  new_aggregated_in c fuel i t outer a w
  = match alloc_block a (dom (heap w)) with
    | Some l => Done (Ok (nd l), write_obj w l (fresh_object l i (Some outer) t a))
    | None => bind (drop_value c fuel t) (fun _ => mret (Err STATUS_INSUFFICIENT_RESOURCES)) w
    end.
Proof.
  unfold new_aggregated_in, try_new_aggregated_in, alloc_object, bind.
  destruct (alloc_block a (dom (heap w))) as [l|].
  - unfold put_obj, init_non_delegating_ptr, bind, get_obj, put_obj, mret, write_obj.
    cbn [heap ext_state log]. rewrite !lookup_insert_eq. cbn [heap ext_state log ok_or].
    by rewrite !insert_insert_eq.
  - by destruct (drop_value c fuel t w) as [[[] ?]|].
Qed.

(** The constructor returned an owned pointer [q] to a new well-formed object
    with one reference holding [t], in a block that was not in use. *)
Definition constructed (w w' : W) (l : loc) (outer : option ptr) (t : T) (a : A) : Prop :=
  heap w !! l = None
  /\ delete l (heap w') = heap w /\ ext_state w' = ext_state w /\ log w' = log w
  /\ exists o, heap w' !! l = Some o /\ wf_obj l o /\ ref_count o = 1
               /\ outer_unknown o = outer /\ inner o = t /\ alloc o = a.

Lemma constructed_write w l o a :
  alloc_block a (dom (heap w)) = Some l -> wf_obj l o -> ref_count o = 1 ->
  constructed w (write_obj w l o) l (outer_unknown o) (inner o) (alloc o).
Proof.
  intros Ha Hwf Hr. apply alloc_fresh, not_elem_of_dom in Ha. split; [done|].
  split; [|repeat split; eauto 10].
  - cbn. by rewrite delete_insert_eq, delete_id.
  - exists o. cbn. by rewrite lookup_insert_eq.
Qed.


(** The memory after creating an object at [l] and destroying it again. *)
Definition created_and_destroyed (w : W) (l : loc) (a : A) : W :=
  mkWorld _ _ _ _ (heap w) (ext_state w) (log w ++ [DropInner l; Dealloc a l]).

Lemma create_then_destroy n w l o p a t :
  alloc_block a (dom (heap w)) = Some l -> wf_obj l o -> ref_count o = 1 ->
  own_ptr l o p -> counts_itself o p -> drop_glue (inner o) = (t, []) ->
  Release_of c (S n) p (write_obj w l o)
  = Done (0, created_and_destroyed w l (freeing_alloc o p)).
Proof.
  intros Ha Hwf Hr Hp Hc Hd. apply alloc_fresh, not_elem_of_dom in Ha.
  erewrite Release_last_quiet; try done; [|apply lookup_insert_eq].
  unfold created_and_destroyed. cbn. by rewrite delete_insert_eq, delete_id.
Qed.

(** Which allocator an object goes back to.  Creating an object and
    releasing it destroys the value and frees the block once.  An object with
    several interfaces, or an aggregated one released by its owner, is given
    back to the allocator it came from; a plain [ComObject] released through
    its interface pointer is given to the global allocator, whichever
    allocator [new_in] was called with. *)
Theorem last_release_picks_allocator (n fuel : nat) (p i : I) (ss : list I) (t t' : T) (a : A)
    (outer : ptr) (w : W) (l : loc) :
  GeneratedVtables p ss t -> vt_unknown (VTABLE i t) = IUnknownVtbl_new ->
  drop_glue t = (t', []) -> alloc_block a (dom (heap w)) = Some l ->
  (let* r := N_new_in c fuel p ss t a in
   match r with Ok q => Release_of c (S n) q | Err _ => mret 1 end) w
    = Done (0, created_and_destroyed w l a)
  /\ (let* r := new_aggregated_in c fuel i t outer a in
      match r with Ok q => Release_of c (S n) q | Err _ => mret 1 end) w
    = Done (0, created_and_destroyed w l a)
  /\ (let* r := new_in c fuel i t a in
      match r with Ok q => Release_of c (S n) q | Err _ => mret 1 end) w
    = Done (0, created_and_destroyed w l GlobalAllocator).
Proof.
  intros Hg Hi Hd Ha. unfold bind.
  rewrite N_new_in_result, new_aggregated_in_result, new_in_result, Ha. cbv beta iota.
  repeat split; erewrite create_then_destroy; try done;
    try (by apply fresh_objectN_wf); try (by apply fresh_object_wf).
  - left. exact Logic.I.
  - right. by exists l.
  - left. exact Logic.I.
Qed.

(** ** QueryInterface *)

(** What the macros promise about identifiers and QueryInterface: each vtable
    carries the identifier of its interface, and the generated function looks
    the requested identifier up in the primary and the secondary ones. *)
Class GeneratedQuery (iid : I -> GUID) (p : I) (ss : list I) (t : T) : Prop := {
  gen_iid : forall s, s ∈ p :: ss -> vt_iid (VTABLE s t) = iid s;
  gen_query : forall this g,
    query_interface p t this g = impl_primary (iid p) (map iid ss) default_query_interface this g
}.

(** The vtable an interface pointer of [o] points to. *)
Definition vtable_at (o : Obj) (q : ptr) : option InterfaceVtable :=
  match q with
  | obj _ => Some (vtable o)
  | sec _ i => se_vtable <$> secondaries o !! i
  | _ => None
  end.

Section GeneratedObject.
Context (iid : I -> GUID) (p : I) (ss : list I) (t : T) (a : A).
Context `{!GeneratedQuery iid p ss t}.
Context (Hnd : NoDup (IID_IUNKNOWN :: map iid (p :: ss))).

Lemma generated_query_hit l i s :
  (p :: ss) !! i = Some s ->
  query_interface p t (obj l) (iid s) = Some (match i with O => obj l | S j => sec l j end).
Proof.
  intros Hi. rewrite gen_query. apply list.NoDup_cons in Hnd as [_ Hnd'].
  destruct i as [|j]; [injection Hi as <-; apply impl_primary_primary|].
  apply impl_primary_secondary; [done|]. apply list_lookup_fmap_Some. eauto.
Qed.

Lemma generated_query_miss l g :
  g ∉ IID_IUNKNOWN :: map iid (p :: ss) -> query_interface p t (obj l) g = None.
Proof.
  intros Hg. rewrite gen_query. apply not_elem_of_cons in Hg as [_ Hg].
  cbn [map] in Hg. apply not_elem_of_cons in Hg as [Hp Hg].
  unfold impl_primary. cbn [is_null]. rewrite guid_eq_false by done.
  by rewrite qi_match_secondaries_miss.
Qed.

Lemma generated_contract l k :
  qi_contract l (set_ref_count (fresh_objectN l p ss t a) k).
Proof.
  intros g q. cbn. rewrite gen_query. intros Hq.
  apply impl_primary_inv in Hq as [[-> _]|(i & -> & Hi)]; [done|].
  cbn. split; [done|]. rewrite length_map. apply lookup_lt_Some in Hi. by rewrite length_map in Hi.
Qed.

Lemma generated_answer_ptr l k i s :
  (p :: ss) !! i = Some s ->
  let o := set_ref_count (fresh_objectN l p ss t a) k in
  let r := match i with O => obj l | S j => sec l j end in
  client_ptr l o r /\ vtable_at o r = Some (VTABLE s t) /\ vt_iid (VTABLE s t) = iid s.
Proof.
  intros Hi o r. assert (Hs : s ∈ p :: ss) by (by eapply list_elem_of_lookup_2).
  split; [|split; [|by apply gen_iid]]; destruct i as [|j]; try done; cbn in Hi.
  - split; [|done]. cbn. split; [done|]. rewrite length_map. by apply lookup_lt_Some in Hi.
  - injection Hi as <-. done.
  - apply fmap_Some. exists (mkEntry (VTABLE s t) (obj l)). split; [|done].
    apply list_lookup_fmap_Some. eauto.
Qed.
End GeneratedObject.

(** C4: QueryInterface on an object with a primary and several secondary
    interfaces.  Through any of its interface pointers, asking for an
    interface of the object returns the pointer whose vtable is that
    interface's, asking for IUnknown always returns the same pointer, and
    both take one reference; asking for anything else, or with a null
    argument, fails with STATUS_NOINTERFACE and takes none. *)
Theorem query_reaches_every_interface (n : nat) (iid : I -> GUID) (p : I) (ss : list I) (t : T)
    (a : A) (w : W) (l : loc) (o : Obj) (k : Z) (q old : ptr) :
  GeneratedVtables p ss t -> GeneratedQuery iid p ss t ->
  NoDup (IID_IUNKNOWN :: map iid (p :: ss)) ->
  o = set_ref_count (fresh_objectN l p ss t a) k -> 0 <= k < MAX_REFCOUNT ->
  heap w !! l = Some o -> client_ptr l o q ->
  let ask riid ppv := QueryInterface_of c (S (S n)) q riid ppv w in
  let counted := write_obj w l (set_ref_count o (k + 1)) in
  ask (Some IID_IUNKNOWN) (Some old) = Done ((STATUS_SUCCESS, Some (obj l)), counted)
  /\ (forall i s, (p :: ss) !! i = Some s -> exists r,
        ask (Some (iid s)) (Some old) = Done ((STATUS_SUCCESS, Some r), counted)
        /\ client_ptr l o r /\ vtable_at o r = Some (VTABLE s t) /\ vt_iid (VTABLE s t) = iid s)
  /\ (forall g, g ∉ IID_IUNKNOWN :: map iid (p :: ss) ->
        ask (Some g) (Some old) = Done ((STATUS_NOINTERFACE, Some null), w))
  /\ (forall riid ppv, riid = None \/ ppv = None ->
        ask riid ppv = Done ((STATUS_NOINTERFACE, ppv), w)).
Proof.
  intros Hv Hq Hnd -> Hk Hl Hp ask counted.
  assert (Hwf : wf_obj l (set_ref_count (fresh_objectN l p ss t a) k)).
  { apply set_ref_count_wf; [by apply fresh_objectN_wf|]. unfold MAX_REFCOUNT in Hk. widths. lia. }
  assert (Hask : forall g, ask (Some g) (Some old)
    = Done (qi_answer w l (set_ref_count (fresh_objectN l p ss t a) k) g))
    by (intros g; by apply QueryInterface_answer; [| | |eapply generated_contract| |]).
  split; [|split; [|split]].
  - rewrite Hask. unfold qi_answer. by rewrite guid_eq_refl.
  - intros i s Hi. exists (match i with O => obj l | S j => sec l j end).
    split; [|by eapply generated_answer_ptr]. rewrite Hask. unfold qi_answer. cbn [iface inner set_ref_count fresh_objectN].
    rewrite guid_eq_false, (generated_query_hit iid p ss t Hnd l i s Hi); [done|].
    apply list.NoDup_cons in Hnd as [Hn _]. intros Hs. apply Hn. rewrite <- Hs.
    apply list_elem_of_fmap. exists s. split; [done|]. by eapply list_elem_of_lookup_2.
  - intros g Hg. rewrite Hask. unfold qi_answer. cbn [iface inner set_ref_count fresh_objectN].
    rewrite guid_eq_false, (generated_query_miss iid p ss t l g Hg); [done|].
    by apply not_elem_of_cons in Hg as [? _].
  - intros riid ppv Hnull. by eapply QueryInterface_null.
Qed.

(** ** Panics and resurrection *)

Lemma call_no_panic n f this w : call c n f this w <> Fault Panic.
Proof.
  destruct n as [|n]; [done|]. destruct f; cbn [call call_ref_fn]; try apply guard_no_panic;
    unfold on_ext; destruct this; try done; by case_goal.
Qed.

Lemma call_qi_no_panic n f this riid ppv w : call_qi c n f this riid ppv w <> Fault Panic.
Proof.
  destruct n as [|n]; [done|]. destruct f; cbn [call_qi call_qi_fn]; try apply guard_no_panic;
    destruct this; try done; by case_goal.
Qed.


Lemma run_add_refs n ps w l o :
  heap w !! l = Some o -> wf_obj l o ->
  Forall (fun p => own_ptr l o p /\ counts_itself o p) ps ->
  0 <= ref_count o -> ref_count o + Z.of_nat (length ps) <= MAX_REFCOUNT ->
  run_calls (call c (S n)) (map CallAddRef ps) w
  = Done (tt, write_obj w l (set_ref_count o (ref_count o + Z.of_nat (length ps)))).
Proof.
  revert w o. induction ps as [|p ps IH]; intros w o Hl Hwf Hps H0 Hmax; cbn [map run_calls length] in *.
  - rewrite Z.add_0_r, set_ref_count_id, write_id by done. done.
  - apply Forall_cons_iff in Hps as [[Hp Hc] Hps].
    erewrite bind_done by (eapply AddRef_counts; eauto; lia).
    set (o1 := set_ref_count o _). set (w1 := write_obj w l o1).
    rewrite (IH w1 o1); [|apply lookup_insert_eq| |done|cbn; lia|cbn; lia].
    + unfold w1. rewrite write_write. do 3 f_equal. unfold o1, set_ref_count. cbn. f_equal. lia.
    + apply set_ref_count_wf; [done|]. unfold MAX_REFCOUNT in *. widths. lia.
Qed.

(** C30: an object cannot be resurrected.  When the destructor of the inner
    value takes new references to the dying object, through any of its
    pointers, and keeps them, the last Release stops at the resurrection
    check instead of freeing the block. *)
Theorem resurrection_is_detected (n : nat) (w : W) (l : loc) (o : Obj) (p : ptr) (t : T)
    (ps : list ptr) :
  heap w !! l = Some o -> wf_obj l o -> ref_count o = 1 -> own_ptr l o p -> counts_itself o p ->
  drop_glue (inner o) = (t, map CallAddRef ps) ->
  Forall (fun p => own_ptr l o p /\ counts_itself o p) ps ->
  ps <> [] -> Z.of_nat (length ps) <= MAX_REFCOUNT ->
  Release_of c (S (S n)) p w = Fault ResurrectionViolation.
Proof.
  intros Hl Hwf Hr Hp Hc Hd Hps Hne Hmax. erewrite Release_own by done.
  unfold with_panic_guard. erewrite release_own_last by done.
  set (o1 := set_inner (set_ref_count o 0) t).
  rewrite (run_add_refs n ps (dying w l o t) l o1); try done; [|by apply lookup_insert_eq|].
  - cbn [heap write_obj]. rewrite lookup_insert_eq.
    cbn [o1 set_inner set_ref_count ref_count]. rewrite (proj2 (Z.eqb_neq _ _)); [done|].
    destruct ps; [done|]. cbn [length]. lia.
  - by apply set_inner_wf, set_ref_count_wf.
Qed.

End Theorems.

Lemma object_lifetime_witness :
  run_client demo_cfg 1 ([(Inc, obj 2); (Dec, nd 2)] ++ [(Dec, obj 2)])
    (demo_with (demo_plain demo_unit 1))
  = Done ([2; 1] ++ [0], mkWorld _ _ _ _ ∅ 1 [DropInner 2; Dealloc global_alloc 2]).
Proof.
  destruct (object_lifetime demo_cfg 0 [(Inc, obj 2); (Dec, nd 2)]
    (demo_with (demo_plain demo_unit 1)) 2 (demo_plain demo_unit 1) (obj 2) demo_unit [])
    as (_ & H & _).
  - reflexivity.
  - apply demo_plain_wf; [done|]. unfold u32, u32_MAX. lia.
  - unfold MAX_REFCOUNT, i32_MAX. simpl. lia.
  - repeat constructor.
  - reflexivity.
  - left. exact I.
  - unfold stays_alive, MAX_REFCOUNT, i32_MAX. simpl. repeat constructor; lia.
  - reflexivity.
  - apply H. reflexivity.
Defined.

Lemma aggregated_delegates_to_outer_witness :
  AddRef_of demo_cfg 2 (obj 2) (demo_with (demo_aggregated demo_unit 1))
    = Done (2, set_ext (demo_with (demo_aggregated demo_unit 1)) 2)
  /\ Release_of demo_cfg 2 (obj 2) (demo_with (demo_aggregated demo_unit 1))
    = Done (0, set_ext (demo_with (demo_aggregated demo_unit 1)) 0).
Proof.
  destruct (aggregated_delegates_to_outer demo_cfg 0 (demo_with (demo_aggregated demo_unit 1)) 2
    (demo_aggregated demo_unit 1) 0 (obj 2) (Some IID_IUNKNOWN) (Some null)) as (H1 & H2 & _).
  - reflexivity.
  - apply demo_aggregated_wf; [done|]. unfold u32, u32_MAX. lia.
  - reflexivity.
  - split; done.
  - split; [exact H1|exact H2].
Defined.

Lemma aggregated_non_delegating_query_witness :
  QueryInterface_of demo_cfg 3 (nd 2) (Some (demo_iid 0)) (Some null)
    (demo_with (demo_aggregated demo_unit 1))
  = Done ((STATUS_SUCCESS, Some (obj 2)), set_ext (demo_with (demo_aggregated demo_unit 1)) 2).
Proof.
  rewrite (aggregated_non_delegating_query demo_cfg 0 (demo_with (demo_aggregated demo_unit 1)) 2
    (demo_aggregated demo_unit 1) 0 (demo_iid 0) null).
  - reflexivity.
  - reflexivity.
  - apply demo_aggregated_wf; [done|]. unfold u32, u32_MAX. lia.
  - reflexivity.
  - unfold MAX_REFCOUNT, i32_MAX. simpl. lia.
  - intros q Hq. vm_compute in Hq. injection Hq as <-. split; done.
Defined.

(** A [ComObjectN] with the primary interface 0 and secondaries 1 and 2. *)
Definition demo_multi : demo := mkDemo (Some (0%nat, [1; 2]%nat)) [] [].

#[global] Instance demo_generated : GeneratedVtables 0%nat [1; 2]%nat demo_multi.
Proof. split; [done|]. intros [|[|i]] s; intros [= <-]; done. Qed.


#[global] Instance demo_generated_query : GeneratedQuery demo_iid 0%nat [1; 2]%nat demo_multi.
Proof.
  split; [|done]. intros s Hs. repeat apply elem_of_cons in Hs as [->|Hs]; try done.
  by apply not_elem_of_nil in Hs.
Qed.

Lemma query_reaches_every_interface_witness :
  exists r, QueryInterface_of demo_cfg 2 (sec 2 0) (Some (demo_iid 2)) (Some null)
              (demo_with (fresh_objectN 2 0%nat [1; 2]%nat demo_multi global_alloc))
            = Done ((STATUS_SUCCESS, Some r),
                    demo_with (set_ref_count (fresh_objectN 2 0%nat [1; 2]%nat demo_multi global_alloc) 2)).
Proof.
  destruct (query_reaches_every_interface demo_cfg 0 demo_iid 0%nat [1; 2]%nat demo_multi global_alloc
    (demo_with (fresh_objectN 2 0%nat [1; 2]%nat demo_multi global_alloc)) 2
    (fresh_objectN 2 0%nat [1; 2]%nat demo_multi global_alloc) 1 (sec 2 0) null) as (_ & H & _).
  - apply _.
  - apply _.
  - apply (bool_decide_unpack _). vm_compute. exact I.
  - reflexivity.
  - unfold MAX_REFCOUNT, i32_MAX. lia.
  - reflexivity.
  - split; [split; [done|simpl; lia]|done].
  - destruct (H 2%nat 2%nat eq_refl) as (r & Hr & _). exists r. exact Hr.
Defined.


Lemma resurrection_is_detected_witness :
  Release_of demo_cfg 2 (obj 2)
    (demo_with (demo_plain (mkDemo None [CallAddRef (obj 2); CallAddRef (nd 2)] []) 1))
  = Fault ResurrectionViolation.
Proof.
  apply (resurrection_is_detected demo_cfg 0
    (demo_with (demo_plain (mkDemo None [CallAddRef (obj 2); CallAddRef (nd 2)] []) 1)) 2
    (demo_plain (mkDemo None [CallAddRef (obj 2); CallAddRef (nd 2)] []) 1) (obj 2) demo_unit
    [obj 2; nd 2]); try reflexivity.
  - apply demo_plain_wf; [done|]. unfold u32, u32_MAX. lia.
  - left. exact I.
  - repeat constructor.
  - discriminate.
  - unfold MAX_REFCOUNT, i32_MAX. simpl. lia.
Defined.

(** The resurrection check only looks at the count once the destructor
    is done.  A destructor that takes a reference to its own object and gives
    it back re-enters the last Release: the inner value is destroyed a second
    time and the block is freed while the first Release still uses it, in
    every configuration. *)
Theorem balanced_references_in_drop_are_missed (c : config) :
  Release_of c 4 (obj 2)
    (demo_with (demo_plain (mkDemo None [CallAddRef (obj 2); CallRelease (obj 2)] []) 1))
  = Fault UB
  /\ exists w', run_calls (call c 3) [CallAddRef (obj 2); CallRelease (obj 2)]
                  (demo_with (demo_plain demo_unit 0)) = Done (tt, w')
                /\ log w' = [DropInner 2; Dealloc global_alloc 2].
Proof.
  destruct c as [[] []]; (split; [reflexivity|]; eexists; split; reflexivity).
Qed.

Lemma last_release_picks_allocator_witness :
  (let* r := N_new_in demo_cfg 1 0%nat [1; 2]%nat demo_multi pool_alloc in
   match r with Ok q => Release_of demo_cfg 1 q | Err _ => mret 1 end) demo_empty
  = Done (0, created_and_destroyed demo_empty 2 pool_alloc)
  /\ (let* r := new_in demo_cfg 1 7%nat demo_multi pool_alloc in
      match r with Ok q => Release_of demo_cfg 1 q | Err _ => mret 1 end) demo_empty
  = Done (0, created_and_destroyed demo_empty 2 global_alloc).
Proof.
  destruct (last_release_picks_allocator demo_cfg 0 1 0%nat 7%nat [1; 2]%nat demo_multi demo_multi
    pool_alloc (ext 0) demo_empty 2) as (H1 & _ & H3); try reflexivity; [apply _|].
  split; [exact H1|exact H3].
Defined.
