(* ===== verification/Clients.v ===== *)
(** * Programs that use ComRc

    A program holds [ComRc] handles and creates, clones, queries and drops
    them in any order; objects own the handles moved into them.  The steps
    are the operations of [SmartPtr] on the memory of [Wrapper].  The
    theorems combine the accounting of [Ownership] with the shims: the
    program never touches a dead object, every count is exact, and when the
    last handle of an acyclic object graph is gone so is every object. *)

From S2P Require Import Prelude Status Refcount Wrapper SmartPtr WrapperFacts Ownership Interfaces Demo ComTheorems.

Section Clients.
Context {I T A X : Type}.
Context `{!ComImpl I T, !DropGlue T, !OwnsRefs T, !Allocator A, !Foreign X}.
Context (c : config).

Abbreviation W := (world I T A X).
Abbreviation Obj := (ComObject I T A).
Implicit Types (w : W) (o : Obj) (l : loc) (r : ComRc) (E : list ComRc).

(** QueryInterface answers with interface pointers of the same object. *)
Definition answers_itself (l : loc) (o : Obj) : Prop :=
  forall g q, query_interface (iface o) (inner o) (obj l) g = Some q -> client_ptr l o q.

(** One more reference to the object behind [r] can be counted. *)
Definition has_room (w : W) (r : ComRc) : Prop :=
  forall l o, target (rc_ptr r) = Some l -> heap w !! l = Some o -> ref_count o < MAX_REFCOUNT.

(** [fuel] nested calls are enough for anything [w] can trigger. *)
Definition enough (fuel : nat) (w : W) : Prop := (base.size (alive w) + 1 < fuel)%nat.

(** One operation of the program: the handles it holds and the memory. *)
Inductive client_step : list ComRc * W -> list ComRc * W -> Prop :=
| step_new fuel (p : I) ss t a r E E' w w' :
    GeneratedVtables p ss t -> (forall l, answers_itself l (fresh_objectN l p ss t a)) ->
    map rc_ptr E ≡ₚ owned t ++ map rc_ptr E' ->
    N_new_rc_in c fuel p ss t a w = Done (Ok r, w') ->
    client_step (E, w) (r :: E', w')
| step_new_failed fuel (p : I) ss t a s E E' w w' :
    enough fuel w -> map rc_ptr E ≡ₚ owned t ++ map rc_ptr E' ->
    N_new_rc_in c fuel p ss t a w = Done (Err s, w') ->
    client_step (E, w) (E', w')
| step_clone fuel r r' E w w' :
    r ∈ E -> enough fuel w -> has_room w r ->
    rc_clone c fuel r w = Done (r', w') ->
    client_step (E, w) (r' :: E, w')
| step_addref fuel r r' E w w' :
    r ∈ E -> enough fuel w -> has_room w r ->
    from_raw_addref c fuel (as_ptr r) w = Done (Some r', w') ->
    client_step (E, w) (r' :: E, w')
| step_query fuel r r' g E w w' :
    r ∈ E -> enough fuel w -> has_room w r ->
    rc_query_interface c fuel r g w = Done (Ok r', w') ->
    client_step (E, w) (r' :: E, w')
| step_query_failed fuel r g s E w w' :
    r ∈ E -> enough fuel w -> has_room w r ->
    rc_query_interface c fuel r g w = Done (Err s, w') ->
    client_step (E, w) (E, w')
| step_drop fuel r E E' w w' :
    E ≡ₚ r :: E' -> enough fuel w ->
    rc_drop c fuel r w = Done (tt, w') ->
    client_step (E, w) (E', w').

(** What every reachable state satisfies. *)
Record good (s : list ComRc * W) : Prop := {
  good_inv : inv (map rc_ptr (fst s)) (snd s);
  good_settled : forall l o, heap (snd s) !! l = Some o -> ref_count o <> 0;
  good_answers : forall l o, heap (snd s) !! l = Some o -> answers_itself l o;
  good_handles : forall r, r ∈ fst s -> forall l, rc_ptr r <> nd l
}.

Lemma answers_set_count l o n : answers_itself l o -> answers_itself l (set_ref_count o n).
Proof. intros H g q Hq. destruct (H g q Hq) as [Hp Hn]. split; [by destruct q|done]. Qed.

Lemma good_ext E w r :
  good (E, w) -> r ∈ E ->
  exists l o, heap w !! l = Some o /\ client_ptr l o (rc_ptr r) /\ wf_obj l o /\ standalone o
              /\ answers_itself l o /\ 1 <= ref_count o /\ target (rc_ptr r) = Some l.
Proof.
  intros [Hi Hz Ha Hh] Hr. cbn [fst snd] in *.
  destruct (proj1 (elem_of_Permutation _ _) Hr) as [E' HE].
  assert (Hi' : inv (rc_ptr r :: map rc_ptr E') w) by (by rewrite HE in Hi).
  destruct (inv_lookup _ _ _ Hi') as (l & o & Hl & Hp & Hwf & Hs & Hc).
  exists l, o. pose proof (own_ptr_target _ _ _ Hp). split; [done|].
  split; [split; [done|by apply Hh]|]. eauto 10.
Qed.

(** Taking one more reference through [p] to the object [o] at [l]. *)
Lemma good_inc E w l o q :
  good (E, w) -> heap w !! l = Some o -> client_ptr l o q -> ref_count o < MAX_REFCOUNT ->
  good (mkRc q :: E, write_obj w l (set_ref_count o (ref_count o + 1))).
Proof.
  intros [Hi Hz Ha Hh] Hl [Hq Hnd] Hr. cbn [fst snd] in *.
  destruct (acct_obj _ _ Hi l o Hl) as [Hwf _]. pose proof (wf_count _ _ Hwf) as Hu.
  split; cbn [fst snd map write_obj heap].
  - unfold inv. cbn [app heap write_obj]. rewrite heap_refs_set_count by done. by apply accounted_inc.
  - intros k x [[<- <-]|[_ Hx]]%lookup_insert_Some; [|eauto]. cbn. widths. lia.
  - intros k x [[<- <-]|[_ Hx]]%lookup_insert_Some; [|eauto]. apply answers_set_count. eauto.
  - intros r [->|Hr']%elem_of_cons; [|eauto]. cbn. intros k ->. apply own_ptr_target in Hq.
    injection Hq as ->. done.
Qed.

(** Giving references back. *)
Lemma good_shrink E E' w w' :
  good (E, w) -> (forall r, r ∈ E' -> r ∈ E) -> inv (map rc_ptr E') w' -> shrinks w w' ->
  good (E', w').
Proof.
  intros [Hi Hz Ha Hh] HE Hi' Hs. split; cbn [fst snd] in *; [done| | |eauto].
  - intros l o' Hl Hc. destruct (shr_origin _ _ Hs l o' Hl) as (o & Ho & _ & Hc0). eapply Hz; eauto.
  - intros l o' Hl. destruct (shr_origin _ _ Hs l o' Hl) as (o & Ho & Heq & _).
    rewrite Heq. apply answers_set_count. eauto.
Qed.

Lemma N_new_rc_in_result fuel (p : I) ss t a w :
  N_new_rc_in c fuel p ss t a w
  = match alloc_block a (dom (heap w)) with
    | Some l => Done (Ok (mkRc (obj l)), write_obj w l (fresh_objectN l p ss t a))
    | None => bind (drop_value c fuel t) (fun _ => mret (Err STATUS_INSUFFICIENT_RESOURCES)) w
    end.
Proof.
  pose proof (N_new_in_result c fuel p ss t a w) as H. revert H.
  unfold N_new_rc_in, N_try_new_rc_in, N_new_in, bind, N_try_new_in, bind, alloc_object.
  destruct (alloc_block a (dom (heap w))) as [l|].
  - unfold put_obj, init_non_delegating_ptr, init_secondary_ptr, bind, get_obj, put_obj, mret.
    cbn [heap ext_state log]. rewrite !lookup_insert_eq. cbn [heap ext_state log].
    rewrite !lookup_insert_eq. cbn. intros [= ->]. done.
  - intros _. by destruct (drop_value c fuel t w) as [[[] ?]|].
Qed.

Lemma shrinks_emit_unplaced w :
  shrinks w (mkWorld _ _ _ _ (heap w) (ext_state w) (log w ++ [DropUnplaced])).
Proof.
  destruct (shrinks_refl w) as [Hz Ho Hx _]. split; try done.
  exists [DropUnplaced]. split; [done|]. intros l. unfold destroyed. cbn. by destruct (heap w !! l).
Qed.

Lemma drop_value_owned fuel t (R : list ptr) w :
  inv (owned t ++ R) w -> (base.size (alive w) < fuel)%nat ->
  exists w', drop_value c fuel t w = Done (tt, w') /\ inv R w' /\ shrinks w w'.
Proof.
  intros Hi Hn. destruct (owned_drop t) as (t' & Hd & _).
  set (w1 := mkWorld _ _ _ _ (heap w) (ext_state w) (log w ++ [DropUnplaced])).
  destruct (run_releases c fuel (Release_keeps_accounts c fuel) (owned t) R w1 Hi Hn)
    as (w2 & Hr & Hi2 & Hs2).
  exists w2. split; [|split; [done|eapply shrinks_trans; [apply shrinks_emit_unplaced|done]]].
  unfold drop_value. rewrite Hd. unfold bind, emit. done.
Qed.

Lemma good_new E E' w l (p : I) ss t a :
  good (E, w) -> heap w !! l = None -> GeneratedVtables p ss t ->
  answers_itself l (fresh_objectN l p ss t a) ->
  map rc_ptr E ≡ₚ owned t ++ map rc_ptr E' -> (forall r, r ∈ E' -> r ∈ E) ->
  good (mkRc (obj l) :: E', write_obj w l (fresh_objectN l p ss t a)).
Proof.
  intros [Hi Hz Ha Hh] Hl Hg Hans HE Hin. cbn [fst snd] in *. split; cbn [fst snd map write_obj heap].
  - unfold inv. cbn [app heap write_obj]. rewrite heap_refs_insert by done.
    cbn [fresh_objectN inner]. rewrite (assoc_L (++)), (comm (++) (map rc_ptr E')), <- HE.
    apply accounted_insert; try done. by apply fresh_objectN_wf.
  - intros k x [[<- <-]|[_ Hx]]%lookup_insert_Some; [done|eauto].
  - intros k x [[<- <-]|[_ Hx]]%lookup_insert_Some; [done|eauto].
  - intros r [->|Hr]%elem_of_cons; [done|eauto].
Qed.

Lemma rc_ptr_elem_of E r : rc_ptr r ∈ map rc_ptr E <-> r ∈ E.
Proof.
  split.
  - intros ([p] & Heq & Hin)%list_elem_of_fmap. destruct r. cbn in Heq. by subst.
  - intros H. apply list_elem_of_fmap. eauto.
Qed.

Lemma remaining_handles E E' (ps : list ptr) :
  map rc_ptr E ≡ₚ ps ++ map rc_ptr E' -> forall r, r ∈ E' -> r ∈ E.
Proof.
  intros HE r Hr. apply rc_ptr_elem_of. rewrite HE. apply elem_of_app. right. by apply rc_ptr_elem_of.
Qed.

(** What the operations on a held handle return. *)
Lemma clone_result fuel E w r :
  good (E, w) -> r ∈ E -> enough fuel w -> has_room w r ->
  exists w', rc_clone c fuel r w = Done (r, w') /\ good (r :: E, w').
Proof.
  intros Hg Hr Hf Hroom. destruct (good_ext E w r Hg Hr) as (l & o & Hl & Hp & Hwf & Hs & Ha & Hc & Ht).
  unfold enough in Hf. destruct fuel as [|n]; [lia|].
  exists (write_obj w l (set_ref_count o (ref_count o + 1))). split.
  - unfold rc_clone, add_ref. erewrite bind_done; [destruct r; reflexivity|].
    eapply AddRef_counts; [done|done|apply Hp|by left|split; [lia|eauto]].
  - replace r with (mkRc (rc_ptr r)) at 1 by (by destruct r). apply good_inc; try done. eauto.
Qed.

Lemma addref_result fuel E w r :
  good (E, w) -> r ∈ E -> enough fuel w -> has_room w r ->
  exists w', from_raw_addref c fuel (as_ptr r) w = Done (Some r, w') /\ good (r :: E, w').
Proof.
  intros Hg Hr Hf Hroom. destruct (clone_result fuel E w r Hg Hr Hf Hroom) as (w' & Hc & Hg').
  exists w'. split; [|done]. destruct (good_ext E w r Hg Hr) as (l & o & _ & Hp & _).
  assert (Hown : own_ptr l o (rc_ptr r)) by apply Hp. clear Hp. destruct r as [p]. unfold rc_clone, from_raw_addref, from_raw, as_ptr, bind, mret in *. cbn in *.
  assert (Hn : is_null p = false) by (by destruct p). rewrite Hn. cbv beta.
  destruct (add_ref c fuel p w) as [[]|]; [|done]. by simplify_eq.
Qed.

Lemma query_result fuel E w r g :
  good (E, w) -> r ∈ E -> enough fuel w -> has_room w r ->
  (exists q w', rc_query_interface c fuel r g w = Done (Ok (mkRc q), w') /\ good (mkRc q :: E, w'))
  \/ rc_query_interface c fuel r g w = Done (Err Status.NOINTERFACE, w).
Proof.
  intros Hg Hr Hf Hroom. destruct (good_ext E w r Hg Hr) as (l & o & Hl & Hp & Hwf & Hs & Ha & Hc & Ht).
  assert (Hn : exists n, fuel = S (S n)).
  { unfold enough in Hf. destruct fuel as [|[|n]]; [lia|lia|eauto]. }
  destruct Hn as [n ->]. assert (Hmax : ref_count o < MAX_REFCOUNT) by eauto.
  assert (Hq : qi_contract l o) by (intros g' q Hq; apply (Ha g' q Hq)).
  unfold rc_query_interface, bind.
  rewrite (QueryInterface_answer c n w l o (rc_ptr r) null g) by (done || lia).
  unfold qi_answer. destruct (guid_eq g IID_IUNKNOWN).
  - left. exists (obj l). eexists. split; [reflexivity|]. by apply good_inc.
  - destruct (query_interface _ _ _ g) as [q|] eqn:Eq.
    + destruct (Ha g q Eq) as [Hown Hnd]. left. exists q. eexists.
      split; [|by apply good_inc]. cbn. unfold from_raw_or_status. by destruct q.
    + by right.
Qed.

Lemma drop_result fuel E E' w r :
  good (E, w) -> E ≡ₚ r :: E' -> enough fuel w ->
  exists w', rc_drop c fuel r w = Done (tt, w') /\ good (E', w') /\ shrinks w w'.
Proof.
  intros Hg HE Hf. pose proof (good_inv _ Hg) as Hi. cbn [fst snd] in Hi.
  rewrite HE in Hi. cbn [map] in Hi.
  destruct (Release_keeps_accounts c fuel _ w _ Hi) as (v & w' & Hr & Hi' & Hs).
  { unfold enough in Hf. lia. }
  exists w'. split; [unfold rc_drop, release; by erewrite bind_done by exact Hr|].
  split; [|done]. eapply good_shrink; eauto. intros x Hx. rewrite HE. by right.
Qed.

Lemma client_step_good s s' : client_step s s' -> good s -> good s'.
Proof.
  intros Hstep Hg. destruct Hstep as
    [fuel p ss t a r E E' w w' Hv Ha HE Hr | fuel p ss t a s E E' w w' Hf HE Hr
    | fuel r r' E w w' Hin Hf Hroom Hr | fuel r r' E w w' Hin Hf Hroom Hr | fuel r r' g E w w' Hin Hf Hroom Hr
    | fuel r g s E w w' Hin Hf Hroom Hr | fuel r E E' w w' HE Hf Hr].
  - rewrite N_new_rc_in_result in Hr. destruct (alloc_block a (dom (heap w))) as [l|] eqn:Hal.
    + injection Hr as <- <-. apply alloc_fresh, not_elem_of_dom in Hal.
      eapply good_new; eauto. by eapply remaining_handles.
    + unfold bind in Hr. by destruct (drop_value c fuel t w) as [[[] ?]|].
  - rewrite N_new_rc_in_result in Hr. destruct (alloc_block a (dom (heap w))) as [l|]; [done|].
    pose proof (good_inv _ Hg) as Hi. cbn [fst snd] in Hi. rewrite HE in Hi.
    destruct (drop_value_owned fuel t _ w Hi) as (w2 & Hd & Hi2 & Hs); [unfold enough in Hf; lia|].
    erewrite bind_done in Hr by exact Hd. injection Hr as <- <-.
    eapply good_shrink; eauto. by eapply remaining_handles.
  - destruct (clone_result fuel E w r Hg Hin Hf Hroom) as (w2 & Hr2 & Hg2). congruence.
  - destruct (addref_result fuel E w r Hg Hin Hf Hroom) as (w2 & Hr2 & Hg2). congruence.
  - destruct (query_result fuel E w r g Hg Hin Hf Hroom) as [(q & w2 & Hr2 & Hg2)|Hr2]; congruence.
  - destruct (query_result fuel E w r g Hg Hin Hf Hroom) as [(q & w2 & Hr2 & Hg2)|Hr2]; congruence.
  - destruct (drop_result fuel E E' w r Hg HE Hf) as (w2 & Hr2 & Hg2 & _). congruence.
Qed.

Lemma good_initial x lg : good ([], mkWorld _ _ _ _ ∅ x lg).
Proof.
  split; cbn; try (intros l o; by rewrite lookup_empty); [|intros r H; by apply not_elem_of_nil in H].
  unfold inv. cbn. unfold heap_refs. rewrite map_to_list_empty. cbn.
  split; [intros l o; by rewrite lookup_empty..|]. intros p H. by apply not_elem_of_nil in H.
Qed.

Lemma reachable_good x lg s : rtc client_step ([], mkWorld _ _ _ _ ∅ x lg) s -> good s.
Proof.
  intros H. remember ([], _) as s0 eqn:E0. assert (Hg : good s0) by (subst; apply good_initial).
  clear E0. induction H as [|s1 s2 s3 Hst _ IH]; [done|]. apply IH. by eapply client_step_good.
Qed.

(** C2: programs over [ComRc] are memory safe.  Whatever a program has
    done so far, starting from no objects, each live object's count is the
    number of handles to it, held by the program or owned by live objects;
    and the next clone, [from_raw_addref], query or drop of a handle it holds returns (no use of
    a dead object, no violation, no endless nesting), provided the counts
    have room. *)
Theorem comrc_programs_are_safe (x : X) (lg : list (event A)) (E : list ComRc) (w : W)
    (r : ComRc) (g : GUID) (fuel : nat) :
  rtc client_step ([], mkWorld _ _ _ _ ∅ x lg) (E, w) ->
  (forall l o, heap w !! l = Some o ->
     1 <= ref_count o /\ ref_count o = refs_to l (map rc_ptr E ++ heap_refs (heap w)))
  /\ (r ∈ E -> enough fuel w -> has_room w r ->
      (exists w', rc_clone c fuel r w = Done (r, w'))
      /\ (exists w', from_raw_addref c fuel (as_ptr r) w = Done (Some r, w'))
      /\ (exists q w', rc_query_interface c fuel r g w = Done (q, w'))
      /\ (exists w', rc_drop c fuel r w = Done (tt, w') /\ shrinks w w')).
Proof.
  intros Hreach. pose proof (reachable_good x lg (E, w) Hreach) as Hg. split.
  - intros l o Hl. pose proof (good_settled _ Hg l o Hl).
    destruct (acct_obj _ _ (good_inv _ Hg) l o Hl) as [Hwf _]. pose proof (wf_count _ _ Hwf).
    pose proof (acct_count _ _ (good_inv _ Hg) l o Hl). split; [widths; lia|done].
  - intros Hr Hf Hroom. split; [|split; [|split]].
    + destruct (clone_result fuel E w r Hg Hr Hf Hroom) as (w' & ? & _). eauto.
    + destruct (addref_result fuel E w r Hg Hr Hf Hroom) as (w' & ? & _). eauto.
    + destruct (query_result fuel E w r g Hg Hr Hf Hroom) as [(q & w' & ? & _)|?]; eauto.
    + destruct (proj1 (elem_of_Permutation _ _) Hr) as [E' HE].
      destruct (drop_result fuel E E' w r Hg HE Hf) as (w' & ? & _ & ?). eauto.
Qed.

(** The ownership graph has no cycle: some rank increases from owner to owned. *)
Definition acyclic (h : gmap loc Obj) : Prop :=
  exists rank : loc -> nat, forall k o p l,
    h !! k = Some o -> p ∈ owned (inner o) -> target p = Some l -> (rank k < rank l)%nat.

Lemma owner_of (h : gmap loc Obj) p :
  p ∈ heap_refs h -> exists k o, h !! k = Some o /\ p ∈ owned (inner o).
Proof.
  unfold heap_refs. intros ([k o] & Hp & Hk)%list_elem_of_bind.
  apply elem_of_map_to_list in Hk. eauto.
Qed.

Lemma unowned_is_empty w :
  good ([], w) -> acyclic (heap w) -> heap w = ∅.
Proof.
  intros [Hi Hz _ _] [rank Hrank]. cbn [fst snd] in *.
  assert (Hno : forall n l o, rank l = n -> heap w !! l = Some o -> False).
  { induction n as [n IH] using lt_wf_ind. intros l o Hn Hl.
    pose proof (Hz l o Hl) as Hnz. pose proof (acct_count _ _ Hi l o Hl) as Hc.
    cbn [map app] in Hc. pose proof (refs_to_nonneg l (heap_refs (heap w))).
    destruct (refs_to_pos l (heap_refs (heap w))) as (p & Hp & Ht); [lia|].
    destruct (owner_of _ _ Hp) as (k & ok & Hk & Hown).
    eapply (IH (rank k)); [|done|exact Hk]. rewrite <- Hn. by eapply Hrank. }
  apply map_empty. intros l. destruct (heap w !! l) as [o|] eqn:Hl; [|done].
  exfalso. by eapply Hno.
Qed.

(** C15: no leaks.  When a program has given up all its handles and the
    objects it created do not own each other in a cycle, every object has
    been destroyed. *)
Theorem comrc_programs_do_not_leak (x : X) (lg : list (event A)) (w : W) :
  rtc client_step ([], mkWorld _ _ _ _ ∅ x lg) ([], w) -> acyclic (heap w) -> heap w = ∅.
Proof. intros Hreach. apply unowned_is_empty. by eapply reachable_good. Qed.

(** C16: a Release destroys exactly what it must.  With the references
    accounted for, giving one back returns within as many nested calls as
    there are live objects, keeps every count exact, destroys each object
    that loses its last reference once (its value dropped once, its block
    freed once), leaves no object half destroyed and does not touch the
    objects that were already being destroyed. *)
Theorem release_cascade (n : nat) (R : list ptr) (w : W) (p : ptr) :
  inv (p :: R) w -> (base.size (alive w) < n)%nat ->
  exists v w', Release_of c n p w = Done (v, w') /\ inv R w' /\ shrinks w w'.
Proof. intros. by apply Release_keeps_accounts. Qed.
End Clients.

(** ** A concrete object graph *)

(** A value whose only content is the handles it owns. *)
Record node : Type := mkNode { node_owns : list ptr }.

#[global] Instance node_com : ComImpl nat node := {|
  VTABLE := fun i _ => mkIVtbl IUnknownVtbl_new_primary (demo_iid i);
  query_interface := fun i _ => impl_primary (demo_iid i) [] default_query_interface
|}.
#[global] Instance node_drop : DropGlue node := fun t => (mkNode [], map CallRelease (node_owns t)).
#[global] Instance node_refs : OwnsRefs node.
Proof. refine {| owned := node_owns |}. intros t. by exists (mkNode []). Defined.

Abbreviation node_world := (world nat node demo_alloc Z) (only parsing).

Lemma node_answers l t : answers_itself l (fresh_objectN l 0%nat [] t global_alloc).
Proof.
  intros g q Hq. cbn in Hq. unfold impl_primary in Hq. cbn in Hq.
  destruct (guid_eq g (demo_iid 0)); [|done]. by injection Hq as <-.
Qed.

#[global] Instance node_generated t : GeneratedVtables 0%nat [] t.
Proof. split; [done|]. intros i s; by rewrite lookup_nil. Qed.

Definition node_start : node_world := mkWorld _ _ _ _ ∅ 1 [].
(** A child at location 2, then its owner at location 3. *)
Definition node_child : node_world := write_obj node_start 2 (fresh_objectN 2 0%nat [] (mkNode []) global_alloc).
Definition node_both : node_world :=
  write_obj node_child 3 (fresh_objectN 3 0%nat [] (mkNode [obj 2]) global_alloc).

Lemma node_reach_both :
  rtc (client_step demo_cfg) ([], node_start) ([mkRc (obj 3)], node_both).
Proof.
  eapply rtc_l.
  { apply (step_new demo_cfg 5 0%nat [] (mkNode []) global_alloc (mkRc (obj 2)) [] [] node_start node_child);
      [apply _|intros l; apply node_answers|done|reflexivity]. }
  eapply rtc_l; [|apply rtc_refl].
  apply (step_new demo_cfg 5 0%nat [] (mkNode [obj 2]) global_alloc (mkRc (obj 3)) _ [] node_child node_both);
    [apply _|intros l; apply node_answers|done|reflexivity].
Qed.

Lemma comrc_programs_are_safe_witness :
  exists w', rc_drop demo_cfg 5 (mkRc (obj 3)) node_both = Done (tt, w') /\ shrinks node_both w'.
Proof.
  apply (comrc_programs_are_safe demo_cfg 1 [] [mkRc (obj 3)] node_both (mkRc (obj 3)) (demo_iid 0) 5).
  - apply node_reach_both.
  - left.
  - unfold enough. vm_compute. lia.
  - intros l o [= <-] Hl. vm_compute in Hl. injection Hl as <-. reflexivity.
Defined.

Lemma comrc_programs_do_not_leak_witness :
  heap (mkWorld nat node demo_alloc Z ∅ 1
    [DropInner 3; DropInner 2; Dealloc global_alloc 2; Dealloc global_alloc 3]) = ∅.
Proof.
  apply (comrc_programs_do_not_leak demo_cfg 1 []).
  - eapply rtc_r; [apply node_reach_both|].
    apply (step_drop demo_cfg 5 (mkRc (obj 3))); [done|unfold enough; vm_compute; lia|reflexivity].
  - exists (fun _ => 0%nat). intros k o p l Hk. cbn [heap] in Hk. by rewrite lookup_empty in Hk.
Defined.

Lemma release_cascade_witness :
  exists v w', Release_of demo_cfg 3 (obj 3) node_both = Done (v, w') /\ inv [] w' /\ shrinks node_both w'.
Proof.
  apply (release_cascade demo_cfg 3 [] node_both (obj 3)).
  - exact (good_inv _ (reachable_good demo_cfg 1 [] _ node_reach_both)).
  - vm_compute. lia.
Defined.
