(* ===== verification/Programs.v ===== *)
(** * Concurrent programs

    The parts of [src/src/executor.rs] that run on several processors at once
    are modelled as trees of atomic operations.  This file holds what the
    models share: the trees over any set of operations, a program logic that
    checks a tree one operation at a time, and sums over the threads of a
    system, by which references and duties are counted. *)

From S2P Require Import Prelude.

(** ** Trees of operations *)

Section Trees.
Context {O : Type} {R : O -> Type}.

(** Each operation is continued by its response. *)
Inductive program (A : Type) : Type :=
| Ret (a : A)
| Vis (o : O) (k : R o -> program A).

Fixpoint pbind {A B : Type} (p : program A) (f : A -> program B) : program B :=
  match p with
  | Ret _ a => f a
  | Vis _ o k => Vis _ o (fun r => pbind (k r) f)
  end.

Definition act (o : O) : program (R o) := Vis _ o (fun r => Ret _ r).

(** Every operation the program may perform satisfies [P]. *)
Fixpoint all_ops {A : Type} (P : O -> Prop) (p : program A) : Prop :=
  match p with
  | Ret _ _ => True
  | Vis _ o k => P o /\ forall r, all_ops P (k r)
  end.

Lemma all_ops_bind {A B : Type} P (p : program A) (f : A -> program B) :
  all_ops P p -> (forall a, all_ops P (f a)) -> all_ops P (pbind p f).
Proof.
  intros Hp Hf. induction p as [a|o k IH]; cbn in *; [done|]. destruct Hp as [Ho Hk].
  split; [done|]. intros r. by apply IH.
Qed.
End Trees.
Arguments program {O} R A : assert.
Arguments Ret {O R A} a : assert.
Arguments Vis {O R A} o k : assert.

Declare Scope prog_scope.
Delimit Scope prog_scope with prog.
Notation "x <- p ; q" := (pbind p (fun x => q))
  (at level 100, p at next level, q at level 200, right associativity) : prog_scope.
Notation "p ;; q" := (pbind p (fun _ => q))
  (at level 100, q at level 200, right associativity) : prog_scope.

(** ** A program logic

    A thread carries a ghost description of type [G]; [lp o g K] says that
    operation [o] may be performed by a thread described by [g], and that
    [K] holds of its response and of the description it leaves. *)
Section Logic.
Context {O : Type} {R : O -> Type} {G : Type}.
Context (lp : forall o : O, G -> (R o -> G -> Prop) -> Prop).
Context (lp_mono : forall o g (K K' : R o -> G -> Prop),
  (forall r g', K r g' -> K' r g') -> lp o g K -> lp o g K').

Fixpoint wp {A : Type} (p : program R A) (g : G) (Q : A -> G -> Prop) : Prop :=
  match p with
  | Ret a => Q a g
  | Vis o k => lp o g (fun r g' => wp (k r) g' Q)
  end.

Lemma wp_mono {A : Type} (p : program R A) g (Q Q' : A -> G -> Prop) :
  (forall a g', Q a g' -> Q' a g') -> wp p g Q -> wp p g Q'.
Proof using lp_mono.
  intros H. revert g. induction p as [a|o k IH]; intros g; cbn; [auto|].
  apply lp_mono. intros r g'. apply IH.
Qed.

Lemma wp_bind {A B : Type} (p : program R A) (f : A -> program R B) g (Q : B -> G -> Prop) :
  wp p g (fun a g' => wp (f a) g' Q) -> wp (pbind p f) g Q.
Proof using lp_mono.
  revert g. induction p as [a|o k IH]; intros g; cbn; [auto|].
  apply lp_mono. intros r g'. apply IH.
Qed.
End Logic.

(** The monotonicity of a concrete [lp], whose clauses are built from
    conjunctions, disjunctions and existentials. *)
Ltac lp_monotone :=
  repeat match goal with
         | |- _ \/ _ -> _ => intros [?|?]; [left|right]
         | H : exists _, _ |- _ => destruct H as [? ?]
         | H : _ /\ _ |- _ => destruct H as [? ?]
         | |- exists _, _ => eexists
         | |- _ /\ _ => split
         | _ => progress intros
         end; eauto.

(** ** Sums over threads *)

Section Sums.
Context {G : Type}.

Definition total (f : G -> nat) (gs : list G) : Z := Z.of_nat (sum_list_with f gs).

Lemma sum_insert f (gs : list G) i g g' :
  gs !! i = Some g -> total f (<[i := g']> gs) + Z.of_nat (f g) = total f gs + Z.of_nat (f g').
Proof.
  unfold total. revert i. induction gs as [|x gs IH]; intros [|i] Hi; try done.
  - injection Hi as ->. cbn. lia.
  - specialize (IH i Hi). change (<[S i := g']> (x :: gs)) with (x :: <[i := g']> gs).
    cbn [sum_list_with]. lia.
Qed.

Lemma sum_lookup f (gs : list G) i g : gs !! i = Some g -> Z.of_nat (f g) <= total f gs.
Proof.
  unfold total. revert i. induction gs as [|x gs IH]; intros [|i] Hi; cbn in *; try done.
  - injection Hi as ->. lia.
  - specialize (IH i Hi). lia.
Qed.

Lemma sum_snoc f (gs : list G) g : total f (gs ++ [g]) = total f gs + Z.of_nat (f g).
Proof. unfold total. induction gs as [|x gs IH]; cbn in *; lia. Qed.

Lemma total_nonneg f (gs : list G) : 0 <= total f gs.
Proof. unfold total. lia. Qed.

Lemma total_zero f (gs : list G) : Forall (fun g => f g = 0%nat) gs -> total f gs = 0.
Proof. unfold total. induction 1 as [|g gs Hg _ IH]; cbn; lia. Qed.

(** A thread that contributes when the sum is zero does not exist. *)
Lemma total_zero_at f (gs : list G) i g : total f gs = 0 -> gs !! i = Some g -> f g = 0%nat.
Proof. intros Hz Hi. pose proof (sum_lookup f gs i g Hi). lia. Qed.
End Sums.

Abbreviation flag := Z.b2z.

Lemma flag_range b : 0 <= flag b <= 1.
Proof. destruct b; cbn; lia. Qed.
