(* ===== verification/Executor.v ===== *)
(** * The DPC executor

    Models the DPC task of [src/src/executor.rs]: [TaskHeader] with its
    reference count, its [scheduled], [completed] and [cancel_requested]
    words and its DPC object, the waker vtable, [CancelHandle] and the spawn
    functions, as programs over atomic operations, and their interleavings.

    A program is a tree of atomic operations on the task ([Vis]), each
    continued by its response.  A system is the memory of one task and the
    program counters of the threads working on it; a schedule says which
    thread runs next, when the kernel dispatches the queued DPC and when the
    environment uses a waker or a handle it was given.  Memory orderings are
    not modelled: atomic operations interleave. *)

From S2P Require Import Prelude Programs Status Refcount.

(** ** Processor numbers and the task budget *)

Definition MAX_PROC_PER_GROUP : Z := 64.
Definition MAX_GROUP_COUNT : Z := 64.
Definition MAX_CPU_COUNT : Z := MAX_PROC_PER_GROUP * MAX_GROUP_COUNT.

(** [current_cpu_index], given what [KeGetCurrentProcessorNumberEx] stores. *)
Definition current_cpu_index (group number : Z) : option Z :=
  if (MAX_GROUP_COUNT <=? group) || (MAX_PROC_PER_GROUP <=? number) then None
  else Some (group * MAX_PROC_PER_GROUP + number).

Definition DEFAULT_TASK_BUDGET_POLLS : Z := 64.
Definition DEFAULT_TASK_BUDGET_TIME_US : Z := 200.
Definition TASK_BUDGET_MODE_POLLS : Z := 0.
Definition TASK_BUDGET_MODE_TIME_US : Z := 1.
Definition TASK_BUDGET_TIME_CHECK_INTERVAL : Z := 8.

Inductive TaskBudget : Type :=
| Polls (n : Z)
| TimeUs (us : Z).

(** The three budget statics. *)
Record budget : Type := mkBudget {
  budget_mode : Z;
  budget_polls : Z;
  budget_time_us : Z
}.

Definition default_budget : budget :=
  mkBudget TASK_BUDGET_MODE_POLLS DEFAULT_TASK_BUDGET_POLLS DEFAULT_TASK_BUDGET_TIME_US.

Definition set_task_budget (b : TaskBudget) (s : budget) : budget :=
  match b with
  | Polls polls => mkBudget TASK_BUDGET_MODE_POLLS polls (budget_time_us s)
  | TimeUs us => mkBudget TASK_BUDGET_MODE_TIME_US (budget_polls s) us
  end.

(** The pool tag static, "kcom", and its setter. *)
Definition DEFAULT_TASK_TAG : Z := 0x6D6F636B.
Definition set_task_alloc_tag (tag _old : Z) : Z := tag.

(** [a.saturating_mul(b)] and [a.wrapping_sub(b)] on [u64]. *)
Definition u64_saturating_mul (a b : Z) : Z := Z.min (a * b) u64_MAX.
Definition u64_wrapping_sub (a b : Z) : Z := wrap 64 (a - b).

(** ** Programs over atomic operations *)

(** What a future does with its waker while it is polled. *)
Inductive poll_action : Type :=
| ActClone           (* clones the waker and keeps the clone *)
| ActWakeByRef
| ActTakeCancel      (* [take_cancellation_request] *)
| ActIsCancelled.    (* [is_cancellation_requested] *)

Inductive Poll : Type := PollReady (status : NTSTATUS) | PollPending.

Inductive op : Type :=
| RefAdd | RefSub
| LoadCompleted | StoreCompleted
| CasScheduled | LoadScheduled | ClearScheduled
| CasCancel (old new : Z) | LoadCancel
| InsertDpc
| PollBegin | PollEnd | DropFuture | Dealloc
| TrackerComplete
| SetCurrent (cpu : Z) | ClearCurrent (cpu : Z) | LoadCurrent (cpu : Z)
| GiveWaker                    (* a reference is handed to the environment *)
| LoadBudgetMode | LoadBudgetPolls | LoadBudgetTime
| QueryPerformanceCounter      (* counter and frequency *)
| NoFuel.

Definition resp (o : op) : Type :=
  match o with
  | RefAdd | RefSub | LoadCompleted | LoadScheduled | LoadCancel => Z
  | CasScheduled | CasCancel _ _ | InsertDpc | LoadCurrent _ => bool
  | PollBegin => list poll_action * Poll
  | LoadBudgetMode | LoadBudgetPolls | LoadBudgetTime => Z
  | QueryPerformanceCounter => Z * Z
  | _ => unit
  end.

Abbreviation prog := (program resp).
Abbreviation act := (Programs.act (R:=resp)).
#[local] Open Scope prog_scope.

(** ** TaskHeader *)

Definition task_add_ref : prog unit :=
  _ <- act RefAdd ; Ret tt.

(** [Task::destroy_shim]: drops the future, or frees the block. *)
Inductive DestroyMode : Type := DestroyDrop | DestroyDealloc.
Definition destroy_shim (mode : DestroyMode) : prog unit :=
  match mode with
  | DestroyDrop => act DropFuture
  | DestroyDealloc => act Dealloc
  end.

Definition task_release : prog unit :=
  count <- act RefSub ;
  if negb (count =? 0) then Ret tt
  else
    completed <- act LoadCompleted ;
    if completed =? 0 then
      act StoreCompleted ;;
      destroy_shim DestroyDrop ;;
      destroy_shim DestroyDealloc ;;
      act TrackerComplete
    else
      destroy_shim DestroyDealloc ;;
      act TrackerComplete.

Definition queue_dpc : prog unit :=
  task_add_ref ;;
  inserted <- act InsertDpc ;
  if negb inserted then task_release else Ret tt.

Definition task_schedule : prog unit :=
  completed <- act LoadCompleted ;
  if negb (completed =? 0) then Ret tt
  else
    ok <- act CasScheduled ;
    if negb ok then Ret tt
    else
      task_add_ref ;;
      inserted <- act InsertDpc ;
      if negb inserted then task_release else Ret tt.

Definition task_cancel : prog unit :=
  ok <- act (CasCancel 0 1) ;
  if ok then task_schedule else Ret tt.

(** Creating a waker takes a reference. *)
Definition raw_waker : prog unit := task_add_ref.
Definition clone_raw : prog unit := raw_waker.
Definition wake_raw : prog unit := task_schedule ;; task_release.
Definition wake_by_ref_raw : prog unit := task_schedule.
Definition drop_raw : prog unit := task_release.

(** ** Cancellation from inside a poll *)

Definition DISPATCH_LEVEL : Z := 2.

(** [irql] is what [KeGetCurrentIrql] returns, [cpu] what
    [current_cpu_index] returns. *)
Definition is_cancellation_requested (irql : Z) (cpu : option Z) : prog bool :=
  if irql <? DISPATCH_LEVEL then Ret false
  else match cpu with
       | None => Ret false
       | Some cpu_index =>
           set <- act (LoadCurrent cpu_index) ;
           if negb set then Ret false
           else v <- act LoadCancel ; Ret (negb (v =? 0))
       end.

Definition take_cancellation_request (irql : Z) (cpu : option Z) : prog bool :=
  if irql <? DISPATCH_LEVEL then Ret false
  else match cpu with
       | None => Ret false
       | Some cpu_index =>
           set <- act (LoadCurrent cpu_index) ;
           if negb set then Ret false
           else act (CasCancel 1 2)
       end.

(** ** Polling *)

Fixpoint run_actions (cpu : option Z) (acts : list poll_action) : prog unit :=
  match acts with
  | [] => Ret tt
  | ActClone :: acts => clone_raw ;; act GiveWaker ;; run_actions cpu acts
  | ActWakeByRef :: acts => wake_by_ref_raw ;; run_actions cpu acts
  | ActTakeCancel :: acts => take_cancellation_request DISPATCH_LEVEL cpu ;; run_actions cpu acts
  | ActIsCancelled :: acts => is_cancellation_requested DISPATCH_LEVEL cpu ;; run_actions cpu acts
  end.

(** [vtable.poll]: the future runs, using its waker, and returns. *)
Definition poll_shim (cpu : option Z) : prog Poll :=
  script <- act PollBegin ;
  run_actions cpu (fst script) ;;
  act PollEnd ;;
  Ret (snd script).

Definition set_current_task (cpu : option Z) : prog unit :=
  match cpu with Some i => act (SetCurrent i) | None => Ret tt end.
Definition clear_current_task (cpu : option Z) : prog unit :=
  match cpu with Some i => act (ClearCurrent i) | None => Ret tt end.

(** The budget check after a poll that returned pending with a wake-up:
    whether the budget is exhausted, and the updated counters. *)
Definition check_budget (mode poll_budget ticks start counter : Z) : prog (bool * Z * Z) :=
  if mode =? TASK_BUDGET_MODE_POLLS then
    if poll_budget =? 0 then Ret (true, poll_budget, counter)
    else Ret (false, poll_budget - 1, counter)
  else
    let counter := wrap 32 (counter + 1) in
    if counter mod TASK_BUDGET_TIME_CHECK_INTERVAL =? 0 then
      now <- act QueryPerformanceCounter ;
      let elapsed := u64_wrapping_sub (wrap 64 (fst now)) start in
      Ret (ticks <=? elapsed, poll_budget, counter)
    else Ret (false, poll_budget, counter).

(** The poll loop of [dpc_routine]; [fuel] bounds the number of iterations. *)
Fixpoint dpc_loop (fuel : nat) (cpu : option Z) (mode poll_budget ticks start counter : Z)
    : prog unit :=
  match fuel with
  | O => act NoFuel
  | S fuel =>
      poll <- poll_shim cpu ;
      match poll with
      | PollReady _status =>
          act StoreCompleted ;;
          destroy_shim DestroyDrop ;;
          clear_current_task cpu ;;
          task_release
      | PollPending =>
          scheduled <- act LoadScheduled ;
          if scheduled =? 0 then clear_current_task cpu ;; task_release
          else
            b <- check_budget mode poll_budget ticks start counter ;
            let '(exhausted, poll_budget, counter) := b in
            if exhausted then
              queue_dpc ;;
              clear_current_task cpu ;;
              task_release
            else
              act ClearScheduled ;;
              dpc_loop fuel cpu mode poll_budget ticks start counter
      end
  end.

(** The time budget in ticks and the start time, read at the beginning. *)
Definition time_budget (mode : Z) : prog (Z * Z) :=
  if mode =? TASK_BUDGET_MODE_TIME_US then
    q <- act QueryPerformanceCounter ;
    let freq := if snd q <=? 0 then 1 else snd q in
    budget_us <- act LoadBudgetTime ;
    let ticks := u64_saturating_mul budget_us freq / 1000000 in
    Ret (ticks, wrap 64 (fst q))
  else Ret (0, 0).

Definition dpc_routine (fuel : nat) (cpu : option Z) : prog unit :=
  act ClearScheduled ;;
  completed <- act LoadCompleted ;
  if negb (completed =? 0) then task_release
  else
    raw_waker ;;
    set_current_task cpu ;;
    budget_mode <- act LoadBudgetMode ;
    poll_budget <- act LoadBudgetPolls ;
    times <- time_budget budget_mode ;
    dpc_loop fuel cpu budget_mode poll_budget (fst times) (snd times) 0 ;;
    (* the local waker is dropped when the routine returns *)
    drop_raw.

(** ** Handles and spawning *)

(** [CancelHandle::new] takes the reference it hands out. *)
Definition CancelHandle_new : prog unit := task_add_ref ;; act GiveWaker.
Definition CancelHandle_cancel : prog unit := task_cancel.
Definition CancelHandle_is_cancelled : prog bool :=
  v <- act LoadCancel ; Ret (negb (v =? 0)).
Definition CancelHandle_drop : prog unit := task_release.

(** The spawn functions once [Task::allocate] has succeeded. *)
Definition spawn_dpc_task_cancellable : prog unit :=
  CancelHandle_new ;; task_schedule ;; task_release.
Definition spawn_dpc_task_tracked : prog unit :=
  task_schedule ;; task_release.
