(* ===== verification/ExecutorSem.v ===== *)
(** * Interleavings of the DPC executor

    The memory of one task, the effect of each atomic operation on it, and
    the schedules of threads, DPC dispatches and environment actions.  The
    semantics is executable: [run] plays a schedule. *)

From S2P Require Import Prelude Programs Status Refcount Executor.

(** ** The memory of a task *)

Record task_mem : Type := mkMem {
  m_ref_count : Z;
  m_scheduled : Z;
  m_completed : Z;
  m_cancel : Z;
  m_queued : bool;         (* the DPC object is in a DPC queue *)
  m_freed : bool;          (* the block has been deallocated *)
  m_future : bool;         (* [future] has not been dropped *)
  m_polling : bool;        (* a poll of [future] is in progress *)
  m_polled : bool;         (* a poll of [future] has begun *)
  m_ready : bool;          (* the last poll of [future] answers ready *)
  m_current : gset Z;      (* the entries of [CURRENT_TASKS] that point here *)
  m_given : nat;           (* references held by the environment *)
  m_tracked : nat;         (* calls of [task_tracker_complete] *)
  m_budget : budget;
  m_owed : bool;           (* no poll has begun since the last wake-up *)
  m_use_after_free : bool; (* an operation used the block after it was freed *)
  m_bad_future : bool      (* the future was polled or dropped when it must not be *)
}.

(** The task [Task::allocate] writes, which is owed its first poll; [None]
    when the allocation failed. *)
Definition task_fresh (b : budget) : task_mem :=
  mkMem 1 0 0 0 false false true false false false ∅ 0 0 b true false false.
Definition task_allocate (block : option unit) (b : budget) : result task_mem NTSTATUS :=
  match block with
  | None => Err STATUS_INSUFFICIENT_RESOURCES
  | Some _ => Ok (task_fresh b)
  end.

Definition upd_ref_count (n : Z) (m : task_mem) : task_mem :=
  mkMem n (m_scheduled m) (m_completed m) (m_cancel m) (m_queued m) (m_freed m) (m_future m)
    (m_polling m) (m_polled m) (m_ready m) (m_current m) (m_given m) (m_tracked m) (m_budget m)
    (m_owed m) (m_use_after_free m) (m_bad_future m).
Definition upd_scheduled (n : Z) (m : task_mem) : task_mem :=
  mkMem (m_ref_count m) n (m_completed m) (m_cancel m) (m_queued m) (m_freed m) (m_future m)
    (m_polling m) (m_polled m) (m_ready m) (m_current m) (m_given m) (m_tracked m) (m_budget m)
    (m_owed m) (m_use_after_free m) (m_bad_future m).
Definition upd_completed (n : Z) (m : task_mem) : task_mem :=
  mkMem (m_ref_count m) (m_scheduled m) n (m_cancel m) (m_queued m) (m_freed m) (m_future m)
    (m_polling m) (m_polled m) (m_ready m) (m_current m) (m_given m) (m_tracked m) (m_budget m)
    (m_owed m) (m_use_after_free m) (m_bad_future m).
Definition upd_cancel (n : Z) (m : task_mem) : task_mem :=
  mkMem (m_ref_count m) (m_scheduled m) (m_completed m) n (m_queued m) (m_freed m) (m_future m)
    (m_polling m) (m_polled m) (m_ready m) (m_current m) (m_given m) (m_tracked m) (m_budget m)
    (m_owed m) (m_use_after_free m) (m_bad_future m).
Definition upd_queued (b : bool) (m : task_mem) : task_mem :=
  mkMem (m_ref_count m) (m_scheduled m) (m_completed m) (m_cancel m) b (m_freed m) (m_future m)
    (m_polling m) (m_polled m) (m_ready m) (m_current m) (m_given m) (m_tracked m) (m_budget m)
    (m_owed m) (m_use_after_free m) (m_bad_future m).
Definition upd_freed (m : task_mem) : task_mem :=
  mkMem (m_ref_count m) (m_scheduled m) (m_completed m) (m_cancel m) (m_queued m) true (m_future m)
    (m_polling m) (m_polled m) (m_ready m) (m_current m) (m_given m) (m_tracked m) (m_budget m)
    (m_owed m) (m_use_after_free m) (m_bad_future m).
(** The state of the future; [bad] when the operation broke its contract. *)
Definition upd_future (alive polling polled ready bad : bool) (m : task_mem) : task_mem :=
  mkMem (m_ref_count m) (m_scheduled m) (m_completed m) (m_cancel m) (m_queued m) (m_freed m) alive
    polling polled ready (m_current m) (m_given m) (m_tracked m) (m_budget m) (m_owed m)
    (m_use_after_free m) (m_bad_future m || bad).
Definition upd_current (s : gset Z) (m : task_mem) : task_mem :=
  mkMem (m_ref_count m) (m_scheduled m) (m_completed m) (m_cancel m) (m_queued m) (m_freed m)
    (m_future m) (m_polling m) (m_polled m) (m_ready m) s (m_given m) (m_tracked m) (m_budget m)
    (m_owed m) (m_use_after_free m) (m_bad_future m).
Definition upd_given (n : nat) (m : task_mem) : task_mem :=
  mkMem (m_ref_count m) (m_scheduled m) (m_completed m) (m_cancel m) (m_queued m) (m_freed m)
    (m_future m) (m_polling m) (m_polled m) (m_ready m) (m_current m) n (m_tracked m) (m_budget m)
    (m_owed m) (m_use_after_free m) (m_bad_future m).
Definition upd_tracked (n : nat) (m : task_mem) : task_mem :=
  mkMem (m_ref_count m) (m_scheduled m) (m_completed m) (m_cancel m) (m_queued m) (m_freed m)
    (m_future m) (m_polling m) (m_polled m) (m_ready m) (m_current m) (m_given m) n (m_budget m)
    (m_owed m) (m_use_after_free m) (m_bad_future m).
Definition upd_owed (b : bool) (m : task_mem) : task_mem :=
  mkMem (m_ref_count m) (m_scheduled m) (m_completed m) (m_cancel m) (m_queued m) (m_freed m)
    (m_future m) (m_polling m) (m_polled m) (m_ready m) (m_current m) (m_given m) (m_tracked m)
    (m_budget m) b (m_use_after_free m) (m_bad_future m).
Definition touch (m : task_mem) : task_mem :=
  mkMem (m_ref_count m) (m_scheduled m) (m_completed m) (m_cancel m) (m_queued m) (m_freed m)
    (m_future m) (m_polling m) (m_polled m) (m_ready m) (m_current m) (m_given m) (m_tracked m)
    (m_budget m) (m_owed m) (m_use_after_free m || m_freed m) (m_bad_future m).

(** ** The effect of an operation *)

Definition is_ready (p : Poll) : bool := match p with PollReady _ => true | PollPending => false end.

(** What the environment decides: the behaviour of the future in a poll, and
    the performance counter. *)
Record oracle : Type := mkOracle {
  or_poll : list poll_action * Poll;
  or_counter : Z * Z
}.

(** Operations that do not access the block of the task. *)
Definition outside (o : op) : bool :=
  match o with
  | TrackerComplete | SetCurrent _ | ClearCurrent _ | LoadCurrent _ | GiveWaker
  | LoadBudgetMode | LoadBudgetPolls | LoadBudgetTime | QueryPerformanceCounter | NoFuel => true
  | _ => false
  end.

Definition exec (c : config) (o : op) (x : oracle) (m0 : task_mem) : outcome (resp o * task_mem) :=
  let m := if outside o then m0 else touch m0 in
  match o return outcome (resp o * task_mem) with
  | RefAdd =>
      match Refcount.add c (m_ref_count m) with
      | Done (v, n) => Done (v, upd_ref_count n m)
      | Fault f => Fault f
      end
  | RefSub =>
      match Refcount.sub c (m_ref_count m) with
      | Done (v, n) => Done (v, upd_ref_count n m)
      | Fault f => Fault f
      end
  | LoadCompleted => Done (m_completed m, m)
  | StoreCompleted => Done (tt, upd_completed 1 m)
  | CasScheduled =>
      if m_scheduled m =? 0 then Done (true, upd_owed true (upd_scheduled 1 m))
      else Done (false, upd_owed true m)
  | LoadScheduled => Done (m_scheduled m, m)
  | ClearScheduled => Done (tt, upd_scheduled 0 m)
  | CasCancel old new =>
      if m_cancel m =? old then Done (true, upd_cancel new m) else Done (false, m)
  | LoadCancel => Done (m_cancel m, m)
  | InsertDpc =>
      if m_queued m then Done (false, m) else Done (true, upd_queued true m)
  | PollBegin =>
      let r := or_poll x in
      let bad := negb (m_future m) || m_polling m || m_ready m in
      Done (r, upd_owed false (upd_future (m_future m) true true (is_ready (snd r)) bad m))
  | PollEnd =>
      Done (tt, upd_future (m_future m) false (m_polled m) (m_ready m) (negb (m_polling m)) m)
  | DropFuture =>
      let bad := negb (m_future m) || m_polling m || negb (m_polled m) in
      Done (tt, upd_future false (m_polling m) (m_polled m) (m_ready m) bad m)
  | Dealloc => Done (tt, upd_freed m)
  | TrackerComplete => Done (tt, upd_tracked (S (m_tracked m)) m)
  | SetCurrent cpu => Done (tt, upd_current ({[ cpu ]} ∪ m_current m) m)
  | ClearCurrent cpu => Done (tt, upd_current (m_current m ∖ {[ cpu ]}) m)
  | LoadCurrent cpu => Done (bool_decide (cpu ∈ m_current m), m)
  | GiveWaker => Done (tt, upd_given (S (m_given m)) m)
  | LoadBudgetMode => Done (budget_mode (m_budget m), m)
  | LoadBudgetPolls => Done (budget_polls (m_budget m), m)
  | LoadBudgetTime => Done (budget_time_us (m_budget m), m)
  | QueryPerformanceCounter => Done (or_counter x, m)
  | NoFuel => Fault OutOfFuel
  end.

(** ** Systems and schedules *)

(** A thread: whether it is a DPC routine, and the rest of its program. *)
Record thread : Type := mkThread { th_dpc : bool; th_prog : prog unit }.

Record sys : Type := mkSys { s_mem : task_mem; s_threads : list thread }.

(** What the environment does with a reference it holds: a waker is woken,
    woken by reference, cloned or dropped, a handle is used or dropped. *)
Inductive env_action : Type :=
| EnvWake | EnvWakeByRef | EnvClone | EnvDropWaker
| EnvCancel | EnvIsCancelled | EnvDropHandle.

#[local] Open Scope prog_scope.
Definition env_prog (a : env_action) : prog unit :=
  match a with
  | EnvWake => wake_raw
  | EnvWakeByRef => wake_by_ref_raw ;; act GiveWaker
  | EnvClone => clone_raw ;; act GiveWaker ;; act GiveWaker
  | EnvDropWaker => drop_raw
  | EnvCancel => CancelHandle_cancel ;; act GiveWaker
  | EnvIsCancelled => CancelHandle_is_cancelled ;; act GiveWaker
  | EnvDropHandle => CancelHandle_drop
  end.
#[local] Close Scope prog_scope.

Inductive event : Type :=
| Run (i : nat) (x : oracle)          (* thread [i] performs its next operation *)
| Dispatch (fuel : nat) (cpu : option Z)  (* the kernel starts the queued DPC *)
| Env (a : env_action).

Definition running (t : thread) : bool :=
  match th_prog t with Ret _ => false | Vis _ _ => true end.

(** [serial]: whether the kernel only dispatches the DPC when no routine of
    this DPC object is running. *)
Definition can_dispatch (serial : bool) (s : sys) : bool :=
  m_queued (s_mem s)
  && (negb serial || negb (existsb (fun t => th_dpc t && running t) (s_threads s))).

Definition step (c : config) (serial : bool) (e : event) (s : sys) : option sys :=
  match e with
  | Run i x =>
      match s_threads s !! i with
      | Some (mkThread d (Vis o k)) =>
          match exec c o x (s_mem s) with
          | Done (r, m) => Some (mkSys m (<[i := mkThread d (k r)]> (s_threads s)))
          | Fault _ => None
          end
      | _ => None
      end
  | Dispatch fuel cpu =>
      if can_dispatch serial s then
        Some (mkSys (upd_queued false (s_mem s))
                    (s_threads s ++ [mkThread true (dpc_routine fuel cpu)]))
      else None
  | Env a =>
      match m_given (s_mem s) with
      | O => None
      | S n => Some (mkSys (upd_given n (s_mem s)) (s_threads s ++ [mkThread false (env_prog a)]))
      end
  end.

Fixpoint run (c : config) (serial : bool) (es : list event) (s : sys) : option sys :=
  match es with
  | [] => Some s
  | e :: es => match step c serial e s with Some s' => run c serial es s' | None => None end
  end.

(** A task that has just been allocated, about to be published by one of the
    spawn functions. *)
Definition spawned (b : budget) (p : prog unit) : sys := mkSys (task_fresh b) [mkThread false p].
