(* ===== verification/ExecutorSafety.v ===== *)
(** * Safety of the DPC executor

    Every thread is given a ghost description: the references it owns, the
    wake-up it has promised to deliver, the poll it is bound to bring about,
    and its rights on the future.  [wp]
    checks a program against these descriptions one atomic operation at a
    time, independently of the other threads; the global invariant relates
    the sum of the descriptions to the memory of the task.  A program that
    passes [wp] keeps the invariant under every schedule. *)

From S2P Require Import Prelude Programs Status Refcount Executor ExecutorSem.

(** ** Ghost descriptions *)

(** References owned; or, once the count reached zero, exclusive ownership
    of the block; after freeing it, the duty to report to the tracker; or
    nothing any more. *)
Inductive mode : Type := Own (n : nat) | Excl | Leaving | Gone.

(** Rights on the future: none; the DPC routine before and after it saw that
    the task is not complete, while polling and after a poll that answers
    ready, and between setting [completed] and dropping the future; the last
    owner before and after it looked at [completed], after setting it, and
    when the future is gone. *)
Inductive cap : Type :=
| CNone | CDpc | CLive | CPolling (ready : bool) | CReady | CMust
| XUnknown | XLive | XMust | XDropped.

(** [g_owes]: the thread has set [scheduled] and must insert the DPC;
    [g_due]: it is bound to set [scheduled] or to poll. *)
Record ghost : Type := mkG { g_mode : mode; g_owes : bool; g_due : bool; g_cap : cap }.

Definition idle (x : cap) : Prop := x = CNone \/ x = CDpc \/ x = CLive.
Definition finished (g : ghost) : Prop :=
  g = mkG (Own 0) false false CNone \/ g = mkG Gone false false CNone.

(** The condition for one operation, and the descriptions it may leave. *)
Definition lp (o : op) (g : ghost) : (resp o -> ghost -> Prop) -> Prop :=
  match o return (resp o -> ghost -> Prop) -> Prop with
  | RefAdd => fun K =>
      exists n, g_mode g = Own (S n)
                /\ forall r, K r (mkG (Own (S (S n))) (g_owes g) (g_due g) (g_cap g))
  | RefSub => fun K =>
      (exists n, g_mode g = Own (S (S n))
                 /\ forall r, r <> 0 -> K r (mkG (Own (S n)) (g_owes g) (g_due g) (g_cap g)))
      \/ (g_mode g = Own 1 /\ g_owes g = false /\ g_due g = false /\ idle (g_cap g)
          /\ (forall r, r <> 0 -> K r (mkG (Own 0) false false CNone))
          /\ K 0 (mkG Excl false false XUnknown))
  | LoadCompleted => fun K =>
      (exists n, g_mode g = Own (S n)
                 /\ (forall r, r <> 0 -> K r (mkG (Own (S n)) (g_owes g) false (g_cap g)))
                 /\ (g_cap g <> CDpc -> K 0 g)
                 /\ (g_cap g = CDpc -> K 0 (mkG (Own (S n)) (g_owes g) (g_due g) CLive)))
      \/ (g = mkG Excl false false XUnknown /\ K 0 (mkG Excl false false XLive)
          /\ forall r, r <> 0 -> K r (mkG Excl false false XDropped))
  | StoreCompleted => fun K =>
      (exists n, g = mkG (Own (S n)) false false CReady /\ K tt (mkG (Own (S n)) false false CMust))
      \/ (g = mkG Excl false false XLive /\ K tt (mkG Excl false false XMust))
  | DropFuture => fun K =>
      (exists n, g = mkG (Own (S n)) false false CMust /\ K tt (mkG (Own (S n)) false false CNone))
      \/ (g = mkG Excl false false XMust /\ K tt (mkG Excl false false XDropped))
  | Dealloc => fun K => g = mkG Excl false false XDropped /\ K tt (mkG Leaving false false CNone)
  | TrackerComplete => fun K => g = mkG Leaving false false CNone /\ K tt (mkG Gone false false CNone)
  | CasScheduled => fun K =>
      exists n, g_mode g = Own (S n) /\ g_owes g = false
                /\ K false (mkG (Own (S n)) false false (g_cap g))
                /\ K true (mkG (Own (S n)) true false (g_cap g))
  | ClearScheduled => fun K =>
      exists n, g_mode g = Own (S n) /\ K tt (mkG (Own (S n)) false true (g_cap g))
  | InsertDpc => fun K =>
      exists n, g_mode g = Own (S (S n))
                /\ K true (mkG (Own (S n)) false (g_due g) (g_cap g))
                /\ K false (mkG (Own (S (S n))) false (g_due g) (g_cap g))
  | PollBegin => fun K =>
      exists n d, g = mkG (Own (S n)) false d CLive
                  /\ forall r, K r (mkG (Own (S n)) false false (CPolling (is_ready (snd r))))
  | PollEnd => fun K =>
      exists n b, g = mkG (Own (S n)) false false (CPolling b)
                  /\ K tt (mkG (Own (S n)) false false (if b then CReady else CLive))
  | GiveWaker => fun K =>
      exists n, g_mode g = Own (S n)
                /\ (g_owes g = false /\ g_due g = false /\ g_cap g = CNone \/ n <> 0%nat)
                /\ K tt (mkG (Own n) (g_owes g) (g_due g) (g_cap g))
  | LoadScheduled => fun K => exists n, g_mode g = Own (S n) /\ forall r, K r g
  | LoadCancel => fun K => exists n, g_mode g = Own (S n) /\ forall r, K r g
  | CasCancel _ _ => fun K => exists n, g_mode g = Own (S n) /\ forall r, K r g
  | NoFuel => fun _ => exists n, g_mode g = Own (S n)
  | _ => fun K => (exists n, g_mode g = Own (S n)) /\ forall r, K r g
  end.

Lemma lp_mono o g (K K' : resp o -> ghost -> Prop) :
  (forall r g', K r g' -> K' r g') -> lp o g K -> lp o g K'.
Proof. intros H. destruct o; cbn; lp_monotone. Qed.

Abbreviation wp := (Programs.wp lp).

Lemma task_wp_bind {A B : Type} (p : prog A) (f : A -> prog B) g (Q : B -> ghost -> Prop) :
  wp p g (fun a g' => wp (f a) g' Q) -> wp (pbind p f) g Q.
Proof. apply wp_bind, lp_mono. Qed.

(** ** The functions of the executor satisfy it *)

Section Functions.
Implicit Types (Q : unit -> ghost -> Prop).

Lemma wp_add_ref n b d x Q :
  Q tt (mkG (Own (S (S n))) b d x) -> wp task_add_ref (mkG (Own (S n)) b d x) Q.
Proof. intros H. cbn. eauto. Qed.

Lemma wp_release_keep n b d x Q :
  Q tt (mkG (Own (S n)) b d x) -> wp task_release (mkG (Own (S (S n))) b d x) Q.
Proof.
  intros H. cbn. left. exists n. split; [done|]. intros r Hr.
  by rewrite (proj2 (Z.eqb_neq r 0) Hr).
Qed.

Lemma wp_release_last x Q :
  idle x -> (forall g, finished g -> Q tt g) -> wp task_release (mkG (Own 1) false false x) Q.
Proof.
  intros Hx H. assert (Hg : Q tt (mkG Gone false false CNone)) by (apply H; by right).
  cbn. right. do 4 (split; [done|]). split.
  - intros r Hr. rewrite (proj2 (Z.eqb_neq r 0) Hr). apply H. by left.
  - cbn. right. split; [done|]. split.
    + cbn. right. split; [done|]. right. split; [done|]. split; [done|]. by split.
    + intros r Hr. rewrite (proj2 (Z.eqb_neq r 0) Hr). cbn. split; [done|]. by split.
Qed.

Lemma wp_insert n b d x Q :
  Q tt (mkG (Own (S n)) false d x) ->
  wp (pbind (act InsertDpc) (fun inserted => if negb inserted then task_release else Ret tt))
    (mkG (Own (S (S n))) b d x) Q.
Proof.
  intros H. cbn [wp pbind act lp g_mode]. exists n. split; [done|]. split; [done|].
  cbn [negb]. by apply wp_release_keep.
Qed.

Lemma wp_queue_dpc n b d x Q :
  Q tt (mkG (Own (S n)) false d x) -> wp queue_dpc (mkG (Own (S n)) b d x) Q.
Proof. intros H. unfold queue_dpc. apply task_wp_bind, wp_add_ref, wp_insert, H. Qed.

(** Scheduling discharges the duty: the task is complete or marked. *)
Lemma wp_schedule n d x Q :
  x <> CDpc -> Q tt (mkG (Own (S n)) false false x) ->
  wp task_schedule (mkG (Own (S n)) false d x) Q.
Proof.
  intros Hx H. cbn [task_schedule wp pbind act lp g_mode g_cap g_owes g_due]. left. exists n.
  split; [done|]. split; [|split; [|done]].
  - intros r Hr. by rewrite (proj2 (Z.eqb_neq r 0) Hr).
  - intros _. cbn [Z.eqb negb wp lp g_mode g_owes]. exists n. split; [done|]. split; [done|].
    split; [done|]. change (wp queue_dpc (mkG (Own (S n)) true false x) Q). by apply wp_queue_dpc.
Qed.

Lemma wp_take_cancel irql cpu n x (Q : bool -> ghost -> Prop) :
  (forall r, Q r (mkG (Own (S n)) false false x)) ->
  wp (take_cancellation_request irql cpu) (mkG (Own (S n)) false false x) Q.
Proof.
  intros H. unfold take_cancellation_request. destruct (irql <? DISPATCH_LEVEL); [apply H|].
  destruct cpu; [|apply H]. cbn. split; [eauto|]. intros [|]; cbn; [|apply H]. eauto.
Qed.

Lemma wp_is_cancelled irql cpu n x (Q : bool -> ghost -> Prop) :
  (forall r, Q r (mkG (Own (S n)) false false x)) ->
  wp (is_cancellation_requested irql cpu) (mkG (Own (S n)) false false x) Q.
Proof.
  intros H. unfold is_cancellation_requested. destruct (irql <? DISPATCH_LEVEL); [apply H|].
  destruct cpu; [|apply H]. cbn. split; [eauto|]. intros [|]; cbn; [|apply H]. eauto.
Qed.

Lemma wp_run_actions cpu acts n b Q :
  Q tt (mkG (Own (S n)) false false (CPolling b)) ->
  wp (run_actions cpu acts) (mkG (Own (S n)) false false (CPolling b)) Q.
Proof.
  intros H. induction acts as [|[] acts IH]; cbn [run_actions]; [done| | | |].
  - apply task_wp_bind, wp_add_ref. cbn. exists (S n). split; [done|]. split; [by right|]. done.
  - apply task_wp_bind, wp_schedule; [done|]. done.
  - apply task_wp_bind, wp_take_cancel. done.
  - apply task_wp_bind, wp_is_cancelled. done.
Qed.

Lemma wp_poll cpu n d (Q : Poll -> ghost -> Prop) :
  (forall r, Q r (mkG (Own (S n)) false false (if is_ready r then CReady else CLive))) ->
  wp (poll_shim cpu) (mkG (Own (S n)) false d CLive) Q.
Proof.
  intros H. unfold poll_shim. cbn [wp pbind act lp]. exists n, d. split; [done|]. intros [acts p].
  apply task_wp_bind, wp_run_actions. cbn. eauto.
Qed.

Lemma wp_clear_current cpu n b d x Q :
  Q tt (mkG (Own (S n)) b d x) -> wp (clear_current_task cpu) (mkG (Own (S n)) b d x) Q.
Proof. destruct cpu; cbn; [|done]. split; [eauto|]. by intros []. Qed.

Lemma wp_set_current cpu n b d x Q :
  Q tt (mkG (Own (S n)) b d x) -> wp (set_current_task cpu) (mkG (Own (S n)) b d x) Q.
Proof. destruct cpu; cbn; [|done]. split; [eauto|]. by intros []. Qed.

Lemma wp_check_budget mode b t s k n o d x (Q : bool * Z * Z -> ghost -> Prop) :
  (forall r, Q r (mkG (Own (S n)) o d x)) -> wp (check_budget mode b t s k) (mkG (Own (S n)) o d x) Q.
Proof.
  intros H. unfold check_budget. destruct (mode =? _); [by destruct (b =? 0); cbn|].
  cbv zeta. destruct (_ =? 0); cbn; eauto.
Qed.

Lemma wp_dpc_loop fuel cpu mode b t s k d Q :
  (forall x, idle x -> Q tt (mkG (Own 1) false false x)) ->
  wp (dpc_loop fuel cpu mode b t s k) (mkG (Own 2) false d CLive) Q.
Proof.
  intros H. revert b k d. induction fuel as [|fuel IH]; intros b k d; [by exists 1%nat|].
  cbn [dpc_loop]. apply task_wp_bind, wp_poll. intros [status|].
  - cbn [wp pbind act lp destroy_shim is_ready]. left. exists 1%nat. split; [done|].
    left. exists 1%nat. split; [done|].
    apply task_wp_bind, wp_clear_current, wp_release_keep, H. by left.
  - cbn [wp pbind act lp g_mode is_ready]. exists 1%nat. split; [done|]. intros r.
    destruct (r =? 0).
    + apply task_wp_bind, wp_clear_current, wp_release_keep, H. by right; right.
    + apply task_wp_bind, wp_check_budget. intros [[[] b'] k'].
      * apply task_wp_bind, wp_queue_dpc, task_wp_bind, wp_clear_current, wp_release_keep, H. by right; right.
      * cbn [wp pbind act lp g_mode]. exists 1%nat. split; [done|]. apply IH.
Qed.

Lemma wp_time_budget mode n o d x (Q : Z * Z -> ghost -> Prop) :
  (forall r, Q r (mkG (Own (S n)) o d x)) -> wp (time_budget mode) (mkG (Own (S n)) o d x) Q.
Proof. intros H. unfold time_budget. destruct (mode =? _); cbn; eauto 6. Qed.

Lemma wp_dpc_routine fuel cpu :
  wp (dpc_routine fuel cpu) (mkG (Own 1) true false CDpc) (fun _ => finished).
Proof.
  unfold dpc_routine. cbn [wp pbind act lp g_mode]. exists 0%nat. split; [done|].
  left. exists 0%nat. split; [done|]. split; [|split; [done|]].
  - intros r Hr. rewrite (proj2 (Z.eqb_neq r 0) Hr). apply wp_release_last; [by right; left|done].
  - intros _. cbn [Z.eqb negb]. apply task_wp_bind, wp_add_ref, task_wp_bind, wp_set_current.
    cbn [wp pbind act lp]. split; [by exists 1%nat|]. intros mode. split; [by exists 1%nat|]. intros polls. apply task_wp_bind, wp_time_budget. intros times.
    apply task_wp_bind, wp_dpc_loop. intros x Hx. by apply wp_release_last.
Qed.

Lemma wp_give Q :
  Q tt (mkG (Own 0) false false CNone) -> wp (act GiveWaker) (mkG (Own 1) false false CNone) Q.
Proof. intros H. cbn. exists 0%nat. split; [done|]. split; [by left|done]. Qed.

Lemma wp_env a : wp (env_prog a) (mkG (Own 1) false false CNone) (fun _ => finished).
Proof.
  destruct a; cbn [env_prog].
  - apply task_wp_bind, wp_schedule; [done|]. apply wp_release_last; [by left|done].
  - apply task_wp_bind, wp_schedule; [done|]. apply wp_give. by left.
  - apply task_wp_bind, wp_add_ref. cbn. exists 1%nat. split; [done|]. split; [by left|].
    exists 0%nat. split; [done|]. split; [by left|]. by left.
  - apply wp_release_last; [by left|done].
  - apply task_wp_bind. cbn [wp task_cancel CancelHandle_cancel pbind act lp g_mode]. exists 0%nat.
    split; [done|]. intros [].
    + apply wp_schedule; [done|]. cbn. exists 0%nat. split; [done|]. split; [by left|]. by left.
    + cbn. exists 0%nat. split; [done|]. split; [by left|]. by left.
  - cbn. exists 0%nat. split; [done|]. intros _. exists 0%nat. split; [done|]. split; [by left|]. by left.
  - apply wp_release_last; [by left|done].
Qed.

(** The thread that spawns is bound to schedule. *)
Lemma wp_spawn_tracked : wp spawn_dpc_task_tracked (mkG (Own 1) false true CNone) (fun _ => finished).
Proof. apply task_wp_bind, wp_schedule; [done|]. apply wp_release_last; [by left|done]. Qed.

Lemma wp_spawn_cancellable :
  wp spawn_dpc_task_cancellable (mkG (Own 1) false true CNone) (fun _ => finished).
Proof.
  unfold spawn_dpc_task_cancellable, CancelHandle_new.
  apply task_wp_bind, task_wp_bind, wp_add_ref. cbn [wp pbind act lp g_mode g_cap]. exists 1%nat.
  split; [done|]. split; [by right|]. apply wp_spawn_tracked.
Qed.
End Functions.

(** ** The global invariant *)

Definition own_of (g : ghost) : nat := match g_mode g with Own n => n | _ => 0 end.
Definition excl_of (g : ghost) : nat := match g_mode g with Excl => 1 | _ => 0 end.
Definition leaving_of (g : ghost) : nat := match g_mode g with Leaving => 1 | _ => 0 end.
Definition owes_of (g : ghost) : nat := if g_owes g then 1 else 0.
Definition due_of (g : ghost) : nat := if g_due g then 1 else 0.
Definition cap_dpc (x : cap) : nat :=
  match x with CDpc | CLive | CPolling _ | CReady | CMust => 1 | _ => 0 end.
Definition cap_live (x : cap) : nat := match x with CLive | XLive => 1 | _ => 0 end.
Definition cap_poll (x : cap) : nat := match x with CPolling _ => 1 | _ => 0 end.
Definition cap_done (x : cap) : nat := match x with CReady => 1 | _ => 0 end.
Definition cap_ready (x : cap) : nat :=
  match x with CPolling b => Nat.b2n b | CReady => 1 | _ => 0 end.
Definition cap_must (x : cap) : nat := match x with CMust | XMust => 1 | _ => 0 end.
Definition cap_gone (x : cap) : nat := match x with XDropped => 1 | _ => 0 end.
Definition cap_wait (x : cap) : nat := match x with CDpc | XUnknown => 1 | _ => 0 end.
Definition cap_excl (x : cap) : nat := match x with XUnknown | XLive | XMust | XDropped => 1 | _ => 0 end.

Abbreviation sum_cap f := (total (fun g => f (g_cap g))).

(** DPC rights and duties come with a reference, exclusive rights with the
    block. *)
Definition wf_ghost (g : ghost) : Prop :=
  (cap_dpc (g_cap g) <= own_of g)%nat /\ cap_excl (g_cap g) = excl_of g
  /\ (owes_of g <= own_of g)%nat /\ (due_of g <= own_of g)%nat.

(** Reports to the tracker made, and still due. *)
Abbreviation unreported gs m := (Z.of_nat (m_tracked m) + total leaving_of gs).

(** The references, the wake-ups, and, when DPC routines of the task do not
    overlap, the future; [flag] turns a boolean into 0 or 1. *)
Record global (serial : bool) (gs : list ghost) (m : task_mem) : Prop := {
  gl_use : flag (m_use_after_free m) = 0;
  gl_refs :
    (flag (m_freed m) = 0 /\ unreported gs m = 0 /\ total excl_of gs = 0 /\ 0 < m_ref_count m
     /\ m_ref_count m = total own_of gs + Z.of_nat (m_given m) + flag (m_queued m))
    \/ (flag (m_freed m) = 0 /\ unreported gs m = 0 /\ total excl_of gs = 1 /\ total own_of gs = 0
        /\ Z.of_nat (m_given m) = 0 /\ flag (m_queued m) = 0 /\ m_ref_count m = 0)
    \/ (flag (m_freed m) = 1 /\ unreported gs m = 1 /\ total excl_of gs = 0 /\ total own_of gs = 0
        /\ Z.of_nat (m_given m) = 0 /\ flag (m_queued m) = 0);
  gl_wake : m_scheduled m <> 0 -> 0 < flag (m_queued m) + total owes_of gs;
  gl_owed : flag (m_owed m) = 1 -> m_completed m = 0 ->
            m_scheduled m <> 0 \/ 0 < total due_of gs;
  gl_first : flag (m_polled m) = 0 ->
             flag (m_owed m) = 1 /\ m_completed m = 0
             /\ sum_cap cap_poll gs = 0 /\ sum_cap cap_done gs = 0;
  gl_wf : Forall wf_ghost gs;
  gl_future : serial = true ->
    sum_cap cap_dpc gs <= 1
    /\ flag (m_bad_future m) = 0
    /\ flag (m_polling m) = sum_cap cap_poll gs
    /\ (m_completed m = 0 -> flag (m_future m) = 1 /\ sum_cap cap_must gs = 0
                            /\ sum_cap cap_gone gs = 0
                            /\ flag (m_ready m) = sum_cap cap_ready gs)
    /\ (m_completed m <> 0 -> sum_cap cap_live gs = 0 /\ sum_cap cap_poll gs = 0
                             /\ sum_cap cap_done gs = 0
                             /\ sum_cap cap_must gs = flag (m_future m))
    /\ (0 < sum_cap cap_gone gs -> flag (m_future m) = 0)
    /\ (flag (m_freed m) = 1 -> flag (m_future m) = 0)
}.

(** A thread follows its description, and only DPC routines have DPC rights. *)
Definition typed (g : ghost) (t : thread) : Prop :=
  wp (th_prog t) g (fun _ => finished) /\ (cap_dpc (g_cap g) = 1%nat -> th_dpc t = true).

Definition Inv (serial : bool) (s : sys) : Prop :=
  exists gs, Forall2 typed gs (s_threads s) /\ global serial gs (s_mem s).

Lemma sum_caps gs :
  Forall wf_ghost gs ->
  sum_cap cap_dpc gs <= total own_of gs
  /\ sum_cap cap_excl gs = total excl_of gs
  /\ sum_cap cap_wait gs + sum_cap cap_live gs + sum_cap cap_poll gs + sum_cap cap_done gs
     + sum_cap cap_must gs + sum_cap cap_gone gs = sum_cap cap_dpc gs + sum_cap cap_excl gs
  /\ total owes_of gs <= total own_of gs /\ total due_of gs <= total own_of gs
  /\ sum_cap cap_done gs <= sum_cap cap_ready gs
  /\ sum_cap cap_ready gs <= sum_cap cap_poll gs + sum_cap cap_done gs.
Proof.
  unfold total. induction gs as [|g gs IH]; intros H; [cbn; lia|].
  apply Forall_cons_iff in H as [(Hd & Hx & Ho & Hu) H]. specialize (IH H). cbn [sum_list_with].
  assert (cap_wait (g_cap g) + cap_live (g_cap g) + cap_poll (g_cap g) + cap_done (g_cap g)
       + cap_must (g_cap g) + cap_gone (g_cap g) = cap_dpc (g_cap g) + cap_excl (g_cap g)
       /\ cap_done (g_cap g) <= cap_ready (g_cap g)
       /\ cap_ready (g_cap g) <= cap_poll (g_cap g) + cap_done (g_cap g))%nat
    by (destruct (g_cap g) as [| | |[]| | | | | |]; cbn; lia).
  lia.
Qed.

(** Replacing the description of one thread. *)
Ltac with_sums i u v Hi :=
  pose proof (sum_insert own_of _ i u v Hi);
  pose proof (sum_insert excl_of _ i u v Hi);
  pose proof (sum_insert leaving_of _ i u v Hi);
  pose proof (sum_insert owes_of _ i u v Hi);
  pose proof (sum_insert due_of _ i u v Hi);
  pose proof (sum_insert (fun g => cap_dpc (g_cap g)) _ i u v Hi);
  pose proof (sum_insert (fun g => cap_live (g_cap g)) _ i u v Hi);
  pose proof (sum_insert (fun g => cap_poll (g_cap g)) _ i u v Hi);
  pose proof (sum_insert (fun g => cap_done (g_cap g)) _ i u v Hi);
  pose proof (sum_insert (fun g => cap_ready (g_cap g)) _ i u v Hi);
  pose proof (sum_insert (fun g => cap_must (g_cap g)) _ i u v Hi);
  pose proof (sum_insert (fun g => cap_gone (g_cap g)) _ i u v Hi);
  pose proof (sum_insert (fun g => cap_wait (g_cap g)) _ i u v Hi);
  pose proof (sum_insert (fun g => cap_excl (g_cap g)) _ i u v Hi).

Ltac bounds gs m :=
  pose proof (flag_range (m_queued m)); pose proof (flag_range (m_freed m));
  pose proof (flag_range (m_future m)); pose proof (flag_range (m_polling m));
  pose proof (flag_range (m_polled m)); pose proof (flag_range (m_ready m));
  pose proof (flag_range (m_owed m));
  pose proof (total_nonneg own_of gs); pose proof (total_nonneg excl_of gs);
  pose proof (total_nonneg leaving_of gs); pose proof (total_nonneg owes_of gs);
  pose proof (total_nonneg due_of gs); pose proof (total_nonneg (fun g => cap_dpc (g_cap g)) gs);
  pose proof (total_nonneg (fun g => cap_live (g_cap g)) gs);
  pose proof (total_nonneg (fun g => cap_poll (g_cap g)) gs);
  pose proof (total_nonneg (fun g => cap_done (g_cap g)) gs);
  pose proof (total_nonneg (fun g => cap_ready (g_cap g)) gs);
  pose proof (total_nonneg (fun g => cap_must (g_cap g)) gs);
  pose proof (total_nonneg (fun g => cap_wait (g_cap g)) gs);
  pose proof (total_nonneg (fun g => cap_gone (g_cap g)) gs).

Ltac lookups i u Hi :=
  pose proof (sum_lookup own_of _ i u Hi); pose proof (sum_lookup excl_of _ i u Hi);
  pose proof (sum_lookup leaving_of _ i u Hi); pose proof (sum_lookup owes_of _ i u Hi);
  pose proof (sum_lookup due_of _ i u Hi);
  pose proof (sum_lookup (fun g => cap_dpc (g_cap g)) _ i u Hi);
  pose proof (sum_lookup (fun g => cap_live (g_cap g)) _ i u Hi);
  pose proof (sum_lookup (fun g => cap_poll (g_cap g)) _ i u Hi);
  pose proof (sum_lookup (fun g => cap_done (g_cap g)) _ i u Hi);
  pose proof (sum_lookup (fun g => cap_ready (g_cap g)) _ i u Hi);
  pose proof (sum_lookup (fun g => cap_must (g_cap g)) _ i u Hi);
  pose proof (sum_lookup (fun g => cap_gone (g_cap g)) _ i u Hi);
  pose proof (sum_lookup (fun g => cap_wait (g_cap g)) _ i u Hi);
  pose proof (sum_lookup (fun g => cap_excl (g_cap g)) _ i u Hi).

Lemma own_of_Own n b d x : own_of (mkG (Own n) b d x) = n.
Proof. reflexivity. Qed.
Lemma own_of_Excl b d x : own_of (mkG Excl b d x) = 0%nat.
Proof. reflexivity. Qed.
Lemma own_of_Gone b d x : own_of (mkG Gone b d x) = 0%nat.
Proof. reflexivity. Qed.
Lemma excl_of_Own n b d x : excl_of (mkG (Own n) b d x) = 0%nat.
Proof. reflexivity. Qed.
Lemma excl_of_Excl b d x : excl_of (mkG Excl b d x) = 1%nat.
Proof. reflexivity. Qed.
Lemma excl_of_Gone b d x : excl_of (mkG Gone b d x) = 0%nat.
Proof. reflexivity. Qed.
Lemma own_of_Leaving b d x : own_of (mkG Leaving b d x) = 0%nat.
Proof. reflexivity. Qed.
Lemma excl_of_Leaving b d x : excl_of (mkG Leaving b d x) = 0%nat.
Proof. reflexivity. Qed.
Lemma leaving_of_Own n b d x : leaving_of (mkG (Own n) b d x) = 0%nat.
Proof. reflexivity. Qed.
Lemma leaving_of_Excl b d x : leaving_of (mkG Excl b d x) = 0%nat.
Proof. reflexivity. Qed.
Lemma leaving_of_Leaving b d x : leaving_of (mkG Leaving b d x) = 1%nat.
Proof. reflexivity. Qed.
Lemma leaving_of_Gone b d x : leaving_of (mkG Gone b d x) = 0%nat.
Proof. reflexivity. Qed.
Lemma owes_of_mkG md b d x : owes_of (mkG md b d x) = Nat.b2n b.
Proof. by destruct b. Qed.
Lemma due_of_mkG md b d x : due_of (mkG md b d x) = Nat.b2n d.
Proof. by destruct d. Qed.

Lemma b2n_le b : (Nat.b2n b <= 1)%nat.
Proof. by destruct b; cbn; lia. Qed.

(** Compute the contributions of the descriptions that are known. *)
Ltac norm :=
  rewrite ?own_of_Own, ?own_of_Excl, ?own_of_Gone, ?excl_of_Own, ?excl_of_Excl, ?excl_of_Gone,
    ?own_of_Leaving, ?excl_of_Leaving, ?leaving_of_Own, ?leaving_of_Excl, ?leaving_of_Leaving, ?leaving_of_Gone,
    ?owes_of_mkG, ?due_of_mkG in *;
  cbn [g_cap cap_dpc cap_live cap_poll cap_done cap_ready cap_must cap_gone cap_wait cap_excl Nat.b2n] in *.

Ltac split_global :=
  split; cbn [upd_ref_count upd_scheduled upd_completed upd_cancel upd_queued upd_freed upd_future
    upd_current upd_given upd_tracked upd_owed
    m_ref_count m_scheduled m_completed m_cancel m_queued m_freed m_future m_polling m_polled m_ready
    m_current m_given m_tracked m_budget m_owed m_use_after_free m_bad_future Z.b2z orb negb].

(** The reference part: the state of the block is known. *)
Ltac solve_refs :=
  first [ left; split_and!; lia
        | right; left; split_and!; lia
        | right; right; split_and!; lia ].

Ltac solve_future :=
  let Hs := fresh in intros Hs;
  repeat match goal with Hf : _ = true -> _ |- _ => specialize (Hf Hs) end;
  destr_hyps; split_and!; intros; split_and?; lia.

(** Forget the parts of the invariant a goal does not depend on. *)
Ltac drop_future := repeat match goal with H : _ = true -> _ |- _ => clear H end.
Ltac drop_wake := repeat match goal with H : _ <> 0 -> _ |- _ => clear H end.
Ltac drop_owed := repeat match goal with H : _ = 1 -> _ |- _ => clear H end.
Ltac drop_first := repeat match goal with H : flag _ = 0 -> _ |- _ => clear H end.
Ltac drop_all := drop_wake; drop_future; drop_owed; drop_first.

(** Close an operation with the new description [g']. *)
Ltac keep_global g' :=
  lazymatch goal with
  | Hi : _ !! ?i = Some ?g |- _ =>
      exists g'; split; [auto|]; split; [|cbn [g_cap]; try done];
      with_sums i g g' Hi; norm;
      lazymatch goal with
      | Hr : _ \/ _ \/ _ |- _ => destruct Hr as [Hr|[Hr|Hr]]
      end; destr_hyps; try (exfalso; drop_all; lia); split_global;
      [ done | drop_all; solve_refs
      | drop_future; drop_owed; drop_first; first [done | intros; lia]
      | drop_future; drop_wake; drop_first; intros; lia
      | drop_future; intros; split_and?; lia
      | apply Forall_insert; [done|]; unfold wf_ghost; norm; drop_all; lia
      | drop_wake; drop_owed; try solve_future ]
  end.

Section Step.
Context (c : config) (serial : bool).

(** An operation on the block by a thread with an ownership description
    finds the block allocated. *)
Lemma block_is_live gs m i g :
  global serial gs m -> gs !! i = Some g -> (0 < own_of g \/ 0 < excl_of g)%nat ->
  m_freed m = false /\ touch m = m.
Proof.
  intros Hg Hi Ho. pose proof (sum_lookup own_of _ i g Hi). pose proof (sum_lookup excl_of _ i g Hi).
  assert (Hf : m_freed m = false).
  { destruct (gl_refs _ _ _ Hg) as [[? _]|[[? _]|(_ & _ & ? & ? & _)]]; [| |lia];
      by destruct (m_freed m). }
  split; [done|]. destruct m. cbn in *. subst. unfold touch. cbn. by rewrite orb_false_r.
Qed.

Lemma lp_owner o g K : lp o g K -> outside o = false -> (0 < own_of g \/ 0 < excl_of g)%nat.
Proof.
  unfold own_of, excl_of. destruct o; cbn; intros H Ho; try done;
    repeat match goal with
           | H : _ \/ _ |- _ => destruct H
           | H : exists _, _ |- _ => destruct H
           | H : _ /\ _ |- _ => destruct H
           end; subst; cbn; repeat match goal with H : g_mode _ = _ |- _ => rewrite H end; lia.
Qed.

Lemma global_same gs m i g : gs !! i = Some g -> global serial gs m -> global serial (<[i := g]> gs) m.
Proof. intros Hi. by rewrite list_insert_id. Qed.

Lemma decide_cap (x : cap) : x = CDpc \/ x <> CDpc.
Proof. destruct x; auto. Qed.

(** Performing [o] keeps the invariant, with a description the program is
    ready for. *)
Definition keeps (o : op) : Prop :=
  forall gs m i g x r m' (K : resp o -> ghost -> Prop),
  global serial gs m -> gs !! i = Some g -> lp o g K -> m_ref_count m < MAX_REFCOUNT ->
  exec c o x m = Done (r, m') ->
  exists g', K r g' /\ global serial (<[i := g']> gs) m'
             /\ (cap_dpc (g_cap g') = 1%nat -> cap_dpc (g_cap g) = 1%nat).

(** The block is there, and the sums around the thread are known. *)
Ltac start_op gs m i g Hg Hi Hlp He :=
  let Ht := fresh in
  match type of He with
  | exec _ ?o _ _ = _ =>
      assert (Ht : (if outside o then m else touch m) = m)
        by (first [done | eapply block_is_live; [eassumption|eassumption|by eapply lp_owner]])
  end;
  unfold exec in He; rewrite Ht in He; clear Ht;
  pose proof (global_same gs m i g Hi Hg) as Hsame;
  bounds gs m; pose proof (sum_caps gs (gl_wf _ _ _ Hg));
  pose proof (Forall_lookup_1 _ _ _ _ (gl_wf _ _ _ Hg) Hi : wf_ghost g);
  unfold wf_ghost in *;
  destruct Hg as [Hu Hrefs Hw Howed Hfirst Hall Hfut];
  lookups i g Hi;
  assert ((cap_dpc (g_cap g) <= 1)%nat) by (destruct (g_cap g); cbn; lia);
  destruct g as [gm go gd gx]; pose proof (b2n_le go); pose proof (b2n_le gd); destr_hyps; cbn in Hlp; cbn [g_cap] in *.

Lemma keeps_RefAdd : keeps RefAdd.
Proof.
  intros gs m i g x r m' K Hg Hi Hlp Hmax He. start_op gs m i g Hg Hi Hlp He.
  destruct Hlp as (n & -> & HK). norm. rewrite add_ok in He by lia. injection He as <- <-.
  keep_global (mkG (Own (S (S n))) go gd gx).
Qed.

Lemma keeps_RefSub : keeps RefSub.
Proof.
  intros gs m i g x r m' K Hg Hi Hlp Hmax He. start_op gs m i g Hg Hi Hlp He.
  rewrite sub_ok in He.
  2: { unfold MAX_REFCOUNT in Hmax. widths.
       destruct Hlp as [(n & -> & _)|(-> & _)]; norm; lia. }
  injection He as <- <-. destruct Hlp as [(n & -> & HK)|(-> & -> & -> & Hx & HK & HK0)].
  - assert (m_ref_count m - 1 <> 0) by (norm; lia).
    keep_global (mkG (Own (S n)) go gd gx).
  - destruct (decide (m_ref_count m - 1 = 0)) as [Hz|Hz].
    + rewrite Hz. destruct Hx as [->|[->| ->]]; keep_global (mkG Excl false false XUnknown).
    + destruct Hx as [->|[->| ->]]; keep_global (mkG (Own 0) false false CNone).
Qed.

Lemma keeps_LoadCompleted : keeps LoadCompleted.
Proof.
  intros gs m i g x r m' K Hg Hi Hlp Hmax He. start_op gs m i g Hg Hi Hlp He.
  injection He as <- <-. destruct Hlp as [(n & -> & HK & HK0 & HKd)|([= -> -> -> ->] & HK0 & HK)].
  - destruct (decide (m_completed m = 0)) as [Hz|Hz]; [|keep_global (mkG (Own (S n)) go false gx)].
    rewrite Hz. destruct (decide_cap gx) as [->|Hd]; [|by eexists; eauto].
    keep_global (mkG (Own (S n)) go gd CLive).
  - destruct (decide (m_completed m = 0)) as [Hz|Hz].
    + rewrite Hz. keep_global (mkG Excl false false XLive).
    + keep_global (mkG Excl false false XDropped).
Qed.

Lemma keeps_StoreCompleted : keeps StoreCompleted.
Proof.
  intros gs m i g x r m' K Hg Hi Hlp Hmax He. start_op gs m i g Hg Hi Hlp He.
  injection He as <- <-. destruct Hlp as [(n & [= -> -> -> ->] & HK)|([= -> -> -> ->] & HK)].
  - keep_global (mkG (Own (S n)) false false CMust).
  - keep_global (mkG Excl false false XMust).
Qed.

Lemma keeps_CasScheduled : keeps CasScheduled.
Proof.
  intros gs m i g x r m' K Hg Hi Hlp Hmax He. start_op gs m i g Hg Hi Hlp He.
  destruct Hlp as (n & -> & -> & HKf & HKt).
  destruct (m_scheduled m =? 0) eqn:E; to_prop; injection He as <- <-.
  - keep_global (mkG (Own (S n)) true false gx).
  - keep_global (mkG (Own (S n)) false false gx).
Qed.

Lemma keeps_LoadScheduled : keeps LoadScheduled.
Proof.
  intros gs m i g x r m' K Hg Hi Hlp Hmax He. start_op gs m i g Hg Hi Hlp He.
  injection He as <- <-. destruct Hlp as (n & _ & HK). by eexists; eauto.
Qed.

Lemma keeps_ClearScheduled : keeps ClearScheduled.
Proof.
  intros gs m i g x r m' K Hg Hi Hlp Hmax He. start_op gs m i g Hg Hi Hlp He.
  injection He as <- <-. destruct Hlp as (n & -> & HK).
  keep_global (mkG (Own (S n)) false true gx).
Qed.

Lemma keeps_CasCancel (old new : Z) : keeps (CasCancel old new).
Proof.
  intros gs m i g x r m' K Hg Hi Hlp Hmax He. start_op gs m i g Hg Hi Hlp He.
  destruct Hlp as (n & -> & HK). eexists.
  destruct (m_cancel m =? old); injection He as <- <-; split_and!; auto; by destruct Hsame.
Qed.

Lemma keeps_LoadCancel : keeps LoadCancel.
Proof.
  intros gs m i g x r m' K Hg Hi Hlp Hmax He. start_op gs m i g Hg Hi Hlp He.
  injection He as <- <-. destruct Hlp as (n & _ & HK). by eexists; eauto.
Qed.

Lemma keeps_InsertDpc : keeps InsertDpc.
Proof.
  intros gs m i g x r m' K Hg Hi Hlp Hmax He. start_op gs m i g Hg Hi Hlp He.
  destruct Hlp as (n & -> & HKt & HKf). destruct (decide (m_queued m = true)) as [E|E].
  - assert (flag (m_queued m) = 1) by (by rewrite E). rewrite E in He. injection He as <- <-.
    keep_global (mkG (Own (S (S n))) false gd gx).
  - apply not_true_is_false in E. assert (flag (m_queued m) = 0) by (by rewrite E).
    rewrite E in He. injection He as <- <-. keep_global (mkG (Own (S n)) false gd gx).
Qed.

(** The monitor of the future, from the values of its flags. *)
Ltac solve_monitor m :=
  let Hs := fresh in intros Hs;
  repeat match goal with Hf : _ = true -> _ |- _ => specialize (Hf Hs) end; destr_hyps;
  destruct (m_bad_future m), (m_future m), (m_polling m), (m_ready m), (m_polled m); cbn in *;
  try (exfalso; lia); split_and!; intros; split_and?; lia.

Lemma keeps_PollBegin : keeps PollBegin.
Proof.
  intros gs m i g x r m' K Hg Hi Hlp Hmax He. start_op gs m i g Hg Hi Hlp He.
  injection He as <- <-. destruct Hlp as (n & d & [= -> -> -> ->] & HK).
  specialize (HK (or_poll x)). destruct (is_ready (snd (or_poll x))).
  - keep_global (mkG (Own (S n)) false false (CPolling true)). solve_monitor m.
  - keep_global (mkG (Own (S n)) false false (CPolling false)). solve_monitor m.
Qed.

Lemma keeps_PollEnd : keeps PollEnd.
Proof.
  intros gs m i g x r m' K Hg Hi Hlp Hmax He. start_op gs m i g Hg Hi Hlp He.
  injection He as <- <-. destruct Hlp as (n & [] & [= -> -> -> ->] & HK).
  - keep_global (mkG (Own (S n)) false false CReady). solve_monitor m.
  - keep_global (mkG (Own (S n)) false false CLive). solve_monitor m.
Qed.

Lemma keeps_DropFuture : keeps DropFuture.
Proof.
  intros gs m i g x r m' K Hg Hi Hlp Hmax He. start_op gs m i g Hg Hi Hlp He.
  injection He as <- <-. destruct Hlp as [(n & [= -> -> -> ->] & HK)|([= -> -> -> ->] & HK)].
  - keep_global (mkG (Own (S n)) false false CNone). solve_monitor m.
  - keep_global (mkG Excl false false XDropped). solve_monitor m.
Qed.

Lemma keeps_Dealloc : keeps Dealloc.
Proof.
  intros gs m i g x r m' K Hg Hi Hlp Hmax He. start_op gs m i g Hg Hi Hlp He.
  injection He as <- <-. destruct Hlp as ([= -> -> -> ->] & HK). keep_global (mkG Leaving false false CNone).
Qed.

Lemma keeps_TrackerComplete : keeps TrackerComplete.
Proof.
  intros gs m i g x r m' K Hg Hi Hlp Hmax He. start_op gs m i g Hg Hi Hlp He.
  injection He as <- <-. destruct Hlp as ([= -> -> -> ->] & HK). keep_global (mkG Gone false false CNone).
Qed.

Lemma keeps_SetCurrent (cpu : Z) : keeps (SetCurrent cpu).
Proof.
  intros gs m i g x r m' K Hg Hi Hlp Hmax He. start_op gs m i g Hg Hi Hlp He.
  injection He as <- <-. destruct Hlp as [_ HK]. eexists. split_and!; auto. by destruct Hsame.
Qed.

Lemma keeps_ClearCurrent (cpu : Z) : keeps (ClearCurrent cpu).
Proof.
  intros gs m i g x r m' K Hg Hi Hlp Hmax He. start_op gs m i g Hg Hi Hlp He.
  injection He as <- <-. destruct Hlp as [_ HK]. eexists. split_and!; auto. by destruct Hsame.
Qed.

Lemma keeps_LoadCurrent (cpu : Z) : keeps (LoadCurrent cpu).
Proof.
  intros gs m i g x r m' K Hg Hi Hlp Hmax He. start_op gs m i g Hg Hi Hlp He.
  injection He as <- <-. destruct Hlp as [_ HK]. eexists. split_and!; auto.
Qed.

Lemma keeps_GiveWaker : keeps GiveWaker.
Proof.
  intros gs m i g x r m' K Hg Hi Hlp Hmax He. start_op gs m i g Hg Hi Hlp He.
  injection He as <- <-. destruct Hlp as (n & -> & Hx & HK).
  destruct Hx as [(-> & -> & ->)|Hx];
    [keep_global (mkG (Own n) false false CNone)|keep_global (mkG (Own n) go gd gx)].
Qed.

Lemma keeps_LoadBudgetMode : keeps LoadBudgetMode.
Proof.
  intros gs m i g x r m' K Hg Hi Hlp Hmax He. start_op gs m i g Hg Hi Hlp He.
  injection He as <- <-. destruct Hlp as [_ HK]. eexists. split_and!; auto.
Qed.

Lemma keeps_LoadBudgetPolls : keeps LoadBudgetPolls.
Proof.
  intros gs m i g x r m' K Hg Hi Hlp Hmax He. start_op gs m i g Hg Hi Hlp He.
  injection He as <- <-. destruct Hlp as [_ HK]. eexists. split_and!; auto.
Qed.

Lemma keeps_LoadBudgetTime : keeps LoadBudgetTime.
Proof.
  intros gs m i g x r m' K Hg Hi Hlp Hmax He. start_op gs m i g Hg Hi Hlp He.
  injection He as <- <-. destruct Hlp as [_ HK]. eexists. split_and!; auto.
Qed.

Lemma keeps_QueryPerformanceCounter : keeps QueryPerformanceCounter.
Proof.
  intros gs m i g x r m' K Hg Hi Hlp Hmax He. start_op gs m i g Hg Hi Hlp He.
  injection He as <- <-. destruct Hlp as [_ HK]. eexists. split_and!; auto.
Qed.

Lemma keeps_NoFuel : keeps NoFuel.
Proof.
  intros gs m i g x r m' K Hg Hi Hlp Hmax He. done.
Qed.

Lemma step_op o : keeps o.
Proof.
  destruct o;
    auto using keeps_RefAdd, keeps_RefSub, keeps_LoadCompleted, keeps_StoreCompleted,
      keeps_CasScheduled, keeps_LoadScheduled, keeps_ClearScheduled, keeps_CasCancel,
      keeps_LoadCancel, keeps_InsertDpc, keeps_PollBegin, keeps_PollEnd, keeps_DropFuture,
      keeps_Dealloc, keeps_TrackerComplete, keeps_SetCurrent, keeps_ClearCurrent,
      keeps_LoadCurrent, keeps_GiveWaker, keeps_LoadBudgetMode, keeps_LoadBudgetPolls,
      keeps_LoadBudgetTime, keeps_QueryPerformanceCounter, keeps_NoFuel.
Qed.
End Step.

(** ** Schedules *)

Section Schedules.
Context (c : config) (serial : bool).

(** No state on the way has more references than the counter can hold. *)
Fixpoint within_limit (es : list event) (s : sys) : Prop :=
  m_ref_count (s_mem s) < MAX_REFCOUNT
  /\ match es with
     | [] => True
     | e :: es => match step c serial e s with Some s' => within_limit es s' | None => True end
     end.

Lemma no_dpc_rights gs ts :
  Forall2 typed gs ts -> existsb (fun t => th_dpc t && running t) ts = false ->
  sum_cap cap_dpc gs = 0.
Proof.
  unfold total. induction 1 as [|g t gs ts [Hwp Hd] _ IH]; [done|]. cbn [existsb sum_list_with].
  intros [Ht Hts]%orb_false_iff. specialize (IH Hts).
  assert (cap_dpc (g_cap g) = 0%nat); [|lia].
  destruct (decide (cap_dpc (g_cap g) = 1%nat)) as [E|E]; [|by destruct (g_cap g)].
  rewrite (Hd E) in Ht. cbn in Ht. unfold running in Ht.
  destruct (th_prog t); [|done]. by destruct Hwp as [-> | ->].
Qed.

Ltac snoc_sums u :=
  rewrite ?(sum_snoc own_of _ u), ?(sum_snoc excl_of _ u), ?(sum_snoc owes_of _ u),
    ?(sum_snoc due_of _ u), ?(sum_snoc leaving_of _ u),
    ?(sum_snoc (fun g => cap_dpc (g_cap g)) _ u), ?(sum_snoc (fun g => cap_live (g_cap g)) _ u),
    ?(sum_snoc (fun g => cap_poll (g_cap g)) _ u), ?(sum_snoc (fun g => cap_done (g_cap g)) _ u),
    ?(sum_snoc (fun g => cap_ready (g_cap g)) _ u), ?(sum_snoc (fun g => cap_must (g_cap g)) _ u),
    ?(sum_snoc (fun g => cap_gone (g_cap g)) _ u).

Lemma global_dispatch gs m :
  global serial gs m -> m_queued m = true -> (serial = true -> sum_cap cap_dpc gs = 0) ->
  global serial (gs ++ [mkG (Own 1) true false CDpc]) (upd_queued false m).
Proof.
  intros [Hu Hrefs Hw Howed Hfirst Hall Hfut] Hq Hd. rewrite Hq in *. cbn in Hrefs, Hw. bounds gs m.
  split_global; snoc_sums (mkG (Own 1) true false CDpc); cbn; try lia.
  - apply Forall_app. split; [done|]. repeat constructor.
  - intros Hs. specialize (Hfut Hs). specialize (Hd Hs). lia.
Qed.

Lemma global_env gs m n :
  global serial gs m -> m_given m = S n ->
  global serial (gs ++ [mkG (Own 1) false false CNone]) (upd_given n m).
Proof.
  intros [Hu Hrefs Hw Howed Hfirst Hall Hfut] Hn. rewrite Hn in *. bounds gs m.
  split_global; snoc_sums (mkG (Own 1) false false CNone); cbn; try lia.
  - apply Forall_app. split; [done|]. repeat constructor.
  - intros Hs. specialize (Hfut Hs). lia.
Qed.

Lemma step_Inv e s s' :
  Inv serial s -> m_ref_count (s_mem s) < MAX_REFCOUNT -> step c serial e s = Some s' ->
  Inv serial s'.
Proof.
  intros (gs & Ht & Hg) Hmax Hstep. destruct e as [i x|fuel cpu|a]; cbn in Hstep.
  - destruct (s_threads s !! i) as [[d [|o k]]|] eqn:Hi; try done.
    destruct (exec c o x (s_mem s)) as [[r m']|] eqn:He; [|done]. injection Hstep as <-.
    destruct (Forall2_lookup_r _ _ _ _ _ Ht Hi) as (g & Hgi & Hwp & Hd).
    destruct (step_op c serial o gs (s_mem s) i g x r m' _ Hg Hgi Hwp Hmax He)
      as (g' & HK & Hg' & Hcap).
    exists (<[i := g']> gs). split; [|done]. apply Forall2_insert; [done|].
    split; [done|]. cbn. auto.
  - unfold can_dispatch in Hstep. destruct (m_queued (s_mem s)) eqn:Hq; [|done].
    destruct (negb serial || _) eqn:Hser; [|done]. injection Hstep as <-.
    exists (gs ++ [mkG (Own 1) true false CDpc]). split.
    + apply Forall2_app; [done|]. constructor; [|constructor]. split; [apply wp_dpc_routine|done].
    + apply global_dispatch; [done|done|]. intros ->. cbn in Hser.
      apply negb_true_iff in Hser. by eapply no_dpc_rights.
  - destruct (m_given (s_mem s)) as [|n] eqn:Hn; [done|]. injection Hstep as <-.
    exists (gs ++ [mkG (Own 1) false false CNone]). split; [|by apply global_env].
    apply Forall2_app; [done|]. constructor; [|constructor]. split; [apply wp_env|done].
Qed.

Lemma run_Inv es s s' :
  Inv serial s -> within_limit es s -> run c serial es s = Some s' -> Inv serial s'.
Proof.
  revert s. induction es as [|e es IH]; intros s Hs [Hmax Hw] Hr; cbn in Hr.
  - by injection Hr as <-.
  - cbn in Hw. destruct (step c serial e s) as [s1|] eqn:E; [|done].
    apply (IH s1); [by eapply step_Inv|done|done].
Qed.

Lemma spawned_Inv b p :
  wp p (mkG (Own 1) false true CNone) (fun _ => finished) -> Inv serial (spawned b p).
Proof.
  intros Hp. exists [mkG (Own 1) false true CNone]. split.
  - constructor; [|constructor]. split; [done|]. done.
  - split; unfold total; cbn; try lia. repeat constructor.
Qed.
End Schedules.
