(* ===== verification/ExecutorTheorems.v ===== *)
(** * Theorems on the DPC executor

    What holds of a spawned task under every schedule of its threads, of the
    kernel's DPC dispatches and of the wakers and handles in the hands of the
    environment; the poll budget; and cancellation. *)

From S2P Require Import Prelude Programs Status Refcount Executor ExecutorSem ExecutorSafety.

(** The programs that publish a new task. *)
Definition is_spawn (p : prog unit) : Prop :=
  p = spawn_dpc_task_cancellable \/ p = spawn_dpc_task_tracked.

(** Spawned with a cancellation handle or without one. *)
Definition spawn_prog (handle : bool) : prog unit :=
  if handle then spawn_dpc_task_cancellable else spawn_dpc_task_tracked.

Lemma spawn_prog_ok handle : is_spawn (spawn_prog handle).
Proof. destruct handle; [by left|by right]. Qed.

(** No thread is running. *)
Definition quiescent (s : sys) : Prop := Forall (fun t => running t = false) (s_threads s).

Section Tasks.
Context (c : config).

Lemma spawn_wp p : is_spawn p -> wp p (mkG (Own 1) false true CNone) (fun _ => finished).
Proof. intros [->| ->]; [apply wp_spawn_cancellable|apply wp_spawn_tracked]. Qed.

Lemma reachable_Inv serial b p es s :
  is_spawn p -> within_limit c serial es (spawned b p) -> run c serial es (spawned b p) = Some s ->
  Inv serial s.
Proof. intros Hp. apply run_Inv, spawned_Inv, spawn_wp, Hp. Qed.

Lemma quiescent_sums gs ts :
  Forall2 typed gs ts -> Forall (fun t => running t = false) ts ->
  total own_of gs = 0 /\ total excl_of gs = 0 /\ total leaving_of gs = 0 /\ total owes_of gs = 0
  /\ total due_of gs = 0.
Proof.
  unfold total. induction 1 as [|g t gs ts [Hwp _] _ IH]; intros Hq; [done|].
  apply Forall_cons_iff in Hq as [Ht Hq]. specialize (IH Hq). cbn [sum_list_with].
  unfold running in Ht. destruct (th_prog t); [|done]. destruct Hwp as [-> | ->]; cbn; lia.
Qed.

(** A thread that has an operation left holds a reference or the block, or
    has still to report. *)
Lemma lp_engaged o g K : lp o g K -> (0 < own_of g + excl_of g + leaving_of g)%nat.
Proof.
  unfold own_of, excl_of, leaving_of. destruct o; cbn; intros H;
    repeat match goal with
           | H : _ \/ _ |- _ => destruct H
           | H : exists _, _ |- _ => destruct H
           | H : _ /\ _ |- _ => destruct H
           end; subst; cbn; repeat match goal with H : g_mode _ = _ |- _ => rewrite H end; lia.
Qed.

(** One event takes at most one reference, so a schedule has to be longer
    than the counter is wide to pass [within_limit]. *)
Lemma step_count serial e s s' :
  Inv serial s -> m_ref_count (s_mem s) < MAX_REFCOUNT -> step c serial e s = Some s' ->
  m_ref_count (s_mem s') <= m_ref_count (s_mem s) + 1.
Proof.
  intros (gs & Ht & Hg) Hmax Hs. destruct e as [i x|fuel cpu|a]; cbn in Hs.
  - destruct (s_threads s !! i) as [[d [|o k]]|] eqn:Hi; try done.
    destruct (exec c o x (s_mem s)) as [[r m']|] eqn:He; [|done]. injection Hs as <-. cbn [s_mem].
    destruct (Forall2_lookup_r _ _ _ _ _ Ht Hi) as (g & Hgi & Hwp & _). cbn [th_prog Programs.wp] in Hwp.
    pose proof (sum_lookup own_of _ i g Hgi) as Hown.
    assert (Hr : (0 < own_of g)%nat -> 0 < m_ref_count (s_mem s))
      by (destruct (gl_refs _ _ _ Hg) as [?|[?|?]]; lia).
    unfold own_of in Hown, Hr.
    destruct o; cbn in He; try (repeat case_hyp He; try done; injection He as <- <-; cbn; lia).
    + destruct Hwp as (n & Hm & _). rewrite Hm in Hr. rewrite add_ok in He by (cbn; lia).
      injection He as <- <-. cbn. lia.
    + rewrite sub_ok in He; [injection He as <- <-; cbn; lia|]. cbn. unfold MAX_REFCOUNT in Hmax. widths.
      destruct Hwp as [(n & Hm & _)|(Hm & _)]; rewrite Hm in Hr; lia.
  - destruct (can_dispatch serial s); [|done]. injection Hs as <-. cbn. lia.
  - destruct (m_given (s_mem s)); [done|]. injection Hs as <-. cbn. lia.
Qed.

Lemma short_runs_are_within_limit serial es s :
  Inv serial s -> m_ref_count (s_mem s) + Z.of_nat (length es) < MAX_REFCOUNT -> within_limit c serial es s.
Proof.
  revert s. induction es as [|e es IH]; intros s Hs Hl; cbn in *; [lia|]. split; [lia|].
  destruct (step c serial e s) as [s'|] eqn:E; [|done]. apply IH; [eapply step_Inv; [done|lia|done]|].
  assert (m_ref_count (s_mem s') <= m_ref_count (s_mem s) + 1) by (eapply step_count; [done|lia|done]). lia.
Qed.

Lemma disengaged_quiescent gs ts :
  Forall2 typed gs ts -> total own_of gs = 0 -> total excl_of gs = 0 -> total leaving_of gs = 0 ->
  Forall (fun t => running t = false) ts.
Proof.
  unfold total. induction 1 as [|g t gs ts [Hwp _] _ IH]; [done|]. cbn [sum_list_with]. intros.
  constructor; [|apply IH; lia]. unfold running. destruct (th_prog t) as [|o k]; [done|].
  apply lp_engaged in Hwp. lia.
Qed.

(** What is left of a task that was reported to its tracker: nothing. *)
Record gone (serial : bool) (s : sys) : Prop := {
  gone_freed : m_freed (s_mem s) = true;
  gone_future : serial = true -> m_future (s_mem s) = false;
  gone_given : m_given (s_mem s) = 0%nat;
  gone_queued : m_queued (s_mem s) = false;
  gone_threads : quiescent s
}.

Lemma reported_at_most_once serial s : Inv serial s -> (m_tracked (s_mem s) <= 1)%nat.
Proof.
  intros (gs & _ & Hg). pose proof (total_nonneg leaving_of gs). destruct (gl_refs _ _ _ Hg); lia.
Qed.

Lemma reported_is_gone serial s : Inv serial s -> (0 < m_tracked (s_mem s))%nat -> gone serial s.
Proof.
  intros (gs & Ht & Hg) Hm. pose proof (total_nonneg leaving_of gs).
  destruct (gl_refs _ _ _ Hg) as [?|[?|(Hf & Hl & Hx & Ho & Hn & Hq)]]; [lia..|].
  split; [by destruct (m_freed _)| |lia|by destruct (m_queued _)|].
  - intros ->. destruct (gl_future _ _ _ Hg eq_refl) as (_ & _ & _ & _ & _ & _ & Hfu).
    specialize (Hfu Hf). by destruct (m_future _).
  - apply (disengaged_quiescent gs); [done..|lia].
Qed.

(** Nothing happens to it any more. *)
Lemma gone_is_stuck serial serial' e s : gone serial s -> step c serial' e s = None.
Proof.
  intros [_ _ Hn Hq Ht]. destruct e as [i x|fuel cpu|a]; cbn.
  - destruct (s_threads s !! i) as [[d [|o k]]|] eqn:Hi; [done| |done].
    by pose proof (Forall_lookup_1 _ _ _ _ Ht Hi).
  - unfold can_dispatch. by rewrite Hq.
  - by rewrite Hn.
Qed.

(** At rest without references, a task has been freed and reported. *)
Lemma at_rest_reported serial s :
  Inv serial s -> quiescent s -> m_given (s_mem s) = 0%nat -> m_queued (s_mem s) = false ->
  m_freed (s_mem s) = true /\ m_tracked (s_mem s) = 1%nat.
Proof.
  intros (gs & Ht & Hg) Hq Hg0 Hq0. pose proof (gl_refs _ _ _ Hg) as Href.
  destruct (quiescent_sums _ _ Ht Hq) as (H1 & H2 & H3 & _ & _).
  rewrite Hg0, Hq0 in Href. destruct (m_freed (s_mem s)); cbn in Href; [split; [done|lia]|lia].
Qed.

(** C3: a task's memory is managed safely, however its threads, the DPC
    dispatches (even overlapping ones) and the users of its wakers and
    handles interleave: the block is never used after it was freed nor freed
    twice; it is only freed when no waker, handle or queued DPC refers to
    it; and once everything has come to rest with no reference left it has
    been freed and its completion reported to the tracker exactly once. *)
Theorem task_memory_is_safe (serial : bool) (b : budget) (p : prog unit) (es : list event) (s : sys) :
  is_spawn p -> within_limit c serial es (spawned b p) -> run c serial es (spawned b p) = Some s ->
  m_use_after_free (s_mem s) = false
  /\ (m_freed (s_mem s) = true -> m_given (s_mem s) = 0%nat /\ m_queued (s_mem s) = false)
  /\ (quiescent s -> m_given (s_mem s) = 0%nat -> m_queued (s_mem s) = false ->
      m_freed (s_mem s) = true /\ m_tracked (s_mem s) = 1%nat).
Proof.
  intros Hp Hw Hr. pose proof (reachable_Inv serial b p es s Hp Hw Hr) as Hinv.
  split; [|split; [|by eapply at_rest_reported]]; destruct Hinv as (gs & Ht & Hg).
  - pose proof (gl_use _ _ _ Hg) as Hu. by destruct (m_use_after_free _).
  - pose proof (gl_refs _ _ _ Hg) as Href. intros Hf. rewrite Hf in Href.
    destruct (m_queued (s_mem s)); cbn in Href; split; lia || done.
Qed.

(** C5: provided the kernel does not run two DPC routines of one task at the
    same time, the future of a task is used according to the contract of
    Rust's futures, in every interleaving: it is never polled by two routines
    at once, nor after it was ready, nor after it was dropped; it is dropped
    at most once, not during a poll, and only after it was polled; and it is
    dropped before the block is freed. *)
Theorem future_is_used_safely (b : budget) (p : prog unit) (es : list event) (s : sys) :
  is_spawn p -> within_limit c true es (spawned b p) -> run c true es (spawned b p) = Some s ->
  m_bad_future (s_mem s) = false /\ (m_freed (s_mem s) = true -> m_future (s_mem s) = false).
Proof.
  intros Hp Hw Hr. destruct (reachable_Inv true b p es s Hp Hw Hr) as (gs & Ht & Hg).
  destruct (gl_future _ _ _ Hg eq_refl) as (_ & Hb & _ & _ & _ & _ & Hf).
  split; [by destruct (m_bad_future _)|]. intros Hfr. rewrite Hfr in Hf. specialize (Hf eq_refl).
  by destruct (m_future _).
Qed.

(** No wake-up is lost: whenever no thread is running, a task that is
    marked as scheduled has its DPC in a queue. *)
Theorem no_lost_wakeup (serial : bool) (b : budget) (p : prog unit) (es : list event) (s : sys) :
  is_spawn p -> within_limit c serial es (spawned b p) -> run c serial es (spawned b p) = Some s ->
  quiescent s -> m_scheduled (s_mem s) <> 0 -> m_queued (s_mem s) = true.
Proof.
  intros Hp Hw Hr Hq Hs. destruct (reachable_Inv serial b p es s Hp Hw Hr) as (gs & Ht & Hg).
  destruct (quiescent_sums _ _ Ht Hq) as (_ & _ & _ & Ho & _).
  pose proof (gl_wake _ _ _ Hg Hs) as Hw'. destruct (m_queued (s_mem s)); [done|]. cbn in Hw'. lia.
Qed.

(** At rest the poll a task is owed is marked in the [scheduled] word. *)
Lemma owed_at_rest serial b p es s :
  is_spawn p -> within_limit c serial es (spawned b p) -> run c serial es (spawned b p) = Some s ->
  quiescent s -> m_owed (s_mem s) = true -> m_completed (s_mem s) = 0 -> m_scheduled (s_mem s) <> 0.
Proof.
  intros Hp Hw Hr Hq Ho Hc. destruct (reachable_Inv serial b p es s Hp Hw Hr) as (gs & Ht & Hg).
  destruct (quiescent_sums _ _ Ht Hq) as (_ & _ & _ & _ & Hd).
  pose proof (gl_owed _ _ _ Hg) as H. rewrite Ho, Hd in H. cbn in H. lia.
Qed.
End Tasks.

(** ** A schedule with overlapping DPC routines *)

Definition idle_oracle : oracle := mkOracle ([], PollPending) (0, 0).
Definition runs (n i : nat) : list event := replicate n (Run i idle_oracle).

(** The task is spawned, its DPC starts on processor 0 and is inside a poll;
    the handle is cancelled, which queues the DPC again; it starts on
    processor 1. *)
Definition overlapping : list event :=
  runs 7 0 ++ [Dispatch 5 (Some 0)] ++ runs 7 1 ++ [Env EnvCancel] ++ runs 5 2
  ++ [Dispatch 5 (Some 1)] ++ runs 7 3.

(** Nothing in the executor keeps two DPC routines of one task apart.
    [schedule] inserts the DPC although the routine is still running, so when
    the task is cancelled (or woken) from another processor during a poll,
    the second routine polls the future while the first poll is in
    progress. *)
Theorem overlapping_dpcs_poll_together (c : config) :
  exists s, run c false overlapping (spawned default_budget spawn_dpc_task_cancellable) = Some s
            /\ m_bad_future (s_mem s) = true /\ m_completed (s_mem s) = 0.
Proof. destruct c as [[] []]; eexists; (split; [vm_compute; reflexivity|split; reflexivity]). Qed.

(** A run from spawn to the end: the future is ready at its first poll, then
    the handle is dropped. *)
Definition ready_oracle : oracle := mkOracle ([], PollReady STATUS_SUCCESS) (0, 0).
Definition whole_life : list event :=
  runs 7 0 ++ [Dispatch 5 (Some 0)] ++ runs 6 1 ++ [Run 1 ready_oracle] ++ runs 6 1
  ++ [Env EnvDropHandle] ++ runs 4 2.
Definition life_end : sys :=
  default (spawned default_budget spawn_dpc_task_cancellable)
    (run (mkConfig Hardened true) true whole_life (spawned default_budget spawn_dpc_task_cancellable)).

Lemma within_limit_ok : within_limit (mkConfig Hardened true) true whole_life
  (spawned default_budget spawn_dpc_task_cancellable).
Proof. vm_compute. repeat split. Qed.

Lemma whole_life_runs :
  run (mkConfig Hardened true) true whole_life (spawned default_budget spawn_dpc_task_cancellable)
  = Some life_end.
Proof. vm_compute. reflexivity. Qed.

Lemma task_memory_is_safe_witness :
  m_freed (s_mem life_end) = true /\ m_tracked (s_mem life_end) = 1%nat.
Proof.
  apply (task_memory_is_safe (mkConfig Hardened true) true default_budget spawn_dpc_task_cancellable
    whole_life life_end).
  - by left.
  - apply within_limit_ok.
  - apply whole_life_runs.
  - unfold quiescent. vm_compute. repeat constructor.
  - reflexivity.
  - reflexivity.
Defined.

Lemma future_is_used_safely_witness :
  m_bad_future (s_mem life_end) = false
  /\ (m_freed (s_mem life_end) = true -> m_future (s_mem life_end) = false).
Proof.
  apply (future_is_used_safely (mkConfig Hardened true) default_budget spawn_dpc_task_cancellable
    whole_life life_end).
  - by left.
  - apply within_limit_ok.
  - apply whole_life_runs.
Defined.

(** The spawned task right after it was published. *)
Definition published : sys :=
  default (spawned default_budget spawn_dpc_task_cancellable)
    (run (mkConfig Hardened true) true (runs 7 0) (spawned default_budget spawn_dpc_task_cancellable)).

Lemma no_lost_wakeup_witness : m_queued (s_mem published) = true.
Proof.
  apply (no_lost_wakeup (mkConfig Hardened true) true default_budget spawn_dpc_task_cancellable
    (runs 7 0) published).
  - by left.
  - vm_compute. repeat split.
  - vm_compute. reflexivity.
  - unfold quiescent. vm_compute. repeat constructor.
  - vm_compute. discriminate.
Defined.

(** ** Operations a program performs *)

(** Operations of the functions: walk through binds, tests and responses. *)
Ltac walk :=
  repeat match goal with
         | |- True => exact Logic.I
         | |- _ /\ _ => split
         | |- forall _, _ => intros
         | |- all_ops _ (pbind _ _) => apply all_ops_bind
         | |- all_ops _ (Ret _) => exact Logic.I
         | |- all_ops _ (act _) => split; [|intros; exact Logic.I]
         | |- all_ops _ (if ?b then _ else _) => destruct b
         | |- all_ops _ (match ?x with _ => _ end) => destruct x
         end.

Section Shape.
Context (P : op -> Prop).
(** The operations everything but the poll loop is made of. *)
Definition simple_op (o : op) : Prop :=
  match o with PollBegin | NoFuel | ClearScheduled | QueryPerformanceCounter => False | CasCancel a b => (a, b) = (0, 1) \/ (a, b) = (1, 2) | _ => True end.
Context (HP : forall o, simple_op o -> P o).

Ltac simple := walk; try (apply HP; cbn; tauto); try (apply HP; cbn; by left); try (apply HP; cbn; by right).

Lemma ops_add_ref : all_ops P task_add_ref.
Proof. unfold task_add_ref. simple. Qed.
Lemma ops_release : all_ops P task_release.
Proof. unfold task_release, destroy_shim. simple. Qed.
Lemma ops_queue_dpc : all_ops P queue_dpc.
Proof. unfold queue_dpc. simple; auto using ops_add_ref, ops_release. Qed.
Lemma ops_schedule : all_ops P task_schedule.
Proof. unfold task_schedule. simple; auto using ops_add_ref, ops_release. Qed.
Lemma ops_take irql cpu : all_ops P (take_cancellation_request irql cpu).
Proof. unfold take_cancellation_request. simple. Qed.
Lemma ops_is irql cpu : all_ops P (is_cancellation_requested irql cpu).
Proof. unfold is_cancellation_requested. simple. Qed.
Lemma ops_actions cpu acts : all_ops P (run_actions cpu acts).
Proof.
  induction acts as [|[] acts IH]; cbn [run_actions]; [done|..]; simple;
    auto using ops_add_ref, ops_schedule, ops_take, ops_is.
Qed.
Lemma ops_clear cpu : all_ops P (clear_current_task cpu).
Proof. unfold clear_current_task. simple. Qed.
Lemma ops_spawn p : is_spawn p -> all_ops P p.
Proof.
  intros [->| ->]; unfold spawn_dpc_task_cancellable, CancelHandle_new, spawn_dpc_task_tracked;
    simple; auto using ops_add_ref, ops_schedule, ops_release.
Qed.
Lemma ops_env a : all_ops P (env_prog a).
Proof.
  destruct a; cbn [env_prog];
    unfold wake_raw, wake_by_ref_raw, clone_raw, raw_waker, drop_raw, CancelHandle_cancel,
      CancelHandle_is_cancelled, CancelHandle_drop, task_cancel;
    simple; auto using ops_add_ref, ops_schedule, ops_release.
Qed.
End Shape.

Section PollLoop.
Context (P : op -> Prop) (HP : forall o, simple_op o -> P o) (Hpoll : P PollBegin) (Hfuel : P NoFuel)
  (Hclear : P ClearScheduled) (Hclock : P QueryPerformanceCounter).

Lemma ops_check mode b t s k : all_ops P (check_budget mode b t s k).
Proof. unfold check_budget. cbv zeta. walk; auto. Qed.
Lemma ops_time mode : all_ops P (time_budget mode).
Proof. unfold time_budget. walk; try (apply HP; cbn; tauto); auto. Qed.

Lemma ops_dpc_loop fuel cpu mode b t s k : all_ops P (dpc_loop fuel cpu mode b t s k).
Proof.
  revert b k. induction fuel as [|fuel IH]; intros b k; cbn [dpc_loop]; [by walk|].
  unfold poll_shim, destroy_shim. walk; auto using ops_actions, ops_clear, ops_release, ops_check, ops_queue_dpc;
    try (apply HP; cbn; tauto).
Qed.

Lemma ops_dpc_routine fuel cpu : all_ops P (dpc_routine fuel cpu).
Proof.
  unfold dpc_routine, raw_waker, set_current_task, drop_raw. walk;
    auto using ops_release, ops_add_ref, ops_time, ops_dpc_loop; try (apply HP; cbn; tauto).
Qed.
End PollLoop.

(** ** The poll budget *)

(** On every path at most [k] polls, and the loop bound is not reached. *)
Fixpoint polls_within {A : Type} (k : nat) (p : prog A) : Prop :=
  match p with
  | Ret _ => True
  | Vis PollBegin kont => match k with O => False | S k => forall r, polls_within k (kont r) end
  | Vis NoFuel _ => False
  | Vis o kont => forall r, polls_within k (kont r)
  end.

Lemma polls_within_none {A : Type} k (p : prog A) : all_ops simple_op p -> polls_within k p.
Proof.
  induction p as [a|o q IH]; [done|]. intros [Ho Hq]. destruct o; cbn in *; try done; auto.
Qed.

Lemma polls_within_bind {A B : Type} k (p : prog A) (f : A -> prog B) :
  all_ops simple_op p -> (forall a, polls_within k (f a)) -> polls_within k (pbind p f).
Proof.
  intros Hp Hf. induction p as [a|o q IH]; [apply Hf|]. destruct Hp as [Ho Hq].
  destruct o; cbn in *; try done; auto.
Qed.

(** C38: the poll budget.  In the default mode one DPC run returns, and the
    most polls of the future that a run makes are exactly budget + 1: no run
    makes more, however often the future wakes itself, and one whose future
    is pending and wakes itself in every poll makes that many.  The loop
    needs no more iterations than that.  (The comment on [set_task_budget] in
    executor.rs and docs/executor.md say that the most is the budget
    itself.) *)
Theorem poll_budget_bounds_polls (fuel : nat) (cpu : option Z) (b ticks start counter : Z) (m : nat) :
  0 <= b -> (Z.to_nat b < fuel)%nat ->
  polls_within m (dpc_loop fuel cpu TASK_BUDGET_MODE_POLLS b ticks start counter)
  <-> (Z.to_nat b + 1 <= m)%nat.
Proof.
  revert b m. induction fuel as [|fuel IH]; intros b m Hb Hf; [lia|].
  cbn [dpc_loop pbind act polls_within poll_shim]. split.
  - destruct m as [|m]; [done|]. intros H. specialize (H ([], PollPending)).
    cbn [run_actions fst snd pbind act polls_within] in H. specialize (H tt 1).
    cbn [Z.eqb] in H. unfold check_budget in H. rewrite Z.eqb_refl in H.
    destruct (Z.eqb_spec b 0) as [->|Hne]; [lia|]. cbn [pbind act polls_within] in H.
    apply (IH (b - 1) m) in H; [lia|lia|lia|done].
  - intros Hm. destruct m as [|m]; [lia|]. intros script.
    apply polls_within_bind; [apply all_ops_bind; [by apply ops_actions|done]|]. intros [status|].
    + cbn [pbind act polls_within destroy_shim]. intros _ _.
      apply polls_within_none, all_ops_bind; [by apply ops_clear|]. intros _. by apply ops_release.
    + cbn [pbind act polls_within]. intros r. destruct (r =? 0).
      { apply polls_within_none, all_ops_bind; [by apply ops_clear|]. intros _. by apply ops_release. }
      unfold check_budget. rewrite Z.eqb_refl. destruct (Z.eqb_spec b 0) as [->|Hne]; cbn [pbind].
      * apply polls_within_none, all_ops_bind; [by apply ops_queue_dpc|]. intros _.
        apply all_ops_bind; [by apply ops_clear|]. intros _. by apply ops_release.
      * cbn [act pbind polls_within]. intros _. apply IH; lia.
Qed.

Lemma poll_budget_bounds_polls_witness :
  polls_within 65 (dpc_loop 65 (Some 0) TASK_BUDGET_MODE_POLLS DEFAULT_TASK_BUDGET_POLLS 0 0 0)
  /\ ~ polls_within 64 (dpc_loop 65 (Some 0) TASK_BUDGET_MODE_POLLS DEFAULT_TASK_BUDGET_POLLS 0 0 0).
Proof.
  split.
  - apply (poll_budget_bounds_polls 65 (Some 0) DEFAULT_TASK_BUDGET_POLLS 0 0 0 65);
      unfold DEFAULT_TASK_BUDGET_POLLS; lia.
  - intros H. apply (poll_budget_bounds_polls 65 (Some 0) DEFAULT_TASK_BUDGET_POLLS 0 0 0 64) in H;
      unfold DEFAULT_TASK_BUDGET_POLLS in *; lia.
Defined.

(** Whether a reading of the performance counter is past the time budget. *)
Definition expired (ticks start : Z) (now : Z * Z) : bool :=
  ticks <=? u64_wrapping_sub (wrap 64 (fst now)) start.

(** On every path on which at most [reads] readings of the clock are within
    the budget: at most [quota] polls before the first reading, at most eight
    more after each reading within the budget, none after one past it; and
    the loop bound is not reached. *)
Fixpoint clocked {A : Type} (ticks start : Z) (reads quota : nat) (p : prog A) : Prop :=
  match p with
  | Ret _ => True
  | Vis PollBegin kont =>
      match quota with O => False | S quota => forall r, clocked ticks start reads quota (kont r) end
  | Vis QueryPerformanceCounter kont =>
      forall now,
        if expired ticks start now then clocked ticks start reads 0 (kont now)
        else match reads with O => True | S reads => clocked ticks start reads 8 (kont now) end
  | Vis NoFuel _ => False
  | Vis o kont => forall r, clocked ticks start reads quota (kont r)
  end.

Section Clocked.
Context (ticks start : Z).

Lemma clocked_none {A : Type} reads quota (p : prog A) :
  all_ops simple_op p -> clocked ticks start reads quota p.
Proof.
  induction p as [a|o q IH]; [done|]. intros [Ho Hq]. destruct o; cbn in *; try done; auto.
Qed.

Lemma clocked_bind {A B : Type} reads quota (p : prog A) (f : A -> prog B) :
  all_ops simple_op p -> (forall a, clocked ticks start reads quota (f a)) ->
  clocked ticks start reads quota (pbind p f).
Proof.
  intros Hp Hf. induction p as [a|o q IH]; [apply Hf|]. destruct Hp as [Ho Hq].
  destruct o; cbn in *; try done; auto.
Qed.

(** The ends of a run, which poll no more. *)
Lemma clocked_end reads quota cpu :
  clocked ticks start reads quota (clear_current_task cpu ;; task_release)%prog.
Proof. apply clocked_none, all_ops_bind; [by apply ops_clear|]. intros _. by apply ops_release. Qed.

Lemma next_quota counter :
  let counter' := wrap 32 (counter + 1) in
  let quota := Z.to_nat (8 - counter mod 8) in
  if counter' mod TASK_BUDGET_TIME_CHECK_INTERVAL =? 0 then quota = 1%nat
  else quota = S (Z.to_nat (8 - counter' mod 8)).
Proof.
  cbv zeta. unfold TASK_BUDGET_TIME_CHECK_INTERVAL, wrap.
  assert (E : ((counter + 1) mod 2 ^ 32) mod 8 = (counter + 1) mod 8)
    by (rewrite <- Znumtheory.Zmod_div_mod; [done|lia|lia|by exists (2 ^ 29)]).
  rewrite E. destruct (Z.eqb_spec ((counter + 1) mod 8) 0); Z.div_mod_to_equations; lia.
Qed.
End Clocked.

(** C39: the time budget.  In the time mode one DPC run polls the future at
    most eight times between two readings of the clock, and not at all after
    a reading that is past the budget: the run then ends and the task is
    queued again.  When at most [reads] readings are within the budget, the
    loop ends after at most 8 * reads + 8 polls, whatever the future does,
    and needs no more iterations; the wrap-around of the 32-bit poll counter
    does not disturb the interval. *)
Theorem time_budget_bounds_polls (reads fuel : nat) (cpu : option Z) (b ticks start counter : Z) :
  (8 * reads + Z.to_nat (8 - counter mod 8) <= fuel)%nat ->
  clocked ticks start reads (Z.to_nat (8 - counter mod 8))
    (dpc_loop fuel cpu TASK_BUDGET_MODE_TIME_US b ticks start counter).
Proof.
  revert reads counter. induction fuel as [|fuel IH]; intros reads counter Hf;
    pose proof (Z.mod_pos_bound counter 8 eq_refl); [lia|].
  pose proof (next_quota counter) as Hq. cbv zeta in Hq.
  destruct (Z.to_nat (8 - counter mod 8)) as [|quota] eqn:Eq; [lia|].
  cbn [dpc_loop pbind act clocked poll_shim]. intros script.
  apply clocked_bind; [apply all_ops_bind; [by apply ops_actions|done]|]. intros [status|].
  { cbn [pbind act clocked destroy_shim]. intros _ _. apply clocked_end. }
  cbn [pbind act clocked]. intros r. destruct (r =? 0); [apply clocked_end|].
  unfold check_budget. change (TASK_BUDGET_MODE_TIME_US =? TASK_BUDGET_MODE_POLLS) with false. cbv iota zeta.
  destruct (_ mod TASK_BUDGET_TIME_CHECK_INTERVAL =? 0) eqn:Ec.
  - injection Hq as ->. cbn [pbind act clocked]. intros now. cbv zeta. fold (expired ticks start now).
    destruct (expired ticks start now).
    + apply clocked_bind; [by apply ops_queue_dpc|]. intros _. apply clocked_end.
    + destruct reads as [|reads]; [done|]. cbn [pbind act clocked]. intros _.
      apply Z.eqb_eq in Ec. unfold TASK_BUDGET_TIME_CHECK_INTERVAL in Ec.
      specialize (IH reads (wrap 32 (counter + 1))). rewrite Ec in IH. apply IH. lia.
  - injection Hq as ->. cbn [pbind act clocked]. intros _. apply IH. lia.
Qed.

Lemma time_budget_bounds_polls_witness :
  clocked 500 0 2 8 (dpc_loop 24 (Some 0) TASK_BUDGET_MODE_TIME_US 64 500 0 0).
Proof. apply (time_budget_bounds_polls 2 24 (Some 0) 64 500 0 0). cbv. lia. Defined.

(** ** Cancellation *)

(** A successful [take_cancellation_request]. *)
Definition takes (e : event) (s : sys) : nat :=
  match e with
  | Run i _ =>
      match s_threads s !! i with
      | Some (mkThread _ (Vis (CasCancel 1 2) _)) => if m_cancel (s_mem s) =? 1 then 1 else 0
      | _ => 0
      end
  | _ => 0
  end.

Fixpoint taken (c : config) (serial : bool) (es : list event) (s : sys) : nat :=
  match es with
  | [] => 0
  | e :: es =>
      takes e s + match step c serial e s with Some s' => taken c serial es s' | None => 0 end
  end.

(** Cancellation goes from not requested to requested to acknowledged. *)
Definition cas_op (o : op) : Prop :=
  match o with CasCancel a b => (a, b) = (0, 1) \/ (a, b) = (1, 2) | _ => True end.

Lemma simple_cas o : simple_op o -> cas_op o.
Proof. by destruct o. Qed.

Lemma exec_cancel c o x m r m' :
  exec c o x m = Done (r, m') -> cas_op o ->
  m_cancel m' = m_cancel m
  \/ (m_cancel m = 0 /\ m_cancel m' = 1 /\ o = CasCancel 0 1)
  \/ (m_cancel m = 1 /\ m_cancel m' = 2 /\ o = CasCancel 1 2).
Proof.
  intros He Ho. destruct o; cbn in He;
    try (injection He as <- <-; by left);
    try (repeat case_hyp He; try done; injection He as <- <-; by left).
  destruct (m_cancel m =? old) eqn:E; injection He as <- <-; [|by left].
  to_prop. destruct Ho as [[= -> ->]|[= -> ->]]; cbn; [right; left|right; right]; auto.
Qed.

Section Cancellation.
Context (c : config) (serial : bool).

Lemma step_cas e s s' :
  Forall (fun t => all_ops cas_op (th_prog t)) (s_threads s) -> step c serial e s = Some s' ->
  Forall (fun t => all_ops cas_op (th_prog t)) (s_threads s')
  /\ (m_cancel (s_mem s') = m_cancel (s_mem s) /\ takes e s = 0%nat
      \/ m_cancel (s_mem s) = 0 /\ m_cancel (s_mem s') = 1 /\ takes e s = 0%nat
      \/ m_cancel (s_mem s) = 1 /\ m_cancel (s_mem s') = 2 /\ takes e s = 1%nat).
Proof.
  intros Ht Hs. destruct e as [i x|fuel cpu|a]; cbn in Hs |- *.
  - destruct (s_threads s !! i) as [[d [|o k]]|] eqn:Hi; try done.
    destruct (exec c o x (s_mem s)) as [[r m']|] eqn:He; [|done]. injection Hs as <-.
    pose proof (Forall_lookup_1 _ _ _ _ Ht Hi) as [Ho Hk]. split.
    + apply Forall_insert; [done|]. apply Hk.
    + cbn. pose proof (exec_cancel _ _ _ _ _ _ He Ho) as [E|[(E1 & E2 & ->)|(E1 & E2 & ->)]].
      * left. split; [done|]. destruct o; try done. cbn in He.
        destruct Ho as [[= -> ->]|[= -> ->]]; [done|].
        destruct (m_cancel (s_mem s) =? 1) eqn:E1; [|done]. injection He as <- <-. to_prop.
        cbn in E. lia.
      * right. left. by rewrite E1.
      * right. right. by rewrite E1.
  - destruct (can_dispatch serial s); [|done]. injection Hs as <-. split; [|by left].
    apply Forall_app. split; [done|]. constructor; [|done].
    apply ops_dpc_routine; [apply simple_cas|done..].
  - destruct (m_given (s_mem s)); [done|]. injection Hs as <-. split; [|by left].
    apply Forall_app. split; [done|]. constructor; [|done]. apply ops_env, simple_cas.
Qed.

Lemma taken_once es s :
  Forall (fun t => all_ops cas_op (th_prog t)) (s_threads s) ->
  (taken c serial es s + (if (m_cancel (s_mem s) =? 2)%Z then 1 else 0) <= 1)%nat.
Proof.
  revert s. induction es as [|e es IH]; intros s Ht; cbn [taken].
  - destruct (_ =? 2); lia.
  - destruct (step c serial e s) as [s'|] eqn:E.
    + destruct (step_cas e s s' Ht E) as [Ht' Hc]. specialize (IH s' Ht').
      destruct Hc as [[Hc ->]|[(H1 & H2 & ->)|(H1 & H2 & ->)]].
      * by rewrite Hc in IH.
      * rewrite H1. rewrite H2 in IH. cbn in *. lia.
      * rewrite H1. rewrite H2 in IH. cbn in *. lia.
    + assert (Hte : (takes e s + (if (m_cancel (s_mem s) =? 2)%Z then 1 else 0) <= 1)%nat).
      { destruct e as [i x| |]; cbn [takes]; [|destruct (_ =? 2); lia..].
        destruct (m_cancel (s_mem s) =? 1) eqn:E1; to_prop.
        - rewrite E1. cbn. repeat case_goal; lia.
        - repeat case_goal; lia. }
      lia.
Qed.
End Cancellation.

(** A cancellation request is acknowledged at most once.  Over the whole
    life of a task, under any schedule and with any number of cancel calls,
    [take_cancellation_request] succeeds at most once, so the cleanup of a
    cancellable future is entered at most once. *)
Theorem cancellation_is_taken_once (c : config) (serial : bool) (b : budget) (p : prog unit)
    (es : list event) :
  is_spawn p -> (taken c serial es (spawned b p) <= 1)%nat.
Proof.
  intros Hp. pose proof (taken_once c serial es (spawned b p)) as H.
  assert (Ht : Forall (fun t => all_ops cas_op (th_prog t)) (s_threads (spawned b p))).
  { constructor; [|done]. apply ops_spawn; [apply simple_cas|done]. }
  specialize (H Ht). cbn in H. lia.
Qed.

Lemma cancellation_is_taken_once_witness :
  (taken (mkConfig Hardened true) true
     (runs 7 0 ++ [Env EnvCancel] ++ runs 4 1 ++ [Dispatch 5 (Some 0%Z)] ++ runs 6 2
      ++ [Run 2 (mkOracle ([ActTakeCancel; ActTakeCancel], PollPending) (0%Z, 0%Z))] ++ runs 4 2)
     (spawned default_budget spawn_dpc_task_cancellable) <= 1)%nat.
Proof.
  apply (cancellation_is_taken_once (mkConfig Hardened true) true default_budget
    spawn_dpc_task_cancellable). by left.
Defined.

(** The index of the current processor stays within the table of current
    tasks, and different processors get different entries. *)
Theorem cpu_index_in_bounds (g1 n1 g2 n2 i : Z) :
  0 <= g1 -> 0 <= n1 -> 0 <= g2 -> 0 <= n2 -> current_cpu_index g1 n1 = Some i ->
  0 <= i < MAX_CPU_COUNT /\ (current_cpu_index g2 n2 = Some i -> g1 = g2 /\ n1 = n2).
Proof.
  unfold current_cpu_index, MAX_CPU_COUNT, MAX_GROUP_COUNT, MAX_PROC_PER_GROUP. intros.
  repeat case_hyp H3; try done. apply orb_false_iff in Heqb as [E1 E2]. to_prop.
  injection H3 as <-. split; [lia|]. intros H4. repeat case_hyp H4; try done.
  apply orb_false_iff in Heqb as [E3 E4]. to_prop. injection H4 as H4. lia.
Qed.

Lemma cpu_index_in_bounds_witness :
  0 <= 65 < MAX_CPU_COUNT /\ (current_cpu_index 1 1 = Some 65 -> 1 = 1 /\ 1 = 1).
Proof. apply (cpu_index_in_bounds 1 1 1 1 65); try lia. reflexivity. Defined.
