(* ===== verification/ExecutorWake.v ===== *)
(** * Wake-ups of the DPC executor are answered

    A wake-up takes effect when it competes for the [scheduled] word.  From
    then on, until a poll of the future begins, the task owes the caller a
    poll ([m_owed]); the invariant of [ExecutorSafety] backs that debt by the
    word, by a queued DPC or by a thread that is bound to poll or to mark the
    word.  This file shows that the debt is paid: the queued DPC polls. *)

From S2P Require Import Prelude Programs Status Refcount Executor ExecutorSem ExecutorSafety ExecutorTheorems.

(** The operation thread [i] performs next. *)
Definition next_op (s : sys) (i : nat) : option op :=
  match s_threads s !! i with
  | Some (mkThread _ (Vis o _)) => Some o
  | _ => None
  end.

(** ** The queued DPC polls *)

(** Thread [i] performs operations with nobody in between. *)
Fixpoint alone (c : config) (x : oracle) (n : nat) (p : prog unit) (m : task_mem)
    : option (prog unit * task_mem) :=
  match n with
  | O => Some (p, m)
  | S n =>
      match p with
      | Ret _ => None
      | Vis o k =>
          match exec c o x m with
          | Done (r, m) => alone c x n (k r) m
          | Fault _ => None
          end
      end
  end.

Lemma run_alone c serial x n i d p p' m m' ts :
  ts !! i = Some (mkThread d p) -> alone c x n p m = Some (p', m') ->
  run c serial (replicate n (Run i x)) (mkSys m ts) = Some (mkSys m' (<[i := mkThread d p']> ts)).
Proof.
  revert p m ts. induction n as [|n IH]; intros p m ts Hi Ha; cbn in Ha |- *.
  - injection Ha as <- <-. by rewrite list_insert_id.
  - destruct p as [|o k]; [done|]. rewrite Hi. destruct (exec c o x m) as [[r m1]|]; [|done].
    rewrite (IH (k r) m1); [|apply list_lookup_insert_eq; by apply lookup_lt_Some in Hi|done].
    by rewrite list_insert_insert_eq.
Qed.

(** A routine that finds the task incomplete gets to its first poll. *)
Lemma routine_reaches_poll c x fuel cpu m :
  fuel <> 0%nat -> m_completed m = 0 -> 0 <= m_ref_count m < MAX_REFCOUNT ->
  exists n k m', alone c x n (dpc_routine fuel cpu) m = Some (Vis PollBegin k, m').
Proof.
  intros Hf Hc Hrc. destruct fuel as [|fuel]; [done|].
  assert (Hadd := add_ok c (m_ref_count m) Hrc).
  destruct (budget_mode (m_budget m) =? TASK_BUDGET_MODE_TIME_US) eqn:Hm, cpu as [cpu|];
    [exists 8%nat|exists 7%nat|exists 6%nat|exists 5%nat]; do 2 eexists;
    cbn -[Refcount.add time_budget]; rewrite Hc; cbn -[Refcount.add time_budget]; rewrite Hadd;
    cbn -[Refcount.add time_budget]; unfold time_budget; rewrite Hm; cbn; reflexivity.
Qed.

Lemma quiescent_idle s : quiescent s -> existsb (fun t => th_dpc t && running t) (s_threads s) = false.
Proof.
  unfold quiescent. induction 1 as [|t ts Ht _ IH]; [done|]. cbn. by rewrite Ht, andb_false_r.
Qed.

Lemma queued_dpc_polls c serial x fuel cpu s :
  fuel <> 0%nat -> quiescent s -> m_queued (s_mem s) = true -> m_completed (s_mem s) = 0 ->
  0 <= m_ref_count (s_mem s) < MAX_REFCOUNT ->
  exists n s', run c serial (Dispatch fuel cpu :: replicate n (Run (length (s_threads s)) x)) s = Some s'
               /\ next_op s' (length (s_threads s)) = Some PollBegin.
Proof.
  intros Hf Hq Hqd Hc Hrc.
  destruct (routine_reaches_poll c x fuel cpu (upd_queued false (s_mem s)) Hf Hc Hrc) as (n & k & m' & Ha).
  exists n. eexists. cbn [run step]. unfold can_dispatch. rewrite Hqd, (quiescent_idle s Hq), orb_true_r.
  cbn [andb]. split.
  - eapply run_alone; [|apply Ha]. by rewrite lookup_app_r, Nat.sub_diag.
  - unfold next_op. cbn. rewrite list_lookup_insert_eq; [done|]. rewrite length_app. cbn. lia.
Qed.

Lemma within_limit_end c serial es s s' :
  within_limit c serial es s -> run c serial es s = Some s' -> m_ref_count (s_mem s') < MAX_REFCOUNT.
Proof.
  revert s. induction es as [|e es IH]; intros s [Hm Hw] Hr; cbn in *.
  - by injection Hr as <-.
  - destruct (step c serial e s) as [s1|]; [by apply (IH s1)|done].
Qed.

(** C6: every wake-up is answered, and so is the spawn.  Suppose that the
    task was never polled, or that some wake-up (from a waker, a cancellation,
    or the future itself during its poll) took effect after the last poll
    began.  Whenever no thread is running and the task is not complete, its
    DPC is in a queue; and as soon as the kernel dispatches it, the routine
    gets to a poll of the future, on any processor and in either budget
    mode. *)
Theorem every_wake_is_answered (c : config) (serial : bool) (b : budget) (p : prog unit)
    (es : list event) (s : sys) :
  is_spawn p -> within_limit c serial es (spawned b p) -> run c serial es (spawned b p) = Some s ->
  quiescent s -> m_owed (s_mem s) = true -> m_completed (s_mem s) = 0 ->
  m_queued (s_mem s) = true
  /\ forall (x : oracle) (fuel : nat) (cpu : option Z), fuel <> 0%nat ->
     exists n s', run c serial (Dispatch fuel cpu :: replicate n (Run (length (s_threads s)) x)) s = Some s'
                  /\ next_op s' (length (s_threads s)) = Some PollBegin.
Proof.
  intros Hp Hw Hr Hq Ho Hc.
  pose proof (owed_at_rest c serial b p es s Hp Hw Hr Hq Ho Hc) as Hs.
  pose proof (no_lost_wakeup c serial b p es s Hp Hw Hr Hq Hs) as Hqd. split; [done|].
  intros x fuel cpu Hf. apply queued_dpc_polls; try done. split; [|by eapply within_limit_end].
  destruct (reachable_Inv c serial b p es s Hp Hw Hr) as (gs & _ & Hg).
  pose proof (gl_refs _ _ _ Hg) as Href. rewrite Hqd in Href. cbn in Href. lia.
Qed.

(** A wake-up that races with the end of the routine: the routine has seen
    that the task is not scheduled and is about to leave. *)
Definition racing_wake : list event :=
  runs 7 0 ++ [Dispatch 5 (Some 0)] ++ runs 6 1
  ++ [Run 1 (mkOracle ([ActClone], PollPending) (0, 0))] ++ runs 4 1
  ++ [Env EnvWake] ++ runs 5 2 ++ runs 3 1.
Definition after_race : sys :=
  default (spawned default_budget spawn_dpc_task_cancellable)
    (run (mkConfig Hardened true) true racing_wake (spawned default_budget spawn_dpc_task_cancellable)).

Lemma every_wake_is_answered_witness :
  m_queued (s_mem after_race) = true
  /\ forall (x : oracle) (fuel : nat) (cpu : option Z), fuel <> 0%nat ->
     exists n s', run (mkConfig Hardened true) true (Dispatch fuel cpu :: replicate n (Run 3 x)) after_race
                  = Some s'
                  /\ next_op s' 3 = Some PollBegin.
Proof.
  apply (every_wake_is_answered (mkConfig Hardened true) true default_budget spawn_dpc_task_cancellable
    racing_wake after_race).
  - by left.
  - vm_compute. repeat split.
  - vm_compute. reflexivity.
  - unfold quiescent. vm_compute. repeat constructor.
  - vm_compute. reflexivity.
  - vm_compute. reflexivity.
Defined.
