(* ===== verification/ExecutorFuture.v ===== *)
(** * The future of a DPC task

    What the executor does to the future of a task, as the future sees it:
    the polls that returned, each with its answer and whether it took the
    cancellation request, and the drop.  The history of every schedule obeys
    the contract of Rust's futures, so that a future verified on its own
    ([Task], [AsyncOp]) can be put on the executor. *)

From S2P Require Import Prelude Programs Status Refcount Executor ExecutorSem ExecutorSafety ExecutorTheorems ExecutorWake.

(** ** Histories *)

(** A poll: whether [take_cancellation_request] succeeded in it, and its
    answer. *)
Record history : Type := mkHistory {
  h_polls : list (bool * Poll);       (* the polls that returned *)
  h_current : option (bool * Poll);   (* the poll in progress *)
  h_drops : nat
}.

Definition no_history : history := mkHistory [] None 0.

Definition record_op (o : op) (x : oracle) (m : task_mem) (h : history) : history :=
  match o with
  | PollBegin => mkHistory (h_polls h) (Some (false, snd (or_poll x))) (h_drops h)
  | CasCancel 1 2 =>
      if m_cancel m =? 1
      then mkHistory (h_polls h) (option_map (fun p => (true, snd p)) (h_current h)) (h_drops h)
      else h
  | PollEnd => mkHistory (h_polls h ++ option_list (h_current h)) None (h_drops h)
  | DropFuture => mkHistory (h_polls h) (h_current h) (S (h_drops h))
  | _ => h
  end.

Definition record (e : event) (s : sys) (h : history) : history :=
  match e with
  | Run i x => match next_op s i with Some o => record_op o x (s_mem s) h | None => h end
  | _ => h
  end.

Fixpoint future_history (c : config) (serial : bool) (es : list event) (s : sys) (h : history) : history :=
  match es with
  | [] => h
  | e :: es =>
      match step c serial e s with
      | Some s' => future_history c serial es s' (record e s h)
      | None => h
      end
  end.

(** ** The contract *)

Definition pending (p : bool * Poll) : Prop := is_ready (snd p) = false.

(** No poll after one that was ready, no drop during a poll or before the
    first one, at most one drop and no poll after it. *)
Record obeys (h : history) : Prop := {
  ob_polls : match h_current h with
             | Some _ => Forall pending (h_polls h)
             | None => Forall pending (removelast (h_polls h))
             end;
  ob_drops : (h_drops h <= 1)%nat;
  ob_dropped : (h_drops h = 1)%nat -> h_polls h <> [] /\ h_current h = None
}.

(** The memory of the task agrees with the history. *)
Definition last_ready (h : history) : bool :=
  match h_current h with
  | Some p => is_ready (snd p)
  | None => match list.last (h_polls h) with Some p => is_ready (snd p) | None => false end
  end.

Definition polling_now (h : history) : bool := match h_current h with Some _ => true | None => false end.
Definition polled (h : history) : bool := match h_polls h with [] => polling_now h | _ => true end.

Record agrees (m : task_mem) (h : history) : Prop := {
  ag_obeys : obeys h;
  ag_polling : m_polling m = polling_now h;
  ag_polled : m_polled m = polled h;
  ag_ready : m_ready m = last_ready h;
  ag_future : m_future m = (h_drops h =? 0)%nat
}.

Lemma agrees_fresh b : agrees (task_fresh b) no_history.
Proof. split; try reflexivity. split; cbn; [constructor|lia|done]. Qed.

Lemma removelast_pending ps :
  Forall pending (removelast ps) ->
  match list.last ps with Some p => is_ready (snd p) | None => false end = false -> Forall pending ps.
Proof.
  induction ps as [|p ps IH]; [done|]. destruct ps as [|q ps]; cbn [removelast].
  - intros _ H. by repeat constructor.
  - intros [Hp Hps]%Forall_cons_iff Hl. constructor; [done|]. by apply IH.
Qed.

(** A future that is alive and not being polled: no poll is open and the
    history records no drop. *)
Lemma agrees_idle m h :
  agrees m h -> m_future m = true -> m_polling m = false -> h_current h = None /\ h_drops h = 0%nat.
Proof.
  intros [_ Hpg _ _ Hfu] Hf Hp. rewrite Hp in Hpg. rewrite Hf in Hfu. symmetry in Hfu.
  split; [|by apply Nat.eqb_eq]. unfold polling_now in Hpg. by destruct (h_current h).
Qed.

(** An operation that the monitor of the future does not object to. *)
Lemma record_agrees c o x m r m' h :
  agrees m h -> exec c o x m = Done (r, m') -> m_bad_future m' = false -> agrees m' (record_op o x m h).
Proof.
  intros Hag He Hbad. pose proof (agrees_idle m h Hag) as Hidle. destruct Hag as [Hob Hpg Hpd Hrd Hfu].
  assert (Hsame : m_polling m' = m_polling m -> m_polled m' = m_polled m -> m_ready m' = m_ready m ->
    m_future m' = m_future m -> agrees m' h) by (intros E1 E2 E3 E4; split; congruence).
  destruct o; cbn in He; cbn [record_op];
    try (repeat case_hyp He; try done; injection He as <- <-; by apply Hsame).
  - (* CasCancel *)
    assert (Hm : agrees m' h).
    { destruct (m_cancel m =? old); injection He as <- <-; by apply Hsame. }
    assert (Hc : agrees m' (mkHistory (h_polls h) (option_map (fun p => (true, snd p)) (h_current h)) (h_drops h))).
    { destruct h as [ps [q|] d]; [|exact Hm]. destruct Hm as [[H1 H2 H3] ? ? ? ?]. split; try done.
      split; try done. cbn in *. intros Hd. by destruct (H3 Hd). }
    repeat case_goal; done.
  - (* PollBegin *)
    injection He as <- <-. cbn in Hbad. apply orb_false_iff in Hbad as [_ Hbad].
    apply orb_false_iff in Hbad as [Hbad Hr0]. apply orb_false_iff in Hbad as [Hf0 Hp0].
    apply negb_false_iff in Hf0. destruct (Hidle Hf0 Hp0) as [Hcur Hdr].
    rewrite Hr0 in Hrd. unfold last_ready in Hrd. rewrite Hcur in Hrd.
    destruct Hob as [H1 H2 H3]. rewrite Hcur in H1. split; cbn; try done.
    + split; cbn; [by apply removelast_pending|lia|intros; lia].
    + unfold polled. cbn. by destruct (h_polls h).
  - (* PollEnd *)
    injection He as <- <-. cbn in Hbad. apply orb_false_iff in Hbad as [_ Hp1].
    apply negb_false_iff in Hp1. rewrite Hp1 in Hpg. unfold polling_now in Hpg.
    destruct (h_current h) as [p|] eqn:Hp; [|done].
    destruct Hob as [H1 H2 H3]. rewrite Hp in H1. cbn [option_list].
    assert (Hne : h_polls h ++ [p] <> []) by (by destruct (h_polls h)).
    split; cbn; try done.
    + split; cbn; [by rewrite removelast_last|done|]. intros Hd. by split.
    + rewrite Hpd. unfold polled, polling_now. cbn. rewrite Hp. by destruct (h_polls h).
    + rewrite Hrd. unfold last_ready. cbn. by rewrite Hp, list.last_snoc.
  - (* DropFuture *)
    injection He as <- <-. cbn in Hbad. apply orb_false_iff in Hbad as [_ Hbad].
    apply orb_false_iff in Hbad as [Hbad Hd0]. apply orb_false_iff in Hbad as [Hf0 Hp0].
    apply negb_false_iff in Hf0, Hd0. destruct (Hidle Hf0 Hp0) as [Hcur Hdr].
    rewrite Hd0 in Hpd. unfold polled, polling_now in Hpd. rewrite Hcur in Hpd.
    destruct Hob as [H1 H2 H3]. split; cbn; try done.
    + split; cbn; [done|lia|]. intros _. split; [|done]. by destruct (h_polls h).
    + rewrite Hd0. unfold polled, polling_now. cbn. by rewrite Hcur.
Qed.

(** ** Every schedule obeys it *)

Section Contract.
Context (c : config).

Lemma exec_bad o x m r m' : exec c o x m = Done (r, m') -> m_bad_future m = true -> m_bad_future m' = true.
Proof.
  intros He Hb. destruct o; cbn in He; repeat case_hyp He; try done; injection He as <- <-; cbn; by rewrite ?Hb.
Qed.

Lemma step_bad serial e s s' :
  step c serial e s = Some s' -> m_bad_future (s_mem s) = true -> m_bad_future (s_mem s') = true.
Proof.
  intros Hs Hb. destruct e as [i x|fuel cpu|a]; cbn in Hs.
  - destruct (s_threads s !! i) as [[d [|o k]]|]; try done.
    destruct (exec c o x (s_mem s)) as [[r m']|] eqn:He; [|done]. injection Hs as <-. by eapply exec_bad.
  - destruct (can_dispatch serial s); [|done]. by injection Hs as <-.
  - destruct (m_given (s_mem s)); [done|]. by injection Hs as <-.
Qed.

Lemma run_bad serial es s s' :
  run c serial es s = Some s' -> m_bad_future (s_mem s) = true -> m_bad_future (s_mem s') = true.
Proof.
  revert s. induction es as [|e es IH]; intros s Hr Hb; cbn in Hr; [by injection Hr as <-|].
  destruct (step c serial e s) as [s1|] eqn:E; [|done]. by eapply IH, step_bad.
Qed.

Lemma step_agrees serial e s s' h :
  agrees (s_mem s) h -> step c serial e s = Some s' -> m_bad_future (s_mem s') = false ->
  agrees (s_mem s') (record e s h).
Proof.
  intros Ha Hs Hb. destruct e as [i x|fuel cpu|a]; cbn in Hs |- *.
  - unfold next_op. destruct (s_threads s !! i) as [[d [|o k]]|]; try done.
    destruct (exec c o x (s_mem s)) as [[r m']|] eqn:He; [|done]. injection Hs as <-.
    by eapply record_agrees.
  - destruct (can_dispatch serial s); [|done]. injection Hs as <-. by destruct Ha.
  - destruct (m_given (s_mem s)); [done|]. injection Hs as <-. by destruct Ha.
Qed.

Lemma run_agrees serial es s s' h :
  agrees (s_mem s) h -> run c serial es s = Some s' -> m_bad_future (s_mem s') = false ->
  agrees (s_mem s') (future_history c serial es s h).
Proof.
  revert s h. induction es as [|e es IH]; intros s h Ha Hr Hb; cbn in Hr |- *; [by injection Hr as <-|].
  destruct (step c serial e s) as [s1|] eqn:E; [|done]. apply IH; [|done|done].
  eapply step_agrees; [done|done|]. destruct (m_bad_future (s_mem s1)) eqn:Hb1; [|done].
  by rewrite (run_bad _ _ _ _ Hr Hb1) in Hb.
Qed.

Lemma spawned_agrees b p es s :
  is_spawn p -> within_limit c true es (spawned b p) -> run c true es (spawned b p) = Some s ->
  agrees (s_mem s) (future_history c true es (spawned b p) no_history)
  /\ (m_freed (s_mem s) = true -> m_future (s_mem s) = false).
Proof.
  intros Hp Hw Hr. destruct (reachable_Inv c true b p es s Hp Hw Hr) as (gs & _ & Hg).
  destruct (gl_future _ _ _ Hg eq_refl) as (_ & Hb & _ & _ & _ & _ & Hf). split.
  - apply (run_agrees true es (spawned b p)); [apply agrees_fresh|done|by destruct (m_bad_future _)].
  - intros Hfr. rewrite Hfr in Hf. specialize (Hf eq_refl). by destruct (m_future _).
Qed.

Lemma spawned_obeys b p es s :
  is_spawn p -> within_limit c true es (spawned b p) -> run c true es (spawned b p) = Some s ->
  let h := future_history c true es (spawned b p) no_history in
  obeys h /\ (m_freed (s_mem s) = true -> h_drops h = 1%nat /\ h_polls h <> []).
Proof.
  intros Hp Hw Hr h. destruct (spawned_agrees b p es s Hp Hw Hr) as [[Hob _ _ _ Hfu] Hfr].
  fold h in Hob, Hfu. split; [done|]. intros Hf. rewrite (Hfr Hf) in Hfu. symmetry in Hfu.
  apply Nat.eqb_neq in Hfu. pose proof (ob_drops _ Hob). assert (Hd : h_drops h = 1%nat) by lia.
  split; [done|]. by apply (ob_dropped _ Hob).
Qed.
End Contract.

(** ** Futures on the executor

    A future is its state with its poll and its drop, which act on the rest
    of the world; [cancelled] is what [take_cancellation_request] answers in
    the poll. *)
Section Client.
Context {W S D : Type}.
Context (poll : bool -> S -> M W (S * Poll)) (drop : S -> M W D).

(** The executor's answers are those of the future. *)
Fixpoint follows (ps : list (bool * Poll)) (st : S) (w : W) : Prop :=
  match ps with
  | [] => True
  | (cancelled, r) :: ps =>
      match poll cancelled st w with
      | Done ((st', r'), w') => r' = r /\ follows ps st' w'
      | Fault _ => True
      end
  end.

Fixpoint poll_each (ps : list (bool * Poll)) (st : S) : M W S :=
  match ps with
  | [] => mret st
  | (cancelled, _) :: ps => let* (st, _) := poll cancelled st in poll_each ps st
  end.

(** The life of a future: its polls, then its drop if there was one. *)
Definition live (h : history) (st : S) : M W (S + D) :=
  let* st := poll_each (h_polls h) st in
  match h_drops h with
  | O => mret (inl st)
  | _ => let* d := drop st in mret (inr d)
  end.
End Client.
