(* ===== verification/WorkItem.v ===== *)
(** * The work-item executor

    Models [WorkItemTask] of [src/src/executor.rs], which runs futures at
    PASSIVE_LEVEL: the trait [TaskContext] with its WDM and KMDF
    implementations, the reference-counted task, its waker vtable, the
    work-item routines, [WorkItemCancelHandle] and the [spawn_task] functions.
    As in [Executor], functions are programs over atomic operations; the
    routines of the I/O manager and of KMDF are operations too, whose effect
    [WorkItemSem] gives. *)

From S2P Require Import Prelude Programs Status Refcount.

(** ** Operations

    Pointers to the task are [option unit]: a system of this model has one
    task, so a pointer is null or points to it.  Work items are numbered. *)
Abbreviation task_ptr := (option unit).
Abbreviation item_ptr := (option nat).

(** What a future does with its waker while it is polled. *)
Inductive poll_action : Type :=
| ActClone           (* clones the waker and keeps the clone *)
| ActWakeByRef.

Inductive Poll : Type := PollReady (status : NTSTATUS) | PollPending.

(** The two driver models, selected by the build. *)
Inductive driver_type : Type := WDM | KMDF.

#[global] Instance driver_type_eq_dec : EqDecision driver_type.
Proof. solve_decision. Defined.

Section Operations.
Context {C : Type}.

Inductive op : Type :=
(* the block of the task *)
| Allocate | Dealloc
| RefAdd | RefSub
| StoreContext (context : C) | LoadContext
| StoreTracker (tracker : bool) | LoadTracker
| LoadCompleted | StoreCompleted
| CasScheduled | ClearScheduled
| CasCancel | LoadCancel
| StoreItem (item : item_ptr) | SwapItem
(* its future *)
| PollBegin | PollEnd | DropFuture
| GiveRef                      (* a reference is handed to the environment *)
(* the tracker of the task *)
| TrackerBegin | TrackerComplete
(* the I/O manager *)
| ObReferenceObject | ObDereferenceObject
| IoAllocateWorkItem
| IoQueueWorkItem (item : nat) (context : task_ptr)
| IoFreeWorkItem (item : nat)
(* KMDF *)
| WdfWorkItemCreate
| WdfObjectGetTypedContext (item : nat)
| WriteItemContext (item : nat) (p : task_ptr)
| ReadItemContext (item : nat)
| WdfWorkItemEnqueue (item : nat)
| WdfObjectDelete (item : nat).

Definition resp (o : op) : Type :=
  match o with
  | Allocate | CasScheduled | CasCancel | LoadTracker | WdfObjectGetTypedContext _ => bool
  | RefAdd | RefSub | LoadCompleted | LoadCancel => Z
  | LoadContext => C
  | SwapItem | IoAllocateWorkItem => item_ptr
  | PollBegin => list poll_action * Poll
  | WdfWorkItemCreate => NTSTATUS * nat
  | ReadItemContext _ => task_ptr
  | _ => unit
  end.
End Operations.
Arguments op C : clear implicits, assert.

Abbreviation prog C := (program (resp (C:=C))).
Abbreviation act := (Programs.act (R:=resp)).
#[local] Open Scope prog_scope.

(** ** TaskContext

    The trait; [driver] is the build that compiles the implementation and
    [default_context] is [C::default()].  [create_work_item] returns the
    status and what it stored through [out_item]. *)
Class TaskContext (C : Type) : Type := {
  driver : driver_type;
  default_context : C;
  is_valid : C -> bool;
  retain : C -> prog C unit;
  release_context : C -> prog C unit;
  create_work_item : C -> task_ptr -> prog C (NTSTATUS * item_ptr);
  enqueue_work_item : item_ptr -> task_ptr -> prog C unit;
  delete_work_item : item_ptr -> prog C unit
}.

(** [*mut DEVICE_OBJECT] and [WDFDEVICE]: addresses, null is 0. *)
Record PDEVICE_OBJECT : Type := mkPDEVICE { device_object : Z }.
Record WDFDEVICE : Type := mkWDFDEVICE { wdf_device : Z }.

Definition wdm_is_valid (self : PDEVICE_OBJECT) : bool := negb (device_object self =? 0).
Definition wdm_retain (self : PDEVICE_OBJECT) : prog PDEVICE_OBJECT unit :=
  if negb (device_object self =? 0) then act ObReferenceObject else Ret tt.
Definition wdm_release (self : PDEVICE_OBJECT) : prog PDEVICE_OBJECT unit :=
  if negb (device_object self =? 0) then act ObDereferenceObject else Ret tt.

Definition wdm_create_work_item (self : PDEVICE_OBJECT) (_task_ptr : task_ptr)
    : prog PDEVICE_OBJECT (NTSTATUS * item_ptr) :=
  if device_object self =? 0 then Ret (STATUS_INVALID_PARAMETER, None)
  else
    work_item <- act IoAllocateWorkItem ;
    match work_item with
    | None => Ret (STATUS_INSUFFICIENT_RESOURCES, None)
    | Some i => Ret (STATUS_SUCCESS, Some i)
    end.

Definition wdm_enqueue_work_item (item : item_ptr) (p : task_ptr) : prog PDEVICE_OBJECT unit :=
  match item with None => Ret tt | Some i => act (IoQueueWorkItem i p) end.
Definition wdm_delete_work_item (item : item_ptr) : prog PDEVICE_OBJECT unit :=
  match item with None => Ret tt | Some i => act (IoFreeWorkItem i) end.

#[global] Instance WdmContext : TaskContext PDEVICE_OBJECT := {
  driver := WDM;
  default_context := mkPDEVICE 0;
  is_valid := wdm_is_valid;
  retain := wdm_retain;
  release_context := wdm_release;
  create_work_item := wdm_create_work_item;
  enqueue_work_item := wdm_enqueue_work_item;
  delete_work_item := wdm_delete_work_item
}.

Definition kmdf_is_valid (self : WDFDEVICE) : bool := negb (wdf_device self =? 0).
Definition kmdf_retain (_self : WDFDEVICE) : prog WDFDEVICE unit := Ret tt.
Definition kmdf_release (_self : WDFDEVICE) : prog WDFDEVICE unit := Ret tt.

Definition kmdf_create_work_item (self : WDFDEVICE) (p : task_ptr)
    : prog WDFDEVICE (NTSTATUS * item_ptr) :=
  if wdf_device self =? 0 then Ret (STATUS_INVALID_PARAMETER, None)
  else
    created <- act WdfWorkItemCreate ;
    let '(status, work_item) := created in
    if negb (status =? STATUS_SUCCESS) then Ret (status, None)
    else
      ctx <- act (WdfObjectGetTypedContext work_item) ;
      if negb ctx then
        act (WdfObjectDelete work_item) ;;
        Ret (STATUS_INVALID_PARAMETER, None)
      else
        act (WriteItemContext work_item p) ;;
        Ret (STATUS_SUCCESS, Some work_item).

Definition kmdf_enqueue_work_item (item : item_ptr) (_p : task_ptr) : prog WDFDEVICE unit :=
  match item with None => Ret tt | Some i => act (WdfWorkItemEnqueue i) end.
Definition kmdf_delete_work_item (item : item_ptr) : prog WDFDEVICE unit :=
  match item with None => Ret tt | Some i => act (WdfObjectDelete i) end.

#[global] Instance KmdfContext : TaskContext WDFDEVICE := {
  driver := KMDF;
  default_context := mkWDFDEVICE 0;
  is_valid := kmdf_is_valid;
  retain := kmdf_retain;
  release_context := kmdf_release;
  create_work_item := kmdf_create_work_item;
  enqueue_work_item := kmdf_enqueue_work_item;
  delete_work_item := kmdf_delete_work_item
}.

(** ** WorkItemTask *)

Section WorkItemTask.
Context {C : Type} `{!TaskContext C}.

(** [tracker_begin] and [tracker_complete]: the tracker pointer is null or
    not in a WDM build, and ignored in a KMDF build. *)
Definition tracker_begin (tracker : bool) : prog C unit :=
  match driver with
  | WDM => if tracker then act TrackerBegin else Ret tt
  | KMDF => Ret tt
  end.
Definition tracker_complete (tracker : bool) : prog C unit :=
  match driver with
  | WDM => if tracker then act TrackerComplete else Ret tt
  | KMDF => Ret tt
  end.

Definition allocate : prog C (result unit NTSTATUS) :=
  ok <- act Allocate ;
  Ret (if ok : bool then Ok tt else Err STATUS_INSUFFICIENT_RESOURCES).

Definition add_ref : prog C unit := act RefAdd ;; Ret tt.

(** Copies the [context] field. *)
Definition load_context : prog C C := act LoadContext.

(** The context is read before the block is freed.  Dropping the box drops
    the task, whose [future] is [ManuallyDrop]. *)
Definition free : prog C unit :=
  context <- load_context ;
  act Dealloc ;;
  if is_valid context then release_context context else Ret tt.

Definition release : prog C unit :=
  count <- act RefSub ;
  if negb (count =? 0) then Ret tt else free.

Definition schedule : prog C NTSTATUS :=
  completed <- act LoadCompleted ;
  if negb (completed =? 0) then Ret STATUS_SUCCESS
  else
    ok <- act CasScheduled ;
    if negb ok then Ret STATUS_SUCCESS
    else
      tracker <- act LoadTracker ;
      tracker_begin tracker ;;
      context <- load_context ;
      if negb (is_valid context) then
        act ClearScheduled ;;
        tracker_complete tracker ;;
        Ret STATUS_INVALID_PARAMETER
      else
        created <- create_work_item context (Some tt) ;
        let '(status, work_item) := created in
        if negb (status =? STATUS_SUCCESS) then
          act ClearScheduled ;;
          tracker_complete tracker ;;
          Ret status
        else
          act (StoreItem work_item) ;;
          add_ref ;;
          enqueue_work_item work_item (Some tt) ;;
          Ret STATUS_SUCCESS.

Definition cancel : prog C unit :=
  ok <- act CasCancel ;
  if ok : bool then schedule ;; Ret tt else Ret tt.

(** ** The waker vtable *)

Definition raw_waker : prog C task_ptr := add_ref ;; Ret (Some tt).
Definition clone_raw (p : task_ptr) : prog C task_ptr :=
  match p with None => Ret None | Some _ => raw_waker end.
Definition wake_raw (p : task_ptr) : prog C unit :=
  match p with None => Ret tt | Some _ => schedule ;; release end.
Definition wake_by_ref_raw (p : task_ptr) : prog C unit :=
  match p with None => Ret tt | Some _ => schedule ;; Ret tt end.
Definition drop_raw (p : task_ptr) : prog C unit :=
  match p with None => Ret tt | Some _ => release end.

(** ** Running a work item *)

Fixpoint run_actions (waker : task_ptr) (acts : list poll_action) : prog C unit :=
  match acts with
  | [] => Ret tt
  | ActClone :: acts => clone_raw waker ;; act GiveRef ;; run_actions waker acts
  | ActWakeByRef :: acts => wake_by_ref_raw waker ;; run_actions waker acts
  end.

Definition poll (waker : task_ptr) : prog C Poll :=
  script <- act PollBegin ;
  run_actions waker (fst script) ;;
  act PollEnd ;;
  Ret (snd script).

(** Marks the task complete and drops its future. *)
Definition complete_task : prog C unit := act StoreCompleted ;; act DropFuture.

Definition run (fallback_work_item : item_ptr) : prog C unit :=
  tracker <- act LoadTracker ;
  act ClearScheduled ;;
  completed <- act LoadCompleted ;
  if negb (completed =? 0) then tracker_complete tracker ;; release
  else
    cancelled <- act LoadCancel ;
    (if negb (cancelled =? 0) then complete_task
     else
       waker <- raw_waker ;
       p <- poll waker ;
       match p with PollReady _status => complete_task | PollPending => Ret tt end ;;
       drop_raw waker) ;;
    work_item <- act SwapItem ;
    let work_item := match work_item with None => fallback_work_item | Some _ => work_item end in
    match work_item with None => Ret tt | Some _ => delete_work_item work_item end ;;
    tracker_complete tracker ;;
    release.

(** The callbacks: the WDM one gets the context it was queued with, the KMDF
    one its work item. *)
Definition work_item_routine_wdm (context : task_ptr) : prog C unit :=
  match context with None => Ret tt | Some _ => run None end.

Definition work_item_routine_kmdf (work_item : nat) : prog C unit :=
  ctx <- act (WdfObjectGetTypedContext work_item) ;
  if negb ctx then act (WdfObjectDelete work_item)
  else
    p <- act (ReadItemContext work_item) ;
    match p with
    | None => act (WdfObjectDelete work_item)
    | Some _ => run (Some work_item)
    end.

(** [work_item_callback]: the routine the build compiles, applied to what the
    system passes it. *)
Definition work_item_callback (work_item : nat) (context : task_ptr) : prog C unit :=
  match driver with
  | WDM => work_item_routine_wdm context
  | KMDF => work_item_routine_kmdf work_item
  end.

(** ** WorkItemCancelHandle

    A handle is the pointer in its [task] field. *)

Definition WorkItemCancelHandle_new : prog C task_ptr := add_ref ;; Ret (Some tt).
Definition WorkItemCancelHandle_cancel (handle : task_ptr) : prog C unit :=
  match handle with None => Ret tt | Some _ => cancel end.
Definition WorkItemCancelHandle_is_cancelled (handle : task_ptr) : prog C bool :=
  match handle with
  | None => Ret false
  | Some _ => v <- act LoadCancel ; Ret (negb (v =? 0))
  end.
Definition WorkItemCancelHandle_clone (handle : task_ptr) : prog C task_ptr :=
  match handle with
  | None => Ret None
  | Some _ => add_ref ;; Ret handle
  end.
Definition WorkItemCancelHandle_drop (handle : task_ptr) : prog C unit :=
  match handle with None => Ret tt | Some _ => release end.

(** ** Spawning *)

Definition spawn_task (context : C) : prog C NTSTATUS :=
  if negb (is_valid context) then Ret STATUS_INVALID_PARAMETER
  else
    ptr <- allocate ;
    match ptr with
    | Err s => Ret s
    | Ok _ =>
        retain context ;;
        act (StoreContext context) ;;
        status <- schedule ;
        release ;;
        Ret status
    end.

Definition spawn_task_cancellable (context : C) : prog C (result task_ptr NTSTATUS) :=
  if negb (is_valid context) then Ret (Err STATUS_INVALID_PARAMETER)
  else
    ptr <- allocate ;
    match ptr with
    | Err s => Ret (Err s)
    | Ok _ =>
        retain context ;;
        act (StoreContext context) ;;
        act (StoreTracker false) ;;
        handle <- WorkItemCancelHandle_new ;
        status <- schedule ;
        release ;;
        if negb (status =? STATUS_SUCCESS) then
          WorkItemCancelHandle_drop handle ;; Ret (Err status)
        else Ret (Ok handle)
    end.
End WorkItemTask.

(** The tracked functions exist for WDM only. *)
Definition spawn_task_tracked (device : PDEVICE_OBJECT) : prog PDEVICE_OBJECT NTSTATUS :=
  if device_object device =? 0 then Ret STATUS_INVALID_PARAMETER
  else
    ptr <- allocate ;
    match ptr with
    | Err s => Ret s
    | Ok _ =>
        retain device ;;
        act (StoreContext device) ;;
        act (StoreTracker true) ;;
        status <- schedule ;
        release ;;
        Ret status
    end.

Definition spawn_task_cancellable_tracked (device : PDEVICE_OBJECT)
    : prog PDEVICE_OBJECT (result task_ptr NTSTATUS) :=
  if device_object device =? 0 then Ret (Err STATUS_INVALID_PARAMETER)
  else
    ptr <- allocate ;
    match ptr with
    | Err s => Ret (Err s)
    | Ok _ =>
        retain device ;;
        act (StoreContext device) ;;
        act (StoreTracker true) ;;
        handle <- WorkItemCancelHandle_new ;
        status <- schedule ;
        release ;;
        if negb (status =? STATUS_SUCCESS) then
          WorkItemCancelHandle_drop handle ;; Ret (Err status)
        else Ret (Ok handle)
    end.

(** Builds without this executor: neither WDM nor, for the DPC executor's
    function, [async-com-kernel]. *)
Definition spawn_task_cancellable_tracked_unsupported : result task_ptr NTSTATUS :=
  Err STATUS_NOT_SUPPORTED.
Definition spawn_dpc_task_cancellable_unsupported : result task_ptr NTSTATUS :=
  Err STATUS_NOT_SUPPORTED.
