(* ===== verification/WorkItemSem.v ===== *)
(** * The work-item executor at run time

    The memory of one task, the I/O manager and KMDF as far as the executor
    uses them, the effect of each operation, and the schedules of threads,
    work-item dispatches and environment actions, as in [ExecutorSem]. *)

From S2P Require Import Prelude Programs Status Refcount WorkItem.

(** ** The memory of a task *)

(** [WorkItemTask], the future apart. *)
Record block (C : Type) : Type := mkBlock {
  b_ref_count : Z;
  b_scheduled : Z;
  b_completed : Z;
  b_cancel_requested : Z;
  b_context : C;
  b_tracker : bool;
  b_work_item : item_ptr
}.
Arguments mkBlock {C} _ _ _ _ _ _ _ : assert.
Arguments b_ref_count {C} _ : assert.
Arguments b_scheduled {C} _ : assert.
Arguments b_completed {C} _ : assert.
Arguments b_cancel_requested {C} _ : assert.
Arguments b_context {C} _ : assert.
Arguments b_tracker {C} _ : assert.
Arguments b_work_item {C} _ : assert.

(** A work item of KMDF has room for a [WorkItemTaskContext] when its context
    type was accepted, and the pointer stored there; [WDM] items use
    neither. *)
Record item : Type := mkItem { it_typed : bool; it_task : task_ptr }.

(** The work items that are allocated, the number of the next one, the items
    in a work queue with the context they were queued with, the references to
    the device object the task accounts for, and the calls of the tracker. *)
Record kernel : Type := mkKernel {
  k_items : gmap nat item;
  k_next : nat;
  k_queue : list (nat * task_ptr);
  k_device : Z;
  k_begun : nat;
  k_done : nat
}.

Inductive phase : Type := Unallocated | Live | Freed.

#[global] Instance phase_eq_dec : EqDecision phase.
Proof. solve_decision. Defined.

Record world (C : Type) : Type := mkWorld {
  w_block : block C;
  w_kernel : kernel;
  w_phase : phase;          (* of the block *)
  w_future : bool;          (* [future] is in the block and has not been dropped *)
  w_polling : nat;          (* polls of [future] in progress *)
  w_given : nat;            (* references held by the environment *)
  w_use_after_free : bool;  (* the block was used when it was not allocated *)
  w_bad_future : bool;      (* the future was polled or dropped when it must not be *)
  w_bad_item : bool         (* a work item was deleted while queued, or used after that *)
}.
Arguments mkWorld {C} _ _ _ _ _ _ _ _ _ : assert.
Arguments w_block {C} _ : assert.
Arguments w_kernel {C} _ : assert.
Arguments w_phase {C} _ : assert.
Arguments w_future {C} _ : assert.
Arguments w_polling {C} _ : assert.
Arguments w_given {C} _ : assert.
Arguments w_use_after_free {C} _ : assert.
Arguments w_bad_future {C} _ : assert.
Arguments w_bad_item {C} _ : assert.

Definition set_ref_count {C : Type} (v : Z) (b : block C) : block C :=
  mkBlock v (b_scheduled b) (b_completed b) (b_cancel_requested b) (b_context b)
    (b_tracker b) (b_work_item b).
Definition set_scheduled {C : Type} (v : Z) (b : block C) : block C :=
  mkBlock (b_ref_count b) v (b_completed b) (b_cancel_requested b) (b_context b)
    (b_tracker b) (b_work_item b).
Definition set_completed {C : Type} (v : Z) (b : block C) : block C :=
  mkBlock (b_ref_count b) (b_scheduled b) v (b_cancel_requested b) (b_context b)
    (b_tracker b) (b_work_item b).
Definition set_cancel_requested {C : Type} (v : Z) (b : block C) : block C :=
  mkBlock (b_ref_count b) (b_scheduled b) (b_completed b) v (b_context b) (b_tracker b)
    (b_work_item b).
Definition set_context {C : Type} (v : C) (b : block C) : block C :=
  mkBlock (b_ref_count b) (b_scheduled b) (b_completed b) (b_cancel_requested b) v
    (b_tracker b) (b_work_item b).
Definition set_tracker {C : Type} (v : bool) (b : block C) : block C :=
  mkBlock (b_ref_count b) (b_scheduled b) (b_completed b) (b_cancel_requested b)
    (b_context b) v (b_work_item b).
Definition set_work_item {C : Type} (v : item_ptr) (b : block C) : block C :=
  mkBlock (b_ref_count b) (b_scheduled b) (b_completed b) (b_cancel_requested b)
    (b_context b) (b_tracker b) v.
Definition set_items (v : gmap nat item) (k : kernel) : kernel :=
  mkKernel v (k_next k) (k_queue k) (k_device k) (k_begun k) (k_done k).
Definition set_next (v : nat) (k : kernel) : kernel :=
  mkKernel (k_items k) v (k_queue k) (k_device k) (k_begun k) (k_done k).
Definition set_queue (v : list (nat * task_ptr)) (k : kernel) : kernel :=
  mkKernel (k_items k) (k_next k) v (k_device k) (k_begun k) (k_done k).
Definition set_device (v : Z) (k : kernel) : kernel :=
  mkKernel (k_items k) (k_next k) (k_queue k) v (k_begun k) (k_done k).
Definition set_begun (v : nat) (k : kernel) : kernel :=
  mkKernel (k_items k) (k_next k) (k_queue k) (k_device k) v (k_done k).
Definition set_done (v : nat) (k : kernel) : kernel :=
  mkKernel (k_items k) (k_next k) (k_queue k) (k_device k) (k_begun k) v.
Definition set_block {C : Type} (v : block C) (m : world C) : world C :=
  mkWorld v (w_kernel m) (w_phase m) (w_future m) (w_polling m) (w_given m)
    (w_use_after_free m) (w_bad_future m) (w_bad_item m).
Definition set_kernel {C : Type} (v : kernel) (m : world C) : world C :=
  mkWorld (w_block m) v (w_phase m) (w_future m) (w_polling m) (w_given m)
    (w_use_after_free m) (w_bad_future m) (w_bad_item m).
Definition set_phase {C : Type} (v : phase) (m : world C) : world C :=
  mkWorld (w_block m) (w_kernel m) v (w_future m) (w_polling m) (w_given m)
    (w_use_after_free m) (w_bad_future m) (w_bad_item m).
Definition set_future {C : Type} (v : bool) (m : world C) : world C :=
  mkWorld (w_block m) (w_kernel m) (w_phase m) v (w_polling m) (w_given m)
    (w_use_after_free m) (w_bad_future m) (w_bad_item m).
Definition set_polling {C : Type} (v : nat) (m : world C) : world C :=
  mkWorld (w_block m) (w_kernel m) (w_phase m) (w_future m) v (w_given m)
    (w_use_after_free m) (w_bad_future m) (w_bad_item m).
Definition set_given {C : Type} (v : nat) (m : world C) : world C :=
  mkWorld (w_block m) (w_kernel m) (w_phase m) (w_future m) (w_polling m) v
    (w_use_after_free m) (w_bad_future m) (w_bad_item m).
Definition set_use_after_free {C : Type} (v : bool) (m : world C) : world C :=
  mkWorld (w_block m) (w_kernel m) (w_phase m) (w_future m) (w_polling m) (w_given m) v
    (w_bad_future m) (w_bad_item m).
Definition set_bad_future {C : Type} (v : bool) (m : world C) : world C :=
  mkWorld (w_block m) (w_kernel m) (w_phase m) (w_future m) (w_polling m) (w_given m)
    (w_use_after_free m) v (w_bad_item m).
Definition set_bad_item {C : Type} (v : bool) (m : world C) : world C :=
  mkWorld (w_block m) (w_kernel m) (w_phase m) (w_future m) (w_polling m) (w_given m)
    (w_use_after_free m) (w_bad_future m) v.

Definition on_block {C : Type} (f : block C -> block C) (m : world C) : world C :=
  set_block (f (w_block m)) m.
Definition on_kernel {C : Type} (f : kernel -> kernel) (m : world C) : world C :=
  set_kernel (f (w_kernel m)) m.

(** The block [allocate] writes. *)
Definition block_fresh {C : Type} `{!TaskContext C} : block C :=
  mkBlock 1 0 0 0 default_context false None.

(** Nothing is allocated yet. *)
Definition world_init {C : Type} `{!TaskContext C} : world C :=
  mkWorld block_fresh (mkKernel ∅ 0 [] 0 0 0) Unallocated false 0 0 false false false.

(** ** The effect of an operation *)

(** What the environment decides: whether the pool has a block, the status of
    creating a work item, whether it has a typed context, and what the future
    does. *)
Record oracle : Type := mkOracle {
  or_alloc : bool;
  or_create : NTSTATUS;
  or_typed : bool;
  or_poll : list poll_action * Poll
}.

Definition outside {C : Type} (o : op C) : bool :=
  match o with
  | Allocate | GiveRef | TrackerBegin | TrackerComplete | ObReferenceObject | ObDereferenceObject
  | IoAllocateWorkItem | IoQueueWorkItem _ _ | IoFreeWorkItem _ | WdfWorkItemCreate
  | WdfObjectGetTypedContext _ | WriteItemContext _ _ | ReadItemContext _
  | WdfWorkItemEnqueue _ | WdfObjectDelete _ => true
  | _ => false
  end.

Section Exec.
Context {C : Type} `{!TaskContext C}.
Implicit Types (m : world C).

Definition touch m : world C :=
  set_use_after_free (w_use_after_free m || negb (bool_decide (w_phase m = Live))) m.
Definition bad_item (b : bool) m : world C := set_bad_item (w_bad_item m || b) m.
Definition bad_future (b : bool) m : world C := set_bad_future (w_bad_future m || b) m.

Definition queued (i : nat) (k : kernel) : bool :=
  bool_decide (i ∈ (k_queue k).*1).

Definition new_item (it : item) m : world C :=
  on_kernel (fun k => set_items (<[k_next k := it]> (k_items k)) (set_next (S (k_next k)) k)) m.

(** Freeing or deleting an item: it must exist and must not be queued. *)
Definition remove_item (i : nat) m : world C :=
  let k := w_kernel m in
  match k_items k !! i with
  | None => bad_item true m
  | Some _ => bad_item (queued i k) (on_kernel (fun k => set_items (delete i (k_items k)) k) m)
  end.

(** Queueing an item: it must exist and must not be queued already. *)
Definition enqueue (i : nat) (p : task_ptr) m : world C :=
  let k := w_kernel m in
  bad_item (queued i k || negb (bool_decide (is_Some (k_items k !! i))))
    (on_kernel (fun k => set_queue (k_queue k ++ [(i, p)]) k) m).

Definition exec (c : config) (o : op C) (x : oracle) (m0 : world C) : outcome (resp o * world C) :=
  let m := if outside o then m0 else touch m0 in
  let b := w_block m in
  let k := w_kernel m in
  match o return outcome (resp o * world C) with
  | Allocate =>
      if or_alloc x then Done (true, set_block block_fresh (set_phase Live (set_future true m)))
      else Done (false, m)
  | Dealloc => Done (tt, set_phase Freed m)
  | RefAdd =>
      match Refcount.add c (b_ref_count b) with
      | Done (v, n) => Done (v, on_block (set_ref_count n) m)
      | Fault f => Fault f
      end
  | RefSub =>
      match Refcount.sub c (b_ref_count b) with
      | Done (v, n) => Done (v, on_block (set_ref_count n) m)
      | Fault f => Fault f
      end
  | StoreContext v => Done (tt, on_block (set_context v) m)
  | LoadContext => Done (b_context b, m)
  | StoreTracker t => Done (tt, on_block (set_tracker t) m)
  | LoadTracker => Done (b_tracker b, m)
  | LoadCompleted => Done (b_completed b, m)
  | StoreCompleted => Done (tt, on_block (set_completed 1) m)
  | CasScheduled =>
      if b_scheduled b =? 0 then Done (true, on_block (set_scheduled 1) m) else Done (false, m)
  | ClearScheduled => Done (tt, on_block (set_scheduled 0) m)
  | CasCancel =>
      if b_cancel_requested b =? 0 then Done (true, on_block (set_cancel_requested 1) m)
      else Done (false, m)
  | LoadCancel => Done (b_cancel_requested b, m)
  | StoreItem i => Done (tt, on_block (set_work_item i) m)
  | SwapItem => Done (b_work_item b, on_block (set_work_item None) m)
  | PollBegin =>
      Done (or_poll x, bad_future (negb (w_future m) || negb (w_polling m =? 0)%nat)
                         (set_polling (S (w_polling m)) m))
  | PollEnd => Done (tt, set_polling (pred (w_polling m)) m)
  | DropFuture =>
      Done (tt, bad_future (negb (w_future m) || negb (w_polling m =? 0)%nat) (set_future false m))
  | GiveRef => Done (tt, set_given (S (w_given m)) m)
  | TrackerBegin => Done (tt, on_kernel (set_begun (S (k_begun k))) m)
  | TrackerComplete => Done (tt, on_kernel (set_done (S (k_done k))) m)
  | ObReferenceObject => Done (tt, on_kernel (set_device (k_device k + 1)) m)
  | ObDereferenceObject => Done (tt, on_kernel (set_device (k_device k - 1)) m)
  | IoAllocateWorkItem =>
      if or_create x =? STATUS_SUCCESS then Done (Some (k_next k), new_item (mkItem false None) m)
      else Done (None, m)
  | IoQueueWorkItem i p => Done (tt, enqueue i p m)
  | IoFreeWorkItem i => Done (tt, remove_item i m)
  | WdfWorkItemCreate =>
      if or_create x =? STATUS_SUCCESS then
        Done ((STATUS_SUCCESS, k_next k), new_item (mkItem (or_typed x) None) m)
      else Done ((or_create x, 0%nat), m)
  | WdfObjectGetTypedContext i =>
      match k_items k !! i with
      | Some it => Done (it_typed it, m)
      | None => Done (false, bad_item true m)
      end
  | WriteItemContext i p =>
      match k_items k !! i with
      | Some it =>
          Done (tt, on_kernel (fun k => set_items (<[i := mkItem (it_typed it) p]> (k_items k)) k) m)
      | None => Done (tt, bad_item true m)
      end
  | ReadItemContext i =>
      match k_items k !! i with
      | Some it => Done (it_task it, m)
      | None => Done (None, bad_item true m)
      end
  | WdfWorkItemEnqueue i => Done (tt, enqueue i None m)
  | WdfObjectDelete i => Done (tt, remove_item i m)
  end.

(** ** Systems and schedules *)

(** A thread: whether it is a work-item routine, and the rest of its
    program. *)
Record thread : Type := mkThread { th_routine : bool; th_prog : prog C NTSTATUS }.
Record sys : Type := mkSys { s_world : world C; s_threads : list thread }.

(** What the environment does with a reference it holds, to a waker or to a
    handle. *)
Inductive env_action : Type :=
| EnvWake | EnvWakeByRef | EnvClone | EnvDropWaker
| EnvCancel | EnvIsCancelled | EnvCloneHandle | EnvDropHandle.

#[local] Open Scope prog_scope.
Definition env_prog (a : env_action) : prog C unit :=
  match a with
  | EnvWake => wake_raw (Some tt)
  | EnvWakeByRef => wake_by_ref_raw (Some tt) ;; act GiveRef
  | EnvClone => clone_raw (Some tt) ;; act GiveRef ;; act GiveRef
  | EnvDropWaker => drop_raw (Some tt)
  | EnvCancel => WorkItemCancelHandle_cancel (Some tt) ;; act GiveRef
  | EnvIsCancelled => WorkItemCancelHandle_is_cancelled (Some tt) ;; act GiveRef
  | EnvCloneHandle => WorkItemCancelHandle_clone (Some tt) ;; act GiveRef ;; act GiveRef
  | EnvDropHandle => WorkItemCancelHandle_drop (Some tt)
  end.

(** A caller of a spawn function that keeps the handle it gets. *)
Definition keep_handle (p : prog C (result task_ptr NTSTATUS)) : prog C NTSTATUS :=
  r <- p ;
  match r with
  | Ok _handle => act GiveRef ;; Ret STATUS_SUCCESS
  | Err s => Ret s
  end.

Definition in_thread (p : prog C unit) : prog C NTSTATUS := p ;; Ret STATUS_SUCCESS.
#[local] Close Scope prog_scope.

Inductive event : Type :=
| Run (i : nat) (x : oracle)   (* thread [i] performs its next operation *)
| Dispatch (n : nat)           (* the system runs the [n]th queued work item *)
| Env (a : env_action).

Definition running (t : thread) : bool :=
  match th_prog t with Ret _ => false | Vis _ _ => true end.

Definition step (c : config) (e : event) (s : sys) : option sys :=
  match e with
  | Run i x =>
      match s_threads s !! i with
      | Some (mkThread d (Vis o k)) =>
          match exec c o x (s_world s) with
          | Done (r, m) => Some (mkSys m (<[i := mkThread d (k r)]> (s_threads s)))
          | Fault _ => None
          end
      | _ => None
      end
  | Dispatch n =>
      let m := s_world s in
      match k_queue (w_kernel m) !! n with
      | Some (i, p) =>
          (* the queue entry of an item that was deleted cannot be run *)
          if bool_decide (is_Some (k_items (w_kernel m) !! i)) then
            Some (mkSys (on_kernel (fun k => set_queue (delete n (k_queue k)) k) m)
                        (s_threads s ++ [mkThread true (in_thread (work_item_callback i p))]))
          else None
      | None => None
      end
  | Env a =>
      match w_given (s_world s) with
      | O => None
      | S n => Some (mkSys (set_given n (s_world s))
                           (s_threads s ++ [mkThread false (in_thread (env_prog a))]))
      end
  end.

Fixpoint play (c : config) (es : list event) (s : sys) : option sys :=
  match es with
  | [] => Some s
  | e :: es => match step c e s with Some s' => play c es s' | None => None end
  end.

(** A driver about to call a spawn function. *)
Definition launch (p : prog C NTSTATUS) : sys := mkSys world_init [mkThread false p].

(** No thread is running. *)
Definition quiescent (s : sys) : Prop := Forall (fun t => running t = false) (s_threads s).

(** ** A program on its own *)

(** Runs a program without interference, the environment answering every
    operation the same way. *)
Fixpoint alone {A : Type} (c : config) (x : oracle) (p : prog C A) (m : world C)
    : outcome (A * world C) :=
  match p with
  | Ret a => Done (a, m)
  | Vis o k =>
      match exec c o x m with
      | Done (r, m') => alone c x (k r) m'
      | Fault f => Fault f
      end
  end.
End Exec.
Arguments sys C : clear implicits.
Arguments thread C : clear implicits.
