(* ===== verification/WorkItemLogic.v ===== *)
(** * A program logic for the work-item executor

    The accounting of a task's references, of the device references taken for
    it, of its tracker and of its wake-ups: a ghost description per thread and
    a program logic over it ([Programs.wp]) that the functions of [WorkItem]
    satisfy.  What the functions need from a [TaskContext] is the class
    [TaskContextLaws], which the WDM and the KMDF implementations satisfy.
    [WorkItemSafety] draws the conclusions for schedules. *)

From S2P Require Import Prelude Programs Status Refcount WorkItem WorkItemSem.

(** ** Ghost descriptions *)

(** Before the block is allocated; the block is private and its context has
    not, or has, been stored; references owned; exclusive ownership. *)
Inductive mode : Type := Start | Fresh (stored : bool) | Own (n : nat) | Excl.

(** What a thread knows of a work item: it was created; it has a context; the
    context points to the task. *)
Inductive item_fact : Type := INone | INew (i : nat) | ITyped (i : nat) | IReady (i : nat).

Record ghost : Type := mkG {
  g_mode : mode;
  g_dev : nat;           (* device references taken and not yet in the block *)
  g_due : nat;           (* calls of [tracker_complete] still to make *)
  g_owes : bool;         (* set [scheduled] and has not queued an item *)
  g_item : item_fact;
  g_lost : bool          (* found its work item deleted *)
}.

Definition with_mode (md : mode) (g : ghost) : ghost :=
  mkG md (g_dev g) (g_due g) (g_owes g) (g_item g) (g_lost g).
Definition with_dev (d : nat) (g : ghost) : ghost :=
  mkG (g_mode g) d (g_due g) (g_owes g) (g_item g) (g_lost g).
Definition with_due (d : nat) (g : ghost) : ghost :=
  mkG (g_mode g) (g_dev g) d (g_owes g) (g_item g) (g_lost g).
Definition with_owes (b : bool) (g : ghost) : ghost :=
  mkG (g_mode g) (g_dev g) (g_due g) b (g_item g) (g_lost g).
Definition with_item (it : item_fact) (g : ghost) : ghost :=
  mkG (g_mode g) (g_dev g) (g_due g) (g_owes g) it (g_lost g).
Definition with_lost (g : ghost) : ghost :=
  mkG (g_mode g) (g_dev g) (g_due g) (g_owes g) (g_item g) true.

Definition finished (g : ghost) : Prop :=
  g_lost g = true \/ exists it, g = mkG (Own 0) 0 0 false it false.

Section Logic.
Context {C : Type} `{!TaskContext C}.
(** The context and the tracker the task is spawned with, and the device
    references a context stands for. *)
Context (ctx : C) (tr : bool) (cost : nat).

(** Tracker calls due for one queued work item. *)
Definition tracked : nat := match driver with WDM => Nat.b2n tr | KMDF => 0 end.

(** What is known of an item that can be queued. *)
Definition ready (i : nat) : item_fact := match driver with WDM => INew i | KMDF => IReady i end.

(** Handing a reference and the tracker call to a queued item. *)
Definition queue_clause (i : nat) (g : ghost) (K : unit -> ghost -> Prop) : Prop :=
  exists n u, g_mode g = Own (S (S n)) /\ g_item g = ready i /\ g_due g = (tracked + u)%nat
    /\ K tt (mkG (Own (S n)) (g_dev g) u false INone (g_lost g)).

Definition lp (o : op C) (g : ghost) : (resp o -> ghost -> Prop) -> Prop :=
  match o return (resp o -> ghost -> Prop) -> Prop with
  | Allocate => fun K =>
      g = mkG Start 0 0 false INone false
      /\ K true (mkG (Fresh false) 0 0 false INone false) /\ K false (mkG (Own 0) 0 0 false INone false)
  | Dealloc => fun K =>
      g_mode g = Excl /\ K tt (with_dev (g_dev g + cost) (with_mode (Own 0) g))
  | RefAdd => fun K => exists n, g_mode g = Own (S n) /\ forall r, K r (with_mode (Own (S (S n))) g)
  | RefSub => fun K =>
      (exists n, g_mode g = Own (S (S n)) /\ forall r, r <> 0 -> K r (with_mode (Own (S n)) g))
      \/ (g_mode g = Own 1 /\ (forall r, r <> 0 -> K r (with_mode (Own 0) g))
          /\ K 0 (with_mode Excl g))
  | StoreContext c => fun K =>
      g_mode g = Fresh false /\ g_dev g = cost /\ c = ctx
      /\ (K tt (with_dev 0 (with_mode (Fresh true) g))
          \/ (tr = false /\ K tt (with_dev 0 (with_mode (Own 1) g))))
  | LoadContext => fun K => ((exists n, g_mode g = Own (S n)) \/ g_mode g = Excl) /\ K ctx g
  | StoreTracker t => fun K => g_mode g = Fresh true /\ t = tr /\ K tt (with_mode (Own 1) g)
  | LoadTracker => fun K => exists n, g_mode g = Own (S n) /\ K tr g
  | LoadCompleted | LoadCancel => fun K => exists n, g_mode g = Own (S n) /\ forall r, K r g
  | StoreCompleted | StoreItem _ | PollEnd | DropFuture => fun K =>
      exists n, g_mode g = Own (S n) /\ K tt g
  | CasScheduled => fun K =>
      exists n, g_mode g = Own (S n) /\ g_owes g = false /\ K false g /\ K true (with_owes true g)
  | ClearScheduled => fun K => exists n, g_mode g = Own (S n) /\ K tt (with_owes false g)
  | CasCancel => fun K => exists n, g_mode g = Own (S n) /\ forall r, K r g
  | SwapItem | PollBegin => fun K => exists n, g_mode g = Own (S n) /\ forall r, K r g
  | GiveRef => fun K => exists n, g_mode g = Own (S n) /\ K tt (with_mode (Own n) g)
  | TrackerBegin => fun K => K tt (with_due (S (g_due g)) g)
  | TrackerComplete => fun K => exists u, g_due g = S u /\ K tt (with_due u g)
  | ObReferenceObject => fun K => K tt (with_dev (S (g_dev g)) g)
  | ObDereferenceObject => fun K => exists d, g_dev g = S d /\ K tt (with_dev d g)
  | IoAllocateWorkItem => fun K => K None g /\ forall i, K (Some i) (with_item (INew i) g)
  | IoQueueWorkItem i p => fun K => driver = WDM /\ p = Some tt /\ queue_clause i g K
  | WdfWorkItemEnqueue i => fun K => driver = KMDF /\ queue_clause i g K
  | IoFreeWorkItem _ | WdfObjectDelete _ => fun K => K tt g
  | WdfWorkItemCreate => fun K =>
      (forall s i, s <> STATUS_SUCCESS -> K (s, i) g)
      /\ forall i, K (STATUS_SUCCESS, i) (with_item (INew i) g)
  | WdfObjectGetTypedContext i => fun K =>
      (g_item g = INew i /\ K true (with_item (ITyped i) g) /\ K false g)
      \/ (g_item g = IReady i /\ K true g /\ K false (with_lost g))
  | WriteItemContext i p => fun K =>
      g_item g = ITyped i /\ p = Some tt /\ K tt (with_item (IReady i) g)
  | ReadItemContext i => fun K =>
      g_item g = IReady i /\ K (Some tt) g /\ K None (with_lost g)
  end.

Lemma item_lp_mono o g (K K' : resp o -> ghost -> Prop) :
  (forall r g', K r g' -> K' r g') -> lp o g K -> lp o g K'.
Proof.
  intros H. destruct o; cbn; unfold queue_clause; lp_monotone. destruct_or!; destr_hyps; auto.
Qed.

Abbreviation wp := (Programs.wp lp).

Lemma item_wp_bind {A B : Type} (p : prog C A) (f : A -> prog C B) g (Q : B -> ghost -> Prop) :
  wp p g (fun a g' => wp (f a) g' Q) -> wp (pbind p f) g Q.
Proof. apply wp_bind, item_lp_mono. Qed.

(** ** What the executor needs from a context *)

Class TaskContextLaws : Prop := {
  context_is_valid : is_valid ctx = true;
  wp_retain g (Q : unit -> ghost -> Prop) :
    Q tt (with_dev (g_dev g + cost) g) -> wp (retain ctx) g Q;
  wp_release_context g d (Q : unit -> ghost -> Prop) :
    g_dev g = (d + cost)%nat -> Q tt (with_dev d g) -> wp (release_context ctx) g Q;
  wp_create g (Q : NTSTATUS * item_ptr -> ghost -> Prop) :
    (forall s o it, s <> STATUS_SUCCESS -> Q (s, o) (with_item it g)) ->
    (forall i, Q (STATUS_SUCCESS, Some i) (with_item (ready i) g)) ->
    wp (create_work_item ctx (Some tt)) g Q;
  wp_enqueue i g (Q : unit -> ghost -> Prop) :
    queue_clause i g Q -> wp (enqueue_work_item (Some i) (Some tt)) g Q;
  wp_delete o g (Q : unit -> ghost -> Prop) : Q tt g -> wp (delete_work_item o) g Q
}.

(** ** The functions *)

Section Functions.
Context {L : TaskContextLaws}.
Implicit Types (Q : unit -> ghost -> Prop).

Lemma wp_tracker_begin g Q :
  Q tt (with_due (tracked + g_due g) g) -> wp (tracker_begin tr) g Q.
Proof.
  unfold tracker_begin, tracked. destruct g. destruct driver, tr; cbn; auto.
Qed.

Lemma wp_tracker_complete g u Q :
  g_due g = (tracked + u)%nat -> Q tt (with_due u g) -> wp (tracker_complete tr) g Q.
Proof.
  unfold tracker_complete, tracked. destruct g. cbn. intros ->.
  destruct driver, tr; cbn; eauto.
Qed.

Lemma item_wp_add_ref n g Q :
  g_mode g = Own (S n) -> Q tt (with_mode (Own (S (S n))) g) -> wp add_ref g Q.
Proof. intros Hg H. cbn. eauto. Qed.

Lemma item_wp_release_keep n g Q :
  g_mode g = Own (S (S n)) -> Q tt (with_mode (Own (S n)) g) -> wp release g Q.
Proof.
  intros Hg H. cbn. left. exists n. split; [done|]. intros r Hr.
  by rewrite (proj2 (Z.eqb_neq r 0) Hr).
Qed.

Lemma item_wp_release_last it Q :
  (forall it, Q tt (mkG (Own 0) 0 0 false it false)) -> wp release (mkG (Own 1) 0 0 false it false) Q.
Proof.
  intros H. cbn. right. split; [done|]. split.
  - intros r Hr. rewrite (proj2 (Z.eqb_neq r 0) Hr). apply H.
  - cbn. split; [by right|]. split; [done|]. rewrite context_is_valid.
    apply (wp_release_context _ 0); [done|apply H].
Qed.

Lemma item_wp_schedule n d u it (Q : NTSTATUS -> ghost -> Prop) :
  (forall r it, Q r (mkG (Own (S n)) d u false it false)) ->
  wp schedule (mkG (Own (S n)) d u false it false) Q.
Proof.
  intros H. unfold schedule. cbn [Programs.wp pbind act lp g_mode]. exists n. split; [done|].
  intros r. destruct (r =? 0); cbn [negb]; [|apply H].
  cbn [Programs.wp pbind act lp g_mode g_owes with_owes g_dev g_due g_item g_lost]. exists n.
  split; [done|]. split; [done|]. split; [apply H|].
  cbn [Programs.wp pbind act lp g_mode]. exists n. split; [done|].
  apply item_wp_bind, wp_tracker_begin. cbn [load_context Programs.wp pbind act lp g_mode with_due g_dev g_due g_owes g_item g_lost].
  split; [by left; exists n|]. rewrite context_is_valid. cbn [negb].
  apply item_wp_bind, wp_create; cbn [with_item g_mode g_dev g_due g_owes g_item g_lost].
  - intros s o it' Hs. rewrite (proj2 (Z.eqb_neq s _) Hs). cbn [negb Programs.wp pbind act lp g_mode].
    exists n. split; [done|]. apply item_wp_bind, (wp_tracker_complete _ u); [done|]. apply H.
  - intros i. cbn [Z.eqb negb STATUS_SUCCESS Programs.wp pbind act lp g_mode]. exists n. split; [done|].
    apply item_wp_bind, (item_wp_add_ref n); [done|]. apply item_wp_bind, wp_enqueue. exists n, u.
    split; [done|]. split; [done|]. split; [done|]. apply H.
Qed.

Lemma wp_cancel n d u it Q :
  (forall it, Q tt (mkG (Own (S n)) d u false it false)) ->
  wp cancel (mkG (Own (S n)) d u false it false) Q.
Proof.
  intros H. cbn [cancel Programs.wp pbind act lp g_mode]. exists n. split; [done|].
  intros []; [|apply H]. apply item_wp_bind, item_wp_schedule. intros _ ?. apply H.
Qed.

Lemma item_wp_run_actions acts n d u it Q :
  (forall it, Q tt (mkG (Own (S n)) d u false it false)) ->
  wp (run_actions (Some tt) acts) (mkG (Own (S n)) d u false it false) Q.
Proof.
  intros H. revert it. induction acts as [|[] acts IH]; intros it; cbn [run_actions]; [apply H|..].
  - apply item_wp_bind. cbn. exists n. split; [done|]. intros _. exists (S n). split; [done|]. apply IH.
  - apply item_wp_bind, item_wp_bind, item_wp_schedule. intros _ ?. apply IH.
Qed.

Lemma item_wp_poll n d u it (Q : Poll -> ghost -> Prop) :
  (forall r it, Q r (mkG (Own (S n)) d u false it false)) ->
  wp (poll (Some tt)) (mkG (Own (S n)) d u false it false) Q.
Proof.
  intros H. cbn [poll Programs.wp pbind act lp g_mode]. exists n. split; [done|]. intros [acts p].
  apply item_wp_bind, item_wp_run_actions. intros it'. cbn. exists n. split; [done|]. apply H.
Qed.

Lemma wp_complete_task n g Q : g_mode g = Own (S n) -> Q tt g -> wp complete_task g Q.
Proof. intros Hg H. cbn. eauto. Qed.

(** The last part of a run: the work item is deleted, the tracker told and
    the reference released. *)
Lemma wp_run_end fallback it :
  wp (pbind (act SwapItem) (fun work_item =>
        let work_item := match work_item with None => fallback | Some _ => work_item end in
        pbind (match work_item with None => Ret tt | Some _ => delete_work_item work_item end)
          (fun _ => pbind (tracker_complete tr) (fun _ => release))))
    (mkG (Own 1) 0 tracked false it false) (fun _ => finished).
Proof.
  cbn [Programs.wp pbind act lp g_mode]. exists 0%nat. split; [done|]. intros w.
  apply item_wp_bind. cbv zeta.
  assert (H : wp (pbind (tracker_complete tr) (fun _ => release))
                (mkG (Own 1) 0 tracked false it false) (fun _ => finished)).
  { apply item_wp_bind, (wp_tracker_complete _ 0); [cbn; lia|]. apply item_wp_release_last.
    intros it'. right. by exists it'. }
  destruct w; [by apply wp_delete|]. destruct fallback; [by apply wp_delete|]. apply H.
Qed.

Lemma wp_run fallback it :
  wp (run fallback) (mkG (Own 1) 0 tracked true it false) (fun _ => finished).
Proof.
  unfold run. cbn [Programs.wp pbind act lp g_mode]. exists 0%nat. split; [done|].
  exists 0%nat. split; [done|]. exists 0%nat. split; [done|]. intros r.
  destruct (r =? 0); cbn [negb].
  - cbn [Programs.wp pbind act lp g_mode]. exists 0%nat. split; [done|]. intros v.
    apply item_wp_bind. destruct (v =? 0); cbn [negb].
    + cbn [raw_waker add_ref Programs.wp pbind act lp with_owes with_mode g_mode g_dev g_due g_owes g_item g_lost].
      exists 0%nat. split; [done|]. intros _. apply item_wp_bind, item_wp_poll. intros p it'.
      apply item_wp_bind. destruct p; [apply (wp_complete_task 1); [done|]|cbn [Programs.wp]];
        (apply (item_wp_release_keep 0); [done|apply wp_run_end]).
    + apply (wp_complete_task 0); [done|]. apply wp_run_end.
  - apply item_wp_bind, (wp_tracker_complete _ 0); [cbn; lia|]. apply item_wp_release_last.
    intros it'. right. by exists it'.
Qed.

(** What a routine starts with. *)
Definition routine_fact (i : nat) : item_fact :=
  match driver with WDM => INone | KMDF => IReady i end.

Lemma wp_work_item_callback i p :
  (driver = WDM -> p = Some tt) ->
  wp (work_item_callback i p) (mkG (Own 1) 0 tracked true (routine_fact i) false)
    (fun _ => finished).
Proof.
  unfold work_item_callback, routine_fact. pose proof wp_run as Hrun.
  destruct driver; intros Hp.
  - rewrite Hp by done. apply Hrun.
  - unfold work_item_routine_kmdf. cbn [Programs.wp pbind act lp g_item]. right. split; [done|].
    split; [|by left].
    cbn [negb Programs.wp pbind act lp g_item]. split; [done|]. split; [apply Hrun|by left].
Qed.

Lemma item_wp_give it Q :
  (forall it, Q tt (mkG (Own 0) 0 0 false it false)) ->
  wp (act GiveRef) (mkG (Own 1) 0 0 false it false) Q.
Proof. intros H. cbn. exists 0%nat. split; [done|]. apply H. Qed.

Lemma item_wp_env a : wp (env_prog a) (mkG (Own 1) 0 0 false INone false) (fun _ => finished).
Proof.
  assert (Hf : forall it, finished (mkG (Own 0) 0 0 false it false)) by (right; eauto).
  destruct a; cbn [env_prog wake_raw wake_by_ref_raw clone_raw drop_raw WorkItemCancelHandle_cancel
    WorkItemCancelHandle_is_cancelled WorkItemCancelHandle_clone WorkItemCancelHandle_drop].
  - apply item_wp_bind, item_wp_schedule. intros _ it. by apply item_wp_release_last.
  - apply item_wp_bind, item_wp_bind, item_wp_schedule. intros _ it. by apply item_wp_give.
  - cbn. exists 0%nat. split; [done|]. intros _. exists 1%nat. split; [done|]. exists 0%nat.
    split; [done|]. apply Hf.
  - by apply item_wp_release_last.
  - apply item_wp_bind, wp_cancel. intros it. by apply item_wp_give.
  - cbn. exists 0%nat. split; [done|]. intros _. exists 0%nat. split; [done|]. apply Hf.
  - cbn. exists 0%nat. split; [done|]. intros _. exists 1%nat. split; [done|]. exists 0%nat.
    split; [done|]. apply Hf.
  - by apply item_wp_release_last.
Qed.

Lemma wp_in_thread p g :
  wp p g (fun _ => finished) -> wp (in_thread p) g (fun _ => finished).
Proof. intros H. by apply item_wp_bind. Qed.

(** ** Spawning *)

(** The functions after the block was allocated. *)
Lemma wp_retain_fresh Q :
  Q tt (mkG (Fresh false) cost 0 false INone false) ->
  wp (retain ctx) (mkG (Fresh false) 0 0 false INone false) Q.
Proof. intros H. by apply wp_retain. Qed.

Lemma wp_spawn_task :
  tr = false -> wp (spawn_task ctx) (mkG Start 0 0 false INone false) (fun _ => finished).
Proof.
  intros Htr. unfold spawn_task. rewrite context_is_valid. cbn [negb allocate Programs.wp pbind act lp].
  split; [done|]. split; [|right; eauto].
  apply item_wp_bind, wp_retain_fresh. cbn [Programs.wp pbind act lp g_mode g_dev].
  do 3 (split; [done|]). right. split; [done|]. apply item_wp_bind, item_wp_schedule. intros r it.
  apply item_wp_bind, item_wp_release_last. intros it'. right. eauto.
Qed.

(** What [keep_handle] does with a result. *)
Definition handle_kept (r : result task_ptr NTSTATUS) (g : ghost) : Prop :=
  wp (match r with
      | Ok _ => pbind (act GiveRef) (fun _ => Ret STATUS_SUCCESS)
      | Err s => Ret s
      end) g (fun _ => finished).

(** The tail shared by the spawn functions that return a handle. *)
Lemma wp_spawn_handle :
  wp (pbind WorkItemCancelHandle_new (fun handle =>
      pbind schedule (fun status =>
      pbind release (fun _ =>
      if negb (status =? STATUS_SUCCESS)
      then pbind (WorkItemCancelHandle_drop handle) (fun _ => Ret (Err status))
      else Ret (Ok handle)))))
    (mkG (Own 1) 0 0 false INone false) handle_kept.
Proof.
  assert (Hf : forall it, finished (mkG (Own 0) 0 0 false it false)) by (right; eauto).
  unfold WorkItemCancelHandle_new. apply item_wp_bind, item_wp_bind, (item_wp_add_ref 0); [done|].
  cbn [Programs.wp]. apply item_wp_bind, item_wp_schedule. intros r it. apply item_wp_bind, (item_wp_release_keep 0); [done|].
  destruct (r =? STATUS_SUCCESS); cbn [negb].
  - apply item_wp_bind. by apply item_wp_give.
  - cbn [WorkItemCancelHandle_drop]. apply item_wp_bind. by apply item_wp_release_last.
Qed.

Lemma wp_spawn_task_cancellable :
  tr = false ->
  wp (keep_handle (spawn_task_cancellable ctx)) (mkG Start 0 0 false INone false) (fun _ => finished).
Proof.
  intros ->. pose proof wp_spawn_handle as Hh.
  unfold spawn_task_cancellable. rewrite context_is_valid.
  cbn [negb allocate keep_handle Programs.wp pbind act lp]. split; [done|]. split; [|right; eauto].
  apply item_wp_bind, item_wp_bind, wp_retain_fresh.
  cbn [Programs.wp pbind act lp g_mode g_dev]. do 3 (split; [done|]). left.
  cbn [Programs.wp pbind act lp g_mode with_dev with_mode]. do 2 (split; [done|]). exact Hh.
Qed.
End Functions.
End Logic.
Abbreviation wp ctx tr cost := (Programs.wp (lp ctx tr cost)).

(** ** The implementations of TaskContext *)

Lemma wdm_laws (device : PDEVICE_OBJECT) (tr : bool) :
  device_object device <> 0 -> TaskContextLaws device tr 1.
Proof.
  intros Hd. apply Z.eqb_neq in Hd.
  split; cbn [is_valid retain release_context create_work_item enqueue_work_item delete_work_item
              WdmContext].
  - unfold wdm_is_valid. by rewrite Hd.
  - intros g Q H. unfold wdm_retain. rewrite Hd. cbn. by rewrite Nat.add_1_r in H.
  - intros g d Q Hg H. unfold wdm_release. rewrite Hd. cbn. exists d. split; [lia|done].
  - intros g Q Hf Hs. unfold wdm_create_work_item. rewrite Hd. cbn. split; [|apply Hs].
    destruct g as [md d u b it l]. by apply (Hf _ _ it).
  - intros i g Q H. cbn. done.
  - intros [i|] g Q H; cbn; done.
Qed.

Lemma kmdf_laws (device : WDFDEVICE) (tr : bool) :
  wdf_device device <> 0 -> TaskContextLaws device tr 0.
Proof.
  intros Hd. apply Z.eqb_neq in Hd.
  split; cbn [is_valid retain release_context create_work_item enqueue_work_item delete_work_item
              KmdfContext].
  - unfold kmdf_is_valid. by rewrite Hd.
  - intros g Q H. cbn. by rewrite Nat.add_0_r in H; destruct g.
  - intros g d Q Hg H. cbn. rewrite Nat.add_0_r in Hg. destruct g. cbn in *. by subst.
  - intros g Q Hf Hs. unfold kmdf_create_work_item. rewrite Hd. cbn. split.
    + intros s i Hne. rewrite (proj2 (Z.eqb_neq s _) Hne). destruct g as [md d u b it l]. by apply (Hf _ _ it).
    + intros i. cbn. left. split; [done|]. split.
      * cbn. split; [done|]. split; [done|]. apply Hs.
      * cbn. by apply Hf.
  - intros i g Q H. cbn. done.
  - intros [i|] g Q H; cbn; done.
Qed.

(** The tracked functions of a WDM driver. *)
Section Tracked.
Context (device : PDEVICE_OBJECT) (Hd : device_object device <> 0).

Lemma wp_spawn_task_tracked :
  wp device true 1 (spawn_task_tracked device) (mkG Start 0 0 false INone false)
    (fun _ => finished).
Proof using Hd.
  pose proof (wdm_laws device true Hd) as L. unfold spawn_task_tracked.
  rewrite (proj2 (Z.eqb_neq _ _) Hd). cbn [allocate Programs.wp pbind act lp].
  split; [done|]. split; [|right; eauto].
  apply (item_wp_bind _ _ _), (wp_retain_fresh _ _ _). cbn [Programs.wp pbind act lp g_mode g_dev].
  do 3 (split; [done|]). left. cbn [Programs.wp pbind act lp g_mode with_dev with_mode].
  do 2 (split; [done|]). apply (item_wp_bind _ _ _), (item_wp_schedule _ _ _). intros r it.
  apply (item_wp_bind _ _ _), (item_wp_release_last _ _ _). intros it'. right. eauto.
Qed.

Lemma wp_spawn_task_cancellable_tracked :
  wp device true 1 (keep_handle (spawn_task_cancellable_tracked device))
    (mkG Start 0 0 false INone false) (fun _ => finished).
Proof using Hd.
  pose proof (wdm_laws device true Hd) as L.
  pose proof (wp_spawn_handle device true 1) as Hh.
  unfold spawn_task_cancellable_tracked. rewrite (proj2 (Z.eqb_neq _ _) Hd).
  cbn [allocate keep_handle Programs.wp pbind act lp]. split; [done|]. split; [|right; eauto].
  apply (item_wp_bind _ _ _), (item_wp_bind _ _ _), (wp_retain_fresh _ _ _).
  cbn [Programs.wp pbind act lp g_mode g_dev]. do 3 (split; [done|]). left.
  cbn [Programs.wp pbind act lp g_mode with_dev with_mode]. do 2 (split; [done|]). exact Hh.
Qed.
End Tracked.
