(* ===== verification/WorkItemSafety.v ===== *)
(** * Safety of the work-item executor

    The invariant of the schedules of a work-item task: the sums of the ghost
    descriptions of [WorkItemLogic] agree with the memory of the task, with
    the device references, the tracker and the work items.  Every schedule of
    a task that was launched by a program the logic accepts keeps it. *)

From S2P Require Import Prelude Programs Status Refcount WorkItem WorkItemSem WorkItemLogic.

(** ** Contributions of a thread *)

Definition own_of (g : ghost) : nat := match g_mode g with Own n => n | _ => 0 end.
Definition excl_of (g : ghost) : nat := match g_mode g with Excl => 1 | _ => 0 end.
Definition start_of (g : ghost) : nat := match g_mode g with Start => 1 | _ => 0 end.
Definition fresh_of (g : ghost) : nat := match g_mode g with Fresh _ => 1 | _ => 0 end.
Definition raw_of (g : ghost) : nat := match g_mode g with Fresh false => 1 | _ => 0 end.
Definition stored_of (g : ghost) : nat := match g_mode g with Fresh true => 1 | _ => 0 end.
Definition unstored_of (cost : nat) (g : ghost) : nat :=
  match g_mode g with Fresh false => cost | _ => 0 end.
Definition owes_of (g : ghost) : nat := Nat.b2n (g_owes g).
Definition lost_of (g : ghost) : nat := Nat.b2n (g_lost g).
Arguments own_of g / : assert.
Arguments excl_of g / : assert.
Arguments start_of g / : assert.
Arguments fresh_of g / : assert.
Arguments raw_of g / : assert.
Arguments stored_of g / : assert.
Arguments owes_of g / : assert.
Arguments lost_of g / : assert.
Arguments unstored_of cost g / : assert.

Definition phase_no (p : phase) : Z :=
  match p with Unallocated => 0 | Live => 1 | Freed => 2 end.

(** ** What is known of work items *)

Definition fact_ok (k : kernel) (f : item_fact) : Prop :=
  match f with
  | INone => True
  | INew i => (i < k_next k)%nat
  | ITyped i => (i < k_next k)%nat /\ forall it, k_items k !! i = Some it -> it_typed it = true
  | IReady i => (i < k_next k)%nat /\ forall it, k_items k !! i = Some it ->
                  it_typed it = true /\ it_task it = Some tt
  end.

(** Items keep their context and their pointer to the task; they may be
    deleted, and their numbers are not used again. *)
Definition grows (k k' : kernel) : Prop :=
  (k_next k <= k_next k')%nat
  /\ forall i it', (i < k_next k)%nat -> k_items k' !! i = Some it' ->
     exists it, k_items k !! i = Some it /\ it_typed it' = it_typed it
                /\ (it_task it = Some tt -> it_task it' = Some tt).

Definition numbered (k : kernel) : Prop :=
  forall i it, k_items k !! i = Some it -> (i < k_next k)%nat.

Lemma fact_ok_grows k k' f : grows k k' -> fact_ok k f -> fact_ok k' f.
Proof.
  intros [Hn Hg]. destruct f as [|i|i|i]; cbn; [done|lia|..]; intros [Hi Hf]; (split; [lia|]);
    intros it Hit; destruct (Hg i it Hi Hit) as (it0 & H0 & -> & Ht).
  - by apply Hf.
  - destruct (Hf it0 H0). auto.
Qed.

Lemma grows_same k k' : k_items k' = k_items k -> k_next k' = k_next k -> grows k k'.
Proof. intros Hi Hn. split; [lia|]. intros i it' _ H. rewrite Hi in H. eauto. Qed.

Lemma grows_delete k i : grows k (set_items (delete i (k_items k)) k).
Proof.
  split; [done|]. intros j it' _ Hj. cbn in Hj. apply lookup_delete_Some in Hj as [_ Hj]. eauto.
Qed.

Lemma grows_new k it :
  grows k (set_items (<[k_next k := it]> (k_items k)) (set_next (S (k_next k)) k)).
Proof.
  split; [cbn; lia|]. intros j it' Hj H. cbn in H. rewrite lookup_insert_ne in H by lia. eauto.
Qed.

Lemma grows_write k i it :
  k_items k !! i = Some it ->
  grows k (set_items (<[i := mkItem (it_typed it) (Some tt)]> (k_items k)) k).
Proof.
  intros Hi. split; [done|]. intros j it' _ H. cbn in H.
  apply lookup_insert_Some in H as [[<- <-]|[_ H]]; eauto.
Qed.

Lemma numbered_delete k i : numbered k -> numbered (set_items (delete i (k_items k)) k).
Proof. intros H j it Hj. cbn in Hj. apply lookup_delete_Some in Hj as [_ Hj]. by apply (H j it). Qed.

Lemma numbered_new k it :
  numbered k -> numbered (set_items (<[k_next k := it]> (k_items k)) (set_next (S (k_next k)) k)).
Proof.
  intros H j it' Hj. cbn in Hj |- *. apply lookup_insert_Some in Hj as [[<- _]|[_ Hj]]; [lia|].
  specialize (H j it' Hj). lia.
Qed.

Lemma numbered_write k i it it' :
  numbered k -> k_items k !! i = Some it -> numbered (set_items (<[i := it']> (k_items k)) k).
Proof.
  intros H Hi j it0 Hj. cbn in Hj |- *. apply lookup_insert_Some in Hj as [[<- _]|[_ Hj]]; eauto.
Qed.

(** ** The invariant *)

Section Invariant.
Context {C : Type} `{!TaskContext C}.
Context (ctx : C) (tr : bool) (cost : nat).
Implicit Types (m : world C) (gs : list ghost).

(** Device references in the block, and tracker calls due in the queue. *)
Definition live_cost m : Z := match w_phase m with Live => Z.of_nat cost | _ => 0 end.
Definition queue_due (q : list (nat * task_ptr)) : Z := total (fun _ => tracked tr) q.

Abbreviation refs m := (b_ref_count (w_block m)).
Abbreviation queue_length m := (Z.of_nat (length (k_queue (w_kernel m)))).

Record counts gs m : Prop := {
  gl_use : w_use_after_free m = false;
  gl_refs :
    (phase_no (w_phase m) = 0 /\ total start_of gs <= 1 /\ total own_of gs = 0
     /\ total excl_of gs = 0 /\ Z.of_nat (w_given m) = 0 /\ queue_length m = 0
     /\ total fresh_of gs = 0)
    \/ (phase_no (w_phase m) = 1 /\ total start_of gs = 0 /\ total excl_of gs = 0 /\ 0 < refs m
        /\ refs m = total own_of gs + total fresh_of gs + Z.of_nat (w_given m) + queue_length m
        /\ (total fresh_of gs = 0 \/ total fresh_of gs = 1 /\ refs m = 1))
    \/ (phase_no (w_phase m) = 1 /\ total start_of gs = 0 /\ total excl_of gs = 1
        /\ total own_of gs = 0 /\ Z.of_nat (w_given m) = 0 /\ queue_length m = 0 /\ refs m = 0
        /\ total fresh_of gs = 0)
    \/ (phase_no (w_phase m) = 2 /\ total start_of gs = 0 /\ total excl_of gs = 0
        /\ total own_of gs = 0 /\ Z.of_nat (w_given m) = 0 /\ queue_length m = 0
        /\ total fresh_of gs = 0);
  gl_dev : k_device (w_kernel m) + total (unstored_of cost) gs = total g_dev gs + live_cost m;
  gl_raw : total fresh_of gs = total raw_of gs + total stored_of gs;
  gl_ctx : phase_no (w_phase m) = 1 -> total raw_of gs = 0 -> b_context (w_block m) = ctx;
  gl_tr : phase_no (w_phase m) = 1 -> total fresh_of gs = 0 \/ tr = false ->
          b_tracker (w_block m) = tr;
  gl_track : Z.of_nat (k_begun (w_kernel m))
             = Z.of_nat (k_done (w_kernel m)) + total g_due gs + queue_due (k_queue (w_kernel m));
  gl_wake : phase_no (w_phase m) = 1 -> b_scheduled (w_block m) <> 0 ->
            0 < queue_length m + total owes_of gs;
  gl_lost : 0 < total lost_of gs -> w_bad_item m = true
}.

Definition entry_ok (k : kernel) (e : nat * task_ptr) : Prop :=
  fact_ok k (ready e.1) /\ (driver = WDM -> e.2 = Some tt).

Record facts gs m : Prop := {
  gl_items : Forall (fun g => fact_ok (w_kernel m) (g_item g)) gs;
  gl_queue : Forall (entry_ok (w_kernel m)) (k_queue (w_kernel m));
  gl_next : numbered (w_kernel m)
}.

Definition typed (g : ghost) (t : thread C) : Prop :=
  Programs.wp (lp ctx tr cost) (th_prog t) g (fun _ => finished).

Definition Inv (s : sys C) : Prop :=
  exists gs, Forall2 typed gs (s_threads s) /\ counts gs (s_world s) /\ facts gs (s_world s).

(** ** Operations *)

Lemma owner_live gs m i g :
  counts gs m -> gs !! i = Some g -> (0 < own_of g \/ 0 < excl_of g \/ 0 < fresh_of g)%nat ->
  w_phase m = Live /\ touch m = m.
Proof.
  intros Hg Hi Ho. pose proof (sum_lookup own_of _ i g Hi). pose proof (sum_lookup excl_of _ i g Hi).
  pose proof (sum_lookup fresh_of _ i g Hi).
  assert (Hp : w_phase m = Live).
  { pose proof (gl_refs _ _ Hg). destruct (w_phase m); cbn in *; [lia|done|lia]. }
  split; [done|]. unfold touch. rewrite bool_decide_true by done. cbn. rewrite orb_false_r.
  by destruct m.
Qed.

Lemma item_lp_owner o g K :
  lp ctx tr cost o g K -> outside o = false -> (0 < own_of g \/ 0 < excl_of g \/ 0 < fresh_of g)%nat.
Proof.
  unfold own_of, excl_of, fresh_of. destruct o; cbn; intros H Ho; try done;
    repeat match goal with
           | H : _ \/ _ |- _ => destruct H
           | H : exists _, _ |- _ => destruct H
           | H : _ /\ _ |- _ => destruct H
           end; subst; cbn; repeat match goal with H : g_mode _ = _ |- _ => rewrite H end; lia.
Qed.

(** Replacing the description of one thread. *)
Lemma facts_same gs m m' i g g' :
  gs !! i = Some g -> facts gs m -> w_kernel m' = w_kernel m ->
  fact_ok (w_kernel m) (g_item g') -> facts (<[i := g']> gs) m'.
Proof.
  intros Hi [H1 H2 H3] Hk Hf. split; rewrite ?Hk; [|done..]. by apply Forall_insert.
Qed.

(** The same when the work items changed but not the queue. *)
Lemma facts_grow gs m m' i g g' :
  gs !! i = Some g -> facts gs m -> grows (w_kernel m) (w_kernel m') ->
  k_queue (w_kernel m') = k_queue (w_kernel m) -> numbered (w_kernel m') ->
  fact_ok (w_kernel m') (g_item g') -> facts (<[i := g']> gs) m'.
Proof.
  intros Hi [H1 H2 H3] Hgr Hq Hn Hf. split; [|rewrite Hq|done].
  - apply Forall_insert; [|done]. eapply Forall_impl; [|exact H1]. intros ?. by apply fact_ok_grows.
  - eapply Forall_impl; [|exact H2]. intros [j p] [? ?]. split; [|done]. by eapply fact_ok_grows.
Qed.

Lemma fact_at gs m i g : facts gs m -> gs !! i = Some g -> fact_ok (w_kernel m) (g_item g).
Proof. intros H Hi. by apply (Forall_lookup_1 _ _ _ _ (gl_items _ _ H) Hi). Qed.

(** ** Each operation keeps the invariant *)

Definition keeps (o : op C) : Prop :=
  forall c gs m i g x r m' (K : resp o -> ghost -> Prop),
  counts gs m -> facts gs m -> gs !! i = Some g -> lp ctx tr cost o g K ->
  b_ref_count (w_block m) < MAX_REFCOUNT ->
  exec c o x m = Done (r, m') ->
  exists g', K r g' /\ counts (<[i := g']> gs) m' /\ facts (<[i := g']> gs) m'.

(** The block is there if it is used. *)
Ltac start_op Hg Hi Hlp He :=
  lazymatch type of He with
  | exec _ ?o _ ?m = _ =>
      let Ht := fresh in
      assert (Ht : (if outside o then m else touch m) = m)
        by (first [done | eapply owner_live; [eassumption|eassumption|by eapply item_lp_owner]]);
      unfold exec in He; rewrite Ht in He; clear Ht
  end;
  lazymatch type of Hi with
  | ?gs !! ?i = Some ?g =>
      pose proof (sum_lookup own_of gs i g Hi); pose proof (sum_lookup excl_of gs i g Hi);
      pose proof (sum_lookup start_of gs i g Hi); pose proof (sum_lookup fresh_of gs i g Hi);
      pose proof (sum_lookup raw_of gs i g Hi); pose proof (sum_lookup stored_of gs i g Hi);
      pose proof (total_nonneg stored_of gs); pose proof (sum_lookup g_dev gs i g Hi);
      pose proof (sum_lookup g_due gs i g Hi); pose proof (sum_lookup owes_of gs i g Hi);
      pose proof (total_nonneg owes_of gs); pose proof (total_nonneg own_of gs);
      pose proof (total_nonneg raw_of gs); pose proof (total_nonneg excl_of gs)
  end.

Ltac contributions :=
  cbn [own_of excl_of start_of fresh_of raw_of stored_of unstored_of owes_of lost_of with_mode with_dev with_due
    with_owes with_item with_lost Nat.b2n g_mode g_dev g_due g_owes g_item g_lost] in *.

(** The sums after the description of a thread changed to [g']. *)
Ltac new_sums g' :=
  lazymatch goal with
  | Hi : @lookup _ ghost _ _ ?i ?gs = Some ?g |- _ =>
      pose proof (sum_insert own_of gs i g g' Hi); pose proof (sum_insert excl_of gs i g g' Hi);
      pose proof (sum_insert start_of gs i g g' Hi); pose proof (sum_insert fresh_of gs i g g' Hi);
      pose proof (sum_insert raw_of gs i g g' Hi); pose proof (sum_insert stored_of gs i g g' Hi);
      pose proof (sum_insert (unstored_of cost) gs i g g' Hi);
      pose proof (sum_insert g_dev gs i g g' Hi); pose proof (sum_insert g_due gs i g g' Hi);
      pose proof (sum_insert owes_of gs i g g' Hi); pose proof (sum_insert lost_of gs i g g' Hi)
  end.

Ltac fields :=
  cbn [on_block on_kernel set_block set_kernel set_phase set_future set_polling set_given
    block_fresh set_use_after_free set_bad_future set_bad_item bad_item bad_future new_item enqueue
    set_ref_count set_scheduled set_completed set_cancel_requested set_context set_tracker
    set_work_item set_items set_next set_queue set_device set_begun set_done
    b_ref_count b_scheduled b_completed b_cancel_requested b_context b_tracker b_work_item
    k_items k_next k_queue k_device k_begun k_done
    w_block w_kernel w_phase w_future w_polling w_given w_use_after_free w_bad_future w_bad_item
    phase_no].

(** Linear reasoning about the sums, the implications of the invariant
    apart. *)
Ltac sums :=
  repeat match goal with
         | H : _ -> _ |- _ => clear H
         end; lia.

(** The clauses of [counts], in their order: the block, the device, the
    context, the tracker pointer, the tracker's calls, the wake-up, the lost
    items. *)
Ltac solve_counts :=
  [> try done
   | first [ left; split_and!; sums | right; left; split_and!; sums
           | right; right; left; split_and!; sums | right; right; right; split_and!; sums ]
   | sums | sums
   | intros; first [done | match goal with H : _ -> _ -> _ = ctx |- _ => apply H; sums end | exfalso; sums]
   | intros ? [?|?]; first [done | match goal with
                                    | H : _ -> _ -> _ = tr |- _ =>
                                        apply H; [sums|first [by right|left; sums]]
                                    end | exfalso; sums]
   | sums
   | intros; first [sums | match goal with H : _ -> _ -> 0 < _ |- _ => specialize (H ltac:(assumption) ltac:(assumption)); sums end]
   | intros; first [done | by rewrite orb_true_r | match goal with H : _ -> _ = true |- _ => rewrite H by sums; done end] ].

Ltac keep_by g' solve :=
  exists g'; split; [auto|]; split;
  [ new_sums g'; contributions;
    lazymatch goal with
    | H : counts _ _ |- _ => destruct H as [Hu Hrefs Hdev Hraw Hctx Htr Htrack Hwake Hlost]
    end;
    lazymatch goal with H : _ \/ _ \/ _ \/ _ |- _ => destruct H as [H|[H|[H|H]]] end;
    destr_hyps; try (exfalso; sums);
    [> split; unfold live_cost in *; fields; solve ..] |].
Ltac keep g' := keep_by g' solve_counts.

(** The thread [g], destructed, with its condition [Hlp] and its mode. *)
Ltac by_mode := contributions; subst; contributions.

(** The work items did not change. *)
Ltac same_facts Hf Hi :=
  apply (facts_same _ _ _ _ _ _ Hi Hf); [done|apply (fact_at _ _ _ _ Hf Hi)].

(** Only counters of the kernel changed. *)
Ltac count_facts Hf Hi :=
  apply (facts_grow _ _ _ _ _ _ Hi Hf);
  [by apply grows_same|done|apply (gl_next _ _ Hf)|apply (fact_at _ _ _ _ Hf Hi)].

(** Nothing changed. *)
Ltac unchanged Hg Hf Hi :=
  eexists; split; [eauto|]; by rewrite list_insert_id.

Lemma item_keeps_RefAdd : keeps RefAdd.
Proof.
  intros c gs m i [md d u b it l] x r m' K Hg Hf Hi Hlp Hmax He. start_op Hg Hi Hlp He. cbn in Hlp.
  destruct Hlp as (n & Hn & HK). by_mode.
  pose proof (gl_refs _ _ Hg). rewrite add_ok in He by lia. injection He as <- <-.
  keep (mkG (Own (S (S n))) d u b it l). same_facts Hf Hi.
Qed.

Lemma item_keeps_RefSub : keeps RefSub.
Proof.
  intros c gs m i [md d u b it l] x r m' K Hg Hf Hi Hlp Hmax He. start_op Hg Hi Hlp He. cbn in Hlp.
  pose proof (gl_refs _ _ Hg). rewrite sub_ok in He.
  2: { unfold MAX_REFCOUNT in Hmax. widths.
       destruct Hlp as [(n & Hn & _)|(Hn & _)]; by_mode; lia. }
  injection He as <- <-. destruct Hlp as [(n & Hn & HK)|(Hn & HK & HK0)]; by_mode.
  - assert (b_ref_count (w_block m) - 1 <> 0) by lia.
    keep (mkG (Own (S n)) d u b it l). same_facts Hf Hi.
  - destruct (decide (b_ref_count (w_block m) - 1 = 0)) as [Hz|Hz].
    + rewrite Hz. keep (mkG Excl d u b it l). same_facts Hf Hi.
    + keep (mkG (Own 0) d u b it l). same_facts Hf Hi.
Qed.

Lemma keeps_LoadContext : keeps LoadContext.
Proof.
  intros c gs m i [md d u b it l] x r m' K Hg Hf Hi Hlp Hmax He. start_op Hg Hi Hlp He. cbn in Hlp.
  injection He as <- <-. destruct Hlp as (Hn & HK).
  assert (b_context (w_block m) = ctx) as ->; [|unchanged Hg Hf Hi].
  destruct (owner_live _ _ _ _ Hg Hi) as [Hlive _];
    [destruct Hn as [[n ->]| ->]; cbn; lia|].
  apply (gl_ctx _ _ Hg); [by rewrite Hlive|]. pose proof (gl_raw _ _ Hg). pose proof (gl_refs _ _ Hg).
  destruct Hn as [[n Hn]|Hn]; by_mode; lia.
Qed.

Lemma keeps_StoreContext v : keeps (StoreContext v).
Proof.
  intros c gs m i [md d u b it l] x r m' K Hg Hf Hi Hlp Hmax He. start_op Hg Hi Hlp He. cbn in Hlp.
  injection He as <- <-. destruct Hlp as (Hn & Hd & Hv & HK). by_mode.
  destruct HK as [HK|[Htr0 HK]].
  - keep (mkG (Fresh true) 0 u b it l). same_facts Hf Hi.
  - keep (mkG (Own 1) 0 u b it l). same_facts Hf Hi.
Qed.

Lemma keeps_StoreTracker t : keeps (StoreTracker t).
Proof.
  intros c gs m i [md d u b it l] x r m' K Hg Hf Hi Hlp Hmax He. start_op Hg Hi Hlp He. cbn in Hlp.
  injection He as <- <-. destruct Hlp as (Hn & Hd & HK). by_mode.
  keep (mkG (Own 1) d u b it l). same_facts Hf Hi.
Qed.

Lemma keeps_LoadTracker : keeps LoadTracker.
Proof.
  intros c gs m i [md d u b it l] x r m' K Hg Hf Hi Hlp Hmax He. start_op Hg Hi Hlp He. cbn in Hlp.
  injection He as <- <-. destruct Hlp as (n & Hn & HK). by_mode.
  assert (b_tracker (w_block m) = tr) as ->; [|unchanged Hg Hf Hi].
  destruct (owner_live _ _ _ _ Hg Hi) as [Hlive _]; [cbn; lia|].
  apply (gl_tr _ _ Hg); [by rewrite Hlive|]. pose proof (gl_refs _ _ Hg). lia.
Qed.

Lemma item_keeps_Dealloc : keeps Dealloc.
Proof.
  intros c gs m i [md d u b it l] x r m' K Hg Hf Hi Hlp Hmax He. start_op Hg Hi Hlp He. cbn in Hlp.
  injection He as <- <-. destruct Hlp as (Hn & HK). by_mode.
  destruct (owner_live _ _ _ _ Hg Hi) as [Hlive _]; [cbn; lia|].
  assert (live_cost m = Z.of_nat cost) by (unfold live_cost; by rewrite Hlive).
  keep (mkG (Own 0) (d + cost) u b it l). same_facts Hf Hi.
Qed.

Lemma keeps_Allocate : keeps Allocate.
Proof.
  intros c gs m i g x r m' K Hg Hf Hi Hlp Hmax He. start_op Hg Hi Hlp He. cbn in Hlp.
  destruct Hlp as (-> & HKt & HKf). contributions.
  assert (Hph : w_phase m = Unallocated).
  { pose proof (gl_refs _ _ Hg). destruct (w_phase m); cbn in *; [done|lia|lia]. }
  assert (live_cost m = 0) by (unfold live_cost; by rewrite Hph).
  destruct (or_alloc x); injection He as <- <-.
  - keep (mkG (Fresh false) 0 0 false INone false). same_facts Hf Hi.
  - keep (mkG (Own 0) 0 0 false INone false). same_facts Hf Hi.
Qed.
Lemma item_keeps_LoadCompleted : keeps LoadCompleted.
Proof.
  intros c gs m i [md d u b it l] x r m' K Hg Hf Hi Hlp Hmax He. start_op Hg Hi Hlp He. cbn in Hlp.
  injection He as <- <-. destruct Hlp as (n & Hn & HK). unchanged Hg Hf Hi.
Qed.

Lemma item_keeps_LoadCancel : keeps LoadCancel.
Proof.
  intros c gs m i [md d u b it l] x r m' K Hg Hf Hi Hlp Hmax He. start_op Hg Hi Hlp He. cbn in Hlp.
  injection He as <- <-. destruct Hlp as (n & Hn & HK). unchanged Hg Hf Hi.
Qed.

Lemma item_keeps_StoreCompleted : keeps StoreCompleted.
Proof.
  intros c gs m i [md d u b it l] x r m' K Hg Hf Hi Hlp Hmax He. start_op Hg Hi Hlp He. cbn in Hlp.
  injection He as <- <-. destruct Hlp as (n & Hn & HK). by_mode.
  keep (mkG (Own (S n)) d u b it l). same_facts Hf Hi.
Qed.

Lemma keeps_StoreItem v : keeps (StoreItem v).
Proof.
  intros c gs m i [md d u b it l] x r m' K Hg Hf Hi Hlp Hmax He. start_op Hg Hi Hlp He. cbn in Hlp.
  injection He as <- <-. destruct Hlp as (n & Hn & HK). by_mode.
  keep (mkG (Own (S n)) d u b it l). same_facts Hf Hi.
Qed.

Lemma item_keeps_PollEnd : keeps PollEnd.
Proof.
  intros c gs m i [md d u b it l] x r m' K Hg Hf Hi Hlp Hmax He. start_op Hg Hi Hlp He. cbn in Hlp.
  injection He as <- <-. destruct Hlp as (n & Hn & HK). by_mode.
  keep (mkG (Own (S n)) d u b it l). same_facts Hf Hi.
Qed.

Lemma item_keeps_DropFuture : keeps DropFuture.
Proof.
  intros c gs m i [md d u b it l] x r m' K Hg Hf Hi Hlp Hmax He. start_op Hg Hi Hlp He. cbn in Hlp.
  injection He as <- <-. destruct Hlp as (n & Hn & HK). by_mode.
  keep (mkG (Own (S n)) d u b it l). same_facts Hf Hi.
Qed.

Lemma keeps_SwapItem : keeps SwapItem.
Proof.
  intros c gs m i [md d u b it l] x r m' K Hg Hf Hi Hlp Hmax He. start_op Hg Hi Hlp He. cbn in Hlp.
  injection He as <- <-. destruct Hlp as (n & Hn & HK). by_mode.
  keep (mkG (Own (S n)) d u b it l). same_facts Hf Hi.
Qed.

Lemma item_keeps_PollBegin : keeps PollBegin.
Proof.
  intros c gs m i [md d u b it l] x r m' K Hg Hf Hi Hlp Hmax He. start_op Hg Hi Hlp He. cbn in Hlp.
  injection He as <- <-. destruct Hlp as (n & Hn & HK). by_mode.
  keep (mkG (Own (S n)) d u b it l). same_facts Hf Hi.
Qed.

Lemma item_keeps_CasScheduled : keeps CasScheduled.
Proof.
  intros c gs m i [md d u b it l] x r m' K Hg Hf Hi Hlp Hmax He. start_op Hg Hi Hlp He. cbn in Hlp.
  destruct Hlp as (n & Hn & Hb & HKf & HKt). by_mode.
  destruct (b_scheduled (w_block m) =? 0); injection He as <- <-; [|unchanged Hg Hf Hi].
  keep (mkG (Own (S n)) d u true it l). same_facts Hf Hi.
Qed.

Lemma item_keeps_ClearScheduled : keeps ClearScheduled.
Proof.
  intros c gs m i [md d u b it l] x r m' K Hg Hf Hi Hlp Hmax He. start_op Hg Hi Hlp He. cbn in Hlp.
  destruct Hlp as (n & Hn & HK). by_mode. injection He as <- <-.
  keep (mkG (Own (S n)) d u false it l). same_facts Hf Hi.
Qed.

Lemma item_keeps_CasCancel : keeps CasCancel.
Proof.
  intros c gs m i [md d u b it l] x r m' K Hg Hf Hi Hlp Hmax He. start_op Hg Hi Hlp He. cbn in Hlp.
  destruct Hlp as (n & Hn & HK). by_mode.
  destruct (b_cancel_requested (w_block m) =? 0); injection He as <- <-; [|unchanged Hg Hf Hi].
  keep (mkG (Own (S n)) d u b it l). same_facts Hf Hi.
Qed.

Lemma keeps_GiveRef : keeps GiveRef.
Proof.
  intros c gs m i [md d u b it l] x r m' K Hg Hf Hi Hlp Hmax He. start_op Hg Hi Hlp He. cbn in Hlp.
  destruct Hlp as (n & Hn & HK). by_mode. injection He as <- <-.
  keep (mkG (Own n) d u b it l). same_facts Hf Hi.
Qed.

Lemma keeps_TrackerBegin : keeps TrackerBegin.
Proof.
  intros c gs m i [md d u b it l] x r m' K Hg Hf Hi Hlp Hmax He. start_op Hg Hi Hlp He. cbn in Hlp.
  injection He as <- <-. keep (mkG md d (S u) b it l). count_facts Hf Hi.
Qed.

Lemma item_keeps_TrackerComplete : keeps TrackerComplete.
Proof.
  intros c gs m i [md d u b it l] x r m' K Hg Hf Hi Hlp Hmax He. start_op Hg Hi Hlp He. cbn in Hlp.
  injection He as <- <-. destruct Hlp as (u' & Hu' & HK). by_mode.
  keep (mkG md d u' b it l). count_facts Hf Hi.
Qed.

Lemma keeps_ObReferenceObject : keeps ObReferenceObject.
Proof.
  intros c gs m i [md d u b it l] x r m' K Hg Hf Hi Hlp Hmax He. start_op Hg Hi Hlp He. cbn in Hlp.
  injection He as <- <-. keep (mkG md (S d) u b it l). count_facts Hf Hi.
Qed.

Lemma keeps_ObDereferenceObject : keeps ObDereferenceObject.
Proof.
  intros c gs m i [md d u b it l] x r m' K Hg Hf Hi Hlp Hmax He. start_op Hg Hi Hlp He. cbn in Hlp.
  injection He as <- <-. destruct Hlp as (d' & Hd' & HK). by_mode.
  keep (mkG md d' u b it l). count_facts Hf Hi.
Qed.

(** Creating, deleting and queueing work items. *)
Lemma facts_new gs m i g g' it :
  gs !! i = Some g -> facts gs m ->
  fact_ok (w_kernel (new_item it m)) (g_item g') -> facts (<[i := g']> gs) (new_item it m).
Proof.
  intros Hi Hf Hg. apply (facts_grow _ m _ _ _ _ Hi Hf); [apply grows_new|done| |done].
  apply numbered_new, (gl_next _ _ Hf).
Qed.

Lemma facts_remove gs m i g n :
  gs !! i = Some g -> facts gs m -> facts (<[i := g]> gs) (remove_item n m).
Proof.
  intros Hi Hf. pose proof (fact_at _ _ _ _ Hf Hi) as Hg. unfold remove_item.
  destruct (k_items (w_kernel m) !! n); [|by apply (facts_same _ _ _ _ _ _ Hi Hf)].
  apply (facts_grow _ m _ _ _ _ Hi Hf); [apply grows_delete|done| |].
  - apply numbered_delete, (gl_next _ _ Hf).
  - eapply fact_ok_grows; [apply grows_delete|done].
Qed.

Lemma counts_remove gs m n : counts gs m -> counts gs (remove_item n m).
Proof.
  intros [Hu Hrefs Hdev Hraw Hctx Htr Htrack Hwake Hlost]. unfold remove_item.
  destruct (k_items (w_kernel m) !! n); (split; [done..|]); fields; intros H;
    by rewrite (Hlost H).
Qed.

Lemma facts_enqueue gs m i g g' n p :
  gs !! i = Some g -> facts gs m -> g_item g = ready n -> g_item g' = INone ->
  (driver = WDM -> p = Some tt) -> facts (<[i := g']> gs) (enqueue n p m).
Proof.
  intros Hi Hf Hn Hg' Hp. pose proof (fact_at _ _ _ _ Hf Hi) as Hg. rewrite Hn in Hg.
  destruct Hf as [H1 H2 H3]. split.
  - apply Forall_insert; [|by rewrite Hg']. exact H1.
  - apply Forall_app. split; [exact H2|]. by repeat constructor.
  - exact H3.
Qed.

Lemma queue_due_snoc q e : queue_due (q ++ [e]) = queue_due q + Z.of_nat (tracked tr).
Proof. apply (sum_snoc (fun _ => tracked tr) q e). Qed.

Lemma keeps_IoAllocateWorkItem : keeps IoAllocateWorkItem.
Proof.
  intros c gs m i [md d u b it l] x r m' K Hg Hf Hi Hlp Hmax He. start_op Hg Hi Hlp He. cbn in Hlp.
  destruct Hlp as (HKn & HKs). destruct (or_create x =? STATUS_SUCCESS); injection He as <- <-.
  - keep (mkG md d u b (INew (k_next (w_kernel m))) l). apply (facts_new _ _ _ _ _ _ Hi Hf). cbn. lia.
  - unchanged Hg Hf Hi.
Qed.

Lemma keeps_WdfWorkItemCreate : keeps WdfWorkItemCreate.
Proof.
  intros c gs m i [md d u b it l] x r m' K Hg Hf Hi Hlp Hmax He. start_op Hg Hi Hlp He. cbn in Hlp.
  destruct Hlp as (HKn & HKs). destruct (or_create x =? STATUS_SUCCESS) eqn:E; injection He as <- <-.
  - keep (mkG md d u b (INew (k_next (w_kernel m))) l). apply (facts_new _ _ _ _ _ _ Hi Hf). cbn. lia.
  - to_prop. unchanged Hg Hf Hi.
Qed.

Lemma keeps_IoFreeWorkItem n : keeps (IoFreeWorkItem n).
Proof.
  intros c gs m i [md d u b it l] x r m' K Hg Hf Hi Hlp Hmax He. start_op Hg Hi Hlp He. cbn in Hlp.
  injection He as <- <-. exists (mkG md d u b it l). split; [done|]. split.
  - apply counts_remove. by rewrite list_insert_id.
  - by apply facts_remove.
Qed.

Lemma keeps_WdfObjectDelete n : keeps (WdfObjectDelete n).
Proof.
  intros c gs m i [md d u b it l] x r m' K Hg Hf Hi Hlp Hmax He. start_op Hg Hi Hlp He. cbn in Hlp.
  injection He as <- <-. exists (mkG md d u b it l). split; [done|]. split.
  - apply counts_remove. by rewrite list_insert_id.
  - by apply facts_remove.
Qed.

Lemma keeps_IoQueueWorkItem n p : keeps (IoQueueWorkItem n p).
Proof.
  intros c gs m i [md d u b it l] x r m' K Hg Hf Hi Hlp Hmax He. start_op Hg Hi Hlp He. cbn in Hlp.
  injection He as <- <-. destruct Hlp as (Hd & Hp & n0 & u0 & Hn & Hit & Hu0 & HK). by_mode.
  pose proof (queue_due_snoc (k_queue (w_kernel m)) (n, Some tt)).
  pose proof (length_app (k_queue (w_kernel m)) [(n, Some tt)]) as Hl. cbn [length] in Hl.
  keep (mkG (Own (S n0)) d u0 false INone l). apply (facts_enqueue _ _ _ _ _ _ _ Hi Hf); [done|done|done].
Qed.

Lemma keeps_WdfWorkItemEnqueue n : keeps (WdfWorkItemEnqueue n).
Proof.
  intros c gs m i [md d u b it l] x r m' K Hg Hf Hi Hlp Hmax He. start_op Hg Hi Hlp He. cbn in Hlp.
  injection He as <- <-. destruct Hlp as (Hd & n0 & u0 & Hn & Hit & Hu0 & HK). by_mode.
  pose proof (queue_due_snoc (k_queue (w_kernel m)) (n, None)).
  pose proof (length_app (k_queue (w_kernel m)) [(n, None)]) as Hl. cbn [length] in Hl.
  keep (mkG (Own (S n0)) d u0 false INone l). apply (facts_enqueue _ _ _ _ _ _ _ Hi Hf); [done|done|by rewrite Hd].
Qed.

(** A thread that misses its item. *)
Lemma counts_bad gs m : counts gs m -> counts gs (bad_item true m).
Proof.
  intros [Hu Hrefs Hdev Hraw Hctx Htr Htrack Hwake Hlost].
  split; [done..|]. intros _. cbn. apply orb_true_r.
Qed.

Lemma missing_item gs m i md d u b it l (K : ghost -> Prop) :
  counts gs m -> facts gs m -> gs !! i = Some (mkG md d u b it l) -> K (mkG md d u b it true) ->
  exists g', K g' /\ counts (<[i := g']> gs) (bad_item true m) /\ facts (<[i := g']> gs) (bad_item true m).
Proof.
  intros Hg Hf Hi HK.
  pose proof (total_nonneg own_of gs); pose proof (total_nonneg owes_of gs).
  keep (mkG md d u b it true). same_facts Hf Hi.
Qed.

Lemma keeps_WdfObjectGetTypedContext n : keeps (WdfObjectGetTypedContext n).
Proof.
  intros c gs m i [md d u b it l] x r m' K Hg Hf Hi Hlp Hmax He. start_op Hg Hi Hlp He. cbn in Hlp.
  pose proof (fact_at _ _ _ _ Hf Hi) as Hfact.
  destruct Hlp as [(Hit & HKt & HKf)|(Hit & HKt & HKf)]; by_mode;
    destruct (k_items (w_kernel m) !! n) as [it0|] eqn:En; injection He as <- <-.
  - destruct (it_typed it0) eqn:Et; [|unchanged Hg Hf Hi].
    keep (mkG md d u b (ITyped n) l). apply (facts_same _ _ _ _ _ _ Hi Hf); [done|].
    cbn. split; [apply Hfact|]. intros it1 Hit1. rewrite En in Hit1. by injection Hit1 as <-.
  - exists (mkG md d u b (INew n) l). split; [done|]. rewrite list_insert_id by done.
    split; [by apply counts_bad|]. by destruct Hf.
  - destruct Hfact as [_ Hr]. destruct (Hr it0 En) as [-> _]. unchanged Hg Hf Hi.
  - by eapply missing_item.
Qed.

Lemma keeps_WriteItemContext n p : keeps (WriteItemContext n p).
Proof.
  intros c gs m i [md d u b it l] x r m' K Hg Hf Hi Hlp Hmax He. start_op Hg Hi Hlp He. cbn in Hlp.
  pose proof (fact_at _ _ _ _ Hf Hi) as Hfact. destruct Hlp as (Hit & Hp & HK). by_mode.
  destruct Hfact as [Hn Ht].
  destruct (k_items (w_kernel m) !! n) as [it0|] eqn:En; injection He as <- <-.
  - keep (mkG md d u b (IReady n) l).
    apply (facts_grow _ m _ _ _ _ Hi Hf); [by apply grows_write|done| |].
    + by apply (numbered_write _ _ it0), En; apply (gl_next _ _ Hf).
    + cbn. split; [done|]. intros it1. rewrite lookup_insert_eq. intros [= <-]. cbn. auto.
  - keep (mkG md d u b (IReady n) l). apply (facts_same _ _ _ _ _ _ Hi Hf); [done|].
    cbn. split; [done|]. intros it1 Hit1. by rewrite En in Hit1.
Qed.

Lemma keeps_ReadItemContext n : keeps (ReadItemContext n).
Proof.
  intros c gs m i [md d u b it l] x r m' K Hg Hf Hi Hlp Hmax He. start_op Hg Hi Hlp He. cbn in Hlp.
  pose proof (fact_at _ _ _ _ Hf Hi) as Hfact. destruct Hlp as (Hit & HKs & HKn). by_mode.
  destruct Hfact as [Hn Ht].
  destruct (k_items (w_kernel m) !! n) as [it0|] eqn:En; injection He as <- <-.
  - destruct (Ht it0 eq_refl) as [_ ->]. unchanged Hg Hf Hi.
  - by eapply missing_item.
Qed.

Lemma item_step_op o : keeps o.
Proof.
  destruct o;
    auto using keeps_Allocate, item_keeps_Dealloc, item_keeps_RefAdd, item_keeps_RefSub, keeps_StoreContext,
      keeps_LoadContext, keeps_StoreTracker, keeps_LoadTracker, item_keeps_LoadCompleted,
      item_keeps_StoreCompleted, item_keeps_CasScheduled, item_keeps_ClearScheduled, item_keeps_CasCancel,
      item_keeps_LoadCancel, keeps_StoreItem, keeps_SwapItem, item_keeps_PollBegin, item_keeps_PollEnd,
      item_keeps_DropFuture, keeps_GiveRef, keeps_TrackerBegin, item_keeps_TrackerComplete,
      keeps_ObReferenceObject, keeps_ObDereferenceObject, keeps_IoAllocateWorkItem,
      keeps_IoQueueWorkItem, keeps_IoFreeWorkItem, keeps_WdfWorkItemCreate,
      keeps_WdfObjectGetTypedContext, keeps_WriteItemContext, keeps_ReadItemContext,
      keeps_WdfWorkItemEnqueue, keeps_WdfObjectDelete.
Qed.

(** ** Schedules *)

Section Schedules.
Context (c : config) {L : TaskContextLaws ctx tr cost}.

(** No state on the way has more references than the counter can hold. *)
Fixpoint within_limit (es : list event) (s : sys C) : Prop :=
  b_ref_count (w_block (s_world s)) < MAX_REFCOUNT
  /\ match es with
     | [] => True
     | e :: es => match step c e s with Some s' => within_limit es s' | None => True end
     end.

Lemma queue_delete q n e : q !! n = Some e ->
  queue_due (delete n q) + Z.of_nat (tracked tr) = queue_due q
  /\ Z.of_nat (length (delete n q)) + 1 = Z.of_nat (length q).
Proof.
  unfold queue_due, total. revert n. induction q as [|e' q IH]; intros [|n] Hn; try done.
  - cbn. lia.
  - cbn in Hn. specialize (IH n Hn). change (delete (S n) (e' :: q)) with (e' :: delete n q).
    cbn [sum_list_with length]. lia.
Qed.

Ltac snoc_sums g :=
  rewrite ?(sum_snoc own_of _ g), ?(sum_snoc excl_of _ g), ?(sum_snoc start_of _ g),
    ?(sum_snoc fresh_of _ g), ?(sum_snoc raw_of _ g), ?(sum_snoc stored_of _ g),
    ?(sum_snoc (unstored_of cost) _ g), ?(sum_snoc g_dev _ g), ?(sum_snoc g_due _ g),
    ?(sum_snoc owes_of _ g), ?(sum_snoc lost_of _ g); contributions.

Ltac solve_snoc g :=
  split; unfold live_cost in *; fields; snoc_sums g;
  lazymatch goal with |- _ \/ _ => idtac | _ => idtac end;
  [> try done
   | match goal with H : _ \/ _ \/ _ \/ _ |- _ => destruct H as [H|[H|[H|H]]] end; destr_hyps;
     try (exfalso; sums);
     first [ left; split_and!; sums | right; left; split_and!; sums
           | right; right; left; split_and!; sums | right; right; right; split_and!; sums ]
   | sums | sums
   | intros; match goal with H : _ -> _ -> _ = ctx |- _ => apply H; sums end
   | intros ? [?|?]; match goal with
                     | H : _ -> _ -> _ = tr |- _ => apply H; [sums|first [by right|left; sums]]
                     end
   | sums
   | intros; match goal with H : _ -> _ -> 0 < _ |- _ => specialize (H ltac:(assumption) ltac:(assumption)); sums end
   | intros; match goal with H : _ -> _ = true |- _ => rewrite H by sums; done end ].

Lemma counts_dispatch gs m n e it :
  counts gs m -> k_queue (w_kernel m) !! n = Some e ->
  counts (gs ++ [mkG (Own 1) 0 (tracked tr) true it false])
    (on_kernel (fun k => set_queue (delete n (k_queue k)) k) m).
Proof.
  intros [Hu Hrefs Hdev Hraw Hctx Htr Htrack Hwake Hlost] Hn.
  destruct (queue_delete _ _ _ Hn) as [Hdue Hlen].
  pose proof (total_nonneg owes_of gs); pose proof (total_nonneg own_of gs).
  solve_snoc (mkG (Own 1) 0 (tracked tr) true it false).
Qed.

Lemma counts_env gs m n :
  counts gs m -> w_given m = S n ->
  counts (gs ++ [mkG (Own 1) 0 0 false INone false]) (set_given n m).
Proof.
  intros [Hu Hrefs Hdev Hraw Hctx Htr Htrack Hwake Hlost] Hn. rewrite Hn in *.
  pose proof (total_nonneg owes_of gs); pose proof (total_nonneg own_of gs).
  solve_snoc (mkG (Own 1) 0 0 false INone false).
Qed.

Lemma facts_dispatch gs m n i p :
  facts gs m -> k_queue (w_kernel m) !! n = Some (i, p) ->
  facts (gs ++ [mkG (Own 1) 0 (tracked tr) true (routine_fact i) false])
    (on_kernel (fun k => set_queue (delete n (k_queue k)) k) m)
  /\ (driver = WDM -> p = Some tt).
Proof.
  intros [H1 H2 H3] Hn. pose proof (Forall_lookup_1 _ _ _ _ H2 Hn) as [He Hp]. split; [|done].
  split; [|by apply Forall_delete|exact H3].
  apply Forall_app. split; [exact H1|]. constructor; [|done]. cbn [g_item].
  unfold ready, routine_fact in *. by destruct driver.
Qed.

Lemma facts_env gs m n :
  facts gs m -> facts (gs ++ [mkG (Own 1) 0 0 false INone false]) (set_given n m).
Proof.
  intros [H1 H2 H3]. split; [|exact H2|exact H3]. apply Forall_app. split; [exact H1|].
  by repeat constructor.
Qed.

Lemma item_step_Inv e s s' :
  Inv s -> b_ref_count (w_block (s_world s)) < MAX_REFCOUNT -> step c e s = Some s' -> Inv s'.
Proof using L.
  intros (gs & Ht & Hg & Hf) Hmax Hstep. destruct e as [i x|n|a]; cbn in Hstep.
  - destruct (s_threads s !! i) as [[d [|o k]]|] eqn:Hi; try done.
    destruct (exec c o x (s_world s)) as [[r m']|] eqn:He; [|done]. injection Hstep as <-.
    destruct (Forall2_lookup_r _ _ _ _ _ Ht Hi) as (g & Hgi & Hwp).
    destruct (item_step_op o c gs (s_world s) i g x r m' _ Hg Hf Hgi Hwp Hmax He) as (g' & HK & Hg' & Hf').
    exists (<[i := g']> gs). split; [|done]. by apply Forall2_insert.
  - destruct (k_queue (w_kernel (s_world s)) !! n) as [[i p]|] eqn:Hn; [|done].
    destruct (bool_decide _); [|done]. injection Hstep as <-.
    destruct (facts_dispatch _ _ _ _ _ Hf Hn) as [Hf' Hp].
    exists (gs ++ [mkG (Own 1) 0 (tracked tr) true (routine_fact i) false]). split.
    + apply Forall2_app; [done|]. constructor; [|constructor].
      apply (wp_in_thread ctx tr cost). by apply (wp_work_item_callback ctx tr cost).
    + split; [by eapply counts_dispatch|done].
  - destruct (w_given (s_world s)) as [|n] eqn:Hn; [done|]. injection Hstep as <-.
    exists (gs ++ [mkG (Own 1) 0 0 false INone false]). split.
    + apply Forall2_app; [done|]. constructor; [|constructor]. apply (wp_in_thread ctx tr cost), (item_wp_env ctx tr cost).
    + split; [by apply counts_env|by apply facts_env].
Qed.

Lemma play_Inv es s s' : Inv s -> within_limit es s -> play c es s = Some s' -> Inv s'.
Proof using L.
  revert s. induction es as [|e es IH]; intros s Hs [Hmax Hw] Hr; cbn in Hr.
  - by injection Hr as <-.
  - cbn in Hw. destruct (step c e s) as [s1|] eqn:E; [|done].
    apply (IH s1); [by eapply item_step_Inv|done|done].
Qed.

Lemma launch_Inv p :
  Programs.wp (lp ctx tr cost) p (mkG Start 0 0 false INone false) (fun _ => finished) ->
  Inv (launch p).
Proof.
  intros Hp. exists [mkG Start 0 0 false INone false]. split; [by repeat constructor|]. split.
  - split; unfold total; cbn; first [done|lia].
  - split; [by repeat constructor|by constructor|]. intros i it. cbn. by rewrite lookup_empty.
Qed.
End Schedules.

(** What the descriptions of finished threads contribute. *)
Lemma item_quiescent_sums gs ts :
  Forall2 typed gs ts -> Forall (fun t => running t = false) ts -> total lost_of gs = 0 ->
  total own_of gs = 0 /\ total excl_of gs = 0 /\ total start_of gs = 0 /\ total fresh_of gs = 0
  /\ total (unstored_of cost) gs = 0 /\ total g_dev gs = 0 /\ total g_due gs = 0
  /\ total owes_of gs = 0.
Proof.
  unfold total. induction 1 as [|g t gs ts Hwp _ IH]; intros Hq Hl; [done|].
  apply Forall_cons_iff in Hq as [Ht Hq]. cbn [sum_list_with] in *.
  assert (lost_of g = 0%nat) as Hg by lia. specialize (IH Hq ltac:(lia)).
  unfold typed, running in *. destruct (th_prog t); [|done].
  destruct Hwp as [Hlost|[it ->]]; [|cbn; lia]. cbn in Hg. by rewrite Hlost in Hg.
Qed.
End Invariant.
