(* ===== verification/WorkItemOrder.v ===== *)
(** * Work items in orderly schedules

    A work-item task that is not woken or cancelled while one of its work
    items runs: at most one thread, or the work queue, is then responsible for
    the task's [scheduled] word, its work item and its future.  The token
    below names the responsible thread and how far it has come; a second
    program logic checks that the functions of [WorkItem] pass it on, and the
    invariant follows for every orderly schedule. *)

From S2P Require Import Prelude Programs Status Refcount WorkItem WorkItemSem WorkItemLogic WorkItemSafety.

(** ** The token *)

Inductive creation : Type := CNew | CTyped | CReady.
Inductive progress : Type := RNew | RLive | RPoll | RMust | RDone.

(** Nothing; before the block is allocated; after setting [scheduled]; with
    an item created; with the item in [work_item]; a routine before and after
    it cleared [scheduled]; a routine that took the item out again. *)
Inductive token : Type :=
| TNone | TStart | TSched
| TCreated (i : nat) (c : creation)
| TStored (i : nat)
| TRunIn (i : nat)
| TRun (i : nat) (p : progress)
| TSwapped (i : nat).

Definition is_routine (t : token) : bool :=
  match t with TRunIn _ | TRun _ _ | TSwapped _ => true | _ => false end.

(** Operations that do not concern the token. *)
Definition neutral {C : Type} (o : op C) : bool :=
  match o with
  | Dealloc | RefAdd | RefSub | StoreContext _ | LoadContext | StoreTracker _ | LoadTracker
  | CasCancel | LoadCancel | GiveRef | TrackerBegin | TrackerComplete
  | ObReferenceObject | ObDereferenceObject => true
  | _ => false
  end.

Section Logic.
Context {C : Type} `{!TaskContext C}.

Definition lpt (o : op C) (t : token) : (resp o -> token -> Prop) -> Prop :=
  match o return (resp o -> token -> Prop) -> Prop with
  | Allocate => fun K => t = TStart /\ K true TNone /\ K false TNone
  | LoadCompleted => fun K =>
      (exists i, t = TRun i RNew /\ K 0 (TRun i RLive))
      \/ ((forall i, t <> TRun i RNew) /\ forall r, K r t)
  | StoreCompleted => fun K => exists i, t = TRun i RLive /\ K tt (TRun i RMust)
  | CasScheduled => fun K =>
      (t = TNone \/ is_routine t = true) /\ K false t /\ (t = TNone -> K true TSched)
  | ClearScheduled => fun K =>
      (t = TSched /\ K tt TNone) \/ exists i, t = TRunIn i /\ K tt (TRun i RNew)
  | StoreItem v => fun K => exists i, v = Some i /\ t = TCreated i CReady /\ K tt (TStored i)
  | SwapItem => fun K =>
      exists i p, t = TRun i p /\ (p = RLive \/ p = RDone) /\ K (Some i) (TSwapped i)
  | PollBegin => fun K => exists i, t = TRun i RLive /\ forall r, K r (TRun i RPoll)
  | PollEnd => fun K => exists i, t = TRun i RPoll /\ K tt (TRun i RLive)
  | DropFuture => fun K => exists i, t = TRun i RMust /\ K tt (TRun i RDone)
  | IoAllocateWorkItem => fun K =>
      driver = WDM /\ t = TSched /\ K None TSched /\ forall i, K (Some i) (TCreated i CReady)
  | IoQueueWorkItem i p => fun K => driver = WDM /\ p = Some tt /\ t = TStored i /\ K tt TNone
  | WdfWorkItemEnqueue i => fun K => driver = KMDF /\ t = TStored i /\ K tt TNone
  | IoFreeWorkItem i => fun K => t = TSwapped i /\ K tt TNone
  | WdfWorkItemCreate => fun K =>
      t = TSched /\ (forall s i, s <> STATUS_SUCCESS -> K (s, i) TSched)
      /\ forall i, K (STATUS_SUCCESS, i) (TCreated i CNew)
  | WdfObjectGetTypedContext i => fun K =>
      (t = TCreated i CNew /\ K true (TCreated i CTyped) /\ K false (TCreated i CNew))
      \/ (driver = KMDF /\ t = TRunIn i /\ K true t)
  | WriteItemContext i p => fun K =>
      t = TCreated i CTyped /\ p = Some tt /\ K tt (TCreated i CReady)
  | ReadItemContext i => fun K => driver = KMDF /\ t = TRunIn i /\ K (Some tt) t
  | WdfObjectDelete i => fun K =>
      (t = TSwapped i /\ K tt TNone) \/ exists c, t = TCreated i c /\ K tt TSched
  | _ => fun K => forall r, K r t
  end.

Lemma lpt_mono o t (K K' : resp o -> token -> Prop) :
  (forall r t', K r t' -> K' r t') -> lpt o t K -> lpt o t K'.
Proof. intros H. destruct o; cbn; lp_monotone. Qed.

Abbreviation wpt := (Programs.wp lpt).

Lemma wpt_bind {A B : Type} (p : prog C A) (f : A -> prog C B) t (Q : B -> token -> Prop) :
  wpt p t (fun a t' => wpt (f a) t' Q) -> wpt (pbind p f) t Q.
Proof. apply Programs.wp_bind, lpt_mono. Qed.

(** What a context does with the token. *)
Class TokenLaws : Prop := {
  wpt_retain c t (Q : unit -> token -> Prop) : Q tt t -> wpt (retain c) t Q;
  wpt_release_context c t (Q : unit -> token -> Prop) : Q tt t -> wpt (release_context c) t Q;
  wpt_create c (Q : NTSTATUS * item_ptr -> token -> Prop) :
    (forall s o, s <> STATUS_SUCCESS -> Q (s, o) TSched) ->
    (forall i, Q (STATUS_SUCCESS, Some i) (TCreated i CReady)) ->
    wpt (create_work_item c (Some tt)) TSched Q;
  wpt_enqueue i (Q : unit -> token -> Prop) :
    Q tt TNone -> wpt (enqueue_work_item (Some i) (Some tt)) (TStored i) Q;
  wpt_delete i (Q : unit -> token -> Prop) :
    Q tt TNone -> wpt (delete_work_item (Some i)) (TSwapped i) Q
}.

(** ** The functions *)

Section Functions.
Context {L : TokenLaws}.
Implicit Types (Q : unit -> token -> Prop).

Lemma wpt_tracker_begin b t Q : Q tt t -> wpt (tracker_begin b) t Q.
Proof. unfold tracker_begin. destruct driver, b; cbn; auto. by intros ? []. Qed.

Lemma wpt_tracker_complete b t Q : Q tt t -> wpt (tracker_complete b) t Q.
Proof. unfold tracker_complete. destruct driver, b; cbn; auto. by intros ? []. Qed.

Lemma wpt_release t Q : Q tt t -> wpt release t Q.
Proof.
  intros H. cbn. intros r. destruct (r =? 0); cbn; [|done]. intros c [].
  destruct (@is_valid C _ c); cbn; [by apply wpt_release_context|done].
Qed.

Lemma wpt_schedule t (Q : NTSTATUS -> token -> Prop) :
  t = TNone \/ (is_routine t = true /\ forall i, t <> TRun i RNew) ->
  (forall r, Q r t) -> wpt schedule t Q.
Proof.
  intros Ht H. unfold schedule. cbn [Programs.wp pbind act lpt]. right.
  split; [destruct Ht as [->|[_ ?]]; done|]. intros r. destruct (r =? 0); cbn [negb]; [|apply H].
  cbn [Programs.wp pbind act lpt]. split; [tauto|]. split; [apply H|]. intros ->.
  cbn [Programs.wp pbind act lpt]. intros b. apply wpt_bind, wpt_tracker_begin.
  cbn [load_context Programs.wp pbind act lpt]. intros c. destruct (@is_valid C _ c); cbn [negb].
  - apply wpt_bind, wpt_create.
    + intros s o Hs. rewrite (proj2 (Z.eqb_neq s _) Hs). cbn [negb Programs.wp pbind act lpt].
      left. split; [done|]. apply wpt_bind, wpt_tracker_complete, H.
    + intros i. cbn [Z.eqb negb STATUS_SUCCESS Programs.wp pbind act lpt]. exists i.
      do 2 (split; [done|]). cbn [add_ref Programs.wp pbind act lpt]. intros _.
      apply wpt_bind, wpt_enqueue. apply H.
  - cbn [Programs.wp pbind act lpt]. left. split; [done|]. apply wpt_bind, wpt_tracker_complete, H.
Qed.

Lemma wpt_run_actions i acts Q :
  Q tt (TRun i RPoll) -> wpt (run_actions (Some tt) acts) (TRun i RPoll) Q.
Proof.
  intros H. induction acts as [|[] acts IH]; cbn [run_actions]; [done|..].
  - cbn. by intros _ _.
  - apply wpt_bind, wpt_bind, wpt_schedule; [by right|]. by intros _.
Qed.

Lemma wpt_complete_task i Q : Q tt (TRun i RDone) -> wpt complete_task (TRun i RLive) Q.
Proof. intros H. cbn. exists i. split; [done|]. exists i. by split. Qed.

(** The end of a run with the item [i] in the task. *)
Lemma wpt_run_end i p b (fallback : item_ptr) :
  p = RLive \/ p = RDone ->
  wpt (pbind (act SwapItem) (fun work_item =>
        let work_item := match work_item with None => fallback | Some _ => work_item end in
        pbind (match work_item with None => Ret tt | Some _ => delete_work_item work_item end)
          (fun _ => pbind (tracker_complete b) (fun _ => release))))
    (TRun i p) (fun _ t => t = TNone).
Proof.
  intros Hp. cbn [Programs.wp pbind act lpt]. exists i, p. do 2 (split; [done|]). cbv zeta.
  apply wpt_bind, wpt_delete, wpt_bind, wpt_tracker_complete, wpt_release. done.
Qed.

Lemma wpt_run i fallback : wpt (run fallback) (TRunIn i) (fun _ t => t = TNone).
Proof.
  unfold run. cbn [Programs.wp pbind act lpt]. intros b. right. exists i. split; [done|].
  cbn [Programs.wp pbind act lpt]. left. exists i. split; [done|].
  cbn [Z.eqb negb Programs.wp pbind act lpt]. intros v. apply wpt_bind.
  destruct (v =? 0); cbn [negb].
  - cbn [raw_waker add_ref poll Programs.wp pbind act lpt]. intros _. exists i. split; [done|].
    intros [acts p]. apply wpt_bind, wpt_bind, wpt_run_actions.
    cbn [Programs.wp pbind act lpt fst snd]. exists i. split; [done|].
    apply wpt_bind. destruct p; [apply wpt_complete_task|cbn [Programs.wp]]; apply wpt_release.
    + apply (wpt_run_end i _ _ fallback). by right.
    + apply (wpt_run_end i _ _ fallback). by left.
  - apply wpt_complete_task, (wpt_run_end i _ _ fallback). by right.
Qed.

Lemma wpt_work_item_callback i p :
  (driver = WDM -> p = Some tt) -> wpt (work_item_callback i p) (TRunIn i) (fun _ t => t = TNone).
Proof.
  unfold work_item_callback. pose proof (wpt_run i) as Hrun.
  assert (Hk : driver = KMDF -> wpt (work_item_routine_kmdf i) (TRunIn i) (fun _ t => t = TNone)).
  { intros Hd. cbn. right. do 2 (split; [done|]). cbn. do 2 (split; [done|]). apply Hrun. }
  destruct driver; intros Hp; [rewrite Hp by done; apply Hrun|by apply Hk].
Qed.

Lemma wpt_env a : wpt (env_prog a) TNone (fun _ t => t = TNone).
Proof.
  assert (Hs : forall Q : NTSTATUS -> token -> Prop, (forall r, Q r TNone) -> wpt schedule TNone Q)
    by (intros Q HQ; apply wpt_schedule; [by left|done]).
  destruct a; cbn [env_prog wake_raw wake_by_ref_raw clone_raw drop_raw WorkItemCancelHandle_cancel
    WorkItemCancelHandle_is_cancelled WorkItemCancelHandle_clone WorkItemCancelHandle_drop];
    try (cbn; done); try by apply wpt_release.
  - apply wpt_bind, Hs. intros _. by apply wpt_release.
  - apply wpt_bind, wpt_bind, Hs. intros _. cbn. done.
  - cbn [cancel Programs.wp pbind act lpt]. intros []; [|cbn; done].
    apply wpt_bind, wpt_bind, Hs. intros _. cbn. done.
Qed.

Lemma wpt_in_thread p t :
  wpt p t (fun _ t => t = TNone) -> wpt (in_thread p) t (fun _ t => t = TNone).
Proof. intros H. by apply wpt_bind. Qed.

(** The spawn functions after the block was allocated. *)
Lemma wpt_publish Q c :
  Q tt TNone ->
  wpt (pbind (retain c) (fun _ => act (StoreContext c))) TNone Q.
Proof. intros H. apply wpt_bind, wpt_retain. cbn. by intros []. Qed.

Lemma wpt_spawn_task ctx : wpt (spawn_task ctx) TStart (fun _ t => t = TNone \/ t = TStart).
Proof.
  unfold spawn_task. destruct (is_valid ctx); cbn [negb]; [|by right].
  cbn [allocate Programs.wp pbind act lpt]. split; [done|]. split; [|by left].
  apply wpt_bind, wpt_retain. cbn [Programs.wp pbind act lpt]. intros _.
  apply wpt_bind, wpt_schedule; [by left|]. intros r. apply wpt_bind, wpt_release. by left.
Qed.

Lemma wpt_spawn_task_cancellable ctx :
  wpt (keep_handle (spawn_task_cancellable ctx)) TStart (fun _ t => t = TNone \/ t = TStart).
Proof.
  unfold spawn_task_cancellable. destruct (is_valid ctx); cbn [negb]; [|by right].
  cbn [keep_handle allocate Programs.wp pbind act lpt]. split; [done|]. split; [|by left].
  apply wpt_bind, wpt_bind, wpt_retain. cbn [Programs.wp pbind act lpt]. intros _ _.
  cbn [WorkItemCancelHandle_new add_ref Programs.wp pbind act lpt]. intros _.
  apply wpt_bind, wpt_schedule; [by left|]. intros r. apply wpt_bind, wpt_release.
  destruct (r =? STATUS_SUCCESS); cbn [negb]; [cbn; by left|].
  apply wpt_bind, wpt_release. cbn. by left.
Qed.
End Functions.
End Logic.
Arguments TokenLaws C {_} : assert.

#[global] Instance wdm_token_laws : TokenLaws PDEVICE_OBJECT.
Proof.
  split; cbn [retain release_context create_work_item enqueue_work_item delete_work_item WdmContext].
  - intros c t Q H. unfold wdm_retain. by destruct (device_object c =? 0); cbn; [|intros []].
  - intros c t Q H. unfold wdm_release. by destruct (device_object c =? 0); cbn; [|intros []].
  - intros c Q Hf Hs. unfold wdm_create_work_item. destruct (device_object c =? 0); cbn; [by apply Hf|].
    do 2 (split; [done|]). split; [by apply Hf|done].
  - intros i Q H. cbn. done.
  - intros i Q H. cbn. done.
Qed.

#[global] Instance kmdf_token_laws : TokenLaws WDFDEVICE.
Proof.
  split; cbn [retain release_context create_work_item enqueue_work_item delete_work_item KmdfContext].
  - done.
  - done.
  - intros c Q Hf Hs. unfold kmdf_create_work_item. destruct (wdf_device c =? 0); cbn; [by apply Hf|].
    split; [done|]. split.
    + intros s i Hne. rewrite (proj2 (Z.eqb_neq s _) Hne). by apply Hf.
    + intros i. cbn. left. split; [done|]. split.
      * cbn. do 2 (split; [done|]). apply Hs.
      * cbn. right. exists CNew. split; [done|]. by apply Hf.
  - intros i Q H. cbn. done.
  - intros i Q H. cbn. by left.
Qed.

(** ** The invariant *)

Section Order.
Context {C : Type} `{!TaskContext C}.
Implicit Types (m : world C).

(** What the token is about. *)
Record view : Type := mkView {
  v_scheduled : Z;
  v_slot : item_ptr;
  v_items : gmap nat item;
  v_queue : list (nat * task_ptr);
  v_polling : nat;
  v_completed : Z;
  v_future : bool
}.

Definition view_of m : view :=
  mkView (b_scheduled (w_block m)) (b_work_item (w_block m)) (k_items (w_kernel m))
    (k_queue (w_kernel m)) (w_polling m) (b_completed (w_block m)) (w_future m).

Definition good m : Prop := w_bad_item m = false /\ w_bad_future m = false.

(** How far an item is initialised; WDM has nothing to initialise. *)
Definition initialised (c : creation) (it : item) : Prop :=
  driver = KMDF ->
  match c with
  | CNew => True
  | CTyped => it_typed it = true
  | CReady => it_typed it = true /\ it_task it = Some tt
  end.

Definition future_of (p : progress) (polling : nat) (completed : Z) (future : bool) : Prop :=
  match p with
  | RNew | RLive => polling = 0%nat /\ completed = 0 /\ future = true
  | RPoll => polling = 1%nat /\ completed = 0 /\ future = true
  | RMust => polling = 0%nat /\ completed = 1 /\ future = true
  | RDone => polling = 0%nat /\ completed = 1
  end.

Definition token_ok (t : token) m : Prop :=
  match t with
  | TNone =>
      (exists cp f, view_of m = mkView 0 None ∅ [] 0 cp f
                    /\ (w_phase m = Live -> cp = 0 -> f = true))
      \/ exists i p it, view_of m = mkView 1 (Some i) {[ i := it ]} [(i, p)] 0 0 true
                        /\ initialised CReady it /\ (driver = WDM -> p = Some tt)
  | TStart => w_phase m = Unallocated /\ exists f, view_of m = mkView 0 None ∅ [] 0 0 f
  | TSched => view_of m = mkView 1 None ∅ [] 0 0 true
  | TCreated i c => exists it, view_of m = mkView 1 None {[ i := it ]} [] 0 0 true /\ initialised c it
  | TStored i | TRunIn i =>
      exists it, view_of m = mkView 1 (Some i) {[ i := it ]} [] 0 0 true /\ initialised CReady it
  | TRun i p =>
      exists it n cp f, view_of m = mkView 0 (Some i) {[ i := it ]} [] n cp f /\ future_of p n cp f
  | TSwapped i =>
      exists it cp f, view_of m = mkView 0 None {[ i := it ]} [] 0 cp f /\ (cp = 0 -> f = true)
  end.

(** Operations that do not concern the token leave what it is about alone. *)
Lemma neutral_view c o x m r m' :
  neutral o = true -> exec c o x m = Done (r, m') ->
  view_of m' = view_of m /\ w_bad_item m' = w_bad_item m /\ w_bad_future m' = w_bad_future m
  /\ (w_phase m' = Live -> w_phase m = Live) /\ (w_phase m = Unallocated -> o <> Dealloc -> w_phase m' = Unallocated).
Proof.
  intros Hn He. destruct o; try done; cbn in He; repeat case_hyp He; try done;
    injection He as <- <-; done.
Qed.

Lemma view_fields m s sl its q p cp f :
  view_of m = mkView s sl its q p cp f ->
  b_scheduled (w_block m) = s /\ b_work_item (w_block m) = sl /\ k_items (w_kernel m) = its
  /\ k_queue (w_kernel m) = q /\ w_polling m = p /\ b_completed (w_block m) = cp /\ w_future m = f.
Proof. unfold view_of. by intros [= -> -> -> -> -> -> ->]. Qed.

Lemma touch_same m :
  view_of (touch m) = view_of m /\ w_bad_item (touch m) = w_bad_item m
  /\ w_bad_future (touch m) = w_bad_future m /\ w_phase (touch m) = w_phase m.
Proof. done. Qed.

(** The fields of a state whose token is known. *)
Ltac open_view H :=
  pose proof (view_fields _ _ _ _ _ _ _ _ H) as (Vs & Vw & Vi & Vq & Vp & Vc & Vf).

(** One operation on the token, by the thread that holds it. *)
Definition passes (o : op C) : Prop :=
  forall c t x m r m' (K : resp o -> token -> Prop),
  t <> TNone -> token_ok t m -> good m -> w_phase m = Live \/ outside o = true ->
  lpt o t K -> exec c o x m = Done (r, m') ->
  exists t', K r t' /\ token_ok t' m' /\ good m' /\ (is_routine t' = true -> is_routine t = true).

(** The memory is as the view says and nothing went wrong. *)
Ltac view_done := unfold view_of in *; cbn in *; congruence.
Ltac next t' := exists t'; split; [done|]; split;
  [|split; [match goal with H : good _ |- _ => exact H end|done]].

Lemma passes_Allocate : passes Allocate.
Proof.
  intros c t x m r m' K Ht Hok Hgood Hlive Hlp He. cbn in Hlp, He.
  destruct Hlp as (-> & HKt & HKf). destruct Hok as (Hph & f & Hv). open_view Hv.
  destruct (or_alloc x); injection He as <- <-.
  - next TNone. left. exists 0, true. split; [view_done|done].
  - next TNone. left. exists 0, f. split; [done|]. by rewrite Hph.
Qed.

Lemma passes_LoadCompleted : passes LoadCompleted.
Proof.
  intros c t x m r m' K Ht Hok Hgood Hlive Hlp He. cbn in Hlp, He.
  injection He as <- <-. destruct Hlp as [(i & -> & HK)|(Hn & HK)].
  - destruct Hok as (it & n & cp & f & Hv & Hp). open_view Hv. destruct Hp as (-> & -> & ->).
    replace (b_completed _) with 0 by (cbn; congruence). next (TRun i RLive).
    by exists it, 0%nat, 0, true.
  - next t. exact Hok.
Qed.

Lemma passes_StoreCompleted : passes StoreCompleted.
Proof.
  intros c t x m r m' K Ht Hok Hgood Hlive Hlp He. cbn in Hlp, He.
  injection He as <- <-. destruct Hlp as (i & -> & HK). destruct Hok as (it & n & cp & f & Hv & Hp).
  open_view Hv. destruct Hp as (-> & -> & ->). next (TRun i RMust).
  exists it, 0%nat, 1, true. split; [view_done|done].
Qed.

Lemma passes_ClearScheduled : passes ClearScheduled.
Proof.
  intros c t x m r m' K Ht Hok Hgood Hlive Hlp He. cbn in Hlp, He.
  injection He as <- <-. destruct Hlp as [[-> HK]|(i & -> & HK)].
  - next TNone. left. cbn in Hok. open_view Hok. exists 0, true. split; [view_done|done].
  - next (TRun i RNew). destruct Hok as (it & Hv & Hi). open_view Hv.
    exists it, 0%nat, 0, true. split; [view_done|done].
Qed.

Lemma passes_StoreItem v : passes (StoreItem v).
Proof.
  intros c t x m r m' K Ht Hok Hgood Hlive Hlp He. cbn in Hlp, He.
  injection He as <- <-. destruct Hlp as (i & -> & -> & HK). next (TStored i).
  destruct Hok as (it & Hv & Hi). open_view Hv. exists it. split; [view_done|done].
Qed.

Lemma passes_SwapItem : passes SwapItem.
Proof.
  intros c t x m r m' K Ht Hok Hgood Hlive Hlp He. cbn in Hlp, He.
  injection He as <- <-. destruct Hlp as (i & p & -> & Hp & HK).
  destruct Hok as (it & n & cp & f & Hv & Hf). open_view Hv.
  replace (b_work_item _) with (Some i) by (cbn; congruence). next (TSwapped i).
  exists it, cp, f. destruct Hp as [->| ->].
  - destruct Hf as (-> & -> & ->). split; [view_done|done].
  - destruct Hf as (-> & ->). split; [view_done|done].
Qed.

Lemma passes_PollBegin : passes PollBegin.
Proof.
  intros c t x m r m' K Ht Hok Hgood Hlive Hlp He. cbn in Hlp, He.
  injection He as <- <-. destruct Hlp as (i & -> & HK).
  destruct Hok as (it & n & cp & f & Hv & Hf). open_view Hv. destruct Hf as (-> & -> & ->).
  exists (TRun i RPoll). split; [apply HK|]. split; [|split; [|done]].
  - exists it, 1%nat, 0, true. split; [view_done|done].
  - destruct Hgood as [Hi Hb]. split; [exact Hi|]. cbn. by rewrite Hb, Vf, Vp.
Qed.

Lemma passes_PollEnd : passes PollEnd.
Proof.
  intros c t x m r m' K Ht Hok Hgood Hlive Hlp He. cbn in Hlp, He.
  injection He as <- <-. destruct Hlp as (i & -> & HK).
  destruct Hok as (it & n & cp & f & Hv & Hf). open_view Hv. destruct Hf as (-> & -> & ->).
  next (TRun i RLive). exists it, 0%nat, 0, true. split; [|done].
  unfold view_of. cbn. rewrite Vp. view_done.
Qed.

Lemma passes_DropFuture : passes DropFuture.
Proof.
  intros c t x m r m' K Ht Hok Hgood Hlive Hlp He. cbn in Hlp, He.
  injection He as <- <-. destruct Hlp as (i & -> & HK).
  destruct Hok as (it & n & cp & f & Hv & Hf). open_view Hv. destruct Hf as (-> & -> & ->).
  exists (TRun i RDone). split; [apply HK|]. split; [|split; [|done]].
  - exists it, 0%nat, 1, false. split; [view_done|done].
  - destruct Hgood as [Hi Hb]. split; [exact Hi|]. cbn. by rewrite Hb, Vf, Vp.
Qed.

(** Creating an item where there is none, and deleting the only one. *)
Lemma new_item_view it m :
  view_of m = mkView 1 None ∅ [] 0 0 true ->
  view_of (new_item it m) = mkView 1 None {[ k_next (w_kernel m) := it ]} [] 0 0 true.
Proof. intros Hv. open_view Hv. unfold view_of. cbn. rewrite Vi. rewrite insert_empty. congruence. Qed.

Lemma remove_item_view i it m s sl n cp f :
  view_of m = mkView s sl {[ i := it ]} [] n cp f -> good m ->
  view_of (remove_item i m) = mkView s sl ∅ [] n cp f /\ good (remove_item i m)
  /\ w_phase (remove_item i m) = w_phase m.
Proof.
  intros Hv [Hi Hb]. open_view Hv. unfold remove_item. rewrite Vi, lookup_singleton_eq.
  split; [|split; [|done]].
  - unfold view_of. cbn. rewrite Vi, delete_singleton_eq. congruence.
  - split; [|exact Hb]. cbn. unfold queued. rewrite Vq, Hi. done.
Qed.

Lemma enqueue_view i p it m :
  view_of m = mkView 1 (Some i) {[ i := it ]} [] 0 0 true -> good m ->
  view_of (enqueue i p m) = mkView 1 (Some i) {[ i := it ]} [(i, p)] 0 0 true
  /\ good (enqueue i p m).
Proof.
  intros Hv [Hi Hb]. open_view Hv. split.
  - unfold view_of. cbn. rewrite Vq. cbn. congruence.
  - split; [|exact Hb]. cbn. unfold queued. by rewrite Vq, Hi, Vi, lookup_singleton_eq.
Qed.

Lemma passes_IoAllocateWorkItem : passes IoAllocateWorkItem.
Proof.
  intros c t x m r m' K Ht Hok Hgood Hlive Hlp He. cbn in Hlp, He.
  destruct Hlp as (Hd & -> & HKn & HKs). cbn in Hok.
  destruct (or_create x =? STATUS_SUCCESS); injection He as <- <-.
  - exists (TCreated (k_next (w_kernel m)) CReady). split; [apply HKs|]. split; [|by split].
    exists (mkItem false None). split; [by apply new_item_view|]. intros Hk. by rewrite Hd in Hk.
  - next TSched. exact Hok.
Qed.

Lemma passes_WdfWorkItemCreate : passes WdfWorkItemCreate.
Proof.
  intros c t x m r m' K Ht Hok Hgood Hlive Hlp He. cbn in Hlp, He.
  destruct Hlp as (-> & HKn & HKs). cbn in Hok.
  destruct (or_create x =? STATUS_SUCCESS) eqn:E; injection He as <- <-.
  - exists (TCreated (k_next (w_kernel m)) CNew). split; [apply HKs|]. split; [|by split].
    exists (mkItem (or_typed x) None). split; [by apply new_item_view|done].
  - to_prop. exists TSched. split; [by apply HKn|]. by split.
Qed.

Lemma passes_IoFreeWorkItem i : passes (IoFreeWorkItem i).
Proof.
  intros c t x m r m' K Ht Hok Hgood Hlive Hlp He. cbn in Hlp, He.
  injection He as <- <-. destruct Hlp as (-> & HK). destruct Hok as (it & cp & f & Hv & Hf).
  destruct (remove_item_view _ _ _ _ _ _ _ _ Hv Hgood) as (Hv' & Hg' & _).
  exists TNone. split; [done|]. split; [|by split]. left. exists cp, f. by split.
Qed.

Lemma passes_WdfObjectDelete i : passes (WdfObjectDelete i).
Proof.
  intros c t x m r m' K Ht Hok Hgood Hlive Hlp He. cbn in Hlp, He.
  injection He as <- <-. destruct Hlp as [(-> & HK)|(cr & -> & HK)].
  - destruct Hok as (it & cp & f & Hv & Hf).
    destruct (remove_item_view _ _ _ _ _ _ _ _ Hv Hgood) as (Hv' & Hg' & _).
    exists TNone. split; [done|]. split; [|by split]. left. exists cp, f. by split.
  - destruct Hok as (it & Hv & _).
    destruct (remove_item_view _ _ _ _ _ _ _ _ Hv Hgood) as (Hv' & Hg' & _).
    exists TSched. split; [exact HK|]. split; [exact Hv'|]. by split.
Qed.

Lemma passes_IoQueueWorkItem i p : passes (IoQueueWorkItem i p).
Proof.
  intros c t x m r m' K Ht Hok Hgood Hlive Hlp He. cbn in Hlp, He.
  injection He as <- <-. destruct Hlp as (Hd & -> & -> & HK). destruct Hok as (it & Hv & Hi).
  destruct (enqueue_view _ (Some tt) _ _ Hv Hgood) as [Hv' Hg'].
  exists TNone. split; [done|]. split; [|by split]. right. exists i, (Some tt), it.
  split; [exact Hv'|]. split; [exact Hi|]. done.
Qed.

Lemma passes_WdfWorkItemEnqueue i : passes (WdfWorkItemEnqueue i).
Proof.
  intros c t x m r m' K Ht Hok Hgood Hlive Hlp He. cbn in Hlp, He.
  injection He as <- <-. destruct Hlp as (Hd & -> & HK). destruct Hok as (it & Hv & Hi).
  destruct (enqueue_view _ None _ _ Hv Hgood) as [Hv' Hg'].
  exists TNone. split; [done|]. split; [|by split]. right. exists i, None, it.
  split; [exact Hv'|]. split; [exact Hi|]. intros Hw. by rewrite Hd in Hw.
Qed.

Lemma passes_WdfObjectGetTypedContext i : passes (WdfObjectGetTypedContext i).
Proof.
  intros c t x m r m' K Ht Hok Hgood Hlive Hlp He. cbn in Hlp, He.
  destruct Hlp as [(-> & HKt & HKf)|(Hd & -> & HK)].
  - destruct Hok as (it & Hv & Hi). open_view Hv. rewrite Vi, lookup_singleton_eq in He.
    injection He as <- <-. destruct (it_typed it) eqn:Et.
    + exists (TCreated i CTyped). split; [exact HKt|]. split; [|by split]. exists it.
      split; [exact Hv|]. intros _. exact Et.
    + exists (TCreated i CNew). split; [exact HKf|]. split; [|by split]. exists it. by split.
  - destruct Hok as (it & Hv & Hi). open_view Hv. rewrite Vi, lookup_singleton_eq in He.
    injection He as <- <-. destruct (Hi Hd) as [-> _]. exists (TRunIn i). split; [done|].
    split; [|by split]. exists it. by split.
Qed.

Lemma passes_WriteItemContext i p : passes (WriteItemContext i p).
Proof.
  intros c t x m r m' K Ht Hok Hgood Hlive Hlp He. cbn in Hlp, He.
  destruct Hlp as (-> & -> & HK). destruct Hok as (it & Hv & Hi). open_view Hv.
  rewrite Vi, lookup_singleton_eq in He. injection He as <- <-.
  exists (TCreated i CReady). split; [done|]. split; [|by split].
  exists (mkItem (it_typed it) (Some tt)). split; [|intros Hd; by rewrite (Hi Hd)].
  unfold view_of. cbn. rewrite Vi, insert_singleton_eq. congruence.
Qed.

Lemma passes_ReadItemContext i : passes (ReadItemContext i).
Proof.
  intros c t x m r m' K Ht Hok Hgood Hlive Hlp He. cbn in Hlp, He.
  destruct Hlp as (Hd & -> & HK). destruct Hok as (it & Hv & Hi). open_view Hv.
  rewrite Vi, lookup_singleton_eq in He. injection He as <- <-. destruct (Hi Hd) as [_ ->].
  exists (TRunIn i). split; [done|]. split; [|by split]. exists it. by split.
Qed.


Lemma passes_other o t (K : resp o -> token -> Prop) :
  neutral o = false -> o <> CasScheduled -> lpt o t K -> passes o.
Proof.
  intros Hn Hc Hlp. destruct o; try done;
    auto using passes_Allocate, passes_LoadCompleted, passes_StoreCompleted, passes_ClearScheduled,
      passes_StoreItem, passes_SwapItem, passes_PollBegin, passes_PollEnd, passes_DropFuture,
      passes_IoAllocateWorkItem, passes_IoQueueWorkItem, passes_IoFreeWorkItem,
      passes_WdfWorkItemCreate, passes_WdfObjectGetTypedContext, passes_WriteItemContext,
      passes_ReadItemContext, passes_WdfWorkItemEnqueue, passes_WdfObjectDelete.
Qed.

(** Without the token a thread only looks at [completed]. *)
Lemma no_token o (K : resp o -> token -> Prop) :
  neutral o = false -> lpt o TNone K ->
  o = CasScheduled \/ (o = LoadCompleted /\ forall c x m r m', exec c o x m = Done (r, m') -> m' = touch m /\ K r TNone).
Proof.
  intros Hn Hlp. destruct o; try done; cbn in Hlp; destr_hyps; try done;
    try (destruct Hlp; destr_hyps; done).
  - right. split; [done|]. intros c x m r m' [= <- <-]. split; [done|].
    destruct Hlp as [(i & ? & _)|[_ HK]]; [done|apply HK].
  - by left.
Qed.

Lemma token_ok_view t m m' :
  view_of m' = view_of m -> (w_phase m' = Live -> w_phase m = Live) ->
  (w_phase m = Unallocated -> w_phase m' = Unallocated) -> token_ok t m -> token_ok t m'.
Proof.
  intros Hv Hl Hu. destruct t; cbn; rewrite Hv; try done.
  - intros [(cp & f & H & Hf)|H]; [left|by right]. exists cp, f. auto.
  - intros [H1 H2]. auto.
Qed.
(** Taking the [scheduled] word in a calm state. *)
Lemma take_token m :
  token_ok TNone m -> b_scheduled (w_block m) = 0 -> b_completed (w_block m) = 0 ->
  w_phase m = Live -> token_ok TSched (on_block (set_scheduled 1) (touch m)).
Proof.
  intros [(cp & f & Hv & Hf)|(i & p & it & Hv & _)] Hs Hc Hl; open_view Hv; [|congruence].
  cbn. unfold view_of. cbn. rewrite Hf in * by congruence. view_done.
Qed.

End Order.

(** ** Orderly schedules *)

Section Schedules.
Context {C : Type} `{!TaskContext C}.

(** A thread that is about to take the [scheduled] word finds the task
    incomplete and no work-item routine running. *)
Definition calm (e : event) (s : sys C) : bool :=
  match e with
  | Run i _ =>
      match s_threads s !! i with
      | Some (mkThread _ (Vis CasScheduled _)) =>
          negb (b_scheduled (w_block (s_world s)) =? 0)
          || (b_completed (w_block (s_world s)) =? 0)
             && negb (existsb (fun t => th_routine t && running t) (s_threads s))
      | _ => true
      end
  | _ => true
  end.

Fixpoint orderly (c : config) (es : list event) (s : sys C) : bool :=
  match es with
  | [] => true
  | e :: es => calm e s && match step c e s with Some s' => orderly c es s' | None => true end
  end.

Definition token_at (h : option (nat * token)) (j : nat) : token :=
  match h with Some (i, t) => if decide (i = j) then t else TNone | None => TNone end.

Definition ended {A : Type} (_ : A) (t : token) : Prop := t = TNone \/ t = TStart.

Definition follows (t : token) (th : thread C) : Prop :=
  Programs.wp lpt (th_prog th) t ended /\ (is_routine t = true -> th_routine th = true).

Definition holds (h : option (nat * token)) (s : sys C) : Prop :=
  match h with
  | Some (i, t) => t <> TNone /\ is_Some (s_threads s !! i) /\ token_ok t (s_world s)
  | None => token_ok TNone (s_world s)
  end.

Definition OInv (s : sys C) : Prop :=
  good (s_world s)
  /\ exists h, (forall j th, s_threads s !! j = Some th -> follows (token_at h j) th) /\ holds h s.

(** The token after thread [j] moved on with [t']. *)
Lemma pass_token h j t' s m th :
  (forall k th, s_threads s !! k = Some th -> follows (token_at h k) th) ->
  is_Some (s_threads s !! j) -> token_at h j <> TNone \/ h = None -> good m -> token_ok t' m ->
  follows t' th -> OInv (mkSys m (<[j := th]> (s_threads s))).
Proof.
  intros Hall [th0 Hj] Hh Hg Hok Hf. split; [done|].
  exists (match t' with TNone => None | _ => Some (j, t') end). split.
  - intros k th' Hk. cbn [s_threads] in Hk.
    assert (Hat : token_at (match t' with TNone => None | _ => Some (j, t') end) k
                  = if decide (j = k) then t' else TNone).
    { destruct t'; cbn; by destruct (decide (j = k)). }
    rewrite Hat. destruct (decide (j = k)) as [<-|Hne].
    + rewrite list_lookup_insert_eq in Hk by by eapply lookup_lt_Some. by injection Hk as <-.
    + rewrite list_lookup_insert_ne in Hk by done.
      specialize (Hall k th' Hk). destruct Hh as [Hh| ->]; [|done].
      destruct h as [[i t]|]; [|done]. cbn in Hall, Hh. destruct (decide (i = j)) as [->|]; [|done].
      by rewrite decide_False in Hall by done.
  - destruct t'; cbn; try (split; [done|]; split; [|done]);
      try (rewrite list_lookup_insert_eq by (by eapply lookup_lt_Some); eauto); done.
Qed.

(** A thread that has no token moves on, and the token is where it was. *)
Lemma keep_token h j s m th :
  (forall k th, s_threads s !! k = Some th -> follows (token_at h k) th) -> holds h s ->
  good m -> (forall t, token_ok t (s_world s) -> token_ok t m) ->
  follows (token_at h j) th -> OInv (mkSys m (<[j := th]> (s_threads s))).
Proof.
  intros Hall Hh Hg Hok Hf. split; [done|]. exists h. split.
  - intros k th' Hk. cbn [s_threads] in Hk. apply list_lookup_insert_Some in Hk as [(<- & <- & _)|[_ Hk]];
      auto.
  - destruct h as [[i t]|]; cbn [holds s_world s_threads] in *; [|by apply Hok]. destruct Hh as (Ht & [th0 Hi] & Htok).
    split; [done|]. split; [|by apply Hok]. apply lookup_lt_is_Some. rewrite length_insert.
    by eapply lookup_lt_Some.
Qed.

Lemma neutral_keeps c o x m r m' :
  neutral o = true -> w_phase m = Live \/ outside o = true -> exec c o x m = Done (r, m') -> good m ->
  good m' /\ forall t, token_ok t m -> token_ok t m'.
Proof.
  intros Hn Hlive He [Hi Hb]. destruct (neutral_view _ _ _ _ _ _ Hn He) as (Hv & Hi' & Hb' & Hl & Hu).
  split; [by split; congruence|]. intros t. apply token_ok_view; [done|done|].
  intros Hph. apply Hu; [done|]. intros ->. destruct Hlive as [Hlive|Hlive]; [by rewrite Hph in Hlive|done].
Qed.

Lemma neutral_lpt (o : op C) t (K : resp o -> token -> Prop) :
  neutral o = true -> lpt o t K -> forall r, K r t.
Proof. by destruct o. Qed.

Lemma touch_keeps m : good m -> good (touch m) /\ forall t, token_ok t m -> token_ok t (touch m).
Proof. intros Hg. split; [exact Hg|]. intros t. by apply token_ok_view. Qed.

(** A routine that holds the token is running. *)
Lemma token_runs j t th (ths : list (thread C)) :
  ths !! j = Some th -> follows t th -> is_routine t = true ->
  existsb (fun t => th_routine t && running t) ths = true.
Proof.
  intros Hj [Hwp Hd] Ht. apply existsb_exists. exists th.
  split; [by apply list_elem_of_In; eapply list_elem_of_lookup_2|]. rewrite (Hd Ht). cbn.
  unfold running. destruct (th_prog th); [|done]. destruct Hwp as [-> | ->]; done.
Qed.

(** A thread that takes the word in a calm state gets the token. *)
Lemma calm_take h s :
  (forall k th, s_threads s !! k = Some th -> follows (token_at h k) th) -> holds h s ->
  b_scheduled (w_block (s_world s)) = 0 -> w_phase (s_world s) = Live ->
  existsb (fun t => th_routine t && running t) (s_threads s) = false -> h = None.
Proof.
  intros Hall Hh Hs Hl Hr. destruct h as [[i t]|]; [|done]. exfalso.
  destruct Hh as (Ht & [th Hi] & Hok). specialize (Hall i th Hi). cbn in Hall.
  rewrite decide_True in Hall by done.
  destruct (is_routine t) eqn:Er; [by rewrite (token_runs i t th _ Hi Hall Er) in Hr|].
  destruct t; try done; cbn in Hok.
  - destruct Hok as [Hu _]. by rewrite Hl in Hu.
  - apply view_fields in Hok as (? & _). lia.
  - destruct Hok as (it & Hv & _). apply view_fields in Hv as (? & _). lia.
  - destruct Hok as (it & Hv & _). apply view_fields in Hv as (? & _). lia.
Qed.

Lemma item_step_cas c j x s s' d k :
  s_threads s !! j = Some (mkThread d (Vis CasScheduled k)) -> OInv s -> calm (Run j x) s = true ->
  w_phase (s_world s) = Live -> step c (Run j x) s = Some s' -> OInv s'.
Proof.
  intros Hj (Hgood & h & Hall & Hh) Hcalm Hlive Hstep. cbn in Hstep, Hcalm. rewrite Hj in Hstep, Hcalm.
  unfold exec in Hstep. cbn [outside touch set_use_after_free w_block] in Hstep.
  destruct (Hall j _ Hj) as [Hwp Hd]. cbn [th_prog Programs.wp th_routine lpt] in Hwp, Hd.
  destruct Hwp as (Ht & Hf & Hs). destruct (touch_keeps _ Hgood) as [Hgt Htok].
  destruct (b_scheduled (w_block (s_world s)) =? 0) eqn:E; injection Hstep as <-.
  - to_prop. cbn in Hcalm. apply andb_true_iff in Hcalm as [Hc Hr]. to_prop.
    pose proof (calm_take _ _ Hall Hh E Hlive Hr) as ->. cbn in Hs.
    apply (pass_token None j TSched); [done|by rewrite Hj|by right|done| |by split; [apply Hs|]].
    by apply take_token.
  - by apply (keep_token h).
Qed.

Lemma step_run c j x s s' d o k :
  s_threads s !! j = Some (mkThread d (Vis o k)) -> OInv s -> calm (Run j x) s = true ->
  w_phase (s_world s) = Live \/ outside o = true -> step c (Run j x) s = Some s' -> OInv s'.
Proof.
  intros Hj HO Hcalm Hlive Hstep.
  assert (o = CasScheduled \/ o <> CasScheduled) as [->|Hcas] by (destruct o; auto; right; done).
  { eapply item_step_cas; eauto. by destruct Hlive. }
  destruct HO as (Hgood & h & Hall & Hh). cbn in Hstep. rewrite Hj in Hstep.
  destruct (exec c o x (s_world s)) as [[r m']|] eqn:He; [|done]. injection Hstep as <-.
  destruct (Hall j _ Hj) as [Hwp Hd]. cbn [th_prog Programs.wp th_routine] in Hwp, Hd.
  destruct (neutral o) eqn:Hn.
  { destruct (neutral_keeps _ _ _ _ _ _ Hn Hlive He Hgood) as [Hg' Htok].
    apply (keep_token h); [done|done|done|done|]. split; [|exact Hd].
    exact (neutral_lpt o _ _ Hn Hwp r). }
  destruct h as [[i t]|]; cbn in Hwp, Hd; [destruct (decide (i = j)) as [->|Hne]|].
  - destruct Hh as (Ht & Hi & Hok).
    destruct (passes_other o t _ Hn Hcas Hwp c t x _ r m' _ Ht Hok Hgood Hlive Hwp He)
      as (t' & HK & Hok' & Hg' & Hr).
    apply (pass_token (Some (j, t)) j t'); [done|by rewrite Hj| |done|done|split; [exact HK|auto]].
    left. cbn. by rewrite decide_True.
  - destruct (no_token o _ Hn Hwp) as [->|[-> HK]]; [done|]. destruct (HK _ _ _ _ _ He) as [-> HKr].
    destruct (touch_keeps _ Hgood) as [Hgt Htok].
    apply (keep_token (Some (i, t))); [done|done|done|done|]. cbn. rewrite decide_False by done. done.
  - destruct (no_token o _ Hn Hwp) as [->|[-> HK]]; [done|]. destruct (HK _ _ _ _ _ He) as [-> HKr].
    destruct (touch_keeps _ Hgood) as [Hgt Htok]. by apply (keep_token None).
Qed.

(** Dispatching the queued item gives the token to its routine. *)
Lemma step_dispatch `{!TokenLaws C} c n s s' :
  OInv s -> step c (Dispatch n) s = Some s' -> OInv s'.
Proof.
  intros (Hgood & h & Hall & Hh) Hstep. cbn in Hstep.
  destruct (k_queue (w_kernel (s_world s)) !! n) as [[i p]|] eqn:Hn; [|done].
  destruct (bool_decide _); [|done]. injection Hstep as <-.
  assert (h = None) as ->.
  { destruct h as [[j t]|]; [|done]. exfalso. destruct Hh as (Ht & _ & Hok).
    assert (k_queue (w_kernel (s_world s)) = []) as Hq; [|by rewrite Hq in Hn].
    destruct t; try done; cbn in Hok; destr_hyps;
      match goal with H : view_of _ = _ |- _ => by apply view_fields in H as (_ & _ & _ & ? & _) end. }
  cbn in Hh. destruct Hh as [(cp & f & Hv & _)|(i' & p' & it & Hv & Hi & Hp)];
    apply view_fields in Hv as (Vs & Vw & Vi & Vq & Vp & Vc & Vf); rewrite Vq in Hn; [done|].
  destruct n; [|done]. injection Hn as <- <-. split; [exact Hgood|].
  exists (Some (length (s_threads s), TRunIn i')). split.
  - intros j th Hj. cbn [s_threads token_at] in *. apply lookup_app_Some in Hj as [Hj|[Hl Hj]].
    + pose proof (lookup_lt_Some _ _ _ Hj). rewrite decide_False by lia. by apply (Hall j).
    + apply list_lookup_singleton_Some in Hj as [Hj <-]. rewrite decide_True by lia. split; [|done].
      eapply (Programs.wp_mono lpt lpt_mono); [|apply wpt_in_thread, wpt_work_item_callback, Hp].
      intros a t ->. by left.
  - split; [done|]. split.
    + cbn. apply lookup_lt_is_Some. rewrite length_app. cbn. lia.
    + cbn. exists it. split; [|done]. unfold view_of. cbn. rewrite Vq. cbn. congruence.
Qed.

Lemma step_env `{!TokenLaws C} c a s s' : OInv s -> step c (Env a) s = Some s' -> OInv s'.
Proof.
  intros (Hgood & h & Hall & Hh) Hstep. cbn in Hstep.
  destruct (w_given (s_world s)) as [|n]; [done|]. injection Hstep as <-. split; [exact Hgood|].
  exists h. split.
  - intros j th Hj. cbn [s_threads] in Hj. apply lookup_app_Some in Hj as [Hj|[Hl Hj]]; [by apply Hall|].
    apply list_lookup_singleton_Some in Hj as [Hj <-].
    assert (token_at h j = TNone) as ->.
    { destruct h as [[i t]|]; [|done]. cbn. destruct Hh as (_ & Hi & _).
      apply lookup_lt_is_Some in Hi. by rewrite decide_False by lia. }
    split; [|done]. eapply (Programs.wp_mono lpt lpt_mono); [|apply wpt_in_thread, wpt_env].
    intros b t ->. by left.
  - destruct h as [[i t]|]; [|exact Hh]. destruct Hh as (Ht & Hi & Hok). split; [done|].
    split; [|exact Hok]. cbn. apply lookup_lt_is_Some in Hi. apply lookup_lt_is_Some.
    rewrite length_app. lia.
Qed.

(** A thread that uses the block finds it allocated, by the safety of the
    task's memory. *)
Lemma access_is_live ctx tr cost s j d o k :
  Inv ctx tr cost s -> s_threads s !! j = Some (mkThread d (Vis o k)) ->
  w_phase (s_world s) = Live \/ outside o = true.
Proof.
  intros (gs & Ht & Hg & _) Hj. destruct (outside o) eqn:Ho; [by right|left].
  destruct (Forall2_lookup_r _ _ _ _ _ Ht Hj) as (g & Hgi & Hwp).
  apply (owner_live ctx tr cost gs _ j g Hg Hgi). exact (item_lp_owner ctx tr cost o g _ Hwp Ho).
Qed.

Lemma play_OInv `{!TokenLaws C} ctx tr cost `{!TaskContextLaws ctx tr cost} c es s s' :
  Inv ctx tr cost s -> OInv s -> within_limit c es s -> orderly c es s = true ->
  play c es s = Some s' -> OInv s'.
Proof.
  revert s. induction es as [|e es IH]; intros s Hi Ho [Hmax Hw] Hc Hr; cbn in Hr.
  - by injection Hr as <-.
  - cbn in Hw, Hc. apply andb_true_iff in Hc as [Hcalm Hc].
    destruct (step c e s) as [s1|] eqn:E; [|done].
    apply (IH s1); [by eapply item_step_Inv| |done|done|done].
    destruct e as [j x|n|a]; [|by eapply step_dispatch|by eapply step_env].
    destruct (s_threads s !! j) as [[d [|o k]]|] eqn:Hj;
      [cbn in E; by rewrite Hj in E| |cbn in E; by rewrite Hj in E].
    eapply step_run; eauto using access_is_live.
Qed.

Lemma launch_OInv p : Programs.wp lpt p TStart ended -> OInv (launch p).
Proof.
  intros Hp. split; [done|]. exists (Some (0%nat, TStart)). split.
  - intros [|j] th Hj; [|done]. injection Hj as <-. by split.
  - split; [done|]. split; [done|]. split; [done|]. by exists false.
Qed.
End Schedules.
