(* ===== verification/WorkItemTheorems.v ===== *)
(** * Theorems on the work-item executor

    What holds of a task spawned on the work-item executor under every
    schedule of its threads, of the work queue and of the holders of its
    wakers and handles; what holds when the schedule is orderly, and what goes
    wrong when it is not; and the outcomes of the spawn functions. *)

From S2P Require Import Prelude Programs Status Refcount WorkItem WorkItemSem WorkItemLogic WorkItemSafety WorkItemOrder.

(** The programs that publish a new task, untracked in any build or tracked
    in a WDM build. *)
Definition is_spawn {C : Type} `{!TaskContext C} (ctx : C) (p : prog C NTSTATUS) : Prop :=
  p = spawn_task ctx \/ p = keep_handle (spawn_task_cancellable ctx).
Definition is_tracked_spawn (device : PDEVICE_OBJECT) (p : prog PDEVICE_OBJECT NTSTATUS) : Prop :=
  p = spawn_task_tracked device \/ p = keep_handle (spawn_task_cancellable_tracked device).

(** At rest with nothing left to do: no thread runs, no work item is queued
    and nobody holds a reference. *)
Definition at_rest {C : Type} `{!TaskContext C} (s : sys C) : Prop :=
  quiescent s /\ k_queue (w_kernel (s_world s)) = [] /\ w_given (s_world s) = 0%nat.

Section Tasks.
Context {C : Type} `{!TaskContext C} (ctx : C) (tr : bool) (cost : nat).
Context {L : TaskContextLaws ctx tr cost} (c : config).

(** At rest, unless a work item was missed, no thread contributes. *)
Lemma rest_sums gs s :
  Forall2 (typed ctx tr cost) gs (s_threads s) -> counts ctx tr cost gs (s_world s) ->
  quiescent s -> w_bad_item (s_world s) = false ->
  total own_of gs = 0 /\ total excl_of gs = 0 /\ total start_of gs = 0 /\ total fresh_of gs = 0
  /\ total (unstored_of cost) gs = 0 /\ total g_dev gs = 0 /\ total g_due gs = 0
  /\ total owes_of gs = 0.
Proof using.
  intros Ht Hg Hq Hb. apply (item_quiescent_sums ctx tr cost gs _ Ht Hq).
  pose proof (gl_lost _ _ _ _ _ Hg) as Hl. rewrite Hb in Hl. pose proof (total_nonneg lost_of gs).
  destruct (Z.eq_dec (total lost_of gs) 0); [done|]. by specialize (Hl ltac:(lia)).
Qed.

Lemma Inv_memory s :
  Inv ctx tr cost s ->
  w_use_after_free (s_world s) = false
  /\ (w_phase (s_world s) = Freed ->
      w_given (s_world s) = 0%nat /\ k_queue (w_kernel (s_world s)) = [])
  /\ (at_rest s -> w_bad_item (s_world s) = false ->
      w_phase (s_world s) <> Live /\ k_device (w_kernel (s_world s)) = 0).
Proof.
  intros (gs & Ht & Hg & Hf). pose proof (gl_refs _ _ _ _ _ Hg) as Hr.
  split; [apply (gl_use _ _ _ _ _ Hg)|]. split.
  - intros Hp. rewrite Hp in Hr. cbn in Hr. split; [lia|]. apply length_zero_iff_nil. lia.
  - intros (Hq & Hq0 & Hg0) Hb.
    destruct (rest_sums gs s Ht Hg Hq Hb) as (H1 & H2 & H3 & H4 & H5 & H6 & _).
    rewrite Hq0, Hg0 in Hr. cbn in Hr. pose proof (gl_dev _ _ _ _ _ Hg) as Hd.
    unfold live_cost in Hd. destruct (w_phase (s_world s)); cbn in Hr; (split; [done || lia|lia]).
Qed.

Lemma item_spawn_wp p : tr = false -> is_spawn ctx p ->
  Programs.wp (lp ctx tr cost) p (mkG Start 0 0 false INone false) (fun _ => finished).
Proof using L. intros Htr [->| ->]; [by apply wp_spawn_task|by apply wp_spawn_task_cancellable]. Qed.
End Tasks.

(** C11: the memory of a work-item task is managed safely, in both driver
    models and however its threads, its work items (even several at once) and
    the users of its wakers and handles interleave: the block is never used
    after it was freed nor freed twice, and it is only freed when no waker,
    handle or queued work item refers to it.  In a run in which no work item
    was deleted while it was queued, nor used or run after it was deleted,
    the block has been freed once everything is at rest, and the device
    references taken for it have been given back.  (In the other runs, of
    which [self_wake_deletes_queued_item] is one, the block may stay
    allocated; orderly runs are not among them, as
    [orderly_work_items_are_deleted_once] shows.) *)
Theorem work_item_memory_is_safe {C : Type} `{!TaskContext C} (ctx : C) (cost : nat)
    `{!TaskContextLaws ctx false cost} (c : config) (p : prog C NTSTATUS) (es : list event) (s : sys C) :
  is_spawn ctx p -> within_limit c es (launch p) -> play c es (launch p) = Some s ->
  w_use_after_free (s_world s) = false
  /\ (w_phase (s_world s) = Freed ->
      w_given (s_world s) = 0%nat /\ k_queue (w_kernel (s_world s)) = [])
  /\ (at_rest s -> w_bad_item (s_world s) = false ->
      w_phase (s_world s) <> Live /\ k_device (w_kernel (s_world s)) = 0).
Proof.
  intros Hp Hw Hr. apply (Inv_memory ctx false cost).
  apply (play_Inv ctx false cost c es (launch p)); [|done|done].
  by apply launch_Inv, (item_spawn_wp ctx false cost).
Qed.

(** C14: a tracked task is safe too, and every call of [begin] on its tracker
    is matched by one call of [complete]: never more completes than begins,
    and equally many whenever no thread runs and no work item is queued, even
    while wakers and handles are held. *)
Theorem tracked_work_items_are_counted (device : PDEVICE_OBJECT) (c : config)
    (p : prog PDEVICE_OBJECT NTSTATUS) (es : list event) (s : sys PDEVICE_OBJECT) :
  device_object device <> 0 -> is_tracked_spawn device p ->
  within_limit c es (launch p) -> play c es (launch p) = Some s ->
  w_use_after_free (s_world s) = false
  /\ (k_done (w_kernel (s_world s)) <= k_begun (w_kernel (s_world s)))%nat
  /\ (quiescent s -> k_queue (w_kernel (s_world s)) = [] -> w_bad_item (s_world s) = false ->
      k_done (w_kernel (s_world s)) = k_begun (w_kernel (s_world s))).
Proof.
  intros Hd Hp Hw Hr. pose proof (wdm_laws device true Hd) as L.
  assert (Hi : Inv device true 1 s).
  { apply (play_Inv device true 1 c es (launch p)); [|done|done]. apply launch_Inv.
    destruct Hp as [->| ->]; [by apply wp_spawn_task_tracked|by apply wp_spawn_task_cancellable_tracked]. }
  destruct Hi as (gs & Ht & Hg & Hf). split; [apply (gl_use _ _ _ _ _ Hg)|].
  pose proof (gl_track _ _ _ _ _ Hg) as Hk. pose proof (total_nonneg g_due gs).
  unfold queue_due in Hk.
  pose proof (total_nonneg (fun _ : nat * task_ptr => tracked (C:=PDEVICE_OBJECT) true)
    (k_queue (w_kernel (s_world s)))).
  split; [lia|]. intros Hq Hq0 Hb.
  destruct (rest_sums device true 1 gs s Ht Hg Hq Hb) as (_ & _ & _ & _ & _ & _ & Hdue & _).
  rewrite Hq0 in Hk. unfold total in Hk at 2. cbn in Hk. lia.
Qed.

(** C13: no wake-up is lost in the executor: whenever no thread is running and
    no work item was deleted while queued, a live task that is marked as
    scheduled has a work item in the queue. *)
Theorem work_item_wakeups_are_queued {C : Type} `{!TaskContext C} (ctx : C) (cost : nat)
    `{!TaskContextLaws ctx false cost} (c : config) (p : prog C NTSTATUS) (es : list event) (s : sys C) :
  is_spawn ctx p -> within_limit c es (launch p) -> play c es (launch p) = Some s ->
  quiescent s -> w_bad_item (s_world s) = false -> w_phase (s_world s) = Live ->
  b_scheduled (w_block (s_world s)) <> 0 -> k_queue (w_kernel (s_world s)) <> [].
Proof.
  intros Hp Hw Hr Hq Hb Hl Hs.
  assert (Hi : Inv ctx false cost s).
  { apply (play_Inv ctx false cost c es (launch p)); [|done|done].
    by apply launch_Inv, (item_spawn_wp ctx false cost). }
  destruct Hi as (gs & Ht & Hg & Hf).
  destruct (rest_sums ctx false cost gs s Ht Hg Hq Hb) as (_ & _ & _ & _ & _ & _ & _ & Ho).
  pose proof (gl_wake _ _ _ _ _ Hg) as Hwk. rewrite Hl in Hwk. specialize (Hwk eq_refl Hs).
  intros Hq0. rewrite Hq0, Ho in Hwk. cbn in Hwk. lia.
Qed.

Lemma spawn_token {C : Type} `{!TaskContext C, !TokenLaws C} (ctx : C) p :
  is_spawn ctx p -> Programs.wp lpt p TStart ended.
Proof. intros [->| ->]; [apply wpt_spawn_task|apply wpt_spawn_task_cancellable]. Qed.

(** C12: in an orderly schedule, where the task is only woken and cancelled
    while none of its work items runs, work items and the future are handled
    correctly: no work item is deleted while it is queued or used after it
    was deleted, the future is not polled twice at the same time nor polled
    or dropped after it was dropped, and whenever no thread runs the work
    items that exist are exactly those in the queue, at most one. *)
Theorem orderly_work_items_are_deleted_once {C : Type} `{!TaskContext C, !TokenLaws C}
    (ctx : C) (cost : nat) `{!TaskContextLaws ctx false cost} (c : config) (p : prog C NTSTATUS)
    (es : list event) (s : sys C) :
  is_spawn ctx p -> within_limit c es (launch p) -> orderly c es (launch p) = true ->
  play c es (launch p) = Some s ->
  w_bad_item (s_world s) = false /\ w_bad_future (s_world s) = false
  /\ (quiescent s -> dom (k_items (w_kernel (s_world s)))
                     = list_to_set (k_queue (w_kernel (s_world s))).*1
                     /\ (length (k_queue (w_kernel (s_world s))) <= 1)%nat).
Proof.
  intros Hp Hw Ho Hr.
  assert (HO : OInv s).
  { eapply (play_OInv ctx false cost); [|by apply launch_OInv, (spawn_token ctx)|done|done|done].
    by apply launch_Inv, (item_spawn_wp ctx false cost). }
  destruct HO as ([Hi Hb] & h & Hall & Hh). do 2 (split; [done|]). intros Hq.
  assert (Hok : token_ok TNone (s_world s) \/ token_ok TStart (s_world s)).
  { destruct h as [[j t]|]; [|by left]. destruct Hh as (Ht & [th Hj] & Hok).
    specialize (Hall j th Hj). cbn in Hall. rewrite decide_True in Hall by done.
    pose proof (Forall_lookup_1 _ _ _ _ Hq Hj) as Hrun. unfold running in Hrun.
    destruct Hall as [Hwp _]. destruct (th_prog th); [|done]. destruct Hwp as [-> | ->]; auto. }
  destruct Hok as [[(cp & f & Hv & _)|(i & q & it & Hv & _)]|(_ & f & Hv)];
    apply view_fields in Hv as (_ & _ & -> & -> & _); cbn; (split; [|lia]).
  - by rewrite dom_empty_L.
  - by rewrite dom_singleton_L, union_empty_r_L.
  - by rewrite dom_empty_L.
Qed.

(** ** Schedules that are not orderly *)

Definition ok_oracle : oracle := mkOracle true STATUS_SUCCESS true ([], PollPending).
Definition ready_oracle : oracle := mkOracle true STATUS_SUCCESS true ([], PollReady STATUS_SUCCESS).
Definition wake_oracle : oracle := mkOracle true STATUS_SUCCESS true ([ActWakeByRef], PollPending).
Definition runs (n i : nat) (x : oracle) : list event := replicate n (Run i x).

Definition a_device : PDEVICE_OBJECT := mkPDEVICE 4096.
Definition a_wdf_device : WDFDEVICE := mkWDFDEVICE 4096.

(** A live task that is scheduled and incomplete, while no thread runs and
    no queued work item can be started. *)
Definition stuck {C : Type} `{!TaskContext C} (c : config) (s : sys C) : Prop :=
  quiescent s /\ w_phase (s_world s) = Live /\ b_scheduled (w_block (s_world s)) <> 0
  /\ b_completed (w_block (s_world s)) = 0 /\ forall n, step c (Dispatch n) s = None.

(** The task is spawned, its work item runs and the future wakes itself and
    stays pending, as a future that yields does. *)
Definition yields_wdm : list event := runs 12 0 ok_oracle ++ [Dispatch 0] ++ runs 19 1 wake_oracle.
Definition yields_kmdf : list event := runs 13 0 ok_oracle ++ [Dispatch 0] ++ runs 23 1 wake_oracle.

(** A wake-up during a poll loses the task.  [run] clears [scheduled]
    before the poll, so the wake-up queues a second work item and stores it in
    the task; [run] then deletes that item, which is still queued, instead of
    its own, which is never deleted.  In both driver models the task is stuck
    after its future has yielded once. *)
Theorem self_wake_deletes_queued_item (c : config) :
  (exists s, play c yields_wdm (launch (spawn_task a_device)) = Some s
             /\ stuck c s /\ w_bad_item (s_world s) = true
             /\ dom (k_items (w_kernel (s_world s))) = {[ 0%nat ]}
             /\ (k_queue (w_kernel (s_world s))).*1 = [1%nat])
  /\ (exists s, play c yields_kmdf (launch (spawn_task a_wdf_device)) = Some s
                /\ stuck c s /\ w_bad_item (s_world s) = true
                /\ dom (k_items (w_kernel (s_world s))) = {[ 0%nat ]}
                /\ (k_queue (w_kernel (s_world s))).*1 = [1%nat]).
Proof.
  split; destruct c as [[] []]; eexists; (split; [vm_compute; reflexivity|]);
    (split; [|split; [reflexivity|split; [vm_compute; reflexivity|reflexivity]]]);
    (split; [by repeat constructor|]); repeat (split; [done|]); intros [|[|n]]; reflexivity.
Qed.

(** The task is spawned and is inside a poll when the handle is cancelled,
    which queues a second work item; another worker thread runs it. *)
Definition cancelled_in_poll_wdm : list event :=
  runs 15 0 ok_oracle ++ [Dispatch 0] ++ runs 6 1 ok_oracle ++ [Env EnvCancel]
  ++ runs 10 2 ok_oracle ++ [Dispatch 0] ++ runs 6 3 ok_oracle.
Definition cancelled_in_poll_kmdf : list event :=
  runs 16 0 ok_oracle ++ [Dispatch 0] ++ runs 8 1 ok_oracle ++ [Env EnvCancel]
  ++ runs 12 2 ok_oracle ++ [Dispatch 0] ++ runs 8 3 ok_oracle.

(** Cancelling a task while its future is being polled drops the future
    under the poll: the second work item sees the request, marks the task
    complete and drops the future, although the first one is still polling
    it.  Both driver models are affected. *)
Theorem cancel_during_poll_drops_polled_future (c : config) :
  (exists s, play c cancelled_in_poll_wdm (launch (keep_handle (spawn_task_cancellable a_device))) = Some s
             /\ w_bad_future (s_world s) = true /\ w_polling (s_world s) = 1%nat
             /\ w_future (s_world s) = false)
  /\ (exists s, play c cancelled_in_poll_kmdf
                  (launch (keep_handle (spawn_task_cancellable a_wdf_device))) = Some s
                /\ w_bad_future (s_world s) = true /\ w_polling (s_world s) = 1%nat
                /\ w_future (s_world s) = false).
Proof.
  split; destruct c as [[] []]; eexists; (split; [vm_compute; reflexivity|]); repeat split.
Qed.

(** ** What the tracker of a work-item task does not count *)

(** The future keeps its waker and is pending; its work item has run. *)
Definition stored_waker : oracle := mkOracle true STATUS_SUCCESS true ([ActClone], PollPending).
Definition waiting_task : list event := runs 14 0 ok_oracle ++ [Dispatch 0] ++ runs 14 1 stored_waker.
Definition woken_again : list event := waiting_task ++ [Env EnvWake] ++ runs 10 2 ok_oracle.

(** The future is ready, and [run] has called [complete] but not [release]. *)
Definition finishing_task : list event := runs 14 0 ok_oracle ++ [Dispatch 0] ++ runs 13 1 ready_oracle.

(** The tracker of a work-item task counts its work items, not the task.  When
    [drain] finds the count at zero, a task that is pending is alive and keeps
    its reference to the device object, and a wake-up queues its next work
    item after [drain] has returned; and a task that has finished may still
    have to free its block and to release the device object. *)
Theorem work_item_drain_misses_tasks (c : config) :
  (exists s, play c waiting_task (launch (spawn_task_tracked a_device)) = Some s
             /\ quiescent s /\ k_begun (w_kernel (s_world s)) = k_done (w_kernel (s_world s))
             /\ w_phase (s_world s) = Live /\ k_device (w_kernel (s_world s)) = 1)
  /\ (exists s, play c woken_again (launch (spawn_task_tracked a_device)) = Some s
                /\ quiescent s /\ k_queue (w_kernel (s_world s)) <> [])
  /\ (exists s, play c finishing_task (launch (spawn_task_tracked a_device)) = Some s
                /\ k_begun (w_kernel (s_world s)) = k_done (w_kernel (s_world s))
                /\ w_phase (s_world s) = Live /\ k_device (w_kernel (s_world s)) = 1).
Proof.
  split_and!; destruct c as [[] []]; eexists; (split; [vm_compute; reflexivity|]);
    unfold quiescent; split_and?; try reflexivity; try discriminate; repeat constructor.
Qed.

(** ** Outcomes of spawning *)

(** What [spawn_task] returns and leaves behind: with an invalid context or
    without memory nothing changes; otherwise the work item is queued and
    holds the only reference, or the failure is returned with the block freed
    and the device and the items released.  The future of the failed task,
    which is in the block, has then not been dropped. *)
Definition spawn_outcome {C : Type} `{!TaskContext C} (x : oracle) (ctx : C) (failure : option NTSTATUS)
    (device_refs : Z) (r : NTSTATUS * world C) : Prop :=
  if negb (is_valid ctx) then r = (STATUS_INVALID_PARAMETER, world_init)
  else if negb (or_alloc x) then r = (STATUS_INSUFFICIENT_RESOURCES, world_init)
  else
    let '(status, m) := r in
    match failure with
    | None =>
        status = STATUS_SUCCESS /\ w_phase m = Live /\ b_ref_count (w_block m) = 1
        /\ b_scheduled (w_block m) = 1 /\ b_work_item (w_block m) = Some 0%nat
        /\ (k_queue (w_kernel m)).*1 = [0%nat] /\ k_device (w_kernel m) = device_refs
    | Some s =>
        status = s /\ w_phase m = Freed /\ k_items (w_kernel m) = ∅ /\ k_queue (w_kernel m) = []
        /\ k_device (w_kernel m) = 0 /\ w_use_after_free m = false /\ w_future m = true
    end.

(** The status of a failure to create the work item. *)
Definition wdm_failure (x : oracle) : option NTSTATUS :=
  if or_create x =? STATUS_SUCCESS then None else Some STATUS_INSUFFICIENT_RESOURCES.
Definition kmdf_failure (x : oracle) : option NTSTATUS :=
  if negb (or_create x =? STATUS_SUCCESS) then Some (or_create x)
  else if negb (or_typed x) then Some STATUS_INVALID_PARAMETER else None.

(** What [spawn_task] returns and leaves behind on every path, in both
    driver models and every build of the reference counts.  On the failure
    paths everything is released but the future, which is leaked. *)
Theorem spawn_task_outcomes (c : config) (x : oracle) (device : PDEVICE_OBJECT) (wdf : WDFDEVICE) :
  (exists r, alone c x (spawn_task device) world_init = Done r
             /\ spawn_outcome x device (wdm_failure x) 1 r)
  /\ (exists r, alone c x (spawn_task wdf) world_init = Done r
                /\ spawn_outcome x wdf (kmdf_failure x) 0 r).
Proof.
  destruct x as [a st ty po], device as [d], wdf as [w]. split.
  - destruct d, a, st, c as [[] []]; eexists; (split; [vm_compute; reflexivity|]);
      vm_compute; repeat split; reflexivity.
  - destruct w, a, st, ty, c as [[] []]; eexists; (split; [vm_compute; reflexivity|]);
      vm_compute; repeat split; reflexivity.
Qed.

(** ** Witnesses *)

Definition hardened : config := mkConfig Hardened true.

(** A whole life: spawned, its future is ready at the first poll, the handle
    is dropped. *)
Definition whole_life : list event :=
  runs 15 0 ok_oracle ++ [Dispatch 0] ++ runs 13 1 ready_oracle ++ [Env EnvDropHandle]
  ++ runs 4 2 ok_oracle.
Definition life_end : sys PDEVICE_OBJECT :=
  default (launch (spawn_task a_device))
    (play hardened whole_life (launch (keep_handle (spawn_task_cancellable a_device)))).

Lemma whole_life_plays :
  play hardened whole_life (launch (keep_handle (spawn_task_cancellable a_device))) = Some life_end.
Proof. vm_compute. reflexivity. Qed.
Lemma whole_life_within :
  within_limit hardened whole_life (launch (keep_handle (spawn_task_cancellable a_device))).
Proof. vm_compute. repeat split. Qed.

Lemma a_device_laws tr : TaskContextLaws a_device tr 1.
Proof. by apply wdm_laws. Qed.

Lemma work_item_memory_is_safe_witness :
  w_phase (s_world life_end) <> Live /\ k_device (w_kernel (s_world life_end)) = 0.
Proof.
  apply (work_item_memory_is_safe (TaskContextLaws0:=a_device_laws false) a_device 1 hardened
    (keep_handle (spawn_task_cancellable a_device)) whole_life life_end).
  - by right.
  - apply whole_life_within.
  - apply whole_life_plays.
  - split; [|split; reflexivity]. unfold quiescent. vm_compute. repeat constructor.
  - reflexivity.
Defined.

(** A tracked task that was spawned and has finished. *)
Definition tracked_life : list event :=
  runs 14 0 ok_oracle ++ [Dispatch 0] ++ runs 17 1 ready_oracle.
Definition tracked_end : sys PDEVICE_OBJECT :=
  default (launch (spawn_task a_device))
    (play hardened tracked_life (launch (spawn_task_tracked a_device))).

Lemma tracked_work_items_are_counted_witness :
  k_done (w_kernel (s_world tracked_end)) = k_begun (w_kernel (s_world tracked_end)).
Proof.
  apply (tracked_work_items_are_counted a_device hardened (spawn_task_tracked a_device)
    tracked_life tracked_end).
  - discriminate.
  - by left.
  - vm_compute. repeat split.
  - vm_compute. reflexivity.
  - unfold quiescent. vm_compute. repeat constructor.
  - reflexivity.
  - reflexivity.
Defined.

(** The spawned task right after it was published. *)
Definition published : sys PDEVICE_OBJECT :=
  default (launch (spawn_task a_device))
    (play hardened (runs 12 0 ok_oracle) (launch (spawn_task a_device))).

Lemma work_item_wakeups_are_queued_witness : k_queue (w_kernel (s_world published)) <> [].
Proof.
  apply (work_item_wakeups_are_queued (TaskContextLaws0:=a_device_laws false) a_device 1 hardened
    (spawn_task a_device) (runs 12 0 ok_oracle) published).
  - by left.
  - vm_compute. repeat split.
  - vm_compute. reflexivity.
  - unfold quiescent. vm_compute. repeat constructor.
  - reflexivity.
  - reflexivity.
  - vm_compute. discriminate.
Defined.

(** Two rounds: pending once, woken from outside while nothing runs, ready. *)
Definition two_rounds : list event :=
  runs 15 0 ok_oracle ++ [Dispatch 0] ++ runs 11 1 ok_oracle ++ [Env EnvCancel]
  ++ runs 10 2 ok_oracle ++ [Dispatch 0] ++ runs 9 3 ok_oracle.
Definition rounds_end : sys PDEVICE_OBJECT :=
  default (launch (spawn_task a_device))
    (play hardened two_rounds (launch (keep_handle (spawn_task_cancellable a_device)))).

Lemma orderly_work_items_are_deleted_once_witness :
  w_bad_item (s_world rounds_end) = false
  /\ w_bad_future (s_world rounds_end) = false
  /\ (quiescent rounds_end -> dom (k_items (w_kernel (s_world rounds_end)))
        = list_to_set (k_queue (w_kernel (s_world rounds_end))).*1
        /\ (length (k_queue (w_kernel (s_world rounds_end))) <= 1)%nat).
Proof.
  apply (orderly_work_items_are_deleted_once (TaskContextLaws0:=a_device_laws false) a_device 1
    hardened (keep_handle (spawn_task_cancellable a_device)) two_rounds rounds_end).
  - by right.
  - vm_compute. repeat split.
  - vm_compute. reflexivity.
  - vm_compute. reflexivity.
Defined.
