(* ===== verification/SecondaryTuples.v ===== *)
(** * Tuples of secondary interfaces

    Models [SecondaryVtables], [SecondaryList], [SecondaryEntryAccess] and
    [SecondaryComImpl] of [src/src/wrapper.rs], which the macros
    [impl_secondary_tuple!] and [impl_secondary_entry_access_all!] implement
    for tuples of up to eight vtable types: the impls the macros write, and
    what they mean at a tuple type.  Vtable types are named. *)

From stdpp Require Import strings.
From S2P Require Import Prelude Wrapper.

#[local] Open Scope string_scope.
#[local] Open Scope list_scope.

(** ** The macros *)

(** The type parameters of an impl with the indices of the fields. *)
Definition tuple_params : Type := list (string * nat).

(** [impl SecondaryEntryAccess<ei_index, ei_name> for (InterfaceEntryN<ei_all>,..)] *)
Record entry_impl : Type := mkEntryImpl { ei_name : string; ei_index : nat; ei_all : list string }.

Definition impl_secondary_entry_access (name : string) (index : nat) (all : list string) : entry_impl :=
  mkEntryImpl name index all.

(** One parameter at a time; no rule matches an empty list, with which the
    macro is never invoked. *)
Fixpoint impl_secondary_entry_access_all (names : tuple_params) (all : list string) : list entry_impl :=
  match names with
  | [] => []
  | (name, index) :: rest =>
      impl_secondary_entry_access name index all :: impl_secondary_entry_access_all rest all
  end.

(** What one line of [impl_secondary_tuple!] implements: the tuple with its
    parameters, the statements of [init] and the entry accessors. *)
Record tuple_impl : Type := mkTupleImpl {
  ti_params : list string;
  ti_init : list nat;            (* [self.i.parent = parent;] in this order *)
  ti_access : list entry_impl
}.

Definition impl_secondary_tuple (params : tuple_params) : tuple_impl :=
  let all := map fst params in
  mkTupleImpl all (map snd params) (impl_secondary_entry_access_all params all).

(** The invocations of the file. *)
Definition secondary_tuples : list tuple_impl := [
  impl_secondary_tuple [("S1", 0)];
  impl_secondary_tuple [("S1", 0); ("S2", 1)];
  impl_secondary_tuple [("S1", 0); ("S2", 1); ("S3", 2)];
  impl_secondary_tuple [("S1", 0); ("S2", 1); ("S3", 2); ("S4", 3)];
  impl_secondary_tuple [("S1", 0); ("S2", 1); ("S3", 2); ("S4", 3); ("S5", 4)];
  impl_secondary_tuple [("S1", 0); ("S2", 1); ("S3", 2); ("S4", 3); ("S5", 4); ("S6", 5)];
  impl_secondary_tuple [("S1", 0); ("S2", 1); ("S3", 2); ("S4", 3); ("S5", 4); ("S6", 5); ("S7", 6)];
  impl_secondary_tuple [("S1", 0); ("S2", 1); ("S3", 2); ("S4", 3); ("S5", 4); ("S6", 5); ("S7", 6); ("S8", 7)]
]%nat.

(** ** At a tuple type *)

(** The impl for a tuple of the types [ss]: the one with as many parameters. *)
Definition tuple_impl_for (ss : list string) : option tuple_impl :=
  List.find (fun t => (length (ti_params t) =? length ss)%nat) secondary_tuples.

Definition SecondaryVtables (ss : list string) : bool :=
  match tuple_impl_for ss with Some _ => true | None => false end.

(** The type a parameter stands for. *)
Fixpoint instantiate (params ss : list string) (name : string) : option string :=
  match params, ss with
  | p :: params, s :: ss => if String.eqb p name then Some s else instantiate params ss name
  | _, _ => None
  end.

(** The indices and types for which the entries implement
    [SecondaryEntryAccess]. *)
Definition entry_accesses (ss : list string) : list (nat * option string) :=
  match tuple_impl_for ss with
  | Some t => map (fun e => (ei_index e, instantiate (ei_all e) ss (ei_name e))) (ti_access t)
  | None => []
  end.
Definition SecondaryEntryAccess (ss : list string) (k : nat) (v : string) : Prop :=
  (k, Some v) ∈ entry_accesses ss.

(** [init], statement by statement. *)
Definition set_parent (parent : ptr) (e : InterfaceEntryN) : InterfaceEntryN :=
  mkEntry (se_vtable e) parent.
Definition tuple_init (t : tuple_impl) (parent : ptr) (es : list InterfaceEntryN) : list InterfaceEntryN :=
  fold_left (fun es k => alter (set_parent parent) k es) (ti_init t) es.

(** ** What the impls give *)

(** At most eight secondary interfaces, and at least one. *)
Lemma SecondaryVtables_bound ss : SecondaryVtables ss = true <-> (1 <= length ss <= 8)%nat.
Proof.
  unfold SecondaryVtables, tuple_impl_for.
  destruct ss as [|? [|? [|? [|? [|? [|? [|? [|? [|? ss]]]]]]]]]; cbn; split; try done; lia.
Qed.

Ltac access_entries :=
  split;
  [ intros H; split; [lia|];
    repeat (apply elem_of_cons in H as [H|H]; [injection H as -> ->; reflexivity|]);
    by apply elem_of_nil in H
  | intros [_ H];
    repeat match type of H with
           | _ !! ?k = _ =>
               destruct k as [|k]; [injection H as ->; repeat first [left; reflexivity|right]|cbn in H; try discriminate H]
           end ].

(** The entries of a tuple have, at each index, the accessor for the type at
    this index and no other. *)
Lemma SecondaryEntryAccess_spec ss k v :
  SecondaryEntryAccess ss k v <-> (length ss <= 8)%nat /\ ss !! k = Some v.
Proof.
  unfold SecondaryEntryAccess, entry_accesses, tuple_impl_for.
  destruct ss as [|? ss]; [split; [intros H; by apply elem_of_nil in H|by intros [_ ?]]|].
  destruct ss as [|? [|? [|? [|? [|? [|? [|? [|? ss]]]]]]]]; cbn; try access_entries.
  split; [intros H; by apply elem_of_nil in H|lia].
Qed.

(** The statements of [init] set the parent of every entry. *)
Lemma tuple_init_spec ss t parent (es : list InterfaceEntryN) :
  tuple_impl_for ss = Some t -> length es = length ss -> tuple_init t parent es = secondary_init es parent.
Proof.
  unfold tuple_impl_for, tuple_init. intros Ht Hl.
  destruct ss as [|? [|? [|? [|? [|? [|? [|? [|? [|? ss]]]]]]]]]; cbn in Ht; try discriminate Ht;
    injection Ht as <-; repeat (destruct es as [|? es]; try discriminate Hl); reflexivity.
Qed.

(** One impl per length: the impls do not overlap. *)
Lemma tuple_impls_coherent : NoDup (map (fun t => length (ti_params t)) secondary_tuples).
Proof. apply (bool_decide_unpack _). vm_compute. exact Logic.I. Qed.
