(* ===== verification/InterfaceMacro.v ===== *)
(** * The expansion of declare_com_interface!

    Models the macros of [src/src/macros/declare_interface.rs] on the syntax
    they work on: the arm of [__kcom_define_interface!] a method selects, the
    accumulators the arms extend, the items they expand to, and the vtable
    constructors.  The theorems say when the expansion compiles and what the
    vtables it builds contain. *)

From stdpp Require Import strings.
From S2P Require Import Prelude Wrapper SecondaryTuples.

#[local] Open Scope string_scope.
#[local] Open Scope list_scope.

(** ** Types and methods as the macros see them *)

(** A path, with or without a leading [::], and its generic arguments; other
    types matter to no arm. *)
Inductive rust_ty : Type :=
| TPath (global : bool) (segments : list string) (args : list rust_ty)
| TOther (text : string).

Record method : Type := mkMethod {
  m_async : bool;
  m_name : string;
  m_args : list (string * rust_ty);
  m_ret : option rust_ty
}.

(** Whether the tokens of a type match [p::Result<$ok:ty, $err:ty>]. *)
Definition is_result (global : bool) (segments : list string) (t : rust_ty) : bool :=
  match t with
  | TPath g s [_; _] => Bool.eqb g global && bool_decide (s = segments)
  | _ => false
  end.
Definition is_path (segments : list string) (t : rust_ty) : bool :=
  match t with
  | TPath false s [] => bool_decide (s = segments)
  | _ => false
  end.

(** ** The helper macros on return types

    A macro that is given a type as a [$t:ty] fragment sees it as opaque: arms
    that name tokens do not match it. *)
Inductive macro_input : Type := Tokens (t : rust_ty) | Fragment (t : rust_ty).

(** What crosses the vtable: [NTSTATUS], the type as written, or a pointer to
    an [AsyncOperationRaw] of it. *)
Inductive ffi_ty : Type :=
| FfiStatus
| FfiRet (t : rust_ty)
| FfiOperation (t : rust_ty).

Inductive conversion : Type := ViaIntoNtStatus | Unchanged.

Definition any_result (t : rust_ty) : bool :=
  is_result false ["Result"] t
  || is_result true ["core"; "result"; "Result"] t
  || is_result true ["std"; "result"; "Result"] t
  || is_result false ["core"; "result"; "Result"] t
  || is_result false ["std"; "result"; "Result"] t.

Definition __kcom_vtable_ret (i : macro_input) : ffi_ty :=
  match i with
  | Tokens t => if any_result t then FfiStatus else FfiRet t
  | Fragment t => FfiRet t
  end.

Definition __kcom_map_return (i : macro_input) : conversion :=
  match i with
  | Tokens t =>
      if any_result t then ViaIntoNtStatus
      else if is_path ["NTSTATUS"] t || is_path ["$crate"; "NTSTATUS"] t then ViaIntoNtStatus
      else Unchanged
  | Fragment _ => Unchanged
  end.

(** ** What an interface expands to *)

Inductive fn_ret : Type :=
| RetType (t : rust_ty)
| RetInitBox (future : string).   (* [impl InitBoxTrait<Self::Future, ..>] *)

Inductive trait_item : Type :=
| AssocType (name : string) (output : option rust_ty)
| AssocFn (name : string) (args : list (string * rust_ty)) (ret : fn_ret).

Record field : Type := mkField {
  f_name : string;
  f_args : list (string * rust_ty);
  f_ret : ffi_ty
}.

(** The generics a shim is instantiated with: [::<T>], or
    [::<T, P, S, A, INDEX>].  They also name the struct the shim views its
    object as: [ComObject] or [ComObjectN]. *)
Inductive shim_generics : Type := GPrimary | GSecondary.

#[global] Instance shim_generics_eq_dec : EqDecision shim_generics.
Proof. solve_decision. Defined.

Record init : Type := mkInit { i_field : string; i_shim : string; i_generics : shim_generics }.

(** A shim calls [inner.method(args)] and converts the result, or spawns the
    future of the method. *)
Inductive shim_body : Type :=
| BodySync (method : string) (args : list string) (conv : conversion)
| BodyAsync (method : string) (args : list string).

Record shim : Type := mkShim {
  s_name : string;
  s_generics : shim_generics;
  s_args : list (string * rust_ty);
  s_ret : ffi_ty;
  s_body : shim_body
}.

Record expansion : Type := mkExpansion {
  e_unsafe : bool;                   (* [trait_safety] *)
  e_trait : list trait_item;
  e_fields : list field;
  e_inits : list init;
  e_inits_secondary : list init;
  e_shims : list shim;
  e_error : bool                     (* a [compile_error!] *)
}.

Section Expansion.
(** The [async-com] feature, the name of the trait, and the [:camel]
    modifier of the [paste] crate. *)
Context (async_com : bool) (trait_name : string) (camel : string -> string).

Definition shim_name (m : string) : string := "shim_" +:+ trait_name +:+ "_" +:+ m.
Definition shim_name_secondary (m : string) : string := shim_name m +:+ "_secondary".

(** [#[cfg(feature = "async-com")]] *)
Definition cfg_async {B : Type} (items : list B) : list B := if async_com then items else [].

Inductive arm : Type := ArmAsync | ArmResult | ArmCoreResult | ArmStdResult | ArmPlain.

(** The first arm of [@parse] that matches; a method without a return type
    matches none. *)
Definition select_arm (m : method) : option (arm * rust_ty) :=
  match m_ret m with
  | None => None
  | Some r =>
      Some (if m_async m then ArmAsync
            else if is_result false ["Result"] r then ArmResult
            else if is_result true ["core"; "result"; "Result"] r then ArmCoreResult
            else if is_result true ["std"; "result"; "Result"] r then ArmStdResult
            else ArmPlain, r)
  end.

(** The arm for [async fn]; its secondary shim carries no [cfg]. *)
Definition munch_async (m : method) (r : rust_ty) (e : expansion) : expansion :=
  let n := m_name m in
  let arg_names := map fst (m_args m) in
  let future := camel n +:+ "Future" in
  mkExpansion true
    (e_trait e ++ cfg_async [AssocType future (Some r); AssocType "Allocator" None;
                             AssocFn n (m_args m) (RetInitBox future)])
    (e_fields e ++ cfg_async [mkField n (m_args m) (FfiOperation r)])
    (e_inits e ++ cfg_async [mkInit n (shim_name n) GPrimary])
    (e_inits_secondary e ++ cfg_async [mkInit n (shim_name_secondary n) GSecondary])
    (e_shims e
       ++ cfg_async [mkShim (shim_name n) GPrimary (m_args m) (FfiOperation r) (BodyAsync n arg_names)]
       ++ [mkShim (shim_name_secondary n) GSecondary (m_args m) (FfiOperation r) (BodyAsync n arg_names)])
    (e_error e || negb async_com).

(** The arms for plain functions: the type of the vtable slot and the
    conversion in the shims. *)
Definition munch_sync (m : method) (r : rust_ty) (ret : ffi_ty) (conv : conversion) (e : expansion)
    : expansion :=
  let n := m_name m in
  let body := BodySync n (map fst (m_args m)) conv in
  mkExpansion (e_unsafe e)
    (e_trait e ++ [AssocFn n (m_args m) (RetType r)])
    (e_fields e ++ [mkField n (m_args m) ret])
    (e_inits e ++ [mkInit n (shim_name n) GPrimary])
    (e_inits_secondary e ++ [mkInit n (shim_name_secondary n) GSecondary])
    (e_shims e ++ [mkShim (shim_name n) GPrimary (m_args m) ret body;
                   mkShim (shim_name_secondary n) GSecondary (m_args m) ret body])
    (e_error e).

(** The three [Result] arms, which differ in the path they match only, and the
    last arm, which forwards its type as a fragment. *)
Definition munch_result (m : method) (r : rust_ty) (e : expansion) : expansion :=
  munch_sync m r FfiStatus ViaIntoNtStatus e.
Definition munch_core_result (m : method) (r : rust_ty) (e : expansion) : expansion :=
  munch_sync m r FfiStatus ViaIntoNtStatus e.
Definition munch_std_result (m : method) (r : rust_ty) (e : expansion) : expansion :=
  munch_sync m r FfiStatus ViaIntoNtStatus e.
Definition munch_plain (m : method) (r : rust_ty) (e : expansion) : expansion :=
  munch_sync m r (FfiRet r) (__kcom_map_return (Fragment r)) e.

(** One step of [@parse]. *)
Definition munch (a : arm) (m : method) (r : rust_ty) (e : expansion) : expansion :=
  match a with
  | ArmAsync => munch_async m r e
  | ArmResult => munch_result m r e
  | ArmCoreResult => munch_core_result m r e
  | ArmStdResult => munch_std_result m r e
  | ArmPlain => munch_plain m r e
  end.

Fixpoint parse (e : expansion) (ms : list method) : option expansion :=
  match ms with
  | [] => Some e
  | m :: ms =>
      match select_arm m with
      | None => None
      | Some (a, r) => parse (munch a m r e) ms
      end
  end.

Definition __kcom_define_interface (ms : list method) : option expansion :=
  parse (mkExpansion false [] [] [] [] [] false) ms.
End Expansion.

(** ** When an expansion compiles

    The types of a declaration come from elsewhere; what their impls of
    [Into<NTSTATUS>], [Copy] and so on are is given.  Names are identifiers
    and types can be written in the signature of any function. *)
Class TraitFacts : Type := {
  Into_NTSTATUS : rust_ty -> bool;
  is_Copy : rust_ty -> bool;
  is_Send : rust_ty -> bool;
  is_Sync : rust_ty -> bool;
  is_static : rust_ty -> bool
}.

Section Compiles.
Context {TF : TraitFacts}.

(** [impl<T> AsyncValueType for T where T: Copy + Send + Sync + 'static] *)
Definition AsyncValueType (t : rust_ty) : bool := is_Copy t && is_Send t && is_Sync t && is_static t.

(** The impls of [IntoNtStatus]: the status types, and a [Result] whose error
    converts. *)
Definition IntoNtStatus (t : rust_ty) : bool :=
  if any_result t then match t with TPath _ _ [_; err] => Into_NTSTATUS err | _ => false end
  else is_path ["NTSTATUS"] t || is_path ["$crate"; "NTSTATUS"] t || is_path ["i32"] t
       || is_path ["Status"] t || is_path ["$crate"; "Status"] t.

Definition values_of (t : trait_item) : list string :=
  match t with AssocFn n _ _ => [n] | AssocType _ _ => [] end.
Definition types_of (t : trait_item) : list string :=
  match t with AssocType n _ => [n] | AssocFn _ _ _ => [] end.

(** The arguments of a function have different names; an operation is one of
    an [AsyncValueType]. *)
Definition item_ok (t : trait_item) : Prop :=
  match t with AssocFn _ args _ => NoDup (map fst args) | AssocType _ _ => True end.
Definition ffi_ok (t : ffi_ty) : Prop :=
  match t with FfiOperation t => AsyncValueType t = true | FfiStatus | FfiRet _ => True end.

(** The struct literal of a constructor: every declared field once, with a
    shim of the field's type. *)
Definition initialises (g : shim_generics) (shims : list shim) (f : field) (i : init) : Prop :=
  i_field i = f_name f /\ i_generics i = g
  /\ exists s, s ∈ shims /\ s_name s = i_shim i /\ s_generics s = g
               /\ s_args s = f_args f /\ s_ret s = f_ret f.

(** The type a body returns for a method that returns [r]. *)
Definition body_type (r : rust_ty) (conv : conversion) : ffi_ty :=
  match conv with ViaIntoNtStatus => FfiStatus | Unchanged => FfiRet r end.

(** The call in the body is well typed and the body has the type of the shim;
    [into_ntstatus] is called on a type that has it. *)
Definition shim_ok (items : list trait_item) (s : shim) : Prop :=
  NoDup (map fst (s_args s)) /\ ffi_ok (s_ret s) /\
  match s_body s with
  | BodySync n args conv =>
      exists r, AssocFn n (s_args s) (RetType r) ∈ items /\ args = map fst (s_args s)
                /\ s_ret s = body_type r conv
                /\ (conv = ViaIntoNtStatus -> IntoNtStatus r = true)
  | BodyAsync n args =>
      exists future r, AssocFn n (s_args s) (RetInitBox future) ∈ items
                       /\ AssocType future (Some r) ∈ items
                       /\ args = map fst (s_args s) /\ s_ret s = FfiOperation r
  end.

(** No [compile_error!], no name declared twice, constructors that initialise
    their struct, and functions and shims that type check.  Constants and
    functions of a trait share a name space. *)
Definition compiles (e : expansion) : Prop :=
  e_error e = false
  /\ NoDup ("parent" :: map f_name (e_fields e))
  /\ NoDup ("IID" :: flat_map values_of (e_trait e))
  /\ NoDup (flat_map types_of (e_trait e))
  /\ NoDup (map s_name (e_shims e))
  /\ Forall item_ok (e_trait e)
  /\ Forall (fun f => ffi_ok (f_ret f)) (e_fields e)
  /\ Forall2 (initialises GPrimary (e_shims e)) (e_fields e) (e_inits e)
  /\ Forall2 (initialises GSecondary (e_shims e)) (e_fields e) (e_inits_secondary e)
  /\ Forall (shim_ok (e_trait e)) (e_shims e).

(** The error of a type that is written as one of the [Result] arms has it. *)
Definition arm_error (r : rust_ty) : option rust_ty :=
  if is_result false ["Result"] r || is_result true ["core"; "result"; "Result"] r
     || is_result true ["std"; "result"; "Result"] r
  then match r with TPath _ _ [_; err] => Some err | _ => None end
  else None.

(** What that asks of a method, and of the declaration. *)
Definition method_ok (m : method) : Prop :=
  NoDup (map fst (m_args m)) /\
  match m_ret m with
  | None => True
  | Some r =>
      if m_async m then AsyncValueType r = true
      else match arm_error r with Some err => Into_NTSTATUS err = true | None => True end
  end.
Definition declarable (async_com : bool) (ms : list method) : Prop :=
  Forall (fun m => m_ret m <> None) ms
  /\ NoDup (map m_name ms)
  /\ "parent" ∉ map m_name ms /\ "IID" ∉ map m_name ms
  /\ (forall m m', m ∈ ms -> m' ∈ ms -> m_name m <> m_name m' +:+ "_secondary")
  /\ (length (filter (fun m => m_async m = true) ms) <= 1)%nat
  /\ (forall m, m ∈ ms -> m_async m = true -> async_com = true)
  /\ (forall m, m ∈ ms -> method_ok m).
End Compiles.

(** ** Closed form of the expansion *)

Section Facts.
Context {TF : TraitFacts}.
Context (async_com : bool) (trait_name : string) (camel : string -> string).
Abbreviation munch_here := (munch async_com trait_name camel).
Abbreviation parse_here := (parse async_com trait_name camel).

Definition empty_expansion : expansion := mkExpansion false [] [] [] [] [] false.
Definition exp_app (e e' : expansion) : expansion :=
  mkExpansion (e_unsafe e || e_unsafe e') (e_trait e ++ e_trait e') (e_fields e ++ e_fields e')
    (e_inits e ++ e_inits e') (e_inits_secondary e ++ e_inits_secondary e')
    (e_shims e ++ e_shims e') (e_error e || e_error e').

Lemma exp_app_assoc e1 e2 e3 : exp_app (exp_app e1 e2) e3 = exp_app e1 (exp_app e2 e3).
Proof. unfold exp_app. cbn. by rewrite <- !app_assoc, !orb_assoc. Qed.
Lemma exp_app_empty e : exp_app e empty_expansion = e.
Proof. destruct e. unfold exp_app. cbn. by rewrite !app_nil_r, !orb_false_r. Qed.

(** What one method adds, and what a list of them does. *)
Definition item (m : method) : expansion :=
  match select_arm m with
  | Some (a, r) => munch_here a m r empty_expansion
  | None => empty_expansion
  end.
Definition items (ms : list method) : expansion :=
  foldr (fun m => exp_app (item m)) empty_expansion ms.

Lemma munch_app a m r e : munch_here a m r e = exp_app e (munch_here a m r empty_expansion).
Proof.
  destruct a; unfold exp_app, munch, munch_async, munch_result, munch_core_result, munch_std_result,
    munch_plain, munch_sync; cbn;
    rewrite ?orb_true_r, ?orb_false_r; reflexivity.
Qed.

Lemma parse_items e ms :
  Forall (fun m => m_ret m <> None) ms -> parse_here e ms = Some (exp_app e (items ms)).
Proof.
  intros H. revert e. induction H as [|m ms Hm _ IH]; intros e; cbn; [by rewrite exp_app_empty|].
  unfold item, select_arm. destruct (m_ret m) as [r|] eqn:E; [|done].
  rewrite IH, munch_app, exp_app_assoc. done.
Qed.

Lemma parse_ret e ms e' : parse_here e ms = Some e' -> Forall (fun m => m_ret m <> None) ms.
Proof.
  revert e. induction ms as [|m ms IH]; intros e H; [constructor|]. cbn in H.
  destruct (select_arm m) as [[a r]|] eqn:E; [|done]. constructor; [|by eapply IH].
  unfold select_arm in E. by destruct (m_ret m).
Qed.

(** A component of the expansion, method by method. *)
Lemma items_component {B : Type} (f : expansion -> list B) ms :
  f empty_expansion = [] -> (forall e e', f (exp_app e e') = f e ++ f e') ->
  f (items ms) = flat_map (fun m => f (item m)) ms.
Proof. intros H0 Ha. induction ms as [|m ms IH]; [done|]. cbn [flat_map]. by rewrite <- IH, <- Ha. Qed.

Lemma items_error ms : e_error (items ms) = existsb (fun m => e_error (item m)) ms.
Proof. induction ms as [|m ms IH]; [done|]. cbn [existsb]. by rewrite <- IH. Qed.
Lemma items_unsafe ms : e_unsafe (items ms) = existsb (fun m => e_unsafe (item m)) ms.
Proof. induction ms as [|m ms IH]; [done|]. cbn [existsb]. by rewrite <- IH. Qed.

(** ** One method *)

Section Item.
Context (m : method) (r : rust_ty) (Hr : m_ret m = Some r).

Lemma item_error : e_error (item m) = m_async m && negb async_com.
Proof using Hr. unfold item, select_arm. rewrite Hr. destruct (m_async m); [done|]. by repeat case_goal. Qed.
Lemma item_unsafe : e_unsafe (item m) = m_async m.
Proof using Hr. unfold item, select_arm. rewrite Hr. destruct (m_async m); [done|]. by repeat case_goal. Qed.

Context (Hf : m_async m = true -> async_com = true).

(** Case on the arm, with the feature on where it is needed. *)
#[local] Ltac arms :=
  unfold item, select_arm, munch, munch_async, munch_result, munch_core_result, munch_std_result,
    munch_plain, munch_sync, cfg_async; rewrite Hr;
  destruct (m_async m); [rewrite Hf by done|repeat case_goal].

Lemma item_names : map f_name (e_fields (item m)) = [m_name m].
Proof using Hr Hf. arms; done. Qed.
Lemma item_values : flat_map values_of (e_trait (item m)) = [m_name m].
Proof using Hr Hf. arms; done. Qed.
Lemma item_types :
  flat_map types_of (e_trait (item m))
  = if m_async m then [camel (m_name m) +:+ "Future"; "Allocator"] else [].
Proof using Hr Hf. arms; done. Qed.
Lemma item_shims :
  map s_name (e_shims (item m))
  = [shim_name trait_name (m_name m); shim_name_secondary trait_name (m_name m)].
Proof using Hr Hf. arms; done. Qed.

Lemma item_initialised :
  Forall2 (initialises GPrimary (e_shims (item m))) (e_fields (item m)) (e_inits (item m))
  /\ Forall2 (initialises GSecondary (e_shims (item m))) (e_fields (item m)) (e_inits_secondary (item m)).
Proof using Hr Hf.
  assert (H1 : forall g S f i, initialises g S f i -> Forall2 (initialises g S) [f] [i])
    by (intros; by repeat (apply Forall2_cons || apply Forall2_nil)).
  arms; cbn; (split; apply H1; (do 2 (split; [done|])));
    first [eexists; (split; [by left|done]) | eexists; (split; [by right; left|done])].
Qed.

(** The function of the trait, and the field, of the method. *)
Lemma item_fn :
  AssocFn (m_name m) (m_args m)
    (if m_async m then RetInitBox (camel (m_name m) +:+ "Future") else RetType r) ∈ e_trait (item m).
Proof using Hr Hf. arms; cbn; set_solver. Qed.
Lemma item_field f : f ∈ e_fields (item m) -> m_async m = true -> f_ret f = FfiOperation r.
Proof using Hr Hf. arms; cbn; intros ->%list_elem_of_singleton; done. Qed.

Lemma item_trait_inv n args ret :
  AssocFn n args ret ∈ e_trait (item m) ->
  n = m_name m /\ (forall r', ret = RetType r' -> r' = r).
Proof using Hr Hf. arms; cbn; set_solver. Qed.

(** A shim that converts is one of a [Result] arm. *)
Lemma item_converts s n args :
  s ∈ e_shims (item m) -> s_body s = BodySync n args ViaIntoNtStatus ->
  m_async m = false /\ n = m_name m
  /\ IntoNtStatus r = match arm_error r with Some err => Into_NTSTATUS err | None => true end.
Proof using Hr Hf.
  intros Hs Hb. unfold IntoNtStatus, arm_error, any_result. revert Hs. arms; cbn; intros Hs;
    repeat apply elem_of_cons in Hs as [->|Hs]; try (by apply not_elem_of_nil in Hs); try done;
    cbn in Hb; injection Hb as <- <-; (split; [done|]); (split; [done|]);
    rewrite ?orb_true_r; cbn; by destruct r as [? ? [|? [|? [|? ?]]]|].
Qed.

Lemma item_has_converting err :
  m_async m = false -> arm_error r = Some err ->
  exists s args, s ∈ e_shims (item m) /\ s_body s = BodySync (m_name m) args ViaIntoNtStatus.
Proof using Hr Hf.
  intros Ha. unfold arm_error. arms; cbn; rewrite ?orb_true_r; try done;
    intros _; do 2 eexists; (split; [by left|done]).
Qed.

Lemma item_checks :
  method_ok m ->
  Forall item_ok (e_trait (item m)) /\ Forall (fun f => ffi_ok (f_ret f)) (e_fields (item m))
  /\ Forall (shim_ok (e_trait (item m))) (e_shims (item m)).
Proof using Hr Hf.
  intros [Hn Hm]. rewrite Hr in Hm. split; [|split].
  - arms; cbn; by repeat (apply Forall_cons || apply Forall_nil).
  - apply list.Forall_forall. intros f Hfield.
    assert (m_async m = true \/ m_async m = false) as [Ha|Ha] by (destruct (m_async m); auto).
    + rewrite (item_field f Hfield Ha). by rewrite Ha in Hm.
    + clear Hm. revert Hfield. arms; cbn; intros ->%list_elem_of_singleton; done.
  - apply list.Forall_forall. intros s Hs. pose proof item_fn as Hin. unfold shim_ok.
    destruct (s_body s) as [n args conv|n args] eqn:Hb.
    + assert (Hc : m_async m = false /\ n = m_name m /\ args = map fst (s_args s) /\ s_args s = m_args m
                   /\ s_ret s = body_type r conv).
      { revert Hs Hb. clear Hin Hm. arms; cbn; intros Hs Hb;
          repeat apply elem_of_cons in Hs as [->|Hs]; try (by apply not_elem_of_nil in Hs); try done;
          cbn in Hb; injection Hb as <- <- <-; done. }
      destruct Hc as (Ha & -> & -> & Hargs & Hret). rewrite Ha in Hin, Hm. rewrite Hargs, Hret.
      split; [done|]. split; [by destruct conv|]. exists r. do 3 (split; [done|]). intros ->.
      destruct (item_converts s _ _ Hs Hb) as (_ & _ & ->). by destruct (arm_error r).
    + assert (Hc : m_async m = true /\ n = m_name m /\ args = map fst (s_args s) /\ s_args s = m_args m
                   /\ s_ret s = FfiOperation r
                   /\ AssocType (camel (m_name m) +:+ "Future") (Some r) ∈ e_trait (item m)).
      { revert Hs Hb. clear Hin Hm. arms; cbn; intros Hs Hb;
          repeat apply elem_of_cons in Hs as [->|Hs]; try (by apply not_elem_of_nil in Hs); try done;
          cbn in Hb; injection Hb as <- <-; repeat (split; [done|]); by left. }
      destruct Hc as (Ha & -> & -> & Hargs & Hret & Hty). rewrite Ha in Hin, Hm. rewrite Hargs, Hret.
      split; [done|]. split; [done|]. by exists (camel (m_name m) +:+ "Future"), r.
Qed.
End Item.

(** ** All methods *)

Lemma flat_map_sing {B D : Type} (f : B -> list D) (g : B -> D) l :
  (forall x, x ∈ l -> f x = [g x]) -> flat_map f l = map g l.
Proof.
  induction l as [|x l IH]; intros H; cbn; [done|].
  rewrite (H x) by by left. cbn. f_equal. apply IH. intros y Hy. apply H. by right.
Qed.

Lemma map_flat_map {B D E : Type} (f : D -> E) (g : B -> list D) l :
  map f (flat_map g l) = flat_map (fun x => map f (g x)) l.
Proof. induction l as [|x l IH]; cbn; [done|]. by rewrite map_app, IH. Qed.

Lemma flat_map_flat_map {B D E : Type} (f : D -> list E) (g : B -> list D) l :
  flat_map f (flat_map g l) = flat_map (fun x => flat_map f (g x)) l.
Proof. induction l as [|x l IH]; cbn; [done|]. by rewrite flat_map_app, IH. Qed.

Lemma initialises_mono g S S' f i : S ⊆ S' -> initialises g S f i -> initialises g S' f i.
Proof. intros HS (? & ? & s & Hs & ?). do 2 (split; [done|]). exists s. split; [by apply HS|done]. Qed.

Lemma shim_ok_mono its its' s : its ⊆ its' -> shim_ok its s -> shim_ok its' s.
Proof.
  unfold shim_ok. intros Hi (? & ? & Hb). do 2 (split; [done|]). revert Hb. destruct (s_body s).
  - intros (r & Hr & ?). exists r. split; [by apply Hi|done].
  - intros (fu & r & Hr & Hf & ?). exists fu, r. split; [by apply Hi|]. split; [by apply Hi|done].
Qed.

Section Items.
Context (ms : list method).
Context (Hret : Forall (fun m => m_ret m <> None) ms).
Context (Hf : forall m, m ∈ ms -> m_async m = true -> async_com = true).

Lemma with_ret m : m ∈ ms -> exists r, m_ret m = Some r.
Proof using Hret. intros Hm. pose proof (proj1 (list.Forall_forall _ _) Hret m Hm). destruct (m_ret m) eqn:E; [eauto|congruence]. Qed.

(** Reading off a component of the expansion. *)
#[local] Ltac component l :=
  rewrite items_component by done; rewrite ?map_flat_map, ?flat_map_flat_map;
  try apply flat_map_sing; intros m Hm; destruct (with_ret m Hm) as [r Hr];
  eapply l; [exact Hr|exact (Hf m Hm)].

Lemma items_names : map f_name (e_fields (items ms)) = map m_name ms.
Proof using Hret Hf. component item_names. Qed.
Lemma items_values : flat_map values_of (e_trait (items ms)) = map m_name ms.
Proof using Hret Hf. component item_values. Qed.

Lemma items_initialised ms' :
  ms' ⊆ ms ->
  Forall2 (initialises GPrimary (e_shims (items ms'))) (e_fields (items ms')) (e_inits (items ms'))
  /\ Forall2 (initialises GSecondary (e_shims (items ms'))) (e_fields (items ms'))
       (e_inits_secondary (items ms')).
Proof using Hret Hf.
  induction ms' as [|m ms' IH]; intros Hs; [by repeat constructor|].
  destruct IH as (I1 & I2); [intros x Hx; apply Hs; by right|].
  assert (Hm : m ∈ ms) by (apply Hs; by left). destruct (with_ret m Hm) as [r Hr].
  destruct (item_initialised m r Hr (Hf m Hm)) as [J1 J2].
  cbn [items foldr exp_app e_shims e_fields e_inits e_inits_secondary e_trait] in *.
  change (foldr (fun m => exp_app (item m)) empty_expansion ms') with (items ms').
  split.
  - apply Forall2_app; [eapply Forall2_impl; [|apply J1]|eapply Forall2_impl; [|apply I1]];
      intros ? ? Hx; (eapply initialises_mono; [|exact Hx]); intros y; rewrite elem_of_app; auto.
  - apply Forall2_app; [eapply Forall2_impl; [|apply J2]|eapply Forall2_impl; [|apply I2]];
      intros ? ? Hx; (eapply initialises_mono; [|exact Hx]); intros y; rewrite elem_of_app; auto.
Qed.

(** What the whole expansion contains is what its methods contribute. *)
Lemma elem_of_component {B : Type} (f : expansion -> list B) l x :
  f empty_expansion = [] -> (forall e e', f (exp_app e e') = f e ++ f e') ->
  x ∈ f (items l) <-> exists m, m ∈ l /\ x ∈ f (item m).
Proof.
  intros H0 Ha. rewrite (items_component f) by done. rewrite list_elem_of_In, in_flat_map.
  setoid_rewrite <- list_elem_of_In. done.
Qed.

Lemma items_checks :
  NoDup (map m_name ms) ->
  (Forall item_ok (e_trait (items ms)) /\ Forall (fun f => ffi_ok (f_ret f)) (e_fields (items ms))
   /\ Forall (shim_ok (e_trait (items ms))) (e_shims (items ms)))
  <-> (forall m, m ∈ ms -> method_ok m).
Proof using Hret Hf.
  intros Hnd. rewrite !list.Forall_forall. split.
  - intros (H1 & H2 & H3) m Hm. destruct (with_ret m Hm) as [r Hr].
    pose proof (item_fn m r Hr (Hf m Hm)) as Hfn.
    split; [eapply (H1 (AssocFn _ _ _)), elem_of_component; eauto|]. rewrite Hr.
    assert (m_async m = true \/ m_async m = false) as [Ha|Ha] by (destruct (m_async m); auto); rewrite Ha.
    + assert (Hfield : exists f, f ∈ e_fields (item m)).
      { pose proof (item_names m r Hr (Hf m Hm)) as Hn. destruct (e_fields (item m)) as [|f fs]; [done|].
        exists f. by left. }
      destruct Hfield as [f Hfield]. pose proof (item_field m r Hr (Hf m Hm) f Hfield Ha) as Hret'.
      assert (Hok : ffi_ok (f_ret f)) by (apply H2, elem_of_component; eauto). by rewrite Hret' in Hok.
    + destruct (arm_error r) as [err|] eqn:He; [|done].
      destruct (item_has_converting m r Hr (Hf m Hm) err Ha He) as (s & args & Hs & Hb).
      assert (Hok : shim_ok (e_trait (items ms)) s) by (apply H3, elem_of_component; eauto).
      unfold shim_ok in Hok. rewrite Hb in Hok. destruct Hok as (_ & _ & r' & Hin & _ & _ & Hc).
      apply elem_of_component in Hin as (m' & Hm' & Hin); [|done|done].
      destruct (with_ret m' Hm') as [r2 Hr2].
      destruct (item_trait_inv m' r2 Hr2 (Hf m' Hm') _ _ _ Hin) as [Hn ->%(fun H => H r' eq_refl)].
      assert (m' = m) as ->.
      { apply list_elem_of_lookup in Hm as [i Hi], Hm' as [j Hj].
        assert (Hij : i = j).
        { eapply (list.NoDup_lookup (map m_name ms)); [done|..];
            (apply list_lookup_fmap_Some; eexists; split; [|done]); done. }
        subst j. congruence. }
      rewrite Hr in Hr2. injection Hr2 as <-. specialize (Hc eq_refl).
      destruct (item_converts m r Hr (Hf m Hm) s _ _ Hs Hb) as (_ & _ & E). by rewrite E, He in Hc.
  - intros Hok.
    assert (Hone : forall m, m ∈ ms ->
      Forall item_ok (e_trait (item m)) /\ Forall (fun f => ffi_ok (f_ret f)) (e_fields (item m))
      /\ Forall (shim_ok (e_trait (item m))) (e_shims (item m))).
    { intros m Hm. destruct (with_ret m Hm) as [r Hr]. by apply (item_checks m r Hr (Hf m Hm)), Hok. }
    split; [|split]; intros x (m & Hm & Hx)%elem_of_component; try done;
      destruct (Hone m Hm) as (J1 & J2 & J3);
      [by apply (proj1 (list.Forall_forall _ _) J1)|by apply (proj1 (list.Forall_forall _ _) J2)|].
    eapply shim_ok_mono; [|by apply (proj1 (list.Forall_forall _ _) J3)]. intros y Hy. apply elem_of_component; eauto.
Qed.

Lemma items_types :
  flat_map types_of (e_trait (items ms))
  = flat_map (fun m => [camel (m_name m) +:+ "Future"; "Allocator"]) (filter (fun m => m_async m = true) ms).
Proof using Hret Hf.
  rewrite items_component by done. rewrite flat_map_flat_map.
  induction ms as [|m l IH]; [done|]. cbn [flat_map]. rewrite filter_cons.
  apply Forall_cons_iff in Hret as [Hm Hl]. destruct (m_ret m) as [r|] eqn:Hr; [|done].
  rewrite (item_types m r Hr) by (apply Hf; by left).
  rewrite IH; [|done|intros x Hx; apply Hf; by right].
  destruct (m_async m) eqn:Ha; [by rewrite decide_True by done|by rewrite decide_False by congruence].
Qed.

Lemma items_shims :
  map s_name (e_shims (items ms))
  = flat_map (fun n => [shim_name trait_name n; shim_name_secondary trait_name n]) (map m_name ms).
Proof using Hret Hf.
  rewrite items_component by done. rewrite map_flat_map.
  induction ms as [|m l IH]; [done|]. cbn [flat_map map].
  apply Forall_cons_iff in Hret as [Hm Hl]. destruct (m_ret m) as [r|] eqn:Hr; [|done].
  rewrite (item_shims m r Hr) by (apply Hf; by left).
  rewrite IH; [done|done|intros x Hx; apply Hf; by right].
Qed.
End Items.

Lemma items_no_error ms :
  Forall (fun m => m_ret m <> None) ms ->
  e_error (items ms) = false <-> (forall m, m ∈ ms -> m_async m = true -> async_com = true).
Proof.
  intros Hret. rewrite items_error. split.
  - intros H m Hm Ha. destruct (with_ret ms Hret m Hm) as [r Hr].
    destruct async_com eqn:E; [done|]. exfalso.
    assert (existsb (fun m => e_error (item m)) ms = true) as H'; [|congruence].
    apply existsb_exists. exists m. split; [by apply list_elem_of_In|].
    by rewrite (item_error m r Hr), Ha, E.
  - intros H. apply not_true_is_false. intros (m & Hm & He)%existsb_exists.
    apply list_elem_of_In in Hm. destruct (with_ret ms Hret m Hm) as [r Hr].
    rewrite (item_error m r Hr) in He. apply andb_prop in He as [Ha He].
    by rewrite (H m Hm Ha) in He.
Qed.
End Facts.

(** ** Names *)

Lemma append_cons x (a s : string) : String x a +:+ s = String x (a +:+ s).
Proof. reflexivity. Qed.
Lemma append_nil (s : string) : "" +:+ s = s.
Proof. reflexivity. Qed.
Lemma append_assoc (a b s : string) : (a +:+ b) +:+ s = a +:+ (b +:+ s).
Proof. induction a as [|x a IH]; [done|]. by rewrite !append_cons, IH. Qed.
Lemma length_append a s : String.length (a +:+ s) = (String.length a + String.length s)%nat.
Proof. induction a as [|x a IH]; [done|]. rewrite append_cons. cbn. by rewrite IH. Qed.

Lemma append_suffix_inj s : forall a b : string, a +:+ s = b +:+ s -> a = b.
Proof.
  induction a as [|x a IH]; intros [|y b] H; [done| | |];
    rewrite ?append_cons, ?append_nil in H.
  1, 2: exfalso; apply (f_equal String.length) in H; cbn in H; rewrite length_append in H; lia.
  injection H as -> H. by rewrite (IH b).
Qed.

Lemma future_not_allocator s : s +:+ "Future" <> "Allocator".
Proof.
  intros H. pose proof (f_equal String.length H) as Hl. rewrite length_append in Hl. cbn in Hl.
  destruct s as [|? [|? [|? [|? ?]]]]; cbn in Hl; try lia.
  rewrite !append_cons, append_nil in H. discriminate H.
Qed.

(** Names built in pairs do not clash exactly when the originals are distinct
    and no second name of one is the first name of another. *)
Lemma NoDup_pairs {B : Type} (f g : B -> string) l :
  (forall a b, f a = f b -> a = b) -> (forall a b, g a = g b -> a = b) ->
  NoDup (flat_map (fun x => [f x; g x]) l)
  <-> NoDup l /\ (forall a b, a ∈ l -> b ∈ l -> f a <> g b).
Proof.
  intros Hf Hg.
  assert (Hin : forall y l, y ∈ flat_map (fun x => [f x; g x]) l <-> exists x, x ∈ l /\ (y = f x \/ y = g x)).
  { intros y k. induction k as [|x k IH]; cbn.
    - split; [by intros ?%not_elem_of_nil|by intros (? & ?%not_elem_of_nil & _)].
    - rewrite !elem_of_cons, IH. split.
      + intros [->|[->|(z & Hz & Hy)]]; [exists x|exists x|exists z]; rewrite elem_of_cons; auto.
      + intros (z & Hz & Hy). apply elem_of_cons in Hz as [->|Hz]; [tauto|]. right; right. eauto. }
  induction l as [|x l IH]; cbn.
  - split; [|intros _; constructor]. intros _. split; [constructor|]. by intros a b ?%not_elem_of_nil.
  - rewrite !list.NoDup_cons, IH, elem_of_cons, !Hin. split.
    + intros (H1 & H2 & H3 & H4). split; [split; [|done]|].
      * intros Hx. apply H1. right. eauto.
      * intros a b [->|Ha]%elem_of_cons [->|Hb]%elem_of_cons Hab; [by apply H1; left| | |by apply (H4 a b)].
        -- apply H1. right. eauto.
        -- apply H2. exists a. auto.
    + intros [[Hx Hl] Hd]. split; [|split; [|split; [done|]]].
      * intros [Heq|(z & Hz & [Heq|Heq])].
        -- by apply (Hd x x); [left|left|].
        -- apply Hf in Heq as <-. done.
        -- apply (Hd x z); [by left|by right|done].
      * intros (z & Hz & [Heq|Heq]).
        -- apply (Hd z x); [by right|by left|done].
        -- apply Hg in Heq as <-. done.
      * intros a b Ha Hb. apply Hd; by right.
Qed.

Lemma NoDup_shim_names trait_name l :
  NoDup (flat_map (fun n => [shim_name trait_name n; shim_name_secondary trait_name n]) l)
  <-> NoDup l /\ (forall a b, a ∈ l -> b ∈ l -> a <> b +:+ "_secondary").
Proof.
  assert (Hp : forall a b, shim_name trait_name a = shim_name trait_name b -> a = b)
    by (intros a b H; unfold shim_name in H; by repeat apply (inj (String.append _)) in H).
  rewrite NoDup_pairs; [|done|intros a b H; by apply append_suffix_inj, Hp in H].
  assert (Hs : forall a b, shim_name trait_name a = shim_name_secondary trait_name b
                           <-> a = b +:+ "_secondary").
  { intros a b. unfold shim_name_secondary, shim_name. rewrite !append_assoc. split.
    - intros H. by repeat apply (inj (String.append _)) in H.
    - by intros ->. }
  by setoid_rewrite Hs.
Qed.

Lemma NoDup_futures (camel : string -> string) l :
  NoDup (flat_map (fun m => [camel (m_name m) +:+ "Future"; "Allocator"]) l) <-> (length l <= 1)%nat.
Proof.
  destruct l as [|x [|y l]]; cbn.
  - split; [lia|intros _; constructor].
  - split; [lia|]. intros _. rewrite !list.NoDup_cons. split; [|split; [by apply not_elem_of_nil|constructor]].
    rewrite list_elem_of_singleton. apply future_not_allocator.
  - split; [|lia]. rewrite !list.NoDup_cons. intros (_ & H & _). exfalso. apply H. right; left.
Qed.

(** ** Theorems *)

Lemma items_compile `{!TraitFacts} async_com trait_name camel ms :
  Forall (fun m => m_ret m <> None) ms ->
  compiles (items async_com trait_name camel ms) <-> declarable async_com ms.
Proof.
  intros Hr. unfold compiles, declarable. rewrite items_no_error by done. split.
  - intros (Hf & H1 & H2 & H3 & H4 & H5 & H6 & _ & _ & H7). rewrite items_names in H1 by done.
    rewrite items_values in H2 by done. rewrite items_types in H3 by done.
    rewrite items_shims in H4 by done. apply list.NoDup_cons in H1 as [? ?], H2 as [? ?].
    apply NoDup_futures in H3. apply NoDup_shim_names in H4 as [_ H4].
    do 4 (split; [done|]). split; [intros m m' Hm Hm'; apply H4; by apply list_elem_of_fmap_2|].
    do 2 (split; [done|]). by apply (items_checks async_com trait_name camel ms Hr Hf).
  - intros (_ & Hn & Hp & Hi & Hs & Ha & Hf & Hok). split; [done|].
    rewrite items_names, items_values, items_types, items_shims by done.
    split; [by apply list.NoDup_cons|]. split; [by apply list.NoDup_cons|].
    split; [by apply NoDup_futures|].
    destruct (items_initialised async_com trait_name camel ms Hr Hf ms) as [I1 I2]; [done|].
    destruct (proj2 (items_checks async_com trait_name camel ms Hr Hf Hn) Hok) as (C1 & C2 & C3).
    split; [|done]. apply NoDup_shim_names. split; [done|].
    intros a b (m & -> & Hm)%list_elem_of_fmap (m' & -> & Hm')%list_elem_of_fmap. by apply Hs.
Qed.


(** ** Vtables and their constructors *)

(** An interface: [IUnknown], or a declared one that extends its parent. *)
Inductive interface : Type :=
| IUnknown
| Interface (name : string) (parent : interface) (methods : list method).

Definition iname (i : interface) : string :=
  match i with IUnknown => "IUnknown" | Interface n _ _ => n end.
Fixpoint root (i : interface) : string :=
  match i with
  | IUnknown => "IUnknown"
  | Interface n IUnknown _ => n
  | Interface _ p _ => root p
  end.

(** The wrapper [ComObjectN::<T, P, S, A>] of a type [T]: its primary and its
    secondary vtable types and its allocator type. *)
Record wrapper_instance : Type := mkInstance {
  in_primary : string;
  in_secondaries : list string;
  in_alloc : string
}.

#[global] Instance wrapper_instance_eq_dec : EqDecision wrapper_instance.
Proof. solve_decision. Defined.

(** The wrapper instance whose IUnknown shims a vtable starts with:
    [ComObject::<T, I>], [ComObjectN::<T, P, S, A>], or the secondary shims of
    the latter for the vtable type [I] at an index. *)
Inductive unknown_shims : Type :=
| ShimsComObject (vtbl : string)
| ShimsComObjectN (w : wrapper_instance)
| ShimsSecondary (w : wrapper_instance) (vtbl : string) (index : nat).

(** The slots as [Wrapper] names them, for an object of the instance
    [object].  The shims of [Wrapper] for a [ComObjectN] are those of the
    object's own instance, with its own allocator type; there is no name for
    the shims of another one. *)
Definition unknown_vtable (object : wrapper_instance) (u : unknown_shims) : option IUnknownVtbl :=
  match u with
  | ShimsComObject _ => Some IUnknownVtbl_new
  | ShimsComObjectN w => if decide (w = object) then Some IUnknownVtbl_new_primary else None
  | ShimsSecondary w _ k => if decide (w = object) then Some (IUnknownVtbl_secondary k) else None
  end.

(** A method slot: the interface and method of its shim, the struct the shim
    views its object as, and for a secondary one the instance and [INDEX]. *)
Record slot_fn : Type := mkSlotFn {
  sf_trait : string;
  sf_method : string;
  sf_generics : shim_generics;
  sf_index : option (wrapper_instance * nat)
}.

Inductive vtable : Type :=
| VUnknown (u : unknown_shims)
| VTable (trait_name : string) (parent : vtable) (slots : list slot_fn).

(** [vtable_inits] and [vtable_inits_secondary] of a trait. *)
Definition primary_slots (n : string) (ms : list method) : list slot_fn :=
  map (fun m => mkSlotFn n (m_name m) GPrimary None) ms.
Definition secondary_slots (n : string) (ms : list method) (w : wrapper_instance) (index : nat)
    : list slot_fn :=
  map (fun m => mkSlotFn n (m_name m) GSecondary (Some (w, index))) ms.

(** The [parent] field of the constructors: the vtable of [IUnknown] for the
    vtable type being built, or what the parent's own constructor makes. *)
Definition __kcom_parent_vtbl (parent : interface) (vtbl : string) (parent_new : vtable) : vtable :=
  match parent with IUnknown => VUnknown (ShimsComObject vtbl) | _ => parent_new end.
Definition __kcom_parent_vtbl_primary (parent : interface) (w : wrapper_instance) (parent_new : vtable)
    : vtable :=
  match parent with IUnknown => VUnknown (ShimsComObjectN w) | _ => parent_new end.
Definition __kcom_parent_vtbl_secondary (parent : interface) (w : wrapper_instance) (vtbl : string)
    (index : nat) (parent_new : vtable) : vtable :=
  match parent with IUnknown => VUnknown (ShimsSecondary w vtbl index) | _ => parent_new end.

(** [FooVtbl::new::<T>()] *)
Fixpoint vtbl_new (i : interface) : vtable :=
  match i with
  | IUnknown => VUnknown (ShimsComObject "IUnknown")
  | Interface n p ms => VTable n (__kcom_parent_vtbl p n (vtbl_new p)) (primary_slots n ms)
  end.

(** [new_primary::<T, P, S, A>()]; the method slots are [vtable_inits]. *)
Fixpoint vtbl_new_primary (w : wrapper_instance) (i : interface) : vtable :=
  match i with
  | IUnknown => VUnknown (ShimsComObjectN w)
  | Interface n p ms =>
      VTable n (__kcom_parent_vtbl_primary p w (vtbl_new_primary w p)) (primary_slots n ms)
  end.

(** [new_secondary::<T, P, S, A, INDEX>()]; [IUnknownVtbl] has no such
    constructor of its own. *)
Fixpoint vtbl_new_secondary (w : wrapper_instance) (index : nat) (i : interface) : vtable :=
  match i with
  | IUnknown => VUnknown (ShimsSecondary w "IUnknown" index)
  | Interface n p ms =>
      VTable n (__kcom_parent_vtbl_secondary p w n index (vtbl_new_secondary w index p))
        (secondary_slots n ms w index)
  end.

(** The bounds of [new_secondary] on [S::Entries]; the parent's constructor
    brings its own. *)
Fixpoint secondary_bounds (ss : list string) (k : nat) (i : interface) : Prop :=
  match i with
  | IUnknown => True
  | Interface n IUnknown _ => SecondaryEntryAccess ss k n
  | Interface n p _ =>
      SecondaryEntryAccess ss k n /\ SecondaryEntryAccess ss k (iname p) /\ secondary_bounds ss k p
  end.

(** The other bounds of the constructors.  Of the wrapped type: the traits it
    implements and the vtable types it has a [ComImpl] for; of the allocator
    type: [Allocator + Send + Sync]. *)
Section Bounds.
Context (implements has_impl is_allocator : string -> Prop).

(** [new]; [IUnknownVtbl::new] asks for the [ComImpl] it is named after. *)
Fixpoint new_bounds (i : interface) : Prop :=
  match i with
  | IUnknown => has_impl "IUnknown"
  | Interface n p _ =>
      implements n /\ has_impl n /\ has_impl (iname p)
      /\ match p with IUnknown => True | _ => new_bounds p end
  end.

(** [T: ComImpl<P> + SecondaryComImpl<S>, S: SecondaryVtables, A: Allocator];
    the tuples implement [SecondaryComImpl] for the types that have a
    [ComImpl] for each of them. *)
Definition instance_bounds (w : wrapper_instance) : Prop :=
  has_impl (in_primary w) /\ SecondaryVtables (in_secondaries w) = true
  /\ Forall has_impl (in_secondaries w) /\ is_allocator (in_alloc w).

(** [new_primary]; that of [IUnknownVtbl] has the bounds of the instance. *)
Fixpoint primary_bounds (w : wrapper_instance) (i : interface) : Prop :=
  match i with
  | IUnknown => instance_bounds w
  | Interface n p _ =>
      implements n /\ has_impl n /\ has_impl (iname p) /\ instance_bounds w /\ primary_bounds w p
  end.

(** [new_secondary] *)
Fixpoint secondary_com_bounds (w : wrapper_instance) (i : interface) : Prop :=
  match i with
  | IUnknown => True
  | Interface n p _ =>
      implements n /\ has_impl (iname p) /\ instance_bounds w /\ secondary_com_bounds w p
  end.
End Bounds.

(** The memory of a vtable: the IUnknown slots, then the methods, those of
    the parent first. *)
Fixpoint unknown_part (v : vtable) : unknown_shims :=
  match v with VUnknown u => u | VTable _ p _ => unknown_part p end.
Fixpoint method_part (v : vtable) : list slot_fn :=
  match v with VUnknown _ => [] | VTable _ p s => method_part p ++ s end.
Fixpoint all_methods (i : interface) : list (string * string) :=
  match i with
  | IUnknown => []
  | Interface n p ms => all_methods p ++ map (fun m => (n, m_name m)) ms
  end.

Lemma unknown_parts (i : interface) (w : wrapper_instance) (k : nat) :
  unknown_part (vtbl_new i) = ShimsComObject (root i)
  /\ unknown_part (vtbl_new_primary w i) = ShimsComObjectN w
  /\ unknown_part (vtbl_new_secondary w k i) = ShimsSecondary w (root i) k.
Proof. induction i as [|n [|n' p ms'] (I1 & I2 & I3) ms]; [done|done|]. by split. Qed.

(** The vtables of the instance of an object start with the IUnknown shims
    that [Wrapper] models. *)
Lemma generated_unknown_slots (i : interface) (w : wrapper_instance) (k : nat) :
  unknown_vtable w (unknown_part (vtbl_new i)) = Some IUnknownVtbl_new
  /\ unknown_vtable w (unknown_part (vtbl_new_primary w i)) = Some IUnknownVtbl_new_primary
  /\ unknown_vtable w (unknown_part (vtbl_new_secondary w k i)) = Some (IUnknownVtbl_secondary k).
Proof.
  destruct (unknown_parts i w k) as (-> & -> & ->). unfold unknown_vtable. by rewrite !decide_True by done.
Qed.

(** What the vtables contain.  The three constructors fill the same
    slots, one per method of the interface and its parents, inherited ones
    first.  The method slots of [new] and of [new_primary] are the same
    shims, which view the object as a [ComObject]; those of [new_secondary]
    view it as the [ComObjectN] instance through the given index.  The IUnknown slots of
    [new_primary] and [new_secondary] are those of the instance and
    the index they are given, but those of [new] belong to the instance for
    the root of the inheritance chain, not to the interface itself. *)
Theorem vtable_slots (i : interface) (w : wrapper_instance) (k : nat) :
  let slots g index := map (fun m => mkSlotFn m.1 m.2 g index) (all_methods i) in
  method_part (vtbl_new i) = slots GPrimary None
  /\ method_part (vtbl_new_primary w i) = slots GPrimary None
  /\ method_part (vtbl_new_secondary w k i) = slots GSecondary (Some (w, k))
  /\ unknown_part (vtbl_new i) = ShimsComObject (root i)
  /\ unknown_part (vtbl_new_primary w i) = ShimsComObjectN w
  /\ unknown_part (vtbl_new_secondary w k i) = ShimsSecondary w (root i) k.
Proof.
  assert (Hm : forall g ix n ms, map (fun m => mkSlotFn m.1 m.2 g ix) (map (fun m => (n, m_name m)) ms)
                                 = map (fun m => mkSlotFn n (m_name m) g ix) ms)
    by (intros; by rewrite map_map).
  cbv zeta. destruct (unknown_parts i w k) as (-> & -> & ->).
  induction i as [|n p IH ms]; [done|]. destruct IH as (I1 & I2 & I3 & _).
  cbn [all_methods]. rewrite !map_app, !Hm, <- I1, <- I3.
  split; [by destruct p|]. split; [|split; [by destruct p|done]]. rewrite I1, <- I2. by destruct p.
Qed.

(** An interface can only be a secondary interface of an object when it
    extends [IUnknown] directly: the bounds of [new_secondary] ask of one
    entry of the tuple to have the type of the vtable and that of its parent,
    so the constructor of an inherited interface can never be called.  And an
    object has at most eight secondary interfaces. *)
Theorem secondary_interfaces_extend_IUnknown (ss : list string) (k : nat) (n : string)
    (p : interface) (ms : list method) :
  n <> iname p ->
  secondary_bounds ss k (Interface n p ms) <->
  p = IUnknown /\ (length ss <= 8)%nat /\ ss !! k = Some n.
Proof.
  intros Hn. destruct p as [|n' p' ms'].
  - cbn [secondary_bounds]. rewrite SecondaryEntryAccess_spec. naive_solver.
  - split; [|by intros [? _]]. intros (H1 & H2 & _).
    apply SecondaryEntryAccess_spec in H1 as [_ H1], H2 as [_ H2].
    rewrite H1 in H2. injection H2 as H2. by rewrite H2 in Hn.
Qed.

Lemma secondary_interfaces_extend_IUnknown_witness :
  secondary_bounds ["IBar"; "IBaz"] 1 (Interface "IBaz" IUnknown []) <->
  IUnknown = IUnknown /\ (2 <= 8)%nat /\ ["IBar"; "IBaz"] !! 1%nat = Some "IBaz".
Proof. apply (secondary_interfaces_extend_IUnknown ["IBar"; "IBaz"] 1 "IBaz" IUnknown []). discriminate. Defined.

(** ** Examples *)

(** The return types that cross a vtable as a status are those written
    [Result<..>] or with the leading [::]; a [core::result::Result] reaches
    the last arm, whose forwarded fragment [__kcom_map_return!] cannot match,
    and crosses the vtable as a Rust value. *)
Definition unit_ty : rust_ty := TOther "()".
Definition status_ty : rust_ty := TPath false ["Status"] [].
Definition returning (r : rust_ty) : method := mkMethod false "m" [] (Some r).
Definition slot_of (r : rust_ty) : option (list ffi_ty) :=
  option_map (fun e => map f_ret (e_fields e))
    (__kcom_define_interface false "IFoo" (fun s => s) [returning r]).

Example result_slot : slot_of (TPath false ["Result"] [unit_ty; status_ty]) = Some [FfiStatus].
Proof. reflexivity. Qed.
Example global_result_slot :
  slot_of (TPath true ["core"; "result"; "Result"] [unit_ty; status_ty]) = Some [FfiStatus].
Proof. reflexivity. Qed.
Example core_result_slot :
  let r := TPath false ["core"; "result"; "Result"] [unit_ty; status_ty] in
  slot_of r = Some [FfiRet r] /\ __kcom_vtable_ret (Tokens r) = FfiStatus.
Proof. split; reflexivity. Qed.

(** What core and the crate implement for their own types. *)
Definition crate_facts : TraitFacts :=
  let own t := is_path ["NTSTATUS"] t || is_path ["i32"] t || is_path ["Status"] t in
  {| Into_NTSTATUS := own; is_Copy := own; is_Send := own; is_Sync := own; is_static := own |}.

(** A [Result] whose error does not convert to a status is refused, and so is
    an argument name that is used twice. *)
Example refused_declarations :
  let result err := mkMethod false "m" [] (Some (TPath false ["Result"] [unit_ty; err])) in
  let u32 := TPath false ["u32"] [] in
  @declarable crate_facts false [result status_ty]
  /\ ~ @declarable crate_facts false [result u32]
  /\ ~ @declarable crate_facts false [mkMethod false "m" [("a", u32); ("a", u32)] (Some status_ty)]
  /\ ~ @declarable crate_facts true [mkMethod true "m" [] (Some (TOther "String"))].
Proof.
  cbv zeta. split; [|split; [|split]].
  - split_and!; try (by repeat constructor);
      [by apply list.NoDup_singleton|by intros ?%list_elem_of_singleton|by intros ?%list_elem_of_singleton| | |].
    + intros m m' ->%list_elem_of_singleton ->%list_elem_of_singleton. discriminate.
    + by intros m ->%list_elem_of_singleton.
    + intros m ->%list_elem_of_singleton. split; [constructor|done].
  - intros (_ & _ & _ & _ & _ & _ & _ & H). destruct (H _ (list_elem_of_here _ _)) as [_ Hm]. discriminate Hm.
  - intros (_ & _ & _ & _ & _ & _ & _ & H). destruct (H _ (list_elem_of_here _ _)) as [Hm _].
    apply list.NoDup_cons in Hm as [Hm _]. apply Hm. by left.
  - intros (_ & _ & _ & _ & _ & _ & _ & H). destruct (H _ (list_elem_of_here _ _)) as [_ Hm]. discriminate Hm.
Qed.

(** A method that returns a result crosses the vtable as a status exactly
    when it is written in one of the three ways the arms name. *)
Lemma status_slots (m : method) (r : rust_ty) e :
  m_ret m = Some r -> m_async m = false ->
  __kcom_define_interface false "IFoo" (fun s => s) [m] = Some e ->
  map f_ret (e_fields e)
  = [if is_result false ["Result"] r || is_result true ["core"; "result"; "Result"] r
        || is_result true ["std"; "result"; "Result"] r
     then FfiStatus else FfiRet r].
Proof.
  intros Hr Ha H. unfold __kcom_define_interface in H. cbn in H. unfold select_arm in H.
  rewrite Hr, Ha in H. injection H as <-. by repeat case_goal.
Qed.
