(* ===== verification/ImplMacro.v ===== *)
(** * The impl macros

    Models [impl_com_interface!] and [impl_com_interface_multiple!] of
    [src/src/macros/impl_interface.rs] from their arguments on: the arm an
    invocation selects with its defaults for the allocator, the fallback and
    the index, and the [ComImpl] it expands to, with the vtable constructors
    of [InterfaceMacro] and the QueryInterface functions of [Interfaces].
    A whole object, one invocation per interface, is shown to meet the
    contract that the theorems of [ComTheorems] assume: its vtables are those
    of the wrapper instance the constructors of the object name, with the same
    primary interface, list of secondary ones and allocator. *)

From stdpp Require Import strings.
From S2P Require Import Prelude Status Refcount Wrapper Interfaces ComTheorems SecondaryTuples InterfaceMacro.

(** ** Arguments and arms *)

(** The keys of an invocation; [None] when a key is absent.  Interfaces and
    vtable types are named without their suffixes. *)
Record impl_args : Type := mkArgs {
  a_trait : interface;
  a_parent : string;
  a_primary : option string;
  a_index : option nat;
  a_secondaries : option (list string);
  a_allocator : option string;
  a_methods : list string;
  a_fallback : option string
}.

(** The internal rules the public arms invoke; none uses the methods. *)
Inductive impl_rule : Type :=
| ImplSingle (trait : interface) (fallback : string)
| ImplPrimary (trait : interface) (secs : list string) (alloc fallback : string)
| ImplMultiple (trait : interface) (primary : string) (index : nat) (secs : list string)
    (alloc fallback : string).

Definition GlobalAllocator_name : string := "GlobalAllocator".

(** [@fallback] and [@index]. *)
Definition rule_fallback (a : impl_args) : string := default (a_parent a) (a_fallback a).
Definition rule_index (a : impl_args) : nat := default 0%nat (a_index a).
Definition rule_alloc (a : impl_args) : string := default GlobalAllocator_name (a_allocator a).

(** [impl_com_interface!]; [None] when no arm matches.  A list of secondaries
    is not empty, and an allocator needs one. *)
Definition impl_com_interface (a : impl_args) : option impl_rule :=
  match a_primary a, a_index a with
  | None, None =>
      match a_secondaries a, a_allocator a with
      | Some (head :: tail), _ =>
          Some (ImplPrimary (a_trait a) (head :: tail) (rule_alloc a) (rule_fallback a))
      | None, None => Some (ImplSingle (a_trait a) (rule_fallback a))
      | _, _ => None
      end
  | _, _ => None
  end.

(** [impl_com_interface_multiple!] *)
Definition impl_com_interface_multiple (a : impl_args) : option impl_rule :=
  match a_primary a, a_secondaries a with
  | Some primary, Some (head :: tail) =>
      Some (ImplMultiple (a_trait a) primary (rule_index a) (head :: tail) (rule_alloc a) (rule_fallback a))
  | _, _ => None
  end.

(** ** The expansion *)

(** A [ComImpl]: its vtable, its [query_interface], and what the expansion
    asks of the wrapped type (the traits it implements, the vtable types it has
    a [ComImpl] for) and of the allocator type. *)
Record com_impl : Type := mkImpl {
  ci_vtable : vtable;
  ci_bounds : (string -> Prop) -> (string -> Prop) -> (string -> Prop) -> Prop;
  ci_query : ptr -> GUID -> option ptr
}.

Lemma mapM_all {A B : Type} (f : A -> option B) (g : A -> B) l :
  (forall a, a ∈ l -> f a = Some (g a)) -> mapM f l = Some (map g l).
Proof.
  induction l as [|a l IH]; intros H; [done|]. cbn. rewrite (H a) by left. cbn.
  rewrite IH; [done|]. intros b Hb. apply H. by right.
Qed.

Section Expansion.
(** The identifiers of the declared interfaces, and
    [<Self as ComImpl<..>>::query_interface] for the other vtable types. *)
Context (iid : string -> GUID) (query_of : string -> ptr -> GUID -> option ptr).

(** The bounds are those of the constructor, and of the fallback's
    [query_interface]. *)
Definition expand (r : impl_rule) : com_impl :=
  match r with
  | ImplSingle trait fallback =>
      mkImpl (vtbl_new trait)
        (fun implements has_impl _ => new_bounds implements has_impl trait /\ has_impl fallback)
        (impl_single (iid (iname trait)) (query_of fallback))
  | ImplPrimary trait secs alloc fallback =>
      let w := mkInstance (iname trait) secs alloc in
      mkImpl (vtbl_new_primary w trait)
        (fun implements has_impl is_allocator =>
           primary_bounds implements has_impl is_allocator w trait /\ has_impl fallback)
        (impl_primary (iid (iname trait)) (map iid secs) (query_of fallback))
  | ImplMultiple trait primary index secs alloc fallback =>
      let w := mkInstance primary secs alloc in
      mkImpl (vtbl_new_secondary w index trait)
        (fun implements has_impl is_allocator =>
           secondary_bounds secs index trait
           /\ secondary_com_bounds implements has_impl is_allocator w trait /\ has_impl fallback)
        (impl_multiple (iid primary) (map iid secs) (query_of fallback))
  end.

(** ** An object of several interfaces

    One [impl_com_interface!] for the primary interface and, in the order of
    the list, one [impl_com_interface_multiple!] per secondary one. *)
Definition impl_block (macro : impl_args -> option impl_rule) (a : impl_args) : option (string * com_impl) :=
  match macro a with
  | Some r => Some (iname (a_trait a), expand r)
  | None => None
  end.

Definition implement (primary : impl_args) (secs : list impl_args) : option (list (string * com_impl)) :=
  match impl_block impl_com_interface primary, mapM (impl_block impl_com_interface_multiple) secs with
  | Some p, Some ss => Some (p :: ss)
  | _, _ => None
  end.

(** What is known of the wrapped type besides these impls: the declared
    traits it implements and the other vtable types it has a [ComImpl] for;
    and the allocator types there are besides [GlobalAllocator].  The type
    itself is [Sync] and ['static], as [ComImpl] asks. *)
Record wrapped_type : Type := mkWrapped {
  wt_traits : list string;
  wt_impls : list string;
  wt_allocators : list string
}.

Definition implements (t : wrapped_type) (n : string) : Prop := n ∈ wt_traits t.
Definition is_allocator (t : wrapped_type) (n : string) : Prop :=
  n ∈ GlobalAllocator_name :: wt_allocators t.
(** The vtable types with a [ComImpl]; every type has one for IUnknown. *)
Definition impl_names (t : wrapped_type) (impls : list (string * com_impl)) : list string :=
  "IUnknown" :: map fst impls ++ wt_impls t.

(** The type checker's view: no type has two impls of one trait, and the
    bounds of every expansion hold. *)
Definition well_typed (t : wrapped_type) (impls : list (string * com_impl)) : Prop :=
  NoDup (impl_names t impls)
  /\ Forall (fun x => ci_bounds x.2 (implements t) (fun n => n ∈ impl_names t impls) (is_allocator t)) impls.

(** The impl of an interface, as [<T as ComImpl<..>>] resolves it. *)
Fixpoint find_impl (n : string) (impls : list (string * com_impl)) : option com_impl :=
  match impls with
  | [] => None
  | (m, x) :: impls => if decide (m = n) then Some x else find_impl n impls
  end.

(** The vtables of an object of the instance [object].  IUnknown slots that
    are not shims of that instance are like those of somebody else's object. *)
Definition impls_ComImpl (object : wrapper_instance) (T : Type) (impls : list (string * com_impl))
    : ComImpl string T := {|
  VTABLE := fun n _ =>
    match find_impl n impls with
    | Some x => mkIVtbl (default ext_vtbl (unknown_vtable object (unknown_part (ci_vtable x)))) (iid n)
    | None => mkIVtbl IUnknownVtbl_new IID_IUNKNOWN
    end;
  query_interface := fun n _ this g =>
    match find_impl n impls with Some x => ci_query x this g | None => None end
|}.

(** An invocation names the allocator [alloc], or leaves it to its default. *)
Definition names_alloc (alloc : string) (a : impl_args) : Prop :=
  a_allocator a = Some alloc \/ a_allocator a = None /\ alloc = GlobalAllocator_name.

(** The invocations name the same primary interface, the same list and the
    same allocator. *)
Record same_object (p : interface) (ss : list interface) (alloc : string) (pa : impl_args)
    (sas : list impl_args) : Prop := {
  so_trait : a_trait pa = p;
  so_primary : a_primary pa = None /\ a_index pa = None;
  so_list : a_secondaries pa = Some (map iname ss);
  so_secs : Forall2 (fun i a => a_trait a = i /\ a_primary a = Some (iname p)
                                /\ a_secondaries a = Some (map iname ss)) ss sas;
  so_alloc : Forall (names_alloc alloc) (pa :: sas)
}.

Lemma names_alloc_rule alloc a : names_alloc alloc a -> rule_alloc a = alloc.
Proof. unfold rule_alloc. by intros [->|[-> ->]]. Qed.

(** The interfaces of an inheritance chain. *)
Fixpoint ancestors (i : interface) : list string :=
  match i with IUnknown => [] | Interface n p _ => n :: ancestors p end.

Lemma primary_bounds_spec imp has alc w i :
  has (in_primary w) -> has "IUnknown" ->
  primary_bounds imp has alc w i
  <-> instance_bounds has alc w /\ Forall imp (ancestors i) /\ Forall has (ancestors i).
Proof.
  intros Hp Hu. induction i as [|n p IH ms]; cbn [primary_bounds ancestors]; [by split; [split|intros [? _]]|].
  rewrite IH, !Forall_cons_iff.
  assert (has (iname p) <-> match p with IUnknown => True | Interface m _ _ => has m end) by (by destruct p).
  destruct p as [|m p' ms']; [tauto|]. cbn [ancestors iname]. rewrite !Forall_cons_iff. tauto.
Qed.

Section Object.
Context (p : interface) (ss : list interface) (alloc : string) (pa : impl_args) (sas : list impl_args).
Context (Hso : same_object p ss alloc pa sas) (Hne : ss <> []).

(** The instance that the object is one of. *)
Definition object_instance : wrapper_instance := mkInstance (iname p) (map iname ss) alloc.

Lemma primary_arm :
  impl_com_interface pa = Some (ImplPrimary p (map iname ss) alloc (rule_fallback pa)).
Proof using Hne Hso.
  destruct Hso as [<- [Hp Hi] Hl _ [Ha _]%Forall_cons_iff]. unfold impl_com_interface.
  rewrite Hp, Hi, Hl, (names_alloc_rule alloc pa Ha). by destruct ss.
Qed.

Definition secondary_rule (a : impl_args) : impl_rule :=
  ImplMultiple (a_trait a) (iname p) (rule_index a) (map iname ss) alloc (rule_fallback a).

Lemma secondary_arms :
  mapM (impl_block impl_com_interface_multiple) sas
  = Some (map (fun a => (iname (a_trait a), expand (secondary_rule a))) sas).
Proof using Hne Hso.
  apply mapM_all. intros a Ha.
  pose proof (so_alloc _ _ _ _ _ Hso) as [_ Hal]%Forall_cons_iff.
  apply list_elem_of_lookup in Ha as [k Hk].
  destruct (Forall2_lookup_r _ _ _ _ _ (so_secs _ _ _ _ _ Hso) Hk) as (i & _ & _ & Hp & Hl).
  pose proof (names_alloc_rule alloc a (Forall_lookup_1 _ _ _ _ Hal Hk)) as Hr.
  unfold impl_block, impl_com_interface_multiple, secondary_rule. rewrite Hp, Hl, Hr. by destruct ss.
Qed.

Definition object_impls : list (string * com_impl) :=
  (iname p, expand (ImplPrimary p (map iname ss) alloc (rule_fallback pa)))
  :: map (fun a => (iname (a_trait a), expand (secondary_rule a))) sas.

Lemma implement_object : implement pa sas = Some object_impls.
Proof using Hne Hso.
  unfold implement, impl_block at 1. rewrite primary_arm, secondary_arms. by rewrite (so_trait _ _ _ _ _ Hso).
Qed.

Lemma object_names : map fst object_impls = iname p :: map iname ss.
Proof using Hso.
  unfold object_impls. cbn. f_equal. rewrite map_map. cbn. pose proof (so_secs _ _ _ _ _ Hso) as Hs.
  clear -Hs. induction Hs as [|i b ss' sas' (Hi & _) _ IH]; [done|]. cbn. by rewrite Hi, IH.
Qed.

Lemma find_primary :
  find_impl (iname p) object_impls = Some (expand (ImplPrimary p (map iname ss) alloc (rule_fallback pa))).
Proof. unfold object_impls. cbn. by destruct (decide _). Qed.

Lemma find_secondary k a :
  NoDup (iname p :: map iname ss) -> sas !! k = Some a ->
  find_impl (iname (a_trait a)) object_impls = Some (expand (secondary_rule a)).
Proof using Hso.
  intros Hnd Hk. pose proof object_names as Hnames. unfold object_impls in Hnames. cbn in Hnames.
  rewrite map_map in Hnames. cbn in Hnames. injection Hnames as Hnames.
  rewrite <- Hnames in Hnd. apply list.NoDup_cons in Hnd as [Hn Hnd].
  unfold object_impls. cbn [find_impl]. rewrite decide_False.
  2: { intros E. apply Hn. rewrite E. apply list_elem_of_fmap. exists a. split; [done|]. by eapply list_elem_of_lookup_2. }
  clear -Hnd Hk. revert k Hk. induction sas as [|b sas' IH]; intros k Hk; [done|]. cbn [map find_impl].
  apply list.NoDup_cons in Hnd as [Hn Hnd]. destruct k as [|k]; cbn in Hk.
  - injection Hk as ->. by rewrite decide_True.
  - rewrite decide_False; [by apply (IH Hnd k)|]. intros E. apply Hn. rewrite E. apply list_elem_of_fmap.
    exists a. split; [done|]. by eapply list_elem_of_lookup_2.
Qed.

(** What the bounds of the impls ask, with the ComImpls there are. *)
Section ObjectBounds.
Context (t : wrapped_type).
Let has n := n ∈ impl_names t object_impls.

Lemma has_own n : n = "IUnknown" \/ n ∈ iname p :: map iname ss -> has n.
Proof using Hso.
  unfold has, impl_names. rewrite object_names. intros [->|Hn]; [by left|]. right. apply elem_of_app. by left.
Qed.

Lemma instance_bounds_object :
  instance_bounds has (is_allocator t) object_instance <-> (length ss <= 8)%nat /\ is_allocator t alloc.
Proof using Hne Hso.
  unfold instance_bounds. cbn. rewrite SecondaryVtables_bound, length_map.
  assert (1 <= length ss)%nat by (destruct ss; [done|cbn; lia]). split; [intros (_ & ? & _ & ?); split; [lia|done]|].
  intros [? ?]. split; [apply has_own; right; by left|]. split; [done|]. split; [|done].
  apply list.Forall_forall. intros n Hn. apply has_own. right. by right.
Qed.

(** A secondary constructor type checks at the position of its interface
    only. *)
Lemma secondary_bounds_position a k i :
  NoDup (map iname ss) -> ss !! k = Some i -> sas !! k = Some a ->
  match i with IUnknown => False | Interface n par _ => n <> iname par end ->
  ci_bounds (expand (secondary_rule a)) (implements t) has (is_allocator t) <->
  (length ss <= 8)%nat /\ is_allocator t alloc
  /\ (exists n ms, i = Interface n IUnknown ms) /\ rule_index a = k
  /\ implements t (iname i) /\ has (rule_fallback a).
Proof using Hso Hne.
  intros Hnd Hi Ha Hn. destruct (Forall2_lookup_lr _ _ _ _ _ _ (so_secs _ _ _ _ _ Hso) Hi Ha) as (Ht & _ & _).
  destruct i as [|n par ms]; [done|]. cbn [expand secondary_rule ci_bounds]. rewrite Ht.
  cbn [secondary_com_bounds iname]. fold object_instance. rewrite instance_bounds_object.
  rewrite (secondary_interfaces_extend_IUnknown (map iname ss) (rule_index a) n par ms Hn), length_map.
  assert (Hk : map iname ss !! k = Some n) by (apply list_lookup_fmap_Some; by exists (Interface n par ms)).
  split.
  - intros ((-> & Hl & Hx) & (Him & _ & (_ & Hal) & _) & Hfb).
    split_and!; try done; [by eauto|by apply (list.NoDup_lookup _ _ _ _ Hnd Hx Hk)].
  - intros (Hl & Hal & (n' & ms' & [= -> -> ->]) & -> & Him & Hfb).
    split_and!; try done. apply has_own. by left.
Qed.

Lemma primary_bounds_object :
  ci_bounds (expand (ImplPrimary p (map iname ss) alloc (rule_fallback pa))) (implements t) has (is_allocator t)
  <-> (length ss <= 8)%nat /\ is_allocator t alloc /\ Forall (implements t) (ancestors p)
      /\ Forall has (ancestors p) /\ has (rule_fallback pa).
Proof using Hso Hne.
  cbn [expand ci_bounds]. fold object_instance.
  rewrite primary_bounds_spec by (apply has_own; auto; right; by left).
  rewrite instance_bounds_object. tauto.
Qed.
End ObjectBounds.
End Object.

(** C19: the impl macros, for an object with one primary and some secondary
    interfaces whose invocations name one allocator, or leave it to its
    default: the invocations expand.  The expansion type checks exactly when
    the interfaces differ from each other, from IUnknown and from those the
    type has other impls for, there are at most eight secondary ones, each
    extends IUnknown directly and its index, given or defaulted, is its
    position in the list, the allocator is an allocator type, the wrapped
    type implements the traits of all these interfaces and of those the
    primary one inherits and has a [ComImpl] for each of the latter, and so it
    has for every fallback, given or defaulted to the parent.  The IUnknown
    slots and the secondary method slots of the vtables are then those of the
    wrapper instance for this primary interface, this list and this
    allocator, as the theorems on objects assume, and so is the
    QueryInterface function when the primary impl falls back to IUnknown. *)
Theorem macro_objects_meet_contract (T : Type) (x : T) (t : wrapped_type) (p : interface)
    (ss : list interface) (alloc : string) (pa : impl_args) (sas : list impl_args) :
  same_object p ss alloc pa sas -> ss <> [] ->
  Forall (fun i => match i with IUnknown => False | Interface n par _ => n <> iname par end) ss ->
  let object := mkInstance (iname p) (map iname ss) alloc in
  let names := "IUnknown" :: (iname p :: map iname ss) ++ wt_impls t in
  exists impls, implement pa sas = Some impls
    /\ (well_typed t impls <->
        NoDup names
        /\ (length ss <= 8)%nat
        /\ (forall k i a, ss !! k = Some i -> sas !! k = Some a ->
             (exists n ms, i = Interface n IUnknown ms) /\ default 0%nat (a_index a) = k)
        /\ (alloc = GlobalAllocator_name \/ alloc ∈ wt_allocators t)
        /\ (forall n, n ∈ ancestors p ++ map iname ss -> n ∈ wt_traits t)
        /\ (forall n, n ∈ ancestors p -> n ∈ names)
        /\ (forall a, a ∈ pa :: sas -> default (a_parent a) (a_fallback a) ∈ names))
    /\ (well_typed t impls ->
        @GeneratedVtables string T (impls_ComImpl object T impls) (iname p) (map iname ss) x
        /\ (default (a_parent pa) (a_fallback pa) = "IUnknown" -> query_of "IUnknown" = default_query_interface ->
            @GeneratedQuery string T (impls_ComImpl object T impls) iid (iname p) (map iname ss) x)
        /\ forall k i, ss !! k = Some i ->
           exists ci, find_impl (iname i) impls = Some ci
             /\ method_part (ci_vtable ci)
                = map (fun m => mkSlotFn m.1 m.2 GSecondary (Some (object, k))) (all_methods i)).
Proof.
  intros Hso Hne Hdecl object names. exists (object_impls p ss alloc pa sas).
  pose proof (so_secs _ _ _ _ _ Hso) as Hs.
  split; [by apply implement_object|].
  assert (Hnames : impl_names t (object_impls p ss alloc pa sas) = names)
    by (unfold impl_names; by rewrite (object_names _ _ _ _ _ Hso)).
  assert (Hdist : NoDup names -> NoDup (iname p :: map iname ss)).
  { unfold names. intros [_ H]%list.NoDup_cons. by apply list.NoDup_app in H as [? _]. }
  pose proof (primary_bounds_object p ss alloc pa sas Hso Hne t) as Hprim.
  pose proof (secondary_bounds_position p ss alloc pa sas Hso Hne t) as Hsec.
  cbv zeta in Hprim, Hsec. unfold well_typed. rewrite Hnames in *. split.
  - unfold object_impls. rewrite Forall_cons_iff, list.Forall_fmap, list.Forall_forall. cbn [snd].
    rewrite Hprim. split.
    + intros (Hnd & (Hl & Hal & Him & Hhas & Hfb) & H). specialize (Hdist Hnd).
      apply list.NoDup_cons in Hdist as [_ Hnd'].
      assert (Hone : forall k i a, ss !! k = Some i -> sas !! k = Some a ->
        (exists n ms, i = Interface n IUnknown ms) /\ rule_index a = k /\ implements t (iname i)
        /\ rule_fallback a ∈ names).
      { intros k i a Hi Ha. assert (Hin : a ∈ sas) by (by eapply list_elem_of_lookup_2).
        specialize (H a Hin).
        apply (Hsec a k i Hnd' Hi Ha (Forall_lookup_1 _ _ _ _ Hdecl Hi)) in H. tauto. }
      split_and!; try done.
      * intros k i a Hi Ha. by destruct (Hone k i a Hi Ha) as (? & ? & _).
      * by apply elem_of_cons in Hal.
      * intros n [Hn|Hn]%elem_of_app; [by apply (proj1 (list.Forall_forall _ _) Him)|].
        apply list_elem_of_fmap in Hn as (i & -> & Hi). apply list_elem_of_lookup in Hi as [k Hi].
        destruct (Forall2_lookup_l _ _ _ _ _ Hs Hi) as (a & Ha & _). by destruct (Hone k i a Hi Ha) as (_ & _ & ? & _).
      * by apply list.Forall_forall.
      * intros a [->|Ha]%elem_of_cons; [done|]. apply list_elem_of_lookup in Ha as [k Ha].
        destruct (Forall2_lookup_r _ _ _ _ _ Hs Ha) as (i & Hi & _). by destruct (Hone k i a Hi Ha) as (_ & _ & _ & ?).
    + intros (Hnd & Hl & Hpos & Hal & Him & Hhas & Hfb). split; [done|]. specialize (Hdist Hnd).
      apply list.NoDup_cons in Hdist as [_ Hnd'].
      assert (Hal' : is_allocator t alloc) by (by apply elem_of_cons).
      split.
      * split_and!; try done; [|by apply list.Forall_forall|by apply (Hfb pa); left].
        apply list.Forall_forall. intros n Hn. apply Him, elem_of_app. by left.
      * intros a Ha. pose proof (Hfb a (list_elem_of_further _ _ _ Ha)) as Hfa.
        apply list_elem_of_lookup in Ha as [k Ha].
        destruct (Forall2_lookup_r _ _ _ _ _ Hs Ha) as (i & Hi & _).
        apply (Hsec a k i Hnd' Hi Ha (Forall_lookup_1 _ _ _ _ Hdecl Hi)).
        destruct (Hpos k i a Hi Ha) as [Hu Hk]. split_and!; try done.
        apply Him, elem_of_app. right. apply list_elem_of_fmap. exists i. split; [done|]. by eapply list_elem_of_lookup_2.
  - intros [Hnd Hb]. specialize (Hdist Hnd). pose proof Hdist as [_ Hnd']%list.NoDup_cons.
    assert (Hfind : forall k i, ss !! k = Some i -> exists a, a_trait a = i /\ rule_index a = k /\
      find_impl (iname i) (object_impls p ss alloc pa sas) = Some (expand (secondary_rule p ss alloc a))).
    { intros k i Hi. destruct (Forall2_lookup_l _ _ _ _ _ Hs Hi) as (a & Ha & Ht & _). exists a.
      assert (Hin : a ∈ sas) by (by eapply list_elem_of_lookup_2).
      unfold object_impls in Hb. rewrite Forall_cons_iff, list.Forall_fmap, list.Forall_forall in Hb.
      destruct Hb as [_ Hb]. specialize (Hb a Hin).
      apply (Hsec a k i Hnd' Hi Ha (Forall_lookup_1 _ _ _ _ Hdecl Hi)) in Hb as (_ & _ & _ & Hk & _).
      split; [done|]. split; [done|]. rewrite <- Ht. by apply (find_secondary p ss alloc pa sas Hso k). }
    assert (Hsecs : forall k n, map iname ss !! k = Some n -> exists a, rule_index a = k /\
      find_impl n (object_impls p ss alloc pa sas) = Some (expand (secondary_rule p ss alloc a))).
    { intros k n (i & -> & Hi)%list_lookup_fmap_Some. destruct (Hfind k i Hi) as (a & _ & ? & ?). eauto. }
    split; [split|split].
    + unfold VTABLE, impls_ComImpl. rewrite find_primary. cbn [vt_unknown ci_vtable expand]. fold object.
      by destruct (generated_unknown_slots p object 0) as (_ & -> & _).
    + intros k n Hk. destruct (Hsecs k n Hk) as (a & <- & Hf). unfold VTABLE, impls_ComImpl. rewrite Hf.
      cbn [vt_unknown ci_vtable expand secondary_rule]. fold object.
      by destruct (generated_unknown_slots (a_trait a) object (rule_index a)) as (_ & _ & ->).
    + intros Hfb Hunk. split.
      * intros n [->|Hn]%elem_of_cons; unfold VTABLE, impls_ComImpl; [by rewrite find_primary|].
        apply list_elem_of_lookup in Hn as [k Hk]. destruct (Hsecs k n Hk) as (a & _ & Hf). by rewrite Hf.
      * intros this g. unfold query_interface, impls_ComImpl. rewrite find_primary.
        cbn [ci_query expand]. unfold rule_fallback. by rewrite Hfb, Hunk.
    + intros k i Hi. destruct (Hfind k i Hi) as (a & Ht & <- & Hf). eexists. split; [exact Hf|].
      cbn [ci_vtable expand secondary_rule]. rewrite Ht. fold object.
      by destruct (vtable_slots i object (rule_index a)) as (_ & _ & -> & _).
Qed.
End Expansion.

(** ** Examples *)

(** The object of docs/macros.md: the index of the first secondary interface
    is left out; it is made in memory of a pool. *)
Definition doc_primary : interface := Interface "IFoo" IUnknown [].
Definition doc_secondaries : list interface := [Interface "IBar" IUnknown []; Interface "IBaz" IUnknown []].
Definition doc_type : wrapped_type := mkWrapped ["IFoo"; "IBar"; "IBaz"] [] ["Pool"].
Definition doc_primary_args : impl_args :=
  mkArgs doc_primary "IUnknown" None None (Some ["IBar"; "IBaz"]) (Some "Pool") ["foo"] None.
Definition doc_secondary_args (index : option nat) : list impl_args :=
  [mkArgs (Interface "IBar" IUnknown []) "IUnknown" (Some "IFoo") None (Some ["IBar"; "IBaz"]) (Some "Pool") ["bar"] None;
   mkArgs (Interface "IBaz" IUnknown []) "IUnknown" (Some "IFoo") index (Some ["IBar"; "IBaz"]) (Some "Pool") ["baz"] None].
Definition doc_iid (n : string) : GUID := mkGUID (Z.of_nat (String.length n)) 0 0 [].

Lemma macro_objects_meet_contract_witness :
  exists impls, implement doc_iid (fun _ => default_query_interface) doc_primary_args (doc_secondary_args (Some 1%nat))
                = Some impls
    /\ well_typed doc_type impls
    /\ @GeneratedVtables string unit
         (impls_ComImpl doc_iid (mkInstance "IFoo" ["IBar"; "IBaz"] "Pool") unit impls) "IFoo" ["IBar"; "IBaz"] tt.
Proof.
  destruct (macro_objects_meet_contract doc_iid (fun _ => default_query_interface) unit tt doc_type doc_primary
    doc_secondaries "Pool" doc_primary_args (doc_secondary_args (Some 1%nat))) as (impls & H1 & H2 & H3).
  - split; [done|done|done|by repeat constructor|by repeat constructor].
  - discriminate.
  - repeat constructor; discriminate.
  - assert (Hw : well_typed doc_type impls).
    { apply H2. split_and!.
      - apply (bool_decide_unpack _). vm_compute. exact Logic.I.
      - cbn. lia.
      - intros [|[|k]] i a Hi Ha; cbn in Hi, Ha; simplify_eq; by eauto.
      - right. by left.
      - intros n Hn. apply (bool_decide_unpack _). revert n Hn. apply list.Forall_forall.
        repeat constructor.
      - intros n Hn. apply (bool_decide_unpack _). revert n Hn. apply list.Forall_forall. repeat constructor.
      - intros a Ha. apply (bool_decide_unpack _). revert a Ha. apply list.Forall_forall. repeat constructor. }
    exists impls. split; [exact H1|]. split; [exact Hw|]. apply (H3 Hw).
Defined.

(** Without its index the second one does not type check. *)
Example second_index_is_needed :
  match implement doc_iid (fun _ => default_query_interface) doc_primary_args (doc_secondary_args None) with
  | Some impls => ~ well_typed doc_type impls
  | None => False
  end.
Proof.
  cbn. unfold well_typed. intros [_ H]. apply Forall_cons_iff in H as [_ H].
  apply Forall_cons_iff in H as [_ H]. apply Forall_cons_iff in H as [[H _] _].
  apply SecondaryEntryAccess_spec in H as [_ H]. discriminate H.
Qed.

(** The arms: an allocator without secondary interfaces, and an empty list of
    them, are not accepted. *)
Example rejected_arguments :
  impl_com_interface (mkArgs doc_primary "IUnknown" None None None (Some "Pool") [] None) = None
  /\ impl_com_interface (mkArgs doc_primary "IUnknown" None None (Some []) None [] None) = None.
Proof. split; reflexivity. Qed.
