(* ===== verification/MethodShims.v ===== *)
(** * The method shims of declared interfaces

    Models the functions that [declare_com_interface!] generates for plain
    methods ([src/src/macros/declare_interface.rs]), which find the wrapped
    value behind an interface pointer and call the method on it; the layout
    of the structs they view an object as; the IUnknown shims of an inherited
    interface; and the [query_interface] method of raw interfaces. *)

From Stdlib Require Import Sorted.
From S2P Require Import Prelude Status Refcount Wrapper SmartPtr WrapperFacts Interfaces Demo ComTheorems.

(** ** Struct layout

    The fields of [ComObject] and [ComObjectN], and where [repr(C)] puts
    them: every field at the next multiple of its alignment. *)
Inductive field : Type :=
| f_vtable | f_secondaries | f_non_delegating_unknown | f_ref_count | f_outer_unknown
| f_inner | f_alloc.

#[global] Instance field_eq_dec : EqDecision field.
Proof. solve_decision. Defined.

Record placed : Type := mkPlaced { p_field : field; p_off : Z; p_size : Z }.

Definition round_up (n a : Z) : Z := (n + a - 1) / a * a.
Fixpoint repr_C (at_ : Z) (fields : list (field * Layout)) : list placed :=
  match fields with
  | [] => []
  | (f, lay) :: fields =>
      let o := round_up at_ (align lay) in mkPlaced f o (size lay) :: repr_C (o + size lay) fields
  end.

(** Where a struct has a field. *)
Fixpoint field_at (f : field) (s : list placed) : option placed :=
  match s with
  | [] => None
  | p :: s => if decide (p_field p = f) then Some p else field_at f s
  end.

(** What writing the fields one after the other leaves at the address [z]
    of the block: byte [k] of the field [f]. *)
Fixpoint byte_at (s : list placed) (z : Z) : option (field * Z) :=
  match s with
  | [] => None
  | p :: s =>
      match byte_at s z with
      | Some b => Some b
      | None => if (p_off p <=? z) && (z <? p_off p + p_size p) then Some (p_field p, z - p_off p)
                else None
      end
  end.

(** Reading the field [f] of a block that was written as the struct [s] and
    is read as the struct [view]: whether all the bytes found are those of
    the field.  A zero-sized field can be read anywhere. *)
Definition reads (view s : list placed) (f : field) : bool :=
  match field_at f view with
  | Some p => forallb (fun k => bool_decide (byte_at s (p_off p + k) = Some (f, k))) (seqZ 0 (p_size p))
  | None => false
  end.

Definition good_layout (lay : Layout) : Prop := 0 <= size lay /\ 0 < align lay.

(** Each field ends before the ones that follow begin. *)
Definition before (p q : placed) : Prop := p_off p + p_size p <= p_off q.

Lemma round_up_bound n a : 0 < a -> n <= round_up n a.
Proof.
  intros Ha. unfold round_up. pose proof (Z.div_mod (n + a - 1) a ltac:(lia)).
  pose proof (Z.mod_pos_bound (n + a - 1) a Ha). nia.
Qed.

Lemma round_up_here n a : 0 < a -> (a | n) -> round_up n a = n.
Proof.
  intros Ha [k ->]. unfold round_up. replace (k * a + a - 1) with (a - 1 + k * a) by lia.
  rewrite Z.div_add by lia. rewrite Z.div_small by lia. lia.
Qed.

Lemma round_up_divides n a : (a | round_up n a).
Proof. by exists ((n + a - 1) / a). Qed.

Definition good_fields (fields : list (field * Layout)) : Prop :=
  Forall (fun fl => good_layout (snd fl)) fields.

Lemma repr_C_starts at_ fields p : good_fields fields -> p ∈ repr_C at_ fields -> at_ <= p_off p.
Proof.
  intros H. revert at_. induction H as [|[f lay] fs [Hs Ha] _ IH]; intros at_; cbn [repr_C];
    [by intros ?%not_elem_of_nil|].
  cbn in Hs, Ha. pose proof (round_up_bound at_ (align lay) Ha).
  intros [->|Hp]%elem_of_cons; [done|]. specialize (IH _ Hp). lia.
Qed.

Lemma repr_C_sizes at_ fields p : good_fields fields -> p ∈ repr_C at_ fields -> 0 <= p_size p.
Proof.
  intros H. revert at_. induction H as [|[f lay] fs [Hs Ha] _ IH]; intros at_; cbn [repr_C];
    [by intros ?%not_elem_of_nil|].
  intros [->|Hp]%elem_of_cons; [done|eauto].
Qed.

Lemma repr_C_before at_ fields : good_fields fields -> StronglySorted before (repr_C at_ fields).
Proof.
  intros H. revert at_. induction H as [|[f lay] fs Hg Hf IH]; intros at_; cbn [repr_C]; constructor;
    [done|].
  apply Forall_forall. intros q Hq%list_elem_of_In. by apply repr_C_starts in Hq.
Qed.

Lemma sorted_before s i j p q :
  StronglySorted before s -> s !! i = Some p -> s !! j = Some q -> (i < j)%nat -> before p q.
Proof.
  intros Hs. revert i j. induction Hs as [|r s Hs IH Hr]; intros [|i] [|j] Hi Hj Hij; try done; try lia.
  - injection Hi as ->. rewrite Forall_forall in Hr. apply Hr, list_elem_of_In. by eapply list_elem_of_lookup_2.
  - eapply IH; eauto. lia.
Qed.

Lemma repr_C_aligned at_ fields i f lay :
  fields !! i = Some (f, lay) ->
  exists o, repr_C at_ fields !! i = Some (mkPlaced f o (size lay)) /\ (align lay | o).
Proof.
  revert at_ i. induction fields as [|[f' lay'] fs IH]; intros at_ i Hi; [done|].
  destruct i as [|i]; [|by apply IH]. injection Hi as -> ->.
  eexists. split; [done|]. apply round_up_divides.
Qed.

(** *** What the bytes of a block are *)

Lemma byte_at_inv s z f k :
  byte_at s z = Some (f, k) ->
  exists p, p ∈ s /\ p_field p = f /\ z = p_off p + k /\ 0 <= k < p_size p.
Proof.
  induction s as [|p s IH]; cbn [byte_at]; [done|]. destruct (byte_at s z) as [b|].
  - intros [= ->]. destruct IH as (q & ? & ?); [done|]. exists q. rewrite elem_of_cons. tauto.
  - destruct (_ && _) eqn:E; [|done]. intros [= <- <-]. apply andb_true_iff in E as [E1 E2].
    apply Z.leb_le in E1. apply Z.ltb_lt in E2. exists p. rewrite elem_of_cons. split; [auto|].
    split; [done|]. lia.
Qed.

Lemma byte_at_own s p k :
  StronglySorted before s -> p ∈ s -> (forall q, q ∈ s -> 0 <= p_size q) -> 0 <= k < p_size p ->
  byte_at s (p_off p + k) = Some (p_field p, k).
Proof.
  intros Hs. induction Hs as [|q s Hs IH Hq]; intros Hp Hn Hk; [by apply not_elem_of_nil in Hp|].
  cbn [byte_at]. apply elem_of_cons in Hp as [->|Hp].
  - destruct (byte_at s (p_off q + k)) as [[f j]|] eqn:E.
    + apply byte_at_inv in E as (r & Hr & _ & Hz & Hj). rewrite Forall_forall in Hq.
      apply list_elem_of_In in Hr. specialize (Hq r Hr). unfold before in Hq. lia.
    + rewrite (proj2 (Z.leb_le _ _)), (proj2 (Z.ltb_lt _ _)) by lia. cbn. do 2 f_equal. lia.
  - rewrite IH; try done. intros r Hr. apply Hn. by right.
Qed.

Lemma field_at_elem f s p : field_at f s = Some p -> p ∈ s /\ p_field p = f.
Proof.
  induction s as [|q s IH]; cbn [field_at]; [done|]. case_decide.
  - intros [= ->]. split; [by left|done].
  - intros Hp. destruct (IH Hp). split; [by right|done].
Qed.

(** A struct reads back what it wrote. *)
Lemma reads_own f s p :
  StronglySorted before s -> (forall q, q ∈ s -> 0 <= p_size q) -> field_at f s = Some p ->
  reads s s f = true.
Proof.
  intros Hs Hn Hp. unfold reads. rewrite Hp. apply field_at_elem in Hp as [Hin <-].
  apply forallb_forall. intros k Hk%list_elem_of_In%elem_of_seqZ. apply bool_decide_eq_true_2.
  apply byte_at_own; auto.
Qed.

(** A view only reads a field where the struct has it. *)
Lemma reads_at f view s p :
  reads view s f = true -> field_at f view = Some p -> 0 < p_size p ->
  exists q, q ∈ s /\ p_field q = f /\ p_off q = p_off p.
Proof.
  unfold reads. intros Hr Hp Hpos. rewrite Hp in Hr.
  assert (H0 : byte_at s (p_off p + 0) = Some (f, 0)).
  { rewrite forallb_forall in Hr. apply (bool_decide_eq_true_1 _), Hr, list_elem_of_In, elem_of_seqZ. lia. }
  apply byte_at_inv in H0 as (q & ? & ? & ? & ?). exists q. split; [done|]. split; [done|lia].
Qed.

Section Shims.
Context {I T A X Args : Type}.
Context `{!ComImpl I T, !DropGlue T, !Allocator A, !Foreign X}.
Context (c : config) (fuel : nat).
(** The layouts of [T] and of the allocator type. *)
Context (Tl Al : Layout).

Abbreviation W := (world I T A X).
Abbreviation Obj := (ComObject I T A).

(** Pointers take eight bytes, a non-delegating IUnknown and a secondary
    entry two pointers, the count four bytes, and an [Option] of a raw
    pointer a tag and the pointer. *)
Definition ComObject_fields : list (field * Layout) :=
  [(f_vtable, mkLayout 8 8); (f_non_delegating_unknown, mkLayout 16 8); (f_ref_count, mkLayout 4 4);
   (f_outer_unknown, mkLayout 16 8); (f_inner, Tl); (f_alloc, Al)].
Definition ComObjectN_fields (n : nat) : list (field * Layout) :=
  [(f_vtable, mkLayout 8 8); (f_secondaries, mkLayout (16 * Z.of_nat n) 8);
   (f_non_delegating_unknown, mkLayout 16 8); (f_ref_count, mkLayout 4 4);
   (f_outer_unknown, mkLayout 16 8); (f_inner, Tl); (f_alloc, Al)].

Definition ComObject_layout : list placed := repr_C 0 ComObject_fields.
Definition ComObjectN_layout (n : nat) : list placed := repr_C 0 (ComObjectN_fields n).

(** The struct an object was written as. *)
Definition fields_of (o : Obj) : list (field * Layout) :=
  match kind o with
  | Single => ComObject_fields
  | Multi => ComObjectN_fields (length (secondaries o))
  end.
Definition layout_of (o : Obj) : list placed := repr_C 0 (fields_of o).

(** [wrapper.inner] through a view: bytes that are not those of [inner] are
    not a [T]. *)
Definition view_inner (view : list placed) (o : Obj) : outcome T :=
  if reads view (layout_of o) f_inner then Done (inner o) else Fault UB.

(** [ComObject::<T, Vtbl>::from_ptr(this)] and
    [ComObjectN::<T, P, S, A>::from_secondary_ptr(this)], then [.inner]. *)
Definition primary_inner (this : ptr) : M W (loc * T) :=
  let* (l, wrapper) := from_ptr this in
  let* t := lift (view_inner ComObject_layout wrapper) in
  mret (l, t).
Definition secondary_inner (this : ptr) : M W (loc * T) :=
  let* (l, wrapper) := from_secondary_ptr this in
  let* t := lift (view_inner (ComObjectN_layout (length (secondaries wrapper))) wrapper) in
  mret (l, t).

(** ** The shims

    A method is called on the reference to the wrapped value; it may read and
    write the memory, and panic. *)
Section Method.
Context {R B : Type} (method : loc -> T -> Args -> M W R).

(** The arms for [Result]: the answer goes through [into_ntstatus]. *)
Definition shim_result (into_ntstatus : R -> NTSTATUS) (this : ptr) (args : Args) : M W NTSTATUS :=
  let* (l, inner) := primary_inner this in
  let* r := method l inner args in
  mret (into_ntstatus r).
Definition shim_result_secondary (into_ntstatus : R -> NTSTATUS) (this : ptr) (args : Args)
    : M W NTSTATUS :=
  let* (l, inner) := secondary_inner this in
  let* r := method l inner args in
  mret (into_ntstatus r).

(** The last arm, where [__kcom_map_return!] leaves the answer as it is. *)
Definition shim_plain (this : ptr) (args : Args) : M W R :=
  let* (l, inner) := primary_inner this in
  method l inner args.
Definition shim_plain_secondary (this : ptr) (args : Args) : M W R :=
  let* (l, inner) := secondary_inner this in
  method l inner args.

End Method.

(** ** IUnknown shims of an inherited interface

    [new] of an inherited interface takes the IUnknown slots of the root of
    the inheritance chain, so QueryInterface runs in the instance
    [ComObject::<T, R>] of the root [R], and asks [ComImpl<R>]. *)
Definition as_instance (i : I) (o : Obj) : Obj :=
  mkObject _ _ _ (kind o) i (vtable o) (secondaries o) (non_delegating_unknown o)
    (ref_count o) (outer_unknown o) (inner o) (alloc o).

Definition shim_query_interface_at (i : I) (this : ptr) (riid : option GUID) (ppv : option ptr)
    : M W (NTSTATUS * option ptr) :=
  with_panic_guard (
    let* (l, wrapper) := from_ptr this in
    delegating_query (call_qi c fuel) (outer_unknown wrapper) riid ppv
      (query_own (call c fuel) (as_instance i wrapper) (shim_add_ref c (call c fuel) this)
         this this riid ppv)).

(** ** Raw interfaces *)

(** [FooRaw::query_interface::<U>] on the interface at [this]. *)
Definition raw_query_interface (this : ptr) (iid : GUID) : M W (result ComRc Status) :=
  let* vtbl := unknown_vtbl this in
  let* (status, out) := call_qi c fuel (QueryInterface vtbl) this (Some iid) (Some null) in
  let status := Status.from_raw status in
  if Status.is_error status then mret (Err status)
  else mret (from_raw_or_status (default null out)).

(** [FooRaw::from_raw] and [from_raw_addref]. *)
Definition raw_from_raw (p : ptr) : option ComRc := SmartPtr.from_raw p.
Definition raw_from_raw_addref (p : ptr) : M W (option ComRc) := from_raw_addref c fuel p.

(** ** Layout facts *)

(** The bytes that the secondary entries of an object take. *)
Definition entries_size (o : Obj) : Z :=
  match kind o with Single => 0 | Multi => 16 * Z.of_nat (length (secondaries o)) end.

Definition offset (f : field) (s : list placed) : option Z := p_off <$> field_at f s.

Lemma ComObjectN_layout_eq n :
  exists o, ComObjectN_layout n
  = [mkPlaced f_vtable 0 8; mkPlaced f_secondaries 8 (16 * Z.of_nat n);
     mkPlaced f_non_delegating_unknown (8 + 16 * Z.of_nat n) 16;
     mkPlaced f_ref_count (24 + 16 * Z.of_nat n) 4; mkPlaced f_outer_unknown (32 + 16 * Z.of_nat n) 16;
     mkPlaced f_inner (round_up (48 + 16 * Z.of_nat n) (align Tl)) (size Tl); mkPlaced f_alloc o (size Al)].
Proof.
  eexists. unfold ComObjectN_layout, ComObjectN_fields. cbn [repr_C size align].
  change (round_up 0 8) with 0. change (round_up (0 + 8) 8) with 8.
  rewrite (round_up_here (8 + 16 * Z.of_nat n) 8) by (lia || (exists (1 + 2 * Z.of_nat n); lia)).
  rewrite (round_up_here (8 + 16 * Z.of_nat n + 16) 4) by (lia || (exists (6 + 4 * Z.of_nat n); lia)).
  assert (Hu : round_up (8 + 16 * Z.of_nat n + 16 + 4) 8 = 32 + 16 * Z.of_nat n).
  { unfold round_up. replace (8 + 16 * Z.of_nat n + 16 + 4 + 8 - 1) with (3 + (4 + 2 * Z.of_nat n) * 8) by lia.
    rewrite Z.div_add by lia. change (3 / 8) with 0. lia. }
  rewrite Hu. replace (8 + 16 * Z.of_nat n + 16) with (24 + 16 * Z.of_nat n) by lia.
  by replace (32 + 16 * Z.of_nat n + 16) with (48 + 16 * Z.of_nat n) by lia.
Qed.

(** Where the fields of an object are. *)
Lemma layout_of_offsets (o : Obj) :
  offset f_vtable (layout_of o) = Some 0
  /\ (kind o = Multi -> offset f_secondaries (layout_of o) = Some 8)
  /\ offset f_non_delegating_unknown (layout_of o) = Some (8 + entries_size o)
  /\ offset f_ref_count (layout_of o) = Some (24 + entries_size o)
  /\ offset f_outer_unknown (layout_of o) = Some (32 + entries_size o)
  /\ offset f_inner (layout_of o) = Some (round_up (48 + entries_size o) (align Tl)).
Proof.
  unfold offset, layout_of, fields_of, entries_size. destruct (kind o); [by repeat split|].
  fold (ComObjectN_layout (length (secondaries o))).
  destruct (ComObjectN_layout_eq (length (secondaries o))) as [a ->]. by repeat split.
Qed.

(** The fields of [ComObject] are not where a [ComObjectN] has them. *)
Lemma reads_misplaced n f p :
  (0 < n)%nat -> field_at f ComObject_layout = Some p ->
  f = f_ref_count \/ f = f_outer_unknown \/ f = f_inner /\ 0 < align Tl /\ (align Tl | 16) ->
  0 < p_size p -> reads ComObject_layout (ComObjectN_layout n) f = false.
Proof.
  intros Hn Hp Hf Hpos. apply not_true_is_false. intros Hr.
  destruct (reads_at _ _ _ _ Hr Hp Hpos) as (q & Hq & Hqf & Hqo).
  destruct (ComObjectN_layout_eq n) as [a E]. rewrite E in Hq.
  assert (Hcase : (f = f_ref_count /\ p_off p = 24) \/ (f = f_outer_unknown /\ p_off p = 32)
    \/ (f = f_inner /\ p_off p = 48 /\ round_up (48 + 16 * Z.of_nat n) (align Tl) = 48 + 16 * Z.of_nat n)).
  { destruct Hf as [->|[->|(-> & Ha & k & Hk)]]; cbn in Hp; injection Hp as <-; [by left|by right; left|].
    right; right. split; [done|]. split; apply round_up_here; try done;
      [exists (3 * k)|exists ((3 + Z.of_nat n) * k)]; rewrite <- Z.mul_assoc, <- Hk; lia. }
  repeat apply elem_of_cons in Hq as [->|Hq]; try (by apply not_elem_of_nil in Hq);
    cbn [p_field p_off] in Hqf, Hqo; destruct Hcase as [[? ?]|[[? ?]|(? & ? & Hu)]]; subst f; try done; lia.
Qed.

(** ** Theorems *)

Section GoodLayouts.
Context (HT : good_layout Tl) (HA : good_layout Al).

Lemma fields_of_good (o : Obj) : good_fields (fields_of o).
Proof using HT HA.
  unfold fields_of. destruct (kind o); repeat (constructor; [done || (split; cbn; lia)|]); constructor.
Qed.

(** An object reads back every field of its struct. *)
Lemma layout_of_reads (o : Obj) f lay :
  (f, lay) ∈ fields_of o -> reads (layout_of o) (layout_of o) f = true.
Proof using HT HA.
  intros Hf. assert (Hp : exists p, field_at f (layout_of o) = Some p).
  { unfold layout_of, fields_of in *.
    destruct (kind o); repeat apply elem_of_cons in Hf as [[= -> ->]|Hf];
      try (by apply not_elem_of_nil in Hf); by eexists. }
  destruct Hp as [p Hp]. eapply reads_own; [| |done].
  - apply repr_C_before, fields_of_good.
  - intros q. apply repr_C_sizes, fields_of_good.
Qed.

Lemma view_inner_own (o : Obj) : view_inner (layout_of o) o = Done (inner o).
Proof using HT HA.
  unfold view_inner. rewrite (layout_of_reads o f_inner Tl); [done|].
  unfold fields_of. destruct (kind o); cbn; set_solver.
Qed.

Lemma primary_inner_single w l o :
  heap w !! l = Some o -> kind o = Single -> primary_inner (obj l) w = Done ((l, inner o), w).
Proof using HT HA.
  intros Hl Hk. unfold primary_inner. erewrite bind_done by (by apply from_ptr_live).
  cbv beta iota. pose proof (view_inner_own o) as Hv. unfold layout_of, fields_of in Hv. rewrite Hk in Hv.
  fold ComObject_layout in Hv. by rewrite Hv.
Qed.

Lemma secondary_inner_multi w l o i :
  heap w !! l = Some o -> wf_obj l o -> kind o = Multi -> (i < length (secondaries o))%nat ->
  secondary_inner (sec l i) w = Done ((l, inner o), w).
Proof using HT HA.
  intros Hl Hwf Hk Hi. unfold secondary_inner.
  erewrite bind_done by (by eapply from_secondary_ptr_live).
  cbv beta iota. pose proof (view_inner_own o) as Hv. unfold layout_of, fields_of in Hv. rewrite Hk in Hv.
  fold (ComObjectN_layout (length (secondaries o))) in Hv. by rewrite Hv.
Qed.

(** C17: the generated shims are the method.  The bytes that a constructor
    writes for an object are those of its struct: the vtable pointer at the
    address of the object, the entry of each secondary interface behind it,
    then the non-delegating IUnknown, the count, the outer pointer and the
    wrapped value, every field at a multiple of its alignment, none
    overlapping another, and each read back whole.  Through the interface
    pointer of a [ComObject] and through every secondary interface pointer
    of a [ComObjectN] a shim, which looks for the wrapped value where its own
    view of the struct has it, finds the value of the object and does what
    the method does on it, faults and effects included; it returns the
    answer of the method, converted to a status in the [Result] arms.  (The
    primary interface of a [ComObjectN] is not covered:
    [primary_shims_misread_multi_objects].) *)
Theorem shims_are_the_method {R : Type} (method : loc -> T -> Args -> M W R)
    (into_ntstatus : R -> NTSTATUS) (args : Args) (w : W) (l : loc) (o : Obj) :
  heap w !! l = Some o -> wf_obj l o ->
  let s := layout_of o in
  (offset f_vtable s = Some 0
   /\ (kind o = Multi -> offset f_secondaries s = Some 8)
   /\ offset f_non_delegating_unknown s = Some (8 + entries_size o)
   /\ offset f_ref_count s = Some (24 + entries_size o)
   /\ offset f_outer_unknown s = Some (32 + entries_size o)
   /\ offset f_inner s = Some (round_up (48 + entries_size o) (align Tl)))
  /\ (forall i f lay, fields_of o !! i = Some (f, lay) ->
      reads s s f = true
      /\ exists p, s !! i = Some p /\ p_field p = f /\ p_size p = size lay /\ (align lay | p_off p)
                   /\ forall j q, (i < j)%nat -> s !! j = Some q -> before p q)
  /\ (kind o = Single ->
     shim_plain method (obj l) args w = method l (inner o) args w
     /\ shim_result method into_ntstatus (obj l) args w
        = bind (method l (inner o) args) (fun r => mret (into_ntstatus r)) w)
  /\ (forall i, kind o = Multi -> (i < length (secondaries o))%nat ->
     shim_plain_secondary method (sec l i) args w = method l (inner o) args w
     /\ shim_result_secondary method into_ntstatus (sec l i) args w
        = bind (method l (inner o) args) (fun r => mret (into_ntstatus r)) w).
Proof using HT HA.
  intros Hl Hwf s. split; [apply layout_of_offsets|]. split; [|split].
  - intros i f lay Hi. split; [by eapply layout_of_reads, list_elem_of_lookup_2|].
    destruct (repr_C_aligned 0 (fields_of o) i f lay Hi) as (off & Hp & Ha). eexists. split; [exact Hp|].
    repeat (split; [done|]). intros j q Hij Hq.
    eapply (sorted_before s); [apply repr_C_before, fields_of_good|exact Hp|exact Hq|done].
  - intros Hk. pose proof (primary_inner_single w l o Hl Hk) as Hi.
    split; [unfold shim_plain|unfold shim_result]; by erewrite bind_done by exact Hi.
  - intros i Hk Hlt. pose proof (secondary_inner_multi w l o i Hl Hwf Hk Hlt) as Hi.
    split; [unfold shim_plain_secondary|unfold shim_result_secondary]; by erewrite bind_done by exact Hi.
Qed.
End GoodLayouts.

(** The method shims in the primary vtable of an object with secondary
    interfaces read the wrong memory: [new_primary] fills its method slots
    with shims that view the object as a [ComObject], where the wrapped value
    is at offset 48, but in a [ComObjectN] it is sixteen bytes further for
    each secondary interface.  Unless the value has no size, every call of a
    primary method is undefined behaviour. *)
Theorem primary_shims_misread_multi_objects {R : Type} (method : loc -> T -> Args -> M W R)
    (args : Args) (w : W) (l : loc) (o : Obj) :
  0 <= size Tl -> 0 < align Tl -> (align Tl | 16) ->
  heap w !! l = Some o -> kind o = Multi -> secondaries o <> [] ->
  shim_plain method (obj l) args w
  = if size Tl =? 0 then method l (inner o) args w else Fault UB.
Proof.
  intros Hs0 Ha Hd Hl Hk Hs.
  assert (Hlen : (0 < length (secondaries o))%nat) by (destruct (secondaries o); [done|cbn; lia]).
  unfold shim_plain, primary_inner. rewrite bind_assoc.
  erewrite bind_done by (by apply from_ptr_live). cbv beta iota. rewrite bind_assoc.
  unfold view_inner, layout_of, fields_of. rewrite Hk. fold (ComObjectN_layout (length (secondaries o))).
  destruct (size Tl =? 0) eqn:E.
  - apply Z.eqb_eq in E.
    assert (Hr : reads ComObject_layout (ComObjectN_layout (length (secondaries o))) f_inner = true)
      by (unfold reads; cbn; by rewrite E).
    by rewrite Hr.
  - apply Z.eqb_neq in E. erewrite reads_misplaced; [done|done|reflexivity|auto|cbn; lia].
Qed.

(** The QueryInterface that the macros implement along an inheritance chain
    of interface identifiers, the interface first and the root last: each
    falls back to its parent's. *)
Definition chain_query (chain : list GUID) : ptr -> GUID -> option ptr :=
  foldr impl_single default_query_interface chain.

(** QueryInterface on an inherited interface of a [ComObject] does not
    find it.  Its vtable runs QueryInterface in the instance of the root of
    the inheritance chain, which knows IUnknown and the root's identifier
    only: every other identifier is answered with STATUS_NOINTERFACE, also
    that of the interface the caller holds, although its own implementation
    would answer it. *)
Theorem inherited_interfaces_are_not_found (n : nat) (r : I) (root_iid : GUID) (derived : list GUID)
    (g : GUID) (old : ptr) (w : W) (l : loc) (o : Obj) :
  heap w !! l = Some o -> wf_obj l o -> standalone o -> 0 <= ref_count o < MAX_REFCOUNT ->
  query_interface r (inner o) = chain_query [root_iid] -> fuel = S n ->
  shim_query_interface_at r (obj l) (Some g) (Some old) w
  = Done (if guid_eq g IID_IUNKNOWN || guid_eq g root_iid
          then ((STATUS_SUCCESS, Some (obj l)), write_obj w l (set_ref_count o (ref_count o + 1)))
          else ((STATUS_NOINTERFACE, Some null), w))
  /\ (g ∈ derived -> chain_query (derived ++ [root_iid]) (obj l) g = Some (obj l)).
Proof.
  intros Hl Hwf Hs Hr Hq Hf. split.
  - unfold shim_query_interface_at. rewrite Hf. apply guard_done.
    erewrite bind_done by (by apply from_ptr_live). cbv beta iota.
    rewrite delegating_query_standalone by done. unfold query_own.
    destruct (guid_eq g IID_IUNKNOWN); cbn [orb];
      [by erewrite bind_done by (by apply shim_add_ref_live)|].
    cbn [iface inner as_instance]. rewrite Hq. cbn [chain_query foldr]. unfold impl_single at 1.
    cbn [is_null]. destruct (guid_eq g root_iid); [|done].
    assert (Ha : AddRef_of c (S n) (obj l) w
                 = Done (ref_count o + 1, write_obj w l (set_ref_count o (ref_count o + 1))))
      by (apply AddRef_counts; try done; by left).
    unfold AddRef_of in Ha. apply bind_inv in Ha as (v & w' & Hv & Ha).
    erewrite bind_done by apply Hv. by erewrite bind_done by apply Ha.
  - intros Hg. induction derived as [|d derived IH]; [by apply not_elem_of_nil in Hg|].
    cbn [app chain_query foldr]. unfold impl_single at 1. cbn [is_null].
    destruct (guid_eq g d) eqn:E; [done|]. apply elem_of_cons in Hg as [->|Hg].
    + by rewrite guid_eq_refl in E.
    + by apply IH.
Qed.

(** [FooRaw::query_interface] is [ComRc::query_interface] on the same pointer. *)
Lemma raw_query_is_rc_query (p : ptr) (iid : GUID) w :
  raw_query_interface p iid w = rc_query_interface c fuel (mkRc p) iid w.
Proof.
  unfold raw_query_interface, rc_query_interface, QueryInterface_of. by rewrite bind_assoc.
Qed.
End Shims.

(** ** Witnesses *)

(** A four-byte value, a method that adds its argument to a field, and
    objects with one and with two interfaces. *)
Definition word : Layout := mkLayout 4 4.
Definition unit_layout : Layout := mkLayout 0 1.
Definition demo_method (l : loc) (t : demo) (x : nat) : M (world nat demo demo_alloc Z) nat :=
  mret (length (demo_script t) + x)%nat.
Definition two_interfaces : ComObject nat demo demo_alloc :=
  fresh_objectN 2 0%nat [1; 2]%nat demo_multi global_alloc.

Lemma word_good : good_layout word.
Proof. by split. Qed.
Lemma unit_layout_good : good_layout unit_layout.
Proof. by split. Qed.

Lemma shims_are_the_method_witness :
  shim_plain_secondary word unit_layout demo_method (sec 2 1) 5%nat (demo_with two_interfaces)
  = demo_method 2 demo_multi 5%nat (demo_with two_interfaces).
Proof.
  destruct (shims_are_the_method word unit_layout word_good unit_layout_good demo_method
    (fun _ => STATUS_SUCCESS) 5%nat (demo_with two_interfaces) 2 two_interfaces) as (_ & _ & _ & H).
  - reflexivity.
  - apply fresh_objectN_wf, _.
  - apply (H 1%nat); [reflexivity|cbn; lia].
Defined.

Lemma primary_shims_misread_multi_objects_witness :
  shim_plain word unit_layout demo_method (obj 2) 5%nat (demo_with two_interfaces) = Fault UB.
Proof.
  refine (primary_shims_misread_multi_objects word unit_layout demo_method 5%nat
    (demo_with two_interfaces) 2 two_interfaces _ _ _ _ _ _).
  - discriminate.
  - reflexivity.
  - exists 4. reflexivity.
  - reflexivity.
  - reflexivity.
  - discriminate.
Defined.

Lemma inherited_interfaces_are_not_found_witness :
  shim_query_interface_at demo_cfg 1 1%nat (obj 2) (Some (demo_iid 0)) (Some null)
    (demo_with (demo_plain demo_unit 1))
  = Done ((STATUS_NOINTERFACE, Some null), demo_with (demo_plain demo_unit 1)).
Proof.
  refine (proj1 (inherited_interfaces_are_not_found demo_cfg 1 0 1%nat (demo_iid 1) [demo_iid 0] (demo_iid 0)
    null (demo_with (demo_plain demo_unit 1)) 2 (demo_plain demo_unit 1) _ _ _ _ _ _)).
  - reflexivity.
  - apply demo_plain_wf; [done|]. unfold u32, u32_MAX. lia.
  - exact I.
  - unfold MAX_REFCOUNT, i32_MAX. simpl. lia.
  - reflexivity.
  - reflexivity.
Defined.
