(* ===== verification/Task.v ===== *)
(** * Cancellable futures

    Models [src/src/task.rs]: [Cancellable], the future returned by
    [try_finally], which runs a main future until it is ready or a
    cancellation request is taken, and then a cleanup future.  A future is
    its state and its poll function; a [ManuallyDrop] field is a slot that
    becomes empty when it is dropped, and using an empty slot is [UB]. *)

From S2P Require Import Prelude Status.

(** A [ManuallyDrop] field. *)
Inductive slot (S : Type) : Type := Live (s : S) | Dropped.
Arguments Live {S} s.
Arguments Dropped {S}.

Inductive CancellableState : Type := RunningMain | RunningCleanup | Finished.

Inductive poll (A : Type) : Type := Ready (a : A) | Pending.
Arguments Ready {A} a.
Arguments Pending {A}.

Section Cancellable.
Context {SM SC Out : Type}.
Context (poll_main : SM -> SM * poll Out) (poll_cleanup : SC -> SC * poll unit).

(** The counters record how often each field was dropped. *)
Record Cancellable : Type := mkCancellable {
  state : CancellableState;
  main : slot SM;
  cleanup : slot SC;
  main_drops : nat;
  cleanup_drops : nat
}.

Definition try_finally (m : SM) (c : SC) : Cancellable :=
  mkCancellable RunningMain (Live m) (Live c) 0 0.

Definition set_state (st : CancellableState) (x : Cancellable) : Cancellable :=
  mkCancellable st (main x) (cleanup x) (main_drops x) (cleanup_drops x).

Definition drop_main : M Cancellable unit :=
  fun x => match main x with
           | Live _ => Done (tt, mkCancellable (state x) Dropped (cleanup x) (S (main_drops x)) (cleanup_drops x))
           | Dropped => Fault UB
           end.
Definition drop_cleanup : M Cancellable unit :=
  fun x => match cleanup x with
           | Live _ => Done (tt, mkCancellable (state x) (main x) Dropped (main_drops x) (S (cleanup_drops x)))
           | Dropped => Fault UB
           end.
Definition run_main : M Cancellable (poll Out) :=
  fun x => match main x with
           | Live s => let '(s', r) := poll_main s in
                       Done (r, mkCancellable (state x) (Live s') (cleanup x) (main_drops x) (cleanup_drops x))
           | Dropped => Fault UB
           end.
Definition run_cleanup : M Cancellable (poll unit) :=
  fun x => match cleanup x with
           | Live s => let '(s', r) := poll_cleanup s in
                       Done (r, mkCancellable (state x) (main x) (Live s') (main_drops x) (cleanup_drops x))
           | Dropped => Fault UB
           end.
Definition goto (st : CancellableState) : M Cancellable unit := fun x => Done (tt, set_state st x).

(** [Future::poll]; [cancelled] is what [take_cancellation_request] returns
    in this poll, and [fuel] bounds the iterations of the loop. *)
Fixpoint poll_loop (fuel : nat) (cancelled : bool) : M Cancellable (poll (option Out)) :=
  match fuel with
  | O => mfault OutOfFuel
  | S fuel =>
      let* this := mget in
      match state this with
      | RunningMain =>
          if cancelled then
            drop_main ;;
            goto RunningCleanup ;;
            poll_loop fuel cancelled
          else
            let* r := run_main in
            match r with
            | Ready value =>
                drop_main ;;
                drop_cleanup ;;
                goto Finished ;;
                mret (Ready (Some value))
            | Pending => mret Pending
            end
      | RunningCleanup =>
          let* r := run_cleanup in
          match r with
          | Ready _ =>
              drop_cleanup ;;
              goto Finished ;;
              mret (Ready None)
          | Pending => mret Pending
          end
      | Finished => mfault Panic
      end
  end.

Definition cancellable_poll (cancelled : bool) : M Cancellable (poll (option Out)) :=
  poll_loop 2 cancelled.

(** [Drop for Cancellable] *)
Definition cancellable_drop : M Cancellable unit :=
  let* this := mget in
  match state this with
  | RunningMain => drop_main ;; drop_cleanup
  | RunningCleanup => drop_cleanup
  | Finished => mret tt
  end.

(** Polling with the given cancellation answers until the future is ready or
    the answers run out. *)
Fixpoint poll_all (answers : list bool) : M Cancellable (option (option Out)) :=
  match answers with
  | [] => mret None
  | b :: answers =>
      let* r := cancellable_poll b in
      match r with Ready v => mret (Some v) | Pending => poll_all answers end
  end.

(** ** Properties *)

(** The fields that are still there follow the state. *)
Definition consistent (x : Cancellable) : Prop :=
  match state x with
  | RunningMain => main x <> Dropped /\ cleanup x <> Dropped /\ main_drops x = 0%nat /\ cleanup_drops x = 0%nat
  | RunningCleanup => main x = Dropped /\ cleanup x <> Dropped /\ main_drops x = 1%nat /\ cleanup_drops x = 0%nat
  | Finished => main x = Dropped /\ cleanup x = Dropped /\ main_drops x = 1%nat /\ cleanup_drops x = 1%nat
  end.

Lemma cleanup_step b x fuel :
  consistent x -> state x = RunningCleanup ->
  exists r x', poll_loop (S fuel) b x = Done (r, x') /\ consistent x'
    /\ (r = Pending /\ state x' = RunningCleanup \/ r = Ready None /\ state x' = Finished).
Proof.
  destruct x as [st m cl dm dc]. intros Hc Hs. cbn in Hs. subst st. destruct Hc as (Hm & Hcl & Hdm & Hdc).
  cbn in Hm, Hcl, Hdm, Hdc. subst.
  destruct cl as [s|]; [|done]. cbn. unfold bind, mget, run_cleanup. cbn.
  destruct (poll_cleanup s) as [s' [[]|]]; cbn.
  - eexists _, _. split; [reflexivity|]. split; [by cbn|by right].
  - eexists _, _. split; [reflexivity|]. split; [by cbn|by left].
Qed.

Lemma poll_step b x :
  consistent x -> state x <> Finished ->
  exists r x', cancellable_poll b x = Done (r, x') /\ consistent x'
    /\ (r = Pending /\ state x' <> Finished \/ (exists v, r = Ready v) /\ state x' = Finished).
Proof.
  intros Hc Hs. destruct (state x) eqn:E; [| |done].
  - destruct x as [st m cl dm dc]. cbn in E. subst st. destruct Hc as (Hm & Hcl & Hdm & Hdc).
    cbn in Hm, Hcl, Hdm, Hdc. subst.
    destruct m as [sm|]; [|done]. destruct cl as [sc|]; [|done]. destruct b.
    + destruct (cleanup_step true (mkCancellable RunningCleanup Dropped (Live sc) 1 0) 0)
        as (r & x' & Hr & Hc' & Hor); [by cbn|done|].
      exists r, x'. split; [exact Hr|]. split; [done|].
      destruct Hor as [[-> ->]|[-> ->]]; [by left|right; eauto].
    + unfold cancellable_poll. cbn. unfold bind, mget, run_main. cbn.
      destruct (poll_main sm) as [sm' [v|]]; cbn.
      * eexists _, _. split; [reflexivity|]. split; [by cbn|right; eauto].
      * eexists _, _. split; [reflexivity|]. split; [by cbn|by left].
  - destruct (cleanup_step b x 1 Hc E) as (r & x' & Hr & Hc' & Hor).
    exists r, x'. split; [exact Hr|]. split; [done|].
    destruct Hor as [[-> ->]|[-> ->]]; [by left|right; eauto].
Qed.

Lemma drop_step x :
  consistent x ->
  exists x', cancellable_drop x = Done (tt, x') /\ main_drops x' = 1%nat /\ cleanup_drops x' = 1%nat.
Proof.
  destruct x as [[] m cl dm dc]; intros (Hm & Hcl & Hdm & Hdc); cbn in Hm, Hcl, Hdm, Hdc; subst;
    try (destruct m; [|done]); try (destruct cl; [|done]); eexists; (split; [reflexivity|done]).
Qed.

Lemma poll_all_step answers x :
  consistent x -> state x <> Finished ->
  exists r x', poll_all answers x = Done (r, x') /\ consistent x' /\ (r = None <-> state x' <> Finished).
Proof.
  revert x. induction answers as [|b answers IH]; intros x Hc Hs; cbn [poll_all].
  - exists None, x. split; [done|]. split; [done|]. tauto.
  - destruct (poll_step b x Hc Hs) as (r & x1 & Hr & Hc1 & Hor).
    erewrite bind_done by exact Hr. destruct Hor as [[-> Hs1]|[[v ->] Hs1]]; [by apply IH|].
    exists (Some v), x1. split; [done|]. split; [done|]. split; [done|]. by intros ?.
Qed.

(** C32: whatever is cancelled and whenever polling stops, a cancellable
    future uses only live fields, and by the time it has been dropped its
    main and its cleanup future have each been dropped exactly once. *)
Theorem cancellable_drops_each_once (m : SM) (cl : SC) (answers : list bool) :
  exists r x x', poll_all answers (try_finally m cl) = Done (r, x)
    /\ cancellable_drop x = Done (tt, x') /\ main_drops x' = 1%nat /\ cleanup_drops x' = 1%nat.
Proof.
  destruct (poll_all_step answers (try_finally m cl)) as (r & x & Hr & Hc & _); [by cbn|done|].
  destruct (drop_step x Hc) as (x' & Hd & ?). eauto 10.
Qed.

(** Running a future alone for a number of polls. *)
Fixpoint run_alone {S A : Type} (p : S -> S * poll A) (n : nat) (s : S) : option A :=
  match n with
  | O => None
  | S n => match p s with (_, Ready a) => Some a | (s', Pending) => run_alone p n s' end
  end.

Definition cleanup_result (r : option unit) : option (option Out) :=
  match r with Some _ => Some None | None => None end.

Lemma cleanup_phase (answers : list bool) sc :
  exists x', poll_all answers (mkCancellable RunningCleanup Dropped (Live sc) 1 0)
    = Done (cleanup_result (run_alone poll_cleanup (length answers) sc), x').
Proof.
  revert sc. induction answers as [|b answers IH]; intros sc; cbn [poll_all length run_alone]; [by eexists|].
  unfold cancellable_poll. cbn. unfold bind, mget, run_cleanup. cbn.
  destruct (poll_cleanup sc) as [sc' [[]|]]; cbn; [by eexists|apply IH].
Qed.

(** The result of a cancellable future.  As long as no cancellation is
    taken it behaves as its main future alone and yields that future's value.
    Once a cancellation is taken, after [n] polls that left the main future
    pending, it behaves as the cleanup future alone, starting in the same
    poll, and yields no value. *)
Theorem cancellable_result (m : SM) (cl : SC) (n : nat) (rest : list bool) :
  (exists x, poll_all (replicate n false) (try_finally m cl)
             = Done (option_map Some (run_alone poll_main n m), x))
  /\ (run_alone poll_main n m = None ->
      exists x, poll_all (replicate n false ++ true :: rest) (try_finally m cl)
                = Done (cleanup_result (run_alone poll_cleanup (S (length rest)) cl), x)).
Proof.
  revert m. induction n as [|n IH]; intros m; cbn [replicate app].
  - split; [by eexists|]. intros _. cbn [poll_all].
    destruct (cleanup_phase (false :: rest) cl) as [x Hx]. exists x. exact Hx.
  - cbn [poll_all run_alone]. destruct (poll_main m) as [m' [v|]] eqn:Em.
    + split; [|done]. eexists. unfold cancellable_poll, bind. cbn. unfold bind, mget, run_main. cbn.
      rewrite Em. reflexivity.
    + assert (Hstep : cancellable_poll false (try_finally m cl) = Done (Pending, try_finally m' cl))
        by (unfold cancellable_poll; cbn; unfold bind, mget, run_main; cbn; by rewrite Em).
      unfold bind. rewrite Hstep. apply IH.
Qed.
End Cancellable.

(** A future that becomes ready with [v] after [k] polls. *)
Definition countdown {A : Type} (v : A) (k : nat) : nat * poll A :=
  match k with O => (O, Ready v) | S k => (k, Pending) end.

Lemma cancellable_result_witness :
  run_alone (countdown 7) 2 5%nat = None
  /\ exists x, poll_all (countdown 7) (countdown tt) ([false; false] ++ true :: [false]) (try_finally 5%nat 1%nat)
               = Done (Some None, x).
Proof.
  split; [reflexivity|].
  apply (cancellable_result (countdown 7) (countdown tt) 5%nat 1%nat 2 [false]). reflexivity.
Defined.
