(* ===== verification/AsyncOp.v ===== *)
(** * Asynchronous operations

    Models [src/src/async_com.rs]: [AsyncStatus], the shared state of
    [AsyncOperationTask] with its stores and loads, the [get_status] and
    [get_result] methods and their raw callers, and the reference handling
    of the spawn functions over the COM objects of [Wrapper]. *)

From S2P Require Import Prelude Status Refcount Wrapper SmartPtr WrapperFacts Interfaces Demo ComTheorems.

(** ** Status words *)

Inductive AsyncStatus : Type := Started | Completed | Canceled | Error.

#[global] Instance AsyncStatus_eq_dec : EqDecision AsyncStatus.
Proof. solve_decision. Defined.

Definition as_raw (s : AsyncStatus) : Z :=
  match s with Started => 0 | Completed => 1 | Canceled => 2 | Error => 3 end.
Definition from_raw (value : Z) : AsyncStatus :=
  if value =? 0 then Started
  else if value =? 1 then Completed
  else if value =? 2 then Canceled
  else Error.

Lemma from_raw_as_raw s : from_raw (as_raw s) = s.
Proof. by destruct s. Qed.

(** ** The shared state of an operation *)

Section Operation.
Context {V : Type}.

(** [result] is a [MaybeUninit]: [None] when nothing was written. *)
Record AsyncOperationTask : Type := mkOp {
  op_status : Z;
  op_error : NTSTATUS;
  op_result : option V
}.

Definition new_state : AsyncOperationTask := mkOp (as_raw Started) STATUS_UNSUCCESSFUL None.

(** The individual stores, which other threads can observe one by one. *)
Definition write_result (v : V) (s : AsyncOperationTask) : AsyncOperationTask :=
  mkOp (op_status s) (op_error s) (Some v).
Definition store_error_word (e : NTSTATUS) (s : AsyncOperationTask) : AsyncOperationTask :=
  mkOp (op_status s) e (op_result s).
Definition store_status_word (st : AsyncStatus) (s : AsyncOperationTask) : AsyncOperationTask :=
  mkOp (as_raw st) (op_error s) (op_result s).

Abbreviation stores := (list (AsyncOperationTask -> AsyncOperationTask)) (only parsing).
Definition store_result (value : V) : stores :=
  [write_result value; store_error_word STATUS_SUCCESS; store_status_word Completed].
Definition store_error (status : NTSTATUS) : stores :=
  [store_error_word status; store_status_word Error].
Definition store_canceled : stores :=
  [store_error_word STATUS_CANCELLED; store_status_word Canceled].

(** What the task of [spawn_raw_cancellable] stores when [try_finally]
    returns. *)
Definition task_stores (result : option V) : stores :=
  match result with
  | Some value => store_result value
  | None => store_canceled
  end.

Definition apply_stores (fs : stores) (s : AsyncOperationTask) : AsyncOperationTask :=
  fold_left (fun s f => f s) fs s.

Definition load_status (s : AsyncOperationTask) : AsyncStatus := from_raw (op_status s).
Definition load_error (s : AsyncOperationTask) : NTSTATUS := op_error s.
(** [assume_init] on memory that was never written is undefined behaviour. *)
Definition read_result (s : AsyncOperationTask) : outcome V :=
  match op_result s with Some v => Done v | None => Fault UB end.

(** ** The interface methods

    [seen] is the state at the load of the status word, [later] the state at
    the following access: another thread may store in between.  An output
    pointer that is null is [None]. *)
Definition shim_get_status (this_null : bool) (out : option AsyncStatus) (seen : AsyncOperationTask)
    : NTSTATUS * option AsyncStatus :=
  if this_null then (STATUS_UNSUCCESSFUL, out)
  else match out with
       | None => (STATUS_UNSUCCESSFUL, None)
       | Some _ => (STATUS_SUCCESS, Some (load_status seen))
       end.

(** The output is uninitialised memory until it is written. *)
Definition shim_get_result (this_null : bool) (out : option (option V))
    (seen later : AsyncOperationTask) : outcome (NTSTATUS * option (option V)) :=
  if this_null then Done (STATUS_UNSUCCESSFUL, out)
  else match out with
       | None => Done (STATUS_UNSUCCESSFUL, None)
       | Some _ =>
           match load_status seen with
           | Completed =>
               match read_result later with
               | Done value => Done (STATUS_SUCCESS, Some (Some value))
               | Fault f => Fault f
               end
           | Started => Done (STATUS_PENDING, out)
           | Canceled | Error => Done (load_error later, out)
           end
       end.

(** [AsyncOperationRaw::get_status_raw] and [get_result_raw]. *)
Definition get_status_raw (this_null vtbl_null : bool) (seen : AsyncOperationTask)
    : result AsyncStatus NTSTATUS :=
  if this_null then Err STATUS_UNSUCCESSFUL
  else if vtbl_null then Err STATUS_UNSUCCESSFUL
  else
    let '(r, status) := shim_get_status this_null (Some Started) seen in
    if r <? 0 then Err r else Ok (default Started status).

Definition get_result_raw (this_null vtbl_null : bool) (seen later : AsyncOperationTask)
    : outcome (result V NTSTATUS) :=
  if this_null then Done (Err STATUS_UNSUCCESSFUL)
  else if vtbl_null then Done (Err STATUS_UNSUCCESSFUL)
  else
    match shim_get_result this_null (Some None) seen later with
    | Fault f => Fault f
    | Done (r, out) =>
        if r =? STATUS_SUCCESS then
          match out with
          | Some (Some v) => Done (Ok v)
          | _ => Fault UB   (* assume_init of memory nobody wrote *)
          end
        else Done (Err r)
    end.

(** [AsyncOperationRaw::get_status] and [get_result]: [self] is a reference. *)
Definition get_status (vtbl_null : bool) (seen : AsyncOperationTask) : result AsyncStatus NTSTATUS :=
  get_status_raw false vtbl_null seen.
Definition get_result (vtbl_null : bool) (seen later : AsyncOperationTask) : outcome (result V NTSTATUS) :=
  get_result_raw false vtbl_null seen later.

(** ** What observers see *)

(** How an operation ends. *)
Inductive ending : Type :=
| EndsWith (v : V)
| EndsCancelled
| EndsWithError (e : NTSTATUS).

Definition ending_stores (e : ending) : stores :=
  match e with
  | EndsWith v => task_stores (Some v)
  | EndsCancelled => task_stores None
  | EndsWithError e => store_error e
  end.

(** The state after the first [n] stores. *)
Definition after (e : ending) (n : nat) : AsyncOperationTask :=
  apply_stores (take n (ending_stores e)) new_state.

Definition answer (e : ending) : result V NTSTATUS :=
  match e with
  | EndsWith v => Ok v
  | EndsCancelled => Err STATUS_CANCELLED
  | EndsWithError e => Err e
  end.

Definition final_status (e : ending) : AsyncStatus :=
  match e with EndsWith _ => Completed | EndsCancelled => Canceled | EndsWithError _ => Error end.

(** C33: an observer of an operation sees either that it is still pending or
    exactly how it ended, never a mixture.  The status is read after [n] of
    the stores that end the operation, and the result or the error word later,
    after [k] of them.  Before the last store, which publishes the end,
    [get_status] answers [Started] and [get_result] STATUS_PENDING; from it
    on, [get_status] answers [Completed], [Canceled] or [Error] as the
    operation ended, and [get_result] the value, STATUS_CANCELLED or the
    error, and never reads a result that was not written.  The error an
    operation ends with must not be STATUS_SUCCESS.  A null interface pointer
    or vtable is answered with STATUS_UNSUCCESSFUL. *)
Theorem get_result_is_consistent (e : ending) (n k : nat) :
  (n <= k)%nat -> e <> EndsWithError STATUS_SUCCESS ->
  get_status false (after e n)
    = Ok (if (n <? length (ending_stores e))%nat then Started else final_status e)
  /\ get_result false (after e n) (after e k)
     = Done (if (n <? length (ending_stores e))%nat then Err STATUS_PENDING else answer e)
  /\ (forall this_null vtbl_null, this_null || vtbl_null = true ->
       get_status_raw this_null vtbl_null (after e n) = Err STATUS_UNSUCCESSFUL
       /\ get_result_raw this_null vtbl_null (after e n) (after e k) = Done (Err STATUS_UNSUCCESSFUL)).
Proof.
  intros Hnk He. split; [|split; [|by intros [] []]]; unfold after, get_result, get_status; destruct e as [v| |err].
  - destruct n as [|[|[|n]]]; try reflexivity. cbn. by rewrite take_nil.
  - destruct n as [|[|n]]; try reflexivity. cbn. by rewrite take_nil.
  - destruct n as [|[|n]]; try reflexivity. cbn. by rewrite take_nil.
  - destruct n as [|[|[|n]]]; try reflexivity.
    destruct k as [|[|[|k]]]; try lia. cbn. by rewrite !take_nil.
  - destruct n as [|[|n]]; try reflexivity.
    destruct k as [|[|k]]; try lia. cbn. by rewrite !take_nil.
  - destruct n as [|[|n]]; try reflexivity.
    destruct k as [|[|k]]; try lia. cbn. rewrite !take_nil.
    unfold get_result_raw. cbn. destruct (Z.eqb_spec err STATUS_SUCCESS) as [->|]; congruence.
Qed.

(** An operation created with [spawn_async_operation_error] and
    STATUS_SUCCESS as the error makes [get_result] claim success without
    having written a result, so the caller reads uninitialised memory. *)
Theorem error_with_success_status_is_unsound (k : nat) :
  (2 <= k)%nat ->
  get_result_raw false false (after (EndsWithError STATUS_SUCCESS) k)
    (after (EndsWithError STATUS_SUCCESS) k) = Fault UB.
Proof. intros Hk. destruct k as [|[|k]]; [lia|lia|]. unfold after. cbn. by rewrite take_nil. Qed.
End Operation.
Arguments AsyncOperationTask : clear implicits.
Arguments ending : clear implicits.

Lemma get_result_is_consistent_witness :
  get_status false (after (EndsWith 11) 2) = Ok Started
  /\ get_result false (after (EndsWith 11) 3) (after (EndsWith 11) 3) = Done (Ok 11)
  /\ get_status (V := Z) false (after EndsCancelled 2) = Ok Canceled.
Proof.
  split; [|split].
  - apply (get_result_is_consistent (EndsWith 11) 2 3); [lia|discriminate].
  - apply (get_result_is_consistent (EndsWith 11) 3 3); [lia|discriminate].
  - apply (get_result_is_consistent (V := Z) EndsCancelled 2 2); [lia|discriminate].
Defined.

Lemma error_with_success_status_is_unsound_witness :
  get_result_raw (V := Z) false false (after (EndsWithError STATUS_SUCCESS) 2)
    (after (EndsWithError STATUS_SUCCESS) 2) = Fault UB.
Proof. apply (error_with_success_status_is_unsound (V := Z) 2). lia. Defined.

(** ** Spawning *)

(** The vtable type of the interface.  [AsyncOperationTask] has no
    destructor outside the crate's own tests, and its [query_interface]
    answers nothing. *)
Record AsyncOperationVtbl : Type := mkAsyncVtbl { avt_iid : GUID }.

#[global] Instance AsyncOperationTask_com (V : Type) : ComImpl AsyncOperationVtbl (AsyncOperationTask V) := {|
  VTABLE := fun v _ => mkIVtbl IUnknownVtbl_new (avt_iid v);
  query_interface := fun _ _ _ _ => None
|}.

#[global] Instance AsyncOperationTask_drop (V : Type) : DropGlue (AsyncOperationTask V) := fun t => (t, []).

Section Spawn.
Context {V A X H : Type}.
Context `{!Allocator A, !Foreign X}.
Context (c : config) (fuel : nat) (iface : AsyncOperationVtbl).

Abbreviation Op := (AsyncOperationTask V).
Abbreviation W := (world AsyncOperationVtbl Op A X).

(** The end of the task: [wrapper.inner] is written through the pointer the
    task holds, then [TaskGuard] is dropped. *)
Definition finish_task (task_ptr : ptr) (result : option V) : M W NTSTATUS :=
  let* (l, wrapper) := from_ptr task_ptr in
  put_obj l (set_inner wrapper (apply_stores (task_stores result) (inner wrapper))) ;;
  shim_release c (call c fuel) task_ptr ;;
  mret STATUS_SUCCESS.

(** [spawn] is the call of [spawn_dpc_task_cancellable] with the task that
    holds the pointer it is given. *)
Definition spawn_raw_cancellable (spawn : ptr -> M W (result H NTSTATUS))
    : M W (result (ptr * H) NTSTATUS) :=
  let* r := new c fuel iface new_state in
  match r with
  | Err status => mret (Err status)
  | Ok p =>
      shim_add_ref c (call c fuel) p ;;
      let* task_ptr := lift (GuardPtr_new p) in
      let* handle := spawn (GuardPtr_as_ptr task_ptr) in
      match handle with
      | Ok handle => mret (Ok (p, handle))
      | Err status =>
          shim_release c (call c fuel) p ;;
          shim_release c (call c fuel) p ;;
          mret (Err status)
      end
  end.

Definition spawn_raw (spawn : ptr -> M W (result H NTSTATUS)) : M W (result ptr NTSTATUS) :=
  let* r := spawn_raw_cancellable spawn in
  match r with
  | Ok (p, _handle) => mret (Ok p)
  | Err status => mret (Err status)
  end.

Definition spawn_error_raw (status : NTSTATUS) : M W (result ptr NTSTATUS) :=
  new c fuel iface (apply_stores (store_error status) new_state).

(** [AsyncOperationTask::spawn] and [spawn_cancellable]. *)
Definition spawn (spawn_task : ptr -> M W (result H NTSTATUS)) : M W (result ComRc NTSTATUS) :=
  let* r := spawn_raw spawn_task in
  match r with
  | Ok p => let* rc := lift (from_raw_unchecked p) in mret (Ok rc)
  | Err status => mret (Err status)
  end.
Definition spawn_cancellable (spawn_task : ptr -> M W (result H NTSTATUS))
    : M W (result (ComRc * H) NTSTATUS) :=
  let* r := spawn_raw_cancellable spawn_task in
  match r with
  | Ok (p, handle) => let* op := lift (from_raw_unchecked p) in mret (Ok (op, handle))
  | Err status => mret (Err status)
  end.

(** ** The free functions *)

Definition spawn_async_operation_raw_cancellable (spawn_task : ptr -> M W (result H NTSTATUS))
    : M W (result (ptr * H) NTSTATUS) := spawn_raw_cancellable spawn_task.
Definition spawn_async_operation_error_raw (status : NTSTATUS) : M W (result ptr NTSTATUS) :=
  spawn_error_raw status.
Definition spawn_async_operation (spawn_task : ptr -> M W (result H NTSTATUS)) : M W (result ComRc NTSTATUS) :=
  spawn spawn_task.
Definition spawn_async_operation_cancellable (spawn_task : ptr -> M W (result H NTSTATUS))
    : M W (result (ComRc * H) NTSTATUS) := spawn_cancellable spawn_task.
Definition spawn_async_operation_error (status : NTSTATUS) : M W (result ComRc NTSTATUS) :=
  let* r := spawn_async_operation_error_raw status in
  match r with
  | Ok p => let* rc := lift (from_raw_unchecked p) in mret (Ok rc)
  | Err status => mret (Err status)
  end.

Lemma shim_release_live (rec : ref_fn -> ptr -> M W Z) w l o :
  heap w !! l = Some o -> standalone o ->
  shim_release c rec (obj l) w = with_panic_guard (release_own c rec (fun _ => GlobalAllocator) l) w.
Proof.
  intros Hl Hs. apply guard_ext. erewrite bind_done by (by apply from_ptr_live).
  cbv beta iota. by rewrite delegating_release_standalone.
Qed.

(** The object of an operation in state [s], with [n] references. *)
Definition op_object (l : loc) (s : Op) (n : Z) : ComObject AsyncOperationVtbl Op A :=
  set_ref_count (fresh_object l iface None s GlobalAllocator) n.

Lemma op_object_release w l s :
  shim_release c (call c fuel) (obj l) (write_obj w l (op_object l s 2))
  = Done (1, write_obj w l (op_object l s 1)).
Proof.
  rewrite (shim_release_live _ _ l (op_object l s 2)); [|apply lookup_insert_eq|done].
  apply guard_done. rewrite (release_own_not_last c _ _ _ l (op_object l s 2));
    [by rewrite write_write|apply lookup_insert_eq|unfold u32_MAX; cbn; lia].
Qed.

Lemma op_object_last_release w l s :
  alloc_block GlobalAllocator (dom (heap w)) = Some l ->
  shim_release c (call c fuel) (obj l) (write_obj w l (op_object l s 1))
  = Done (0, created_and_destroyed w l GlobalAllocator).
Proof.
  intros Ha. rewrite (shim_release_live _ _ l (op_object l s 1)); [|apply lookup_insert_eq|done].
  assert (Hwf : wf_obj l (op_object l s 1)) by (by apply fresh_object_wf).
  pose proof (create_then_destroy c fuel w l _ (obj l) GlobalAllocator s Ha Hwf eq_refl eq_refl
    (or_introl Logic.I) eq_refl) as Hr.
  rewrite (Release_own c fuel (write_obj w l (op_object l s 1)) l (op_object l s 1)) in Hr;
    [exact Hr|apply lookup_insert_eq|done|done|by left].
Qed.

Lemma op_object_created w l :
  alloc_block GlobalAllocator (dom (heap w)) = Some l ->
  new c fuel iface new_state w = Done (Ok (obj l), write_obj w l (op_object l new_state 1)).
Proof. intros Ha. unfold new. by rewrite new_in_result, Ha. Qed.

Lemma op_object_add_ref w l s :
  shim_add_ref c (call c fuel) (obj l) (write_obj w l (op_object l s 1))
  = Done (2, write_obj w l (op_object l s 2)).
Proof.
  rewrite (shim_add_ref_live c (call c fuel) _ l (op_object l s 1));
    [by rewrite write_write|apply lookup_insert_eq|done|].
  unfold MAX_REFCOUNT, i32_MAX. cbn. lia.
Qed.

(** Spawning, for an executor that changes nothing when it refuses. *)
Lemma spawn_raw_cancellable_result (spawn_task : ptr -> M W (result H NTSTATUS)) w l r w2 :
  alloc_block GlobalAllocator (dom (heap w)) = Some l ->
  spawn_task (obj l) (write_obj w l (op_object l new_state 2)) = Done (r, w2) ->
  (forall s, r = Err s -> w2 = write_obj w l (op_object l new_state 2)) ->
  spawn_raw_cancellable spawn_task w
  = match r with
    | Ok h => Done (Ok (obj l, h), w2)
    | Err s => Done (Err s, created_and_destroyed w l GlobalAllocator)
    end.
Proof.
  intros Ha Hs Hr. unfold spawn_raw_cancellable.
  erewrite bind_done by (by apply op_object_created). cbv beta iota.
  erewrite bind_done by apply op_object_add_ref. erewrite bind_done by reflexivity.
  erewrite bind_done by exact Hs. destruct r as [h|s]; [done|]. rewrite (Hr s eq_refl).
  erewrite bind_done by apply op_object_release. by erewrite bind_done by (by apply op_object_last_release).
Qed.

Lemma finish_task_result w l st result :
  finish_task (obj l) result (write_obj w l (op_object l st 2))
  = Done (STATUS_SUCCESS, write_obj w l (op_object l (apply_stores (task_stores result) st) 1)).
Proof.
  unfold finish_task. erewrite bind_done by (apply from_ptr_live; apply lookup_insert_eq).
  cbv beta iota. erewrite bind_done; [|reflexivity].
  change (bind (shim_release c (call c fuel) (obj l)) (fun _ => mret STATUS_SUCCESS)
    (write_obj (write_obj w l (op_object l st 2)) l (op_object l (apply_stores (task_stores result) st) 2)) =
    Done (STATUS_SUCCESS, write_obj w l (op_object l (apply_stores (task_stores result) st) 1))).
  rewrite write_write. by erewrite bind_done by apply op_object_release.
Qed.

(** The references of a spawned operation.  When the executor takes the
    task, the object has two references, the caller's and the task's; when it
    refuses, both are given back, the object is destroyed once, the memory is
    as before and the caller gets the executor's error.  When the task ends
    it stores its result, or the cancellation, and gives back its reference:
    the caller's keeps the object and the answer alive. *)
Theorem spawn_balances_references (spawn_task : ptr -> M W (result H NTSTATUS)) (w : W) (l : loc) :
  alloc_block GlobalAllocator (dom (heap w)) = Some l ->
  let w1 := write_obj w l (op_object l new_state 2) in
  (forall h, spawn_task (obj l) w1 = Done (Ok h, w1) ->
     spawn_cancellable spawn_task w = Done (Ok (mkRc (obj l), h), w1))
  /\ (forall s, spawn_task (obj l) w1 = Done (Err s, w1) ->
     spawn_cancellable spawn_task w = Done (Err s, created_and_destroyed w l GlobalAllocator))
  /\ (forall result,
     finish_task (obj l) result w1
     = Done (STATUS_SUCCESS,
             write_obj w l (op_object l (apply_stores (task_stores result) new_state) 1))).
Proof.
  intros Ha w1. split; [|split]; intros x; [| |apply finish_task_result].
  all: intros Hs; unfold spawn_cancellable;
    by erewrite bind_done by (by apply spawn_raw_cancellable_result with (1 := Ha) (2 := Hs)).
Qed.
End Spawn.

Lemma spawn_balances_references_witness :
  spawn_cancellable (V := Z) (A := demo_alloc) (X := Z) demo_cfg 1 (mkAsyncVtbl IID_IUNKNOWN)
    (fun _ => mret (Err (A := unit) STATUS_NOT_SUPPORTED)) (mkWorld _ _ _ _ ∅ 1 [])
  = Done (Err STATUS_NOT_SUPPORTED, created_and_destroyed (mkWorld _ _ _ _ ∅ 1 []) 2 global_alloc).
Proof.
  refine (proj1 (proj2 (spawn_balances_references (V := Z) (A := demo_alloc) (X := Z) (H := unit) demo_cfg 1
    (mkAsyncVtbl IID_IUNKNOWN) (fun _ => mret (Err STATUS_NOT_SUPPORTED)) (mkWorld _ _ _ _ ∅ 1 []) 2 _))
    STATUS_NOT_SUPPORTED _); reflexivity.
Defined.
