(* ===== verification/AsyncTask.v ===== *)
(** * Asynchronous operations on the executor

    The future that [spawn_raw_cancellable] of [src/src/async_com.rs] hands to
    [spawn_dpc_task_cancellable]: an async block that holds a reference to
    the operation, awaits the user's future through [try_finally], stores the
    result and gives the reference back.  Here the parts meet: the operation
    of [AsyncOp], the cancellable future of [Task] and the histories of the
    executor of [ExecutorFuture]. *)

From S2P Require Import Prelude Status Refcount Programs Executor ExecutorSem ExecutorSafety ExecutorTheorems ExecutorWake ExecutorFuture.
From S2P Require Import Wrapper SmartPtr WrapperFacts Interfaces Demo ComTheorems Task AsyncOp.

Section AsyncTask.
Context {SM V A X H : Type}.
Context `{!Allocator A, !Foreign X}.
Context (c : config) (fuel : nat) (iface : AsyncOperationVtbl).
(** The user's future. *)
Context (poll_main : SM -> SM * poll V).

Abbreviation W := (world AsyncOperationVtbl (AsyncOperationTask V) A X).

Abbreviation Fut := (Cancellable (SM := SM) (SC := unit)).

(** ** The async block *)

(** [async {}], the cleanup of the operation, is ready at once. *)
Definition poll_nothing (s : unit) : unit * poll unit := (s, Ready tt).

(** Before the first poll; suspended in [try_finally(..).await], with
    [_guard] alive; and after its return, where the awaited future is gone
    and only its counters are kept. *)
Inductive op_task : Type :=
| OpUnstarted (main : SM)
| OpAwaiting (f : Fut)
| OpReturned (f : Fut).

(** A call on the awaited future, whose state is a local of the block. *)
Definition on_future {B : Type} (m : M Fut B) (f : Fut) : M W (B * Fut) :=
  fun w => match m f with Done r => Done (r, w) | Fault e => Fault e end.

(** The awaited future is dropped when it is ready, [_guard] at the end. *)
Definition op_resume (task_ptr : ptr) (cancelled : bool) (f : Fut) : M W (op_task * Poll) :=
  let* (r, f) := on_future (cancellable_poll poll_main poll_nothing cancelled) f in
  match r with
  | Pending => mret (OpAwaiting f, PollPending)
  | Ready result =>
      let* (_, f) := on_future cancellable_drop f in
      let* status := finish_task c fuel task_ptr result in
      mret (OpReturned f, PollReady status)
  end.

Definition op_poll (task_ptr : ptr) (cancelled : bool) (t : op_task) : M W (op_task * Poll) :=
  match t with
  | OpUnstarted main => op_resume task_ptr cancelled (try_finally main tt)
  | OpAwaiting f => op_resume task_ptr cancelled f
  | OpReturned _ => mfault Panic
  end.

(** Dropping the block: before the first poll there is no [_guard]. *)
Definition op_drop (task_ptr : ptr) (t : op_task) : M W (option Fut) :=
  match t with
  | OpUnstarted _ => mret None
  | OpAwaiting f =>
      let* (_, f) := on_future cancellable_drop f in
      shim_release c (call c fuel) task_ptr ;;
      mret (Some f)
  | OpReturned f => mret (Some f)
  end.

(** ** Polling it *)

Section Object.
Context (w : W) (l : loc).

(** The memory with the operation in state [st] and [n] references. *)
Abbreviation at_state st n := (write_obj w l (op_object iface l st n)).

Lemma op_resume_cases b f :
  consistent f -> state f <> Finished ->
  (exists f', cancellable_poll poll_main poll_nothing b f = Done (Pending, f')
     /\ consistent f' /\ state f' <> Finished
     /\ op_resume (obj l) b f (at_state new_state 2) = Done ((OpAwaiting f', PollPending), at_state new_state 2))
  \/ (exists v f', cancellable_poll poll_main poll_nothing b f = Done (Ready v, f')
     /\ main_drops f' = 1%nat /\ cleanup_drops f' = 1%nat
     /\ op_resume (obj l) b f (at_state new_state 2)
        = Done ((OpReturned f', PollReady STATUS_SUCCESS),
                at_state (apply_stores (task_stores v) new_state) 1)).
Proof.
  intros Hc Hs. destruct (poll_step poll_main poll_nothing b f Hc Hs) as (r & f' & Hr & Hc' & Hor).
  destruct Hor as [[-> Hs']|[[v ->] Hs']].
  - left. exists f'. split; [done|]. split; [done|]. split; [done|].
    unfold op_resume, on_future, bind. by rewrite Hr.
  - right. exists v, f'. split; [done|].
    unfold consistent in Hc'. rewrite Hs' in Hc'. destruct Hc' as (_ & _ & Hd1 & Hd2).
    split; [done|]. split; [done|]. unfold op_resume, on_future. erewrite bind_done by (by rewrite Hr).
    cbv beta iota. unfold cancellable_drop. erewrite bind_done.
    2: { unfold bind, mget. rewrite Hs'. reflexivity. }
    cbv beta iota. by erewrite bind_done by apply finish_task_result.
Qed.

(** Where the polls of a history leave the block. *)
Lemma polls_of_block ps f :
  consistent f -> state f <> Finished -> Forall pending (removelast ps) ->
  follows (op_poll (obj l)) ps (OpAwaiting f) (at_state new_state 2) ->
  (exists f', poll_all poll_main poll_nothing (map fst ps) f = Done (None, f')
     /\ consistent f' /\ state f' <> Finished
     /\ poll_each (op_poll (obj l)) ps (OpAwaiting f) (at_state new_state 2)
        = Done (OpAwaiting f', at_state new_state 2))
  \/ (exists v f', poll_all poll_main poll_nothing (map fst ps) f = Done (Some v, f')
     /\ main_drops f' = 1%nat /\ cleanup_drops f' = 1%nat
     /\ poll_each (op_poll (obj l)) ps (OpAwaiting f) (at_state new_state 2)
        = Done (OpReturned f', at_state (apply_stores (task_stores v) new_state) 1)).
Proof.
  revert f. induction ps as [|[b r] ps IH]; intros f Hc Hs Hps Hfo.
  { left. exists f. by split_and!. }
  assert (Htl : Forall pending (removelast ps))
    by (destruct ps; [apply Forall_nil|exact (proj2 (proj1 (Forall_cons_iff _ _ _) Hps))]).
  cbn [follows op_poll] in Hfo. cbn [map fst poll_all poll_each op_poll].
  destruct (op_resume_cases b f Hc Hs) as [(f' & Hp & Hc' & Hs' & Hr)|(v & f' & Hp & Hd1 & Hd2 & Hr)];
    rewrite Hr in Hfo; destruct Hfo as [<- Hfo].
  - unfold bind. rewrite Hp, Hr. cbv beta iota. apply IH; try done.
  - right. exists v, f'. unfold bind. rewrite Hp, Hr. cbv beta iota.
    destruct ps as [|q ps]; [by split_and!|]. apply Forall_cons_iff in Hps as [Hps _]. discriminate Hps.
Qed.

(** A block that was not polled behaves as one that awaits its fresh
    future. *)
Lemma unstarted_polls ps m :
  ps <> [] ->
  poll_each (op_poll (obj l)) ps (OpUnstarted m) = poll_each (op_poll (obj l)) ps (OpAwaiting (try_finally m tt))
  /\ follows (op_poll (obj l)) ps (OpUnstarted m) = follows (op_poll (obj l)) ps (OpAwaiting (try_finally m tt)).
Proof. by destruct ps as [|[b r] ps]. Qed.

(** The outcome of a history whose task was dropped: the operation has the
    caller's reference only, and the block's parts were dropped once. *)
Lemma block_life h m :
  obeys h -> h_drops h = 1%nat -> h_polls h <> [] ->
  follows (op_poll (obj l)) (h_polls h) (OpUnstarted m) (at_state new_state 2) ->
  exists r x f st,
    poll_all poll_main poll_nothing (map fst (h_polls h)) (try_finally m tt) = Done (r, x)
    /\ live (op_poll (obj l)) (op_drop (obj l)) h (OpUnstarted m) (at_state new_state 2)
       = Done (inr (Some f), at_state st 1)
    /\ main_drops f = 1%nat /\ cleanup_drops f = 1%nat
    /\ st = match r with None => new_state | Some v => apply_stores (task_stores v) new_state end.
Proof.
  intros Hob Hd Hne Hfo. destruct (unstarted_polls (h_polls h) m Hne) as [He Hf]. rewrite Hf in Hfo.
  destruct (ob_dropped h Hob Hd) as [_ Hcur]. pose proof (ob_polls h Hob) as Hps. rewrite Hcur in Hps.
  unfold live. rewrite He, Hd.
  destruct (polls_of_block (h_polls h) (try_finally m tt)) as [(f & Hp & Hc & Hs & Hr)|(v & f & Hp & H1 & H2 & Hr)];
    try done.
  - destruct (drop_step f Hc) as (f' & Hdr & H1 & H2). exists None, f, f', new_state.
    split; [done|]. split; [|done]. erewrite bind_done by exact Hr. cbv beta iota.
    unfold op_drop, on_future. erewrite bind_done; [reflexivity|].
    erewrite bind_done by (by rewrite Hdr). cbv beta iota. by erewrite bind_done by apply op_object_release.
  - exists (Some v), f, f, (apply_stores (task_stores v) new_state).
    split; [done|]. split; [|done]. by erewrite bind_done by exact Hr.
Qed.
End Object.

(** C7: an asynchronous operation on the executor.  The operation is spawned
    on an executor that accepts its task, and the task runs under any
    schedule of the DPC executor, wakers and the cancellation handle in which
    DPC routines of the task do not overlap, its polls answering what the
    block of [spawn_raw_cancellable] computes.  Once the executor has freed
    the task, the block has never used a dropped field, the user's future and
    the cleanup were dropped once each, and the operation has exactly the
    reference of its owner; and it shows what the user's future, run by
    [try_finally] with the cancellations the schedule delivered, yields: its
    value, the cancellation, or, when it was still pending as the last waker
    went away, that it is pending. *)
Theorem async_operation_on_executor (spawn_task : ptr -> M W (result H NTSTATUS)) (w : W) (l : loc)
    (hd : H) (m : SM) (p : prog unit) (b : budget) (es : list ExecutorSem.event) (s : ExecutorSem.sys) :
  alloc_block GlobalAllocator (dom (heap w)) = Some l ->
  let w1 := write_obj w l (op_object iface l new_state 2) in
  let h := future_history c true es (spawned b p) no_history in
  spawn_task (obj l) w1 = Done (Ok hd, w1) ->
  is_spawn p -> within_limit c true es (spawned b p) -> ExecutorSem.run c true es (spawned b p) = Some s ->
  follows (op_poll (obj l)) (h_polls h) (OpUnstarted m) w1 ->
  m_freed (s_mem s) = true ->
  spawn_async_operation_cancellable c fuel iface spawn_task w = Done (Ok (mkRc (obj l), hd), w1)
  /\ exists r x f st,
    poll_all poll_main poll_nothing (map fst (h_polls h)) (try_finally m tt) = Done (r, x)
    /\ live (op_poll (obj l)) (op_drop (obj l)) h (OpUnstarted m) w1
       = Done (inr (Some f), write_obj w l (op_object iface l st 1))
    /\ main_drops f = 1%nat /\ cleanup_drops f = 1%nat
    /\ st = match r with None => new_state | Some v => apply_stores (task_stores v) new_state end.
Proof.
  intros Ha w1 h Hsp Hp Hw Hr Hfo Hf. split.
  - unfold spawn_async_operation_cancellable, spawn_cancellable.
    by erewrite bind_done by (by apply spawn_raw_cancellable_result with (1 := Ha) (2 := Hsp)).
  - destruct (spawned_obeys c b p es s Hp Hw Hr) as [Hob Hdr]. destruct (Hdr Hf) as [Hd Hne].
    by apply block_life.
Qed.
End AsyncTask.

(** The operation is cancelled before its first poll: the poll takes the
    request, and the future, five polls away from its value, is dropped. *)
Definition cancelled_schedule : list ExecutorSem.event :=
  runs 7 0 ++ [Env EnvCancel] ++ runs 4 1 ++ [Dispatch 5 (Some 0)] ++ runs 6 2
  ++ [Run 2 (mkOracle ([ActTakeCancel], PollReady STATUS_SUCCESS) (0, 0))] ++ runs 8 2
  ++ [Env EnvDropHandle] ++ runs 4 3.
Definition cancelled_end : ExecutorSem.sys :=
  default (spawned default_budget spawn_dpc_task_cancellable)
    (ExecutorSem.run demo_cfg true cancelled_schedule (spawned default_budget spawn_dpc_task_cancellable)).
Definition demo_memory : world AsyncOperationVtbl (AsyncOperationTask Z) demo_alloc Z := mkWorld _ _ _ _ ∅ 1 [].
Definition demo_op (st : AsyncOperationTask Z) (n : Z) :
    world AsyncOperationVtbl (AsyncOperationTask Z) demo_alloc Z :=
  write_obj demo_memory 2 (op_object (mkAsyncVtbl IID_IUNKNOWN) 2 st n).

Lemma async_operation_on_executor_witness :
  let h := future_history demo_cfg true cancelled_schedule
             (spawned default_budget spawn_dpc_task_cancellable) no_history in
  spawn_async_operation_cancellable demo_cfg 1 (mkAsyncVtbl IID_IUNKNOWN) (fun _ => mret (Ok tt)) demo_memory
    = Done (Ok (mkRc (obj 2), tt), demo_op new_state 2)
  /\ exists r x f st,
    poll_all (countdown 7) poll_nothing (map fst (h_polls h)) (try_finally 5%nat tt) = Done (r, x)
    /\ live (op_poll demo_cfg 1 (countdown 7) (obj 2)) (op_drop demo_cfg 1 (obj 2)) h
         (OpUnstarted 5%nat) (demo_op new_state 2)
       = Done (inr (Some f), demo_op st 1)
    /\ main_drops f = 1%nat /\ cleanup_drops f = 1%nat
    /\ st = match r with None => new_state | Some v => apply_stores (task_stores v) new_state end.
Proof.
  apply (async_operation_on_executor (V := Z) (A := demo_alloc) (X := Z) (H := unit) demo_cfg 1
    (mkAsyncVtbl IID_IUNKNOWN) (countdown 7) (fun _ => mret (Ok tt)) demo_memory 2 tt 5%nat
    spawn_dpc_task_cancellable default_budget cancelled_schedule cancelled_end).
  - reflexivity.
  - reflexivity.
  - by left.
  - vm_compute. repeat split.
  - vm_compute. reflexivity.
  - vm_compute. repeat split.
  - vm_compute. reflexivity.
Defined.
