(* ===== verification/AsyncShims.v ===== *)
(** * The shims of async methods

    Models the functions that [declare_com_interface!] generates for an
    [async fn] ([src/src/macros/declare_interface.rs], the [async] arm): the
    reference that the shim takes on its object and hands to the spawned
    future, the [ReleaseGuard] in the future, and the paths on which the
    future cannot be built or spawned.  The asynchronous operations are those
    of [AsyncOp]; the memory of the objects and the tasks of the executor are
    the external state of the memory of the operations. *)

From S2P Require Import Prelude Status Refcount Wrapper SmartPtr WrapperFacts Interfaces Demo ComTheorems MethodShims Task AsyncOp.

Section AsyncShims.
Context {I T A X Args Init F V H : Type}.
Context `{!ComImpl I T, !DropGlue T, !Allocator A, !Foreign X}.
Context (c : config) (fuel : nat) (op_iface : AsyncOperationVtbl).
(** The layouts of the wrapped type and of the allocator type. *)
Context (Tl Al : Layout).
(** The method, which returns an initialiser; [try_pin] with its error as a
    status; and the future it makes. *)
Context (async_method : loc -> T -> Args -> M (world I T A X) Init).
Context (try_pin : Init -> M (world I T A X) (result F NTSTATUS)).
Context (poll_future : F -> F * poll V).

Abbreviation W := (world I T A X).
Abbreviation Obj := (ComObject I T A).

(** ** The async block of a shim

    Its [_guard] is a local variable: it exists from the first poll on. *)
Inductive async_block : Type :=
| Unstarted (future : F) (guard_ptr : GuardPtr) (release : ref_fn)
| Suspended (future : F) (guard : GuardPtr) (release : ref_fn)
| Returned.

Definition release_guard (guard : GuardPtr) (release : ref_fn) : M W unit :=
  call c fuel release (GuardPtr_as_ptr guard) ;; mret tt.

Definition poll_block (b : async_block) : M W (async_block * poll V) :=
  match b with
  | Unstarted future guard release | Suspended future guard release =>
      let '(future, r) := poll_future future in
      match r with
      | Ready value => release_guard guard release ;; mret (Returned, Ready value)
      | Pending => mret (Suspended future guard release, Pending)
      end
  | Returned => mfault Panic
  end.

Definition drop_block (b : async_block) : M W unit :=
  match b with
  | Suspended _ guard release => release_guard guard release
  | Unstarted _ _ _ | Returned => mret tt
  end.

(** ** Objects, operations and tasks

    A task of the executor polls a block for an operation. *)
Record sys : Type := mkSys { objects : W; tasks : list (ptr * async_block) }.

#[local] Instance sys_foreign : Foreign sys := {|
  ext_AddRef := fun e s =>
    let '(r, x) := ext_AddRef e (ext_state (objects s)) in
    (r, mkSys (mkWorld _ _ _ _ (heap (objects s)) x (log (objects s))) (tasks s));
  ext_Release := fun e s =>
    let '(r, x) := ext_Release e (ext_state (objects s)) in
    (r, mkSys (mkWorld _ _ _ _ (heap (objects s)) x (log (objects s))) (tasks s));
  ext_QueryInterface := fun e riid ppv s =>
    let '(r, x) := ext_QueryInterface e riid ppv (ext_state (objects s)) in
    (r, mkSys (mkWorld _ _ _ _ (heap (objects s)) x (log (objects s))) (tasks s))
|}.

Abbreviation OpW := (world AsyncOperationVtbl (AsyncOperationTask V) A sys).

Definition set_sys (s : OpW) (x : sys) : OpW := mkWorld _ _ _ _ (heap s) x (log s).
Definition on_objects {B : Type} (m : M W B) : M OpW B :=
  fun s => match m (objects (ext_state s)) with
           | Done (b, w) => Done (b, set_sys s (mkSys w (tasks (ext_state s))))
           | Fault f => Fault f
           end.
Definition set_tasks (ts : list (ptr * async_block)) : M OpW unit :=
  fun s => Done (tt, set_sys s (mkSys (objects (ext_state s)) ts)).

(** [spawn_dpc_task_cancellable]: the executor accepts the task, or answers
    an error and drops it unpolled. *)
Definition executor (admission : result H NTSTATUS) (b : async_block) (p : ptr)
    : M OpW (result H NTSTATUS) :=
  match admission with
  | Ok h =>
      let* s := mget in
      set_tasks (tasks (ext_state s) ++ [(p, b)]) ;;
      mret (Ok h)
  | Err status => on_objects (drop_block b) ;; mret (Err status)
  end.

(** The stub of a host build polls the task at once.  It keeps a task that is
    pending in the handle, which the shim drops unused: that drops the block
    and the task's reference to the operation. *)
Definition host_executor (handle : H) (b : async_block) (p : ptr) : M OpW (result H NTSTATUS) :=
  let* (b, r) := on_objects (poll_block b) in
  match r with
  | Ready value => finish_task c fuel p (Some value) ;; mret (Ok handle)
  | Pending => on_objects (drop_block b) ;; shim_release c (call c fuel) p ;; mret (Ok handle)
  end.

(** [spawn_async_operation_raw], for an executor; a block that does not reach
    it is dropped unpolled. *)
Definition spawn_async_operation_raw (spawn_task : async_block -> ptr -> M OpW (result H NTSTATUS))
    (b : async_block) : M OpW (result ptr NTSTATUS) :=
  spawn_raw c fuel op_iface (spawn_task b).

(** ** The shims

    The text of the two shims after the null test, for the interface pointer
    [primary] that the references are counted on. *)
Definition async_shim (spawn_task : async_block -> ptr -> M OpW (result H NTSTATUS)) (primary : ptr) (add_ref : M W Z)
    (inner : M W (loc * T)) (release_fn : ref_fn) (args : Args) : M OpW ptr :=
  on_objects add_ref ;;
  let* (l, t) := on_objects inner in
  let* init := on_objects (async_method l t args) in
  let* r := on_objects (try_pin init) in
  match r with
  | Err status =>
      on_objects (call c fuel release_fn primary) ;;
      let* op := spawn_error_raw c fuel op_iface status in
      match op with
      | Ok p => mret p
      | Err _status => mret null
      end
  | Ok future =>
      let* guard_ptr := lift (GuardPtr_new primary) in
      let* op := spawn_async_operation_raw spawn_task (Unstarted future guard_ptr release_fn) in
      match op with
      | Ok p => mret p
      | Err _status =>
          on_objects (call c fuel release_fn primary) ;;
          mret null
      end
  end.

(** [ComObject::shim_add_ref], which finds the outer pointer and the count
    through the view. *)
Definition view_add_ref (this : ptr) : M W Z :=
  let* (_, wrapper) := from_ptr this in
  let found f := reads (ComObject_layout Tl Al) (layout_of Tl Al wrapper) f in
  if found f_outer_unknown && found f_ref_count then call c fuel fn_add_ref this else mfault UB.

Definition shim_async (spawn_task : async_block -> ptr -> M OpW (result H NTSTATUS)) (this : ptr) (args : Args)
    : M OpW ptr :=
  if is_null this then mret null
  else
    on_objects (from_ptr this) ;;
    async_shim spawn_task this (view_add_ref this) (primary_inner Tl Al this) fn_release args.

Definition shim_async_secondary (spawn_task : async_block -> ptr -> M OpW (result H NTSTATUS)) (this : ptr)
    (args : Args) : M OpW ptr :=
  if is_null this then mret null
  else
    let* (l, _) := on_objects (from_secondary_ptr this) in
    let primary := obj l in
    async_shim spawn_task primary (call c fuel fn_N_add_ref primary) (secondary_inner Tl Al this)
      fn_N_release args.

(** ** The executor at work

    Polls its first task.  The handle was dropped by the shim, so nobody can
    request a cancellation and the task polls its block until it is ready. *)
Definition run_task : M OpW unit :=
  let* s := mget in
  match tasks (ext_state s) with
  | [] => mret tt
  | (p, b) :: rest =>
      let* (b, r) := on_objects (poll_block b) in
      match r with
      | Ready value => set_tasks rest ;; finish_task c fuel p (Some value) ;; mret tt
      | Pending => set_tasks ((p, b) :: rest)
      end
  end.

Fixpoint run_tasks (n : nat) : M OpW unit :=
  match n with
  | O => mret tt
  | S n => run_task ;; run_tasks n
  end.

(** The future is ready with [v] at its poll number [n + 1]. *)
Fixpoint ready_after (n : nat) (f : F) (v : V) : Prop :=
  match n with
  | O => snd (poll_future f) = Ready v
  | S n => snd (poll_future f) = Pending /\ ready_after n (fst (poll_future f)) v
  end.

(** ** Theorems *)

Implicit Types (w : W) (s : OpW).

Lemma on_objects_done {B : Type} (m : M W B) s b w :
  m (objects (ext_state s)) = Done (b, w) ->
  on_objects m s = Done (b, set_sys s (mkSys w (tasks (ext_state s)))).
Proof. intros E. unfold on_objects. by rewrite E. Qed.

Lemma set_sys_id s : set_sys s (mkSys (objects (ext_state s)) (tasks (ext_state s))) = s.
Proof. by destruct s as [? []]. Qed.

(** The memory of the operations when an operation cannot be allocated. *)
Definition unplaced s : OpW := mkWorld _ _ _ _ (heap s) (ext_state s) (log s ++ [DropUnplaced]).

(** The way of the shim through the memory of the objects: [w1] once it took
    its reference, [wm] after the call of the method, [w2] after [try_pin],
    and [w3] once the reference is given back. *)
Section Taken.
Context (s : OpW) (w1 wm w2 w3 : W) (primary : ptr) (add_ref : M W Z) (inner_of : M W (loc * T))
  (release_fn : ref_fn) (l : loc) (t : T) (args : Args) (init : Init).
Context (Hn : is_null primary = false).
Context (Hadd : exists n, add_ref (objects (ext_state s)) = Done (n, w1)).
Context (Hinner : inner_of w1 = Done ((l, t), w1)).
Context (Hrel : exists n, call c fuel release_fn primary w2 = Done (n, w3)).
Context (Hmethod : async_method l t args w1 = Done (init, wm)).

Abbreviation shim ex := (async_shim ex primary add_ref inner_of release_fn args).
Abbreviation taken := (set_sys s (mkSys w2 (tasks (ext_state s)))).
Definition given_back : OpW := set_sys s (mkSys w3 (tasks (ext_state s))).

Lemma async_shim_taken ex r :
  try_pin init wm = Done (r, w2) ->
  shim ex s
  = match r with
    | Err status =>
        bind (on_objects (call c fuel release_fn primary)) (fun _ =>
          let* op := spawn_error_raw c fuel op_iface status in
          match op with Ok p => mret p | Err _ => mret null end) taken
    | Ok future =>
        bind (spawn_async_operation_raw ex (Unstarted future (mkGuard primary) release_fn)) (fun op =>
          match op with
          | Ok p => mret p
          | Err _ => on_objects (call c fuel release_fn primary) ;; mret null
          end) taken
    end.
Proof using Hadd Hinner Hmethod Hn.
  intros Hr. unfold async_shim. destruct Hadd as [n Ha].
  erewrite bind_done by (by apply on_objects_done).
  erewrite bind_done by (by apply on_objects_done). cbv beta iota.
  erewrite bind_done by (by apply on_objects_done).
  erewrite bind_done by (by apply on_objects_done).
  destruct r as [f|status]; [|done].
  unfold GuardPtr_new. by rewrite Hn.
Qed.

(** The release gives back what was taken. *)
Lemma release_taken s' :
  exists n, on_objects (call c fuel release_fn primary) (set_sys s' (mkSys w2 (tasks (ext_state s))))
            = Done (n, set_sys s' (mkSys w3 (tasks (ext_state s)))).
Proof using Hrel.
  destruct Hrel as [n Hr]. exists n. unfold on_objects.
  cbn [set_sys ext_state objects tasks]. by rewrite Hr.
Qed.

(** What the shim returns and leaves behind. *)
Definition shim_outcome (adm : result H NTSTATUS) (r : result F NTSTATUS) : outcome (ptr * OpW) :=
  match r, alloc_block GlobalAllocator (dom (heap s)) with
  | Err status, Some lo =>
      Done (obj lo, write_obj given_back lo (op_object op_iface lo (apply_stores (store_error status) new_state) 1))
  | Ok future, Some lo =>
      match adm with
      | Ok _ =>
          Done (obj lo,
            write_obj (set_sys s (mkSys w2 (tasks (ext_state s)
                         ++ [(obj lo, Unstarted future (mkGuard primary) release_fn)])))
              lo (op_object op_iface lo new_state 2))
      | Err _ => Done (null, created_and_destroyed given_back lo GlobalAllocator)
      end
  | _, None => Done (null, unplaced given_back)
  end.

(** Without a future or memory for the operation no executor is reached. *)
Lemma async_shim_fails ex adm r :
  try_pin init wm = Done (r, w2) ->
  alloc_block GlobalAllocator (dom (heap s)) = None \/ (exists status, r = Err status) ->
  shim ex s = shim_outcome adm r.
Proof using Hadd Hinner Hmethod Hrel Hn.
  intros Hr Hf. rewrite (async_shim_taken ex r Hr). unfold shim_outcome.
  destruct r as [future|status].
  - destruct Hf as [Ea|[? ?]]; [|done]. rewrite Ea.
    unfold spawn_async_operation_raw, spawn_raw, spawn_raw_cancellable, new. rewrite !bind_assoc.
    assert (Hnew : new_in c fuel op_iface new_state GlobalAllocator taken
                   = Done (Err STATUS_INSUFFICIENT_RESOURCES, unplaced taken))
      by (by rewrite new_in_result; cbn [heap set_sys]; rewrite Ea).
    erewrite bind_done by exact Hnew. cbv beta iota. do 2 (erewrite bind_done by reflexivity; cbv beta iota).
    destruct (release_taken (unplaced s)) as [n Hn']. erewrite bind_done by exact Hn'.
    done.
  - destruct (release_taken s) as [n Hn']. erewrite bind_done by exact Hn'.
    fold given_back. unfold spawn_error_raw, new.
    destruct (alloc_block GlobalAllocator (dom (heap s))) as [lo|] eqn:Ea;
      by erewrite bind_done by (rewrite new_in_result; cbn [heap set_sys given_back]; by rewrite Ea).
Qed.

Lemma async_shim_outcome adm r :
  try_pin init wm = Done (r, w2) -> shim (executor adm) s = shim_outcome adm r.
Proof using Hadd Hinner Hmethod Hrel Hn.
  intros Hr. destruct r as [future|status]; [|apply async_shim_fails; eauto].
  destruct (alloc_block GlobalAllocator (dom (heap s))) as [lo|] eqn:Ea; [|apply async_shim_fails; auto].
  rewrite (async_shim_taken (executor adm) _ Hr). unfold shim_outcome. rewrite Ea.
  destruct adm as [h|status]; unfold spawn_async_operation_raw, spawn_raw; rewrite bind_assoc.
  - erewrite bind_done; [|eapply (spawn_raw_cancellable_result c fuel op_iface _ taken lo (Ok h) _ Ea);
      [reflexivity|done]].
    done.
  - erewrite bind_done; [|eapply (spawn_raw_cancellable_result c fuel op_iface _ taken lo (Err status) _ Ea);
      [reflexivity|done]].
    cbv beta iota. erewrite bind_done by reflexivity. cbv beta iota.
    destruct (release_taken (created_and_destroyed s lo GlobalAllocator)) as [n Hn'].
    erewrite bind_done by exact Hn'. done.
Qed.

(** On a host the operation is over or, with a future that is pending, will
    never be. *)
Definition host_outcome (r : result F NTSTATUS) : outcome (ptr * OpW) :=
  match alloc_block GlobalAllocator (dom (heap s)) with
  | None => Done (null, unplaced given_back)
  | Some lo =>
      let st := match r with
                | Err status => apply_stores (store_error status) new_state
                | Ok f => match snd (poll_future f) with
                          | Ready v => apply_stores (store_result v) new_state
                          | Pending => new_state
                          end
                end in
      Done (obj lo, write_obj given_back lo (op_object op_iface lo st 1))
  end.

Lemma host_shim_outcome h r :
  try_pin init wm = Done (r, w2) -> shim (host_executor h) s = host_outcome r.
Proof using Hadd Hinner Hmethod Hrel Hn.
  intros Hr. unfold host_outcome. destruct r as [f|status].
  2: { rewrite (async_shim_fails _ (Ok h) _ Hr) by eauto. unfold shim_outcome. by destruct (alloc_block _ _). }
  destruct (alloc_block GlobalAllocator (dom (heap s))) as [lo|] eqn:Ha.
  2: { rewrite (async_shim_fails _ (Ok h) _ Hr) by auto. unfold shim_outcome. by rewrite Ha. }
  rewrite (async_shim_taken _ _ Hr). unfold spawn_async_operation_raw, spawn_raw. rewrite bind_assoc.
  destruct Hrel as [k Hk].
  set (st := match snd (poll_future f) with Ready v => _ | Pending => _ end).
  erewrite bind_done; [|eapply (spawn_raw_cancellable_result c fuel op_iface _ taken lo (Ok h)
    (write_obj given_back lo (op_object op_iface lo st 1)) Ha); [|discriminate]]; [done|].
  unfold host_executor, st. destruct (poll_future f) as [f' [v|]] eqn:Hp; cbn [snd].
  - erewrite bind_done; [|apply on_objects_done; cbn; rewrite Hp; unfold release_guard; rewrite bind_assoc;
      by erewrite bind_done by exact Hk].
    cbv beta iota. by erewrite bind_done by (apply (finish_task_result c fuel op_iface given_back lo new_state (Some v))).
  - erewrite bind_done; [|apply on_objects_done; cbn; by rewrite Hp]. cbv beta iota.
    erewrite bind_done; [|apply on_objects_done; cbn; unfold release_guard; by erewrite bind_done by exact Hk].
    by erewrite bind_done by (apply (op_object_release c fuel op_iface given_back lo new_state)).
Qed.

(** Polling the task of the operation until its future is ready. *)
Definition holds_guard (b : async_block) (f : F) : Prop :=
  b = Unstarted f (mkGuard primary) release_fn \/ b = Suspended f (mkGuard primary) release_fn.

Lemma run_tasks_completes n v lo b f base :
  holds_guard b f -> ready_after n f v ->
  run_tasks (S n) (write_obj (set_sys base (mkSys w2 [(obj lo, b)])) lo (op_object op_iface lo new_state 2))
  = Done (tt, write_obj (set_sys base (mkSys w3 [])) lo
                (op_object op_iface lo (apply_stores (store_result v) new_state) 1)).
Proof using Hrel.
  revert b f. induction n as [|n IH]; intros b f Hb Hready.
  - cbn [run_tasks]. unfold run_task. rewrite bind_assoc. erewrite bind_done by reflexivity.
    cbn [tasks ext_state write_obj set_sys]. destruct Hrel as [k Hk].
    assert (Hp : poll_block b w2 = Done ((Returned, Ready v), w3)).
    { cbn in Hready. destruct Hb as [-> | ->]; cbn; destruct (poll_future f) as [f' r]; cbn in Hready; subst r;
        unfold release_guard; rewrite bind_assoc; by erewrite bind_done by exact Hk. }
    rewrite bind_assoc. erewrite bind_done by (apply on_objects_done; exact Hp). cbv beta iota.
    rewrite bind_assoc. erewrite bind_done by reflexivity. rewrite bind_assoc.
    erewrite bind_done by (apply (finish_task_result c fuel op_iface (set_sys base (mkSys w3 [])) lo new_state (Some v))).
    done.
  - destruct Hready as [Hp Hready]. cbn [run_tasks].
    assert (H1 : run_task (write_obj (set_sys base (mkSys w2 [(obj lo, b)])) lo (op_object op_iface lo new_state 2))
      = Done (tt, write_obj (set_sys base (mkSys w2
          [(obj lo, Suspended (fst (poll_future f)) (mkGuard primary) release_fn)])) lo
                    (op_object op_iface lo new_state 2))).
    { unfold run_task. erewrite bind_done by reflexivity. cbn [tasks ext_state write_obj set_sys].
      assert (Hpoll : poll_block b w2
        = Done ((Suspended (fst (poll_future f)) (mkGuard primary) release_fn, Pending), w2))
        by (destruct Hb as [-> | ->]; cbn; destruct (poll_future f) as [f' r]; cbn in Hp; by subst r).
      erewrite bind_done by (apply on_objects_done; exact Hpoll). done. }
    erewrite bind_done by exact H1. apply (IH _ (fst (poll_future f))); [by right|done].
Qed.
End Taken.

(** *** The two shims *)

(** The interface pointers the shims of an object are called on, and the
    shim in their vtables. *)
Definition called_on (l : loc) (o : Obj) (this : ptr) : Prop :=
  match kind o with
  | Single => this = obj l
  | Multi => exists i, this = sec l i /\ (i < length (secondaries o))%nat
  end.
Definition shim_of (o : Obj)
    : (async_block -> ptr -> M OpW (result H NTSTATUS)) -> ptr -> Args -> M OpW ptr :=
  match kind o with Single => shim_async | Multi => shim_async_secondary end.
Definition release_of (o : Obj) : ref_fn :=
  match kind o with Single => fn_release | Multi => fn_N_release end.
Definition counted w l (o : Obj) : W := write_obj w l (set_ref_count o (ref_count o + 1)).
Definition uncounted w l (o : Obj) : W := write_obj w l (set_ref_count o (ref_count o - 1)).

(** The object [o] is still there as [o2], with the reference of the shim and
    that of its caller. *)
Definition still_there (w2 : W) (l : loc) (o o2 : Obj) : Prop :=
  heap w2 !! l = Some o2 /\ kind o2 = kind o /\ standalone o2 /\ 2 <= ref_count o2 <= MAX_REFCOUNT.

Lemma release_still_there n l o w2 o2 :
  fuel = S n -> still_there w2 l o o2 ->
  exists k, call c fuel (release_of o) (obj l) w2 = Done (k, uncounted w2 l o2).
Proof.
  intros -> (Hl2 & Hk & Hs2 & Hr2). exists (ref_count o2 - 1).
  assert (Hn : forall ra, release_own c (call c n) ra l w2 = Done (ref_count o2 - 1, uncounted w2 l o2)).
  { intros ra. apply release_own_not_last; [done|]. unfold MAX_REFCOUNT, i32_MAX, u32_MAX in *. lia. }
  unfold release_of. destruct (kind o); cbn [call call_ref_fn]; apply guard_done;
    (erewrite bind_done by (by apply from_ptr_live)); cbv beta iota;
    by rewrite delegating_release_standalone.
Qed.

Section Object.
Context (HT : good_layout Tl) (HA : good_layout Al).
Context (n : nat) (Hfuel : fuel = S n) (l : loc) (o : Obj) (w : W).
Context (Hl : heap w !! l = Some o) (Hwf : wf_obj l o) (Hs : standalone o).
Context (Hr : 1 <= ref_count o < MAX_REFCOUNT).

Lemma call_add_ref fn : fn = fn_add_ref \/ fn = fn_N_add_ref ->
  call c fuel fn (obj l) w = Done (ref_count o + 1, counted w l o).
Proof using Hfuel Hl Hs Hr.
  rewrite Hfuel. intros [-> | ->]; apply (shim_add_ref_live c (call c n) w l o Hl Hs); lia.
Qed.

(** The view of a [ComObject] finds the fields of one. *)
Lemma view_reads (x : Obj) f lay :
  kind x = Single -> (f, lay) ∈ ComObject_fields Tl Al ->
  reads (ComObject_layout Tl Al) (layout_of Tl Al x) f = true.
Proof using HT HA.
  intros Hk Hf. pose proof (layout_of_reads Tl Al HT HA x f lay) as Hown.
  unfold layout_of, fields_of in *. rewrite Hk in *. by apply Hown.
Qed.

(** The shims reach their common part with the reference taken. *)
Lemma shim_of_reaches ex s this args (Q : outcome (ptr * OpW)) :
  objects (ext_state s) = w -> called_on l o this ->
  (forall add_ref inner_of,
     (exists n, add_ref w = Done (n, counted w l o)) ->
     inner_of (counted w l o) = Done ((l, inner o), counted w l o) ->
     async_shim ex (obj l) add_ref inner_of (release_of o) args s = Q) ->
  shim_of o ex this args s = Q.
Proof using HT HA Hfuel Hl Hwf Hs Hr.
  intros Hw Hthis HQ. set (o1 := set_ref_count o (ref_count o + 1)).
  assert (Hl1 : heap (counted w l o) !! l = Some o1) by apply lookup_insert_eq.
  assert (Hwf1 : wf_obj l o1)
    by (apply set_ref_count_wf; [done|unfold u32, u32_MAX, MAX_REFCOUNT, i32_MAX in *; lia]).
  unfold shim_of, called_on, release_of in *. destruct (kind o) eqn:Hk.
  - subst this. unfold shim_async. cbn [is_null].
    assert (Hf : on_objects (from_ptr (obj l)) s = Done ((l, o), s)).
    { rewrite <- (set_sys_id s) at 2. apply on_objects_done. rewrite Hw. by apply from_ptr_live. }
    erewrite bind_done by exact Hf. apply HQ.
    + exists (ref_count o + 1). unfold view_add_ref. erewrite bind_done by (by apply from_ptr_live).
      cbv beta zeta iota. rewrite (view_reads _ f_outer_unknown (mkLayout 16 8)),
        (view_reads _ f_ref_count (mkLayout 4 4)) by (done || set_solver). apply call_add_ref. by left.
    + by apply (primary_inner_single Tl Al HT HA (counted w l o) l o1).
  - destruct Hthis as (i & -> & Hi). unfold shim_async_secondary. cbn [is_null].
    assert (Hf : on_objects (from_secondary_ptr (sec l i)) s = Done ((l, o), s)).
    { rewrite <- (set_sys_id s) at 2. apply on_objects_done. rewrite Hw. by apply from_secondary_ptr_live. }
    erewrite bind_done by exact Hf. cbv beta iota. apply HQ.
    + exists (ref_count o + 1). apply call_add_ref. by right.
    + by apply (secondary_inner_multi Tl Al HT HA (counted w l o) l o1 i).
Qed.

Lemma shim_of_outcome adm s this args init r wm w2 o2 :
  objects (ext_state s) = w -> called_on l o this ->
  async_method l (inner o) args (counted w l o) = Done (init, wm) ->
  try_pin init wm = Done (r, w2) -> still_there w2 l o o2 ->
  shim_of o (executor adm) this args s
  = shim_outcome s w2 (uncounted w2 l o2) (obj l) (release_of o) adm r.
Proof using HT HA Hfuel Hl Hwf Hs Hr.
  intros Hw Hthis Hm Hp H2. apply shim_of_reaches; [done..|]. intros add_ref inner_of Ha Hi.
  eapply async_shim_outcome; [done|by rewrite Hw|exact Hi| |exact Hm|exact Hp].
  by apply (release_still_there n).
Qed.

Lemma shim_of_host h s this args init r wm w2 o2 :
  objects (ext_state s) = w -> called_on l o this ->
  async_method l (inner o) args (counted w l o) = Done (init, wm) ->
  try_pin init wm = Done (r, w2) -> still_there w2 l o o2 ->
  shim_of o (host_executor h) this args s = host_outcome s (uncounted w2 l o2) r.
Proof using HT HA Hfuel Hl Hwf Hs Hr.
  intros Hw Hthis Hm Hp H2. apply shim_of_reaches; [done..|]. intros add_ref inner_of Ha Hi.
  eapply host_shim_outcome; [done|by rewrite Hw|exact Hi| |exact Hm|exact Hp].
  by apply (release_still_there n).
Qed.
End Object.

(** The memory after the shim gave its reference back. *)
Definition returned s w2 l (o2 : Obj) : OpW := given_back s (uncounted w2 l o2).

(** C20: the references an async method takes and gives back.  Its shim is
    called through the interface pointer of a live [ComObject] or a secondary
    interface pointer of a live [ComObjectN]; the primary pointer of a
    [ComObjectN] is not covered ([primary_async_shim_misses_count]).  The
    shim takes one reference and calls the method and [try_pin], which may
    change the memory as long as the object is still there, with the
    references of the shim and of its caller.  When the future cannot be
    built the shim gives the reference back and returns an operation that
    ended with the error; when there is no memory for the operation, or the
    executor refuses the task, it gives the reference back and returns null,
    with no operation left behind.  Otherwise the future holds the reference
    and the caller gets the operation; once the future, whose polls change
    its own state only, is ready, the reference of the object was given back
    and the operation holds the value and the caller's reference only.  A
    null pointer is answered with null. *)
Theorem async_shims_balance_references (n : nat) (l : loc) (o o2 : Obj) (s : OpW) (this : ptr)
    (args : Args) (init : Init) (r : result F NTSTATUS) (adm : result H NTSTATUS) (wm w2 : W) :
  let w := objects (ext_state s) in
  good_layout Tl -> good_layout Al ->
  fuel = S n -> heap w !! l = Some o -> wf_obj l o -> standalone o ->
  1 <= ref_count o < MAX_REFCOUNT -> called_on l o this ->
  async_method l (inner o) args (counted w l o) = Done (init, wm) ->
  try_pin init wm = Done (r, w2) -> still_there w2 l o o2 ->
  shim_of o (executor adm) null args s = Done (null, s)
  /\ match alloc_block GlobalAllocator (dom (heap s)), r, adm with
     | None, _, _ =>
         shim_of o (executor adm) this args s = Done (null, unplaced (returned s w2 l o2))
     | Some lo, Err status, _ =>
         shim_of o (executor adm) this args s
         = Done (obj lo, write_obj (returned s w2 l o2) lo
                           (op_object op_iface lo (apply_stores (store_error status) new_state) 1))
     | Some lo, Ok _, Err _ =>
         shim_of o (executor adm) this args s
         = Done (null, created_and_destroyed (returned s w2 l o2) lo GlobalAllocator)
     | Some lo, Ok future, Ok _ =>
         exists s1, shim_of o (executor adm) this args s = Done (obj lo, s1)
           /\ objects (ext_state s1) = w2
           /\ forall k v, tasks (ext_state s) = [] -> ready_after k future v ->
              run_tasks (S k) s1
              = Done (tt, write_obj (returned s w2 l o2) lo
                            (op_object op_iface lo (apply_stores (store_result v) new_state) 1))
     end.
Proof.
  intros w HT HA Hf Hl Hwf Hs Hr Hthis Hm Hp H2. split; [unfold shim_of; by destruct (kind o)|].
  rewrite (shim_of_outcome HT HA n Hf l o w Hl Hwf Hs Hr adm s this args init r wm w2 o2 eq_refl Hthis Hm Hp H2).
  unfold shim_outcome. fold (returned s w2 l o2).
  destruct (alloc_block GlobalAllocator (dom (heap s))) as [lo|], r as [future|status]; try done.
  destruct adm as [h|status]; [|done]. eexists. split; [done|]. split; [done|].
  intros k v Ht Hready. rewrite Ht. cbn [app].
  rewrite (run_tasks_completes w2 (uncounted w2 l o2) (obj l) (release_of o)
    (release_still_there n l o w2 o2 Hf H2) k v lo _ future s (or_introl eq_refl) Hready).
  unfold returned, given_back. by rewrite Ht.
Qed.

(** With a method that does not touch the memory it is as before. *)
Lemma uncounted_counted w l o :
  heap w !! l = Some o -> uncounted (counted w l o) l (set_ref_count o (ref_count o + 1)) = w.
Proof.
  intros Hl. unfold uncounted, counted. rewrite write_write. cbn [ref_count set_ref_count].
  replace (ref_count o + 1 - 1) with (ref_count o) by lia.
  change (set_ref_count (set_ref_count o (ref_count o + 1)) (ref_count o)) with (set_ref_count o (ref_count o)).
  by rewrite set_ref_count_id, write_id.
Qed.

Lemma counted_still_there w l o :
  standalone o -> 1 <= ref_count o < MAX_REFCOUNT ->
  still_there (counted w l o) l o (set_ref_count o (ref_count o + 1)).
Proof. intros Hs Hr. split; [apply lookup_insert_eq|]. split; [done|]. split; [done|]. cbn. lia. Qed.

(** A block that is dropped before its first poll keeps the reference of the
    object: its guard does not exist yet.  Later it releases it once. *)
Lemma dropped_block_reference (n : nat) (l : loc) (o : Obj) (w : W) (f : F) :
  fuel = S n -> heap w !! l = Some o -> wf_obj l o -> standalone o -> 1 <= ref_count o < MAX_REFCOUNT ->
  drop_block (Unstarted f (mkGuard (obj l)) (release_of o)) (counted w l o) = Done (tt, counted w l o)
  /\ drop_block (Suspended f (mkGuard (obj l)) (release_of o)) (counted w l o) = Done (tt, w)
  /\ drop_block Returned w = Done (tt, w).
Proof.
  intros Hf Hl Hwf Hs Hr. split; [done|]. split; [|done].
  destruct (release_still_there n l o (counted w l o) _ Hf (counted_still_there w l o Hs Hr)) as [k Hk].
  rewrite (uncounted_counted w l o Hl) in Hk. cbn [drop_block]. unfold release_guard.
  by erewrite bind_done by exact Hk.
Qed.

(** The primary shim of an object with secondary interfaces does not even find
    the reference count. *)
Lemma primary_async_shim_misses_count ex s l o args :
  heap (objects (ext_state s)) !! l = Some o -> kind o = Multi -> secondaries o <> [] ->
  shim_async ex (obj l) args s = Fault UB.
Proof.
  intros Hl Hk Hs. unfold shim_async. cbn [is_null].
  assert (Hf : on_objects (from_ptr (obj l)) s = Done ((l, o), s)).
  { rewrite <- (set_sys_id s) at 2. apply on_objects_done. by apply from_ptr_live. }
  erewrite bind_done by exact Hf. unfold async_shim. apply bind_fault. unfold on_objects, view_add_ref.
  erewrite bind_done by (by apply from_ptr_live). cbv beta iota zeta. unfold layout_of, fields_of. rewrite Hk.
  fold (ComObjectN_layout Tl Al (length (secondaries o))).
  assert (0 < length (secondaries o))%nat by (destruct (secondaries o); [done|cbn; lia]).
  by erewrite (reads_misplaced Tl Al _ f_outer_unknown) by (done || auto).
Qed.
End AsyncShims.

(** ** Witness

    A future that yields once and returns 7, on a plain object. *)
Definition countdown (f : nat) : nat * poll Z :=
  match f with O => (O, Ready 7) | S f => (f, Pending) end.
Definition quiet_method (l : loc) (t : demo) (x : nat) : M (world nat demo demo_alloc Z) nat := mret x.
Definition pins (i : nat) : M (world nat demo demo_alloc Z) (result nat NTSTATUS) := mret (Ok i).
Definition demo_ops :
    world AsyncOperationVtbl (AsyncOperationTask Z) demo_alloc
      (sys (I:=nat) (T:=demo) (A:=demo_alloc) (X:=Z) (F:=nat)) :=
  mkWorld _ _ _ _ ∅ (mkSys (demo_with (demo_plain demo_unit 1)) []) [].

Lemma async_shims_balance_references_witness :
  exists s1,
    shim_async demo_cfg 1 (mkAsyncVtbl IID_IUNKNOWN) word unit_layout quiet_method pins
      (executor demo_cfg 1 (Ok (E := NTSTATUS) tt)) (obj 2) 1%nat demo_ops = Done (obj 2, s1)
    /\ run_tasks demo_cfg 1 countdown 2 s1
       = Done (tt, write_obj demo_ops 2 (op_object (mkAsyncVtbl IID_IUNKNOWN) 2
                     (apply_stores (store_result 7) new_state) 1)).
Proof.
  destruct (async_shims_balance_references demo_cfg 1 (mkAsyncVtbl IID_IUNKNOWN) word unit_layout
    quiet_method pins countdown 0 2 (demo_plain demo_unit 1) (demo_plain demo_unit 2) demo_ops (obj 2)
    1%nat 1%nat (Ok 1%nat) (Ok (E := NTSTATUS) tt) (demo_with (demo_plain demo_unit 2))
    (demo_with (demo_plain demo_unit 2))) as [_ H].
  - apply word_good.
  - apply unit_layout_good.
  - reflexivity.
  - reflexivity.
  - apply demo_plain_wf; [done|]. unfold u32, u32_MAX. lia.
  - exact Logic.I.
  - unfold MAX_REFCOUNT, i32_MAX. cbn. lia.
  - reflexivity.
  - reflexivity.
  - reflexivity.
  - split; [reflexivity|]. split; [reflexivity|]. split; [exact Logic.I|].
    unfold MAX_REFCOUNT, i32_MAX. cbn. lia.
  - destruct H as (s1 & H1 & _ & H2). exists s1. split; [exact H1|].
    apply (H2 1%nat 7); [reflexivity|]. split; reflexivity.
Defined.
