(* ===== verification/Allocator.v ===== *)
(** * Kernel memory and the pool allocators

    Models [src/src/allocator.rs] in a driver build: the [Allocator] trait
    with its helpers, [WdkAllocator] with and without [wdk-alloc-align] and
    debug assertions, the driver's [GlobalAllocator], and the lazy resolution
    of ExAllocatePool2.

    Memory is a function from addresses to bytes, together with the live pool
    blocks.  The kernel's own routines are the members of the class [Kernel],
    with their documented behaviour as its laws.  The target is 64-bit. *)

From S2P Require Import Prelude Status.

(** ** Memory *)

Definition memory : Type := Z -> Z.

Definition store_bytes (a : Z) (bs : list Z) (m : memory) : memory :=
  fun x => if a <=? x then match bs !! Z.to_nat (x - a) with Some b => b | None => m x end else m x.
Definition load_bytes (a n : Z) (m : memory) : list Z := (fun i => m (a + i)) <$> seqZ 0 n.

(** A [usize] in little-endian order. *)
Definition usize_bytes (v : Z) : list Z := Z_to_little_endian 8 8 v.
Definition write_usize (a v : Z) (m : memory) : memory := store_bytes a (usize_bytes v) m.
Definition read_usize (a : Z) (m : memory) : Z := little_endian_to_Z 8 (load_bytes a 8 m).

(** [ptr::write_bytes(p, 0, n)] *)
Definition write_zeros (a n : Z) (m : memory) : memory :=
  fun x => if (a <=? x) && (x <? a + n) then 0 else m x.

(** The kernel state: memory, the live pool blocks by base address with
    their size and tag, the two statics of the ExAllocatePool2 cache, the
    current IRQL, and the values that were dropped in place. *)
Record kernel : Type := mkKernel {
  mem : memory;
  blocks : gmap Z (Z * Z);
  EX_ALLOCATE_POOL2_STATE : Z;
  EX_ALLOCATE_POOL2_PTR : Z;
  irql : Z;
  drops : list Z
}.

Definition set_mem (f : memory -> memory) (k : kernel) : kernel :=
  mkKernel (f (mem k)) (blocks k) (EX_ALLOCATE_POOL2_STATE k) (EX_ALLOCATE_POOL2_PTR k) (irql k) (drops k).
Definition set_blocks (f : gmap Z (Z * Z) -> gmap Z (Z * Z)) (k : kernel) : kernel :=
  mkKernel (mem k) (f (blocks k)) (EX_ALLOCATE_POOL2_STATE k) (EX_ALLOCATE_POOL2_PTR k) (irql k) (drops k).
Definition set_pool2 (state ptr : Z) (k : kernel) : kernel :=
  mkKernel (mem k) (blocks k) state ptr (irql k) (drops k).
Definition log_drop (p : Z) (k : kernel) : kernel :=
  mkKernel (mem k) (blocks k) (EX_ALLOCATE_POOL2_STATE k) (EX_ALLOCATE_POOL2_PTR k) (irql k) (drops k ++ [p]).

Definition update (f : kernel -> kernel) : M kernel unit := fun k => Done (tt, f k).

(** ** The kernel's routines *)

Definition POOL_FLAG_PAGED : Z := 0x00000001.
Definition POOL_FLAG_UNINITIALIZED : Z := 0x00000002.
Definition POOL_FLAG_NON_PAGED : Z := 0x00000040.
Definition POOL_TYPE_PAGED : Z := 1.
Definition POOL_TYPE_NON_PAGED_NX : Z := 512.
Definition PASSIVE_LEVEL : Z := 0.

(** "ExAllocatePool2" in UTF-16 with the trailing NUL. *)
Definition EX_ALLOCATE_POOL2_NAME : list Z :=
  [69; 120; 65; 108; 108; 111; 99; 97; 116; 101; 80; 111; 111; 108; 50; 0].

Definition WDK_ALLOC_ALIGNMENT : Z := 16.

(** A request of [n] bytes answered with block [b]: null, or a block of the
    address space that overlaps no live block and has the pool's alignment. *)
Definition grants (bs : gmap Z (Z * Z)) (n b : Z) : Prop :=
  b = 0
  \/ (0 < b /\ b + n <= usize_MAX + 1 /\ b mod WDK_ALLOC_ALIGNMENT = 0
      /\ forall b' n' t, bs !! b' = Some (n', t) -> b + n <= b' \/ b' + n' <= b).

(** The pool allocation routines, as the choice of a block.  [routine_at]
    is the code at an address; [MmGetSystemRoutineAddress] finds a routine of
    that name, or answers null.  Below, a block that ExAllocatePool2 grants
    is zeroed unless [POOL_FLAG_UNINITIALIZED] is given, and
    ExAllocatePoolWithTag leaves memory as it was. *)
Class Kernel : Type := {
  routine_at : Z -> Z -> Z -> Z -> gmap Z (Z * Z) -> Z;
  ExAllocatePoolWithTag : Z -> Z -> Z -> gmap Z (Z * Z) -> Z;
  MmGetSystemRoutineAddress : list Z -> Z;
  pool2_grants : forall flags n tag bs,
    MmGetSystemRoutineAddress (take 15 EX_ALLOCATE_POOL2_NAME) <> 0 -> 0 < n ->
    grants bs n (routine_at (MmGetSystemRoutineAddress (take 15 EX_ALLOCATE_POOL2_NAME)) flags n tag bs);
  pool_grants : forall ty n tag bs, 0 < n -> grants bs n (ExAllocatePoolWithTag ty n tag bs)
}.

(** [ExFreePoolWithTag]: the pointer must be the base of a live block with
    the same tag, or the machine stops. *)
Definition ExFreePoolWithTag (p tag : Z) : M kernel unit := fun k =>
  match blocks k !! p with
  | Some (_, t) => if t =? tag then Done (tt, set_blocks (delete p) k) else Fault UB
  | None => Fault UB
  end.

(** ** The allocators *)

Inductive PoolType : Type := NonPagedNx | Paged.

Record WdkAllocator : Type := mkWdk { pool : PoolType; tag : Z }.

(** The cargo features and profile that select the code. *)
Record build : Type := mkBuild { wdk_alloc_align : bool; debug_assertions : bool }.

Definition EX_ALLOCATE_POOL2_STATE_UNINIT : Z := 0.
Definition EX_ALLOCATE_POOL2_STATE_INITING : Z := 1.
Definition EX_ALLOCATE_POOL2_STATE_READY : Z := 2.

Definition WDK_ALLOC_MAGIC : Z := 0x4b434f4d.

Record WdkAllocHeader : Type := mkHeader { magic : Z; base : Z; h_align : Z }.

(** [size_of::<WdkAllocHeader>()] with debug assertions, [size_of::<usize>()]
    without. *)
Definition WDK_ALLOC_HEADER_SIZE (b : build) : Z := if debug_assertions b then 24 else 8.

(** [x - y] on [usize]: overflow checks come with debug assertions. *)
Definition usize_sub (b : build) (x y : Z) : outcome Z :=
  if y <=? x then Done (x - y) else if debug_assertions b then Fault Panic else Done (wrap 64 (x - y)).
(** [!x] on [usize]. *)
Definition usize_not (x : Z) : Z := usize_MAX - x.

Section Allocators.
Context `{!Kernel} (b : build).

Definition try_init_ex_allocate_pool2 : M kernel unit :=
  let* k := mget in
  if PASSIVE_LEVEL <? irql k then mret tt
  else if negb (EX_ALLOCATE_POOL2_STATE k =? EX_ALLOCATE_POOL2_STATE_UNINIT) then mret tt
  else
    update (set_pool2 EX_ALLOCATE_POOL2_STATE_INITING (EX_ALLOCATE_POOL2_PTR k)) ;;
    let ptr := MmGetSystemRoutineAddress (take (30 / 2) EX_ALLOCATE_POOL2_NAME) in
    update (set_pool2 EX_ALLOCATE_POOL2_STATE_INITING ptr) ;;
    update (set_pool2 EX_ALLOCATE_POOL2_STATE_READY ptr).

Definition init_ex_allocate_pool2 : M kernel unit := try_init_ex_allocate_pool2.

Definition get_ex_allocate_pool2 : M kernel (option Z) :=
  let* k := mget in
  (if negb (EX_ALLOCATE_POOL2_STATE k =? EX_ALLOCATE_POOL2_STATE_READY)
   then try_init_ex_allocate_pool2 else mret tt) ;;
  let* k := mget in
  if negb (EX_ALLOCATE_POOL2_STATE k =? EX_ALLOCATE_POOL2_STATE_READY) then mret None
  else if EX_ALLOCATE_POOL2_PTR k =? 0 then mret None
  else mret (Some (EX_ALLOCATE_POOL2_PTR k)).

Definition pool_flags (p : PoolType) : Z :=
  match p with NonPagedNx => POOL_FLAG_NON_PAGED | Paged => POOL_FLAG_PAGED end.
Definition pool_type (p : PoolType) : Z :=
  match p with NonPagedNx => POOL_TYPE_NON_PAGED_NX | Paged => POOL_TYPE_PAGED end.

(** The effect of a routine that granted [base]. *)
Definition granted (base n tag : Z) (zero : bool) (k : kernel) : kernel :=
  if base =? 0 then k
  else
    let k := set_blocks <[base := (n, tag)]> k in
    if zero then set_mem (write_zeros base n) k else k.

Definition call_pool2 (func flags n tag : Z) : M kernel Z := fun k =>
  let base := routine_at func flags n tag (blocks k) in
  Done (base, granted base n tag (Z.land flags POOL_FLAG_UNINITIALIZED =? 0) k).
Definition call_pool (ty n tag : Z) : M kernel Z := fun k =>
  let base := ExAllocatePoolWithTag ty n tag (blocks k) in
  Done (base, granted base n tag false k).

Definition ex_allocate_pool (p : PoolType) (n tag : Z) : M kernel Z :=
  let* func := get_ex_allocate_pool2 in
  match func with
  | Some func => call_pool2 func (pool_flags p) n tag
  | None =>
      let* ptr := call_pool (pool_type p) n tag in
      (if negb (ptr =? 0) then update (set_mem (write_zeros ptr n)) else mret tt) ;;
      mret ptr
  end.

Definition ex_allocate_pool_uninitialized (p : PoolType) (n tag : Z) : M kernel Z :=
  let* func := get_ex_allocate_pool2 in
  match func with
  | Some func => call_pool2 func (Z.lor (pool_flags p) POOL_FLAG_UNINITIALIZED) n tag
  | None => call_pool (pool_type p) n tag
  end.

Definition write_header (header_ptr base align : Z) (m : memory) : memory :=
  if debug_assertions b then
    write_usize (header_ptr + 16) align
      (write_usize (header_ptr + 8) base (write_usize header_ptr WDK_ALLOC_MAGIC m))
  else write_usize header_ptr base m.

Definition read_header (header_ptr : Z) (m : memory) : WdkAllocHeader :=
  mkHeader (read_usize header_ptr m) (read_usize (header_ptr + 8) m) (read_usize (header_ptr + 16) m).

Definition assert_overaligned_header (h : WdkAllocHeader) (l : Layout) : outcome unit :=
  if (magic h =? WDK_ALLOC_MAGIC) && (h_align h =? align l) then Done tt else Fault Panic.

Definition needs_overaligned (l : Layout) : bool :=
  if debug_assertions b then true else WDK_ALLOC_ALIGNMENT <? align l.

Definition alloc_overaligned (p : PoolType) (tag : Z) (l : Layout) (zeroed : bool) : M kernel Z :=
  let hs := WDK_ALLOC_HEADER_SIZE b in
  match (match usize_checked_add (size l) (align l) with
         | Some v => usize_checked_add v hs
         | None => None
         end) with
  | None => mret 0
  | Some total =>
      let* base := ex_allocate_pool_uninitialized p total tag in
      if base =? 0 then mret 0
      else
        match usize_checked_add base hs with
        | None => ExFreePoolWithTag base tag ;; mret 0
        | Some start =>
            match usize_checked_add start (align l - 1) with
            | None => ExFreePoolWithTag base tag ;; mret 0
            | Some value =>
                let aligned := Z.land value (usize_not (align l - 1)) in
                let* header_ptr := lift (usize_sub b aligned hs) in
                update (set_mem (write_header header_ptr base (align l))) ;;
                (if zeroed then update (set_mem (write_zeros aligned (size l))) else mret tt) ;;
                mret aligned
            end
        end
  end.

Definition dealloc_overaligned (ptr tag : Z) (l : Layout) : M kernel unit :=
  let* header_ptr := lift (usize_sub b ptr (WDK_ALLOC_HEADER_SIZE b)) in
  let* k := mget in
  if debug_assertions b then
    let header := read_header header_ptr (mem k) in
    lift (assert_overaligned_header header l) ;;
    ExFreePoolWithTag (base header) tag
  else
    ExFreePoolWithTag (read_usize header_ptr (mem k)) tag.

(** [NonNull::<u8>::dangling()] *)
Definition dangling_u8 : Z := 1.

Definition wdk_alloc (a : WdkAllocator) (l : Layout) : M kernel Z :=
  if size l =? 0 then mret dangling_u8
  else if wdk_alloc_align b && needs_overaligned l then alloc_overaligned (pool a) (tag a) l false
  else if negb (wdk_alloc_align b) && (WDK_ALLOC_ALIGNMENT <? align l) then mret 0
  else ex_allocate_pool_uninitialized (pool a) (size l) (tag a).

Definition alloc_uninitialized (a : WdkAllocator) (l : Layout) : M kernel Z :=
  if size l =? 0 then mret dangling_u8
  else if wdk_alloc_align b && needs_overaligned l then alloc_overaligned (pool a) (tag a) l false
  else if negb (wdk_alloc_align b) && (WDK_ALLOC_ALIGNMENT <? align l) then mret 0
  else ex_allocate_pool_uninitialized (pool a) (size l) (tag a).

Definition wdk_alloc_zeroed (a : WdkAllocator) (l : Layout) : M kernel Z :=
  if size l =? 0 then mret dangling_u8
  else if wdk_alloc_align b && needs_overaligned l then alloc_overaligned (pool a) (tag a) l true
  else if negb (wdk_alloc_align b) && (WDK_ALLOC_ALIGNMENT <? align l) then mret 0
  else ex_allocate_pool (pool a) (size l) (tag a).

Definition wdk_dealloc (a : WdkAllocator) (ptr : Z) (l : Layout) : M kernel unit :=
  if size l =? 0 then mret tt
  else if wdk_alloc_align b && debug_assertions b then dealloc_overaligned ptr (tag a) l
  else if wdk_alloc_align b && (WDK_ALLOC_ALIGNMENT <? align l) then dealloc_overaligned ptr (tag a) l
  else ExFreePoolWithTag ptr (tag a).

(** The driver's [GlobalAllocator]: non-paged pool with the tag "KCOM". *)
Definition GLOBAL_POOL_TAG : Z := little_endian_to_Z 8 [75; 67; 79; 77].
Definition global_wdk : WdkAllocator := mkWdk NonPagedNx GLOBAL_POOL_TAG.
Definition global_alloc_fn (l : Layout) : M kernel Z := wdk_alloc global_wdk l.
Definition global_alloc_zeroed (l : Layout) : M kernel Z := wdk_alloc_zeroed global_wdk l.
Definition global_dealloc (ptr : Z) (l : Layout) : M kernel unit := wdk_dealloc global_wdk ptr l.
End Allocators.

(** ** Layouts and the invariant of the kernel state *)

Definition isize_MAX : Z := 9223372036854775807.

(** What [Layout] guarantees: a power of two alignment, and a size that fits
    an [isize]. *)
Definition valid_layout (l : Layout) : Prop :=
  (exists e, 0 <= e < 64 /\ align l = 2 ^ e) /\ 0 <= size l <= isize_MAX.

(** [Layout::array::<T>(n)], where [elem] is the layout of [T]. *)
Definition layout_array (elem : Layout) (n : Z) : option Layout :=
  if negb (size elem =? 0) && ((isize_MAX + 1 - align elem) / size elem <? n) then None
  else Some (mkLayout (size elem * n) (align elem)).

Section Invariant.
Context `{!Kernel}.

(** The cache holds the address of the routine once it is ready; live blocks
    are not empty and do not overlap. *)
Record kernel_ok (k : kernel) : Prop := {
  ok_pool2 : EX_ALLOCATE_POOL2_STATE k = EX_ALLOCATE_POOL2_STATE_READY ->
    EX_ALLOCATE_POOL2_PTR k = MmGetSystemRoutineAddress (take 15 EX_ALLOCATE_POOL2_NAME);
  ok_positive : forall a n t, blocks k !! a = Some (n, t) -> 0 < a /\ 0 < n;
  ok_disjoint : forall a n t a' n' t',
    blocks k !! a = Some (n, t) -> blocks k !! a' = Some (n', t') -> a <> a' ->
    a + n <= a' \/ a' + n' <= a
}.

(** ** The trait [Allocator]

    [holds a l k p base]: [p] is a live allocation with layout [l] made by
    [a], inside the pool block at [base].  The laws are what the users of an
    allocator rely on. *)
Class RawAllocator (A : Type) : Type := {
  alloc : A -> Layout -> M kernel Z;
  dealloc : A -> Z -> Layout -> M kernel unit;
  holds : A -> Layout -> kernel -> Z -> Z -> Prop;
  alloc_law : forall a l k, valid_layout l -> 0 < size l -> kernel_ok k ->
    exists p k', alloc a l k = Done (p, k') /\ kernel_ok k' /\ drops k' = drops k /\
      ((p = 0 /\ blocks k' = blocks k /\ forall x, mem k' x = mem k x)
       \/ (0 < p /\ p mod align l = 0 /\ exists base n t,
             blocks k !! base = None /\ blocks k' = <[base := (n, t)]> (blocks k)
             /\ base <= p /\ p + size l <= base + n /\ base + n <= usize_MAX + 1
             /\ holds a l k' p base
             /\ forall x, ~ (base <= x < base + n) -> mem k' x = mem k x));
  holds_frame : forall a l k k' p base, holds a l k p base ->
    blocks k' !! base = blocks k !! base ->
    (forall x, base <= x < p -> mem k' x = mem k x) ->
    holds a l k' p base;
  dealloc_law : forall a l k p base, 0 < size l -> kernel_ok k -> holds a l k p base ->
    dealloc a p l k = Done (tt, set_blocks (delete base) k)
}.

Section Helpers.
Context {A : Type} `{!RawAllocator A}.

(** The default method [Allocator::alloc_zeroed]. *)
Definition alloc_zeroed (a : A) (l : Layout) : M kernel Z :=
  let* ptr := alloc a l in
  (if negb (ptr =? 0) then update (set_mem (write_zeros ptr (size l))) else mret tt) ;;
  mret ptr.

(** [NonNull::new(ptr).ok_or(..)] *)
Definition non_null {E : Type} (ptr : Z) (e : E) : result Z E := if ptr =? 0 then Err e else Ok ptr.

Definition try_alloc_layout (a : A) (l : Layout) : M kernel (result Z NTSTATUS) :=
  let* ptr := alloc a l in mret (non_null ptr STATUS_INSUFFICIENT_RESOURCES).

(** A value of type [T] is its bytes; [l] is [Layout::new::<T>()]. *)
Definition try_alloc_value_in (a : A) (l : Layout) (value : list Z) : M kernel (result Z NTSTATUS) :=
  let* ptr := alloc a l in
  match non_null ptr STATUS_INSUFFICIENT_RESOURCES with
  | Err e => mret (Err e)
  | Ok ptr => update (set_mem (store_bytes ptr value)) ;; mret (Ok ptr)
  end.

Definition dealloc_value_in (a : A) (l : Layout) (ptr : Z) : M kernel unit := dealloc a ptr l.

(** The overflow branch fails a debug assertion first. *)
Definition dealloc_slice_in (b : build) (a : A) (elem : Layout) (ptr len : Z) : M kernel unit :=
  match layout_array elem len with
  | Some layout => dealloc a ptr layout
  | None => if debug_assertions b then mfault Panic else mret tt
  end.
End Helpers.
End Invariant.

(** ** The ExAllocatePool2 cache under concurrency

    The two statics are shared by all processors.  A thread runs
    [try_init_ex_allocate_pool2] and [get_ex_allocate_pool2] one atomic
    operation at a time; a schedule says which thread makes the next step,
    and at which IRQL. *)
Inductive cache_pc : Type :=
| Outside                    (* in no call *)
| AtExchange                 (* before the compare_exchange *)
| AtResolve                  (* before MmGetSystemRoutineAddress *)
| AtStorePtr (ptr : Z)       (* before the store of the pointer *)
| AtStoreReady               (* before the store of the ready state *)
| AtLoadPtr.                 (* [get] has seen the ready state *)

(** [resolutions] counts the calls of MmGetSystemRoutineAddress and [seen]
    the pointers that [get] loaded. *)
Record cache : Type := mkCache {
  c_state : Z;
  c_ptr : Z;
  pcs : nat -> cache_pc;
  resolutions : nat;
  seen : list Z
}.

Definition set_pc (t : nat) (pc : cache_pc) (f : nat -> cache_pc) : nat -> cache_pc :=
  fun u => if Nat.eqb u t then pc else f u.

(** What a thread outside of all calls does next. *)
Inductive cache_call : Type := CallInit | CallGet.

Definition cache_step (routine : Z) (c : cache) (step : nat * cache_call * Z) : cache :=
  let '(t, call, irql) := step in
  match pcs c t with
  | Outside =>
      match call with
      | CallInit =>
          if PASSIVE_LEVEL <? irql then c
          else mkCache (c_state c) (c_ptr c) (set_pc t AtExchange (pcs c)) (resolutions c) (seen c)
      | CallGet =>
          if c_state c =? EX_ALLOCATE_POOL2_STATE_READY
          then mkCache (c_state c) (c_ptr c) (set_pc t AtLoadPtr (pcs c)) (resolutions c) (seen c)
          else c
      end
  | AtExchange =>
      if c_state c =? EX_ALLOCATE_POOL2_STATE_UNINIT
      then mkCache EX_ALLOCATE_POOL2_STATE_INITING (c_ptr c) (set_pc t AtResolve (pcs c)) (resolutions c) (seen c)
      else mkCache (c_state c) (c_ptr c) (set_pc t Outside (pcs c)) (resolutions c) (seen c)
  | AtResolve =>
      mkCache (c_state c) (c_ptr c) (set_pc t (AtStorePtr routine) (pcs c)) (S (resolutions c)) (seen c)
  | AtStorePtr ptr =>
      mkCache (c_state c) ptr (set_pc t AtStoreReady (pcs c)) (resolutions c) (seen c)
  | AtStoreReady =>
      mkCache EX_ALLOCATE_POOL2_STATE_READY (c_ptr c) (set_pc t Outside (pcs c)) (resolutions c) (seen c)
  | AtLoadPtr =>
      mkCache (c_state c) (c_ptr c) (set_pc t Outside (pcs c)) (resolutions c) (seen c ++ [c_ptr c])
  end.

Definition cache_init : cache := mkCache EX_ALLOCATE_POOL2_STATE_UNINIT 0 (fun _ => Outside) 0 [].
Definition cache_run (routine : Z) (steps : list (nat * cache_call * Z)) : cache :=
  fold_left (cache_step routine) steps cache_init.
