(* ===== verification/AllocatorTheorems.v ===== *)
(** * Correctness of the pool allocators

    [WdkAllocator] meets the interface [RawAllocator] in every build: what
    it returns is aligned, lies inside a block of its own, and [dealloc]
    finds the block again whatever the user wrote into the allocation. *)

From S2P Require Import Prelude Status Allocator.

(** ** Reading and writing memory *)

Lemma store_bytes_outside a bs m x :
  ~ (a <= x < a + Z.of_nat (length bs)) -> store_bytes a bs m x = m x.
Proof.
  intros Hx. unfold store_bytes. destruct (Z.leb_spec a x); [|done].
  by rewrite lookup_ge_None_2 by lia.
Qed.

Lemma load_store_bytes a bs m : load_bytes a (Z.of_nat (length bs)) (store_bytes a bs m) = bs.
Proof.
  apply list_eq. intros i. unfold load_bytes. rewrite list_lookup_fmap.
  destruct (decide (i < length bs)%nat) as [Hi|Hi].
  - rewrite lookup_seqZ_lt by lia. cbn. unfold store_bytes. destruct (Z.leb_spec a (a + (0 + Z.of_nat i))); [|lia].
    replace (Z.to_nat (a + (0 + Z.of_nat i) - a)) with i by lia.
    by destruct (lookup_lt_is_Some_2 bs i Hi) as [v ->].
  - rewrite lookup_seqZ_ge by lia. cbn. by rewrite lookup_ge_None_2 by lia.
Qed.

Lemma load_bytes_ext a n m m' :
  (forall x, a <= x < a + n -> m x = m' x) -> load_bytes a n m = load_bytes a n m'.
Proof.
  intros Hm. unfold load_bytes. apply list_fmap_ext. intros i x Hx.
  apply lookup_seqZ in Hx as [-> ?]. apply Hm. lia.
Qed.

Lemma length_usize_bytes v : Z.of_nat (length (usize_bytes v)) = 8.
Proof. unfold usize_bytes. by rewrite length_Z_to_little_endian by lia. Qed.

Lemma read_write_usize a v m : usize v -> read_usize a (write_usize a v m) = v.
Proof.
  intros Hv. unfold read_usize, write_usize.
  pose proof (load_store_bytes a (usize_bytes v) m) as Hl. rewrite length_usize_bytes in Hl. rewrite Hl.
  unfold usize_bytes. rewrite little_endian_to_Z_to_little_endian by lia.
  apply Z.mod_small. widths. lia.
Qed.

Lemma read_usize_ext a m m' : (forall x, a <= x < a + 8 -> m x = m' x) -> read_usize a m = read_usize a m'.
Proof. intros Hm. unfold read_usize. by rewrite (load_bytes_ext a 8 m m'). Qed.

Lemma write_usize_outside a v m x : ~ (a <= x < a + 8) -> write_usize a v m x = m x.
Proof. intros Hx. apply store_bytes_outside. by rewrite length_usize_bytes. Qed.

Lemma write_zeros_outside a n m x : ~ (a <= x < a + n) -> write_zeros a n m x = m x.
Proof.
  intros Hx. unfold write_zeros. destruct (Z.leb_spec a x), (Z.ltb_spec x (a + n)); cbn; try done; lia.
Qed.

Lemma write_zeros_inside a n m x : a <= x < a + n -> write_zeros a n m x = 0.
Proof. intros Hx. unfold write_zeros. destruct (Z.leb_spec a x), (Z.ltb_spec x (a + n)); cbn; try done; lia. Qed.

(** ** Rounding up to a power of two *)

Lemma usize_not_ones e : 0 <= e < 64 -> usize_not (2 ^ e - 1) = Z.shiftl (Z.ones (64 - e)) e.
Proof.
  intros He. unfold usize_not. rewrite Z.shiftl_mul_pow2, Z.ones_equiv by lia.
  unfold Z.pred. rewrite Z.mul_add_distr_r, <- Z.pow_add_r by lia.
  replace (64 - e + e) with 64 by lia. widths. lia.
Qed.

Lemma land_usize_not v e : usize v -> 0 <= e < 64 ->
  Z.land v (usize_not (2 ^ e - 1)) = 2 ^ e * (v / 2 ^ e).
Proof.
  intros Hv He. rewrite usize_not_ones by done.
  rewrite (Z.mul_comm (2 ^ e)), <- Z.shiftl_mul_pow2, <- Z.shiftr_div_pow2 by lia.
  apply Z.bits_inj'. intros n Hn. rewrite Z.land_spec.
  destruct (Z.ltb_spec n e) as [Hlt|Hge].
  - rewrite !Z.shiftl_spec_low by done. apply andb_false_r.
  - rewrite !Z.shiftl_spec by lia. rewrite Z.shiftr_spec by lia. replace (n - e + e) with n by lia.
    destruct (Z.ltb_spec n 64) as [Hn64|Hn64].
    + rewrite Z.ones_spec_low by lia. apply andb_true_r.
    + rewrite Z.ones_spec_high by lia. rewrite andb_false_r. symmetry.
      destruct (Z.eq_dec v 0) as [->|]; [apply Z.bits_0|].
      apply Z.bits_above_log2; [widths; lia|]. apply Z.log2_lt_pow2; [widths; lia|].
      apply Z.lt_le_trans with (2 ^ 64); [widths; lia|]. apply Z.pow_le_mono_r; lia.
Qed.

Lemma align_up_spec start e :
  0 <= e < 64 -> 0 <= start -> start + (2 ^ e - 1) <= usize_MAX ->
  let aligned := Z.land (start + (2 ^ e - 1)) (usize_not (2 ^ e - 1)) in
  start <= aligned <= start + (2 ^ e - 1) /\ aligned mod 2 ^ e = 0.
Proof.
  intros He Hs Hm aligned. unfold aligned.
  assert (Hp : 0 < 2 ^ e) by (apply Z.pow_pos_nonneg; lia).
  rewrite land_usize_not by (widths; lia).
  pose proof (Z.div_mod (start + (2 ^ e - 1)) (2 ^ e)) as Hd.
  pose proof (Z.mod_pos_bound (start + (2 ^ e - 1)) (2 ^ e) Hp).
  split; [lia|]. rewrite Z.mul_comm. by apply Z.mod_mul, Z.neq_sym, Z.lt_neq.
Qed.

Section Pool.
Context `{!Kernel}.

(** ** The pool routines *)

Lemma grants_fresh k n b : kernel_ok k -> 0 < n -> grants (blocks k) n b -> b <> 0 -> blocks k !! b = None.
Proof.
  intros Hk Hn [?|(Hb & _ & _ & Hd)] Hb0; [done|]. destruct (blocks k !! b) as [[n' t]|] eqn:E; [|done].
  destruct (ok_positive _ Hk _ _ _ E). destruct (Hd _ _ _ E); lia.
Qed.

Lemma insert_block_ok k k' n t b :
  kernel_ok k -> 0 < n -> grants (blocks k) n b -> b <> 0 ->
  blocks k' = <[b := (n, t)]> (blocks k) ->
  EX_ALLOCATE_POOL2_STATE k' = EX_ALLOCATE_POOL2_STATE k -> EX_ALLOCATE_POOL2_PTR k' = EX_ALLOCATE_POOL2_PTR k ->
  kernel_ok k'.
Proof.
  intros Hk Hn Hg Hb Hbs Hst Hpt. destruct Hg as [?|(Hpos & _ & _ & Hd)]; [done|]. split.
  - rewrite Hst, Hpt. apply Hk.
  - rewrite Hbs. intros a m t' Hl. apply lookup_insert_Some in Hl as [[<- [= <- <-]]|[_ Hl]]; [lia|].
    by apply (ok_positive _ Hk _ _ _ Hl).
  - rewrite Hbs. intros a m t1 a' m' t2 H1 H2 Hne.
    apply lookup_insert_Some in H1 as [[<- [= <- <-]]|[_ H1]], H2 as [[<- [= <- <-]]|[_ H2]]; try done.
    + by apply (Hd _ _ _ H2).
    + destruct (Hd _ _ _ H1); lia.
    + by eapply (ok_disjoint _ Hk).
Qed.

Lemma delete_block_ok k b : kernel_ok k -> kernel_ok (set_blocks (delete b) k).
Proof.
  intros Hk. split; cbn.
  - apply Hk.
  - intros a n t Hl. apply lookup_delete_Some in Hl as [_ Hl]. by apply (ok_positive _ Hk _ _ _ Hl).
  - intros a n t a' n' t' H1 H2. apply lookup_delete_Some in H1 as [_ H1], H2 as [_ H2].
    by eapply (ok_disjoint _ Hk).
Qed.

Lemma set_mem_ok k f : kernel_ok k -> kernel_ok (set_mem f k).
Proof. intros [H1 H2 H3]. by split. Qed.

(** What an operation on the cache leaves alone. *)
Definition same_store (k k' : kernel) : Prop :=
  mem k' = mem k /\ blocks k' = blocks k /\ drops k' = drops k.

Lemma try_init_spec k : kernel_ok k ->
  exists k', try_init_ex_allocate_pool2 k = Done (tt, k') /\ kernel_ok k' /\ same_store k k'.
Proof.
  intros Hk. unfold try_init_ex_allocate_pool2, bind, mget. cbn.
  destruct (PASSIVE_LEVEL <? irql k); [by eexists; split_and!|].
  destruct (EX_ALLOCATE_POOL2_STATE k =? EX_ALLOCATE_POOL2_STATE_UNINIT); cbn; [|by eexists; split_and!].
  eexists. split; [reflexivity|]. split; [|done]. destruct Hk. by split.
Qed.

Lemma get_pool2_spec k : kernel_ok k ->
  exists r k', get_ex_allocate_pool2 k = Done (r, k') /\ kernel_ok k' /\ same_store k k'
    /\ forall f, r = Some f ->
       f = MmGetSystemRoutineAddress (take 15 EX_ALLOCATE_POOL2_NAME) /\ f <> 0.
Proof.
  intros Hk. unfold get_ex_allocate_pool2.
  assert (Hrest : forall k1, kernel_ok k1 -> same_store k k1 ->
    exists r k', (let* k := mget in
      if negb (EX_ALLOCATE_POOL2_STATE k =? EX_ALLOCATE_POOL2_STATE_READY) then mret None
      else if EX_ALLOCATE_POOL2_PTR k =? 0 then mret None
      else mret (Some (EX_ALLOCATE_POOL2_PTR k))) k1 = Done (r, k') /\ kernel_ok k' /\ same_store k k'
      /\ forall f, r = Some f -> f = MmGetSystemRoutineAddress (take 15 EX_ALLOCATE_POOL2_NAME) /\ f <> 0).
  { intros k1 H1 Hs. unfold bind, mget.
    destruct (Z.eqb_spec (EX_ALLOCATE_POOL2_STATE k1) EX_ALLOCATE_POOL2_STATE_READY) as [Hr|]; cbn;
      [|by do 2 eexists; split_and!].
    destruct (Z.eqb_spec (EX_ALLOCATE_POOL2_PTR k1) 0); do 2 eexists; (split_and!; [done..|]); [done|].
    intros f [= <-]. split; [exact (ok_pool2 _ H1 Hr)|done]. }
  erewrite bind_done by reflexivity.
  destruct (negb (EX_ALLOCATE_POOL2_STATE k =? EX_ALLOCATE_POOL2_STATE_READY)).
  - destruct (try_init_spec k Hk) as (k1 & E1 & H1 & Hs). erewrite bind_done by exact E1. by apply Hrest.
  - erewrite bind_done by reflexivity. by apply Hrest.
Qed.

(** A request answered: the block is recorded, and zeroed when [zero]. *)
Definition answered (k : kernel) (n tag : Z) (zero : bool) (base : Z) (k' : kernel) : Prop :=
  kernel_ok k' /\ drops k' = drops k /\ grants (blocks k) n base
  /\ (base = 0 -> blocks k' = blocks k /\ mem k' = mem k)
  /\ (base <> 0 -> blocks k' = <[base := (n, tag)]> (blocks k)
      /\ forall x, mem k' x = if zero then write_zeros base n (mem k) x else mem k x).

Lemma granted_answered k k' n tag zero base :
  kernel_ok k' -> same_store k k' -> 0 < n -> grants (blocks k) n base ->
  answered k n tag zero base (granted base n tag zero k').
Proof.
  intros Hk (Hm & Hb & Hd) Hn Hg. unfold granted, answered.
  destruct (Z.eqb_spec base 0) as [->|Hne]; [by split_and!|].
  rewrite <- Hb in *. split_and!; [|destruct zero; by cbn|done|done|].
  - eapply (insert_block_ok k' _ n tag base); try done; by destruct zero.
  - intros _. split; [by destruct zero|]. rewrite <- Hm. by destruct zero.
Qed.

Lemma ex_allocate_pool_uninitialized_spec p k n tag : kernel_ok k -> 0 < n ->
  exists base k', ex_allocate_pool_uninitialized p n tag k = Done (base, k')
    /\ answered k n tag false base k'.
Proof.
  intros Hk Hn. destruct (get_pool2_spec k Hk) as (r & k1 & E & H1 & Hs & Hf).
  unfold ex_allocate_pool_uninitialized. erewrite bind_done by exact E.
  destruct r as [f|]; do 2 eexists; (split; [reflexivity|]).
  - destruct (Hf f eq_refl) as [-> Hne].
    replace (Z.land (Z.lor (pool_flags p) POOL_FLAG_UNINITIALIZED) POOL_FLAG_UNINITIALIZED =? 0)
      with false by (by destruct p). apply granted_answered; [done..|].
    destruct Hs as (_ & -> & _). by apply pool2_grants.
  - apply granted_answered; [done..|]. destruct Hs as (_ & -> & _). by apply pool_grants.
Qed.

Lemma ex_allocate_pool_spec p k n tag : kernel_ok k -> 0 < n ->
  exists base k', ex_allocate_pool p n tag k = Done (base, k') /\ answered k n tag true base k'.
Proof.
  intros Hk Hn. destruct (get_pool2_spec k Hk) as (r & k1 & E & H1 & Hs & Hf).
  unfold ex_allocate_pool. erewrite bind_done by exact E. destruct r as [f|].
  - do 2 eexists. split; [reflexivity|]. destruct (Hf f eq_refl) as [-> Hne].
    replace (Z.land (pool_flags p) POOL_FLAG_UNINITIALIZED =? 0) with true by (by destruct p).
    apply granted_answered; [done..|]. destruct Hs as (_ & -> & _). by apply pool2_grants.
  - unfold call_pool, bind. set (base := ExAllocatePoolWithTag _ _ _ _).
    assert (Hg : grants (blocks k) n base).
    { unfold base. destruct Hs as (_ & -> & _). by apply pool_grants. }
    pose proof (granted_answered k k1 n tag true base H1 Hs Hn Hg) as Ha. revert Ha.
    unfold granted. destruct (base =? 0); intros Ha; do 2 eexists; (split; [reflexivity|done]).
Qed.

(** ** Over-aligned allocations *)

Section Overaligned.
Context (b : build).

Lemma header_size_pos : 0 < WDK_ALLOC_HEADER_SIZE b.
Proof. unfold WDK_ALLOC_HEADER_SIZE. destruct (debug_assertions b); lia. Qed.

(** The header at [hp] leads back to [base]. *)
Definition header_says (l : Layout) (m : memory) (hp base : Z) : Prop :=
  if debug_assertions b then read_header hp m = mkHeader WDK_ALLOC_MAGIC base (align l)
  else read_usize hp m = base.

Lemma header_says_ext l m m' hp base :
  (forall x, hp <= x < hp + WDK_ALLOC_HEADER_SIZE b -> m' x = m x) ->
  header_says l m hp base -> header_says l m' hp base.
Proof.
  unfold header_says, read_header, WDK_ALLOC_HEADER_SIZE. intros Hx.
  destruct (debug_assertions b); [intros [= <- <- <-]; f_equal|intros <-];
    apply read_usize_ext; intros x ?; apply Hx; lia.
Qed.

Lemma write_header_says l m hp base :
  usize base -> usize (align l) -> header_says l (write_header b hp base (align l) m) hp base.
Proof.
  intros Hb Ha. unfold header_says, write_header, read_header.
  destruct (debug_assertions b); [|by apply read_write_usize]. f_equal; rewrite ?read_write_usize; try done.
  - rewrite (read_usize_ext hp _ (write_usize hp WDK_ALLOC_MAGIC m)); [apply read_write_usize|].
    + unfold WDK_ALLOC_MAGIC. widths. lia.
    + intros x Hx. rewrite !write_usize_outside by lia. done.
  - rewrite (read_usize_ext (hp + 8) _ (write_usize (hp + 8) base (write_usize hp WDK_ALLOC_MAGIC m)));
      [by apply read_write_usize|]. intros x Hx. by rewrite write_usize_outside by lia.
Qed.

Lemma write_header_outside hp base al m x :
  ~ (hp <= x < hp + WDK_ALLOC_HEADER_SIZE b) -> write_header b hp base al m x = m x.
Proof.
  unfold write_header, WDK_ALLOC_HEADER_SIZE. destruct (debug_assertions b); intros Hx;
    by rewrite !write_usize_outside by lia.
Qed.

(** An allocation of [l] at [p] inside the new block at [base], after the
    state [k]; its bytes are zero when [zero]. *)
Definition placed (k : kernel) (l : Layout) (tag : Z) (zero : bool) (p base n : Z) (k' : kernel) : Prop :=
  blocks k !! base = None /\ blocks k' = <[base := (n, tag)]> (blocks k)
  /\ 0 < base /\ base <= p /\ p + size l <= base + n /\ base + n <= usize_MAX + 1 /\ p mod align l = 0
  /\ (forall x, ~ (base <= x < base + n) -> mem k' x = mem k x)
  /\ (zero = true -> forall x, p <= x < p + size l -> mem k' x = 0).

Definition refused (k k' : kernel) : Prop := blocks k' = blocks k /\ mem k' = mem k.

Lemma alloc_overaligned_spec pl tag l zero k :
  valid_layout l -> 0 < size l -> kernel_ok k ->
  exists p k', alloc_overaligned b pl tag l zero k = Done (p, k') /\ kernel_ok k' /\ drops k' = drops k /\
    ((p = 0 /\ refused k k')
     \/ (0 < p /\ exists base n, placed k l tag zero p base n k'
         /\ base <= p - WDK_ALLOC_HEADER_SIZE b
         /\ header_says l (mem k') (p - WDK_ALLOC_HEADER_SIZE b) base)).
Proof.
  intros [(e & He & Hal) Hsz] Hpos Hk. unfold alloc_overaligned, usize_checked_add.
  pose proof header_size_pos as Hhs. set (hs := WDK_ALLOC_HEADER_SIZE b) in *.
  assert (Hap : 0 < align l) by (rewrite Hal; apply Z.pow_pos_nonneg; lia).
  destruct (Z.leb_spec (size l + align l) usize_MAX);
    [|do 2 eexists; split; [reflexivity|]; split_and!; try done; by left].
  destruct (Z.leb_spec (size l + align l + hs) usize_MAX);
    [|do 2 eexists; split; [reflexivity|]; split_and!; try done; by left].
  set (total := size l + align l + hs) in *.
  destruct (ex_allocate_pool_uninitialized_spec pl k total tag Hk) as (base & k1 & E & Hok & Hd & Hg & Hnull & Hgot); [lia|].
  erewrite bind_done by exact E.
  destruct (Z.eqb_spec base 0) as [->|Hne];
    [do 2 eexists; split; [reflexivity|]; split_and!; try done; left; by split; [|apply Hnull]|].
  pose proof (grants_fresh k total base Hk ltac:(lia) Hg Hne) as Hfr.
  destruct Hg as [?|(Hb & Hfit & _ & _)]; [done|]. destruct (Hgot Hne) as [Hbs Hm]. clear Hnull Hgot.
  destruct (Z.leb_spec (base + hs) usize_MAX); [|lia].
  destruct (Z.leb_spec (base + hs + (align l - 1)) usize_MAX); [|lia].
  rewrite Hal in *. destruct (align_up_spec (base + hs) e He ltac:(lia) ltac:(lia)) as [Hr Hmod].
  set (p := Z.land _ _) in *. unfold usize_sub. destruct (Z.leb_spec hs p); [|lia].
  erewrite bind_done by reflexivity. erewrite bind_done by reflexivity.
  assert (Hout : forall x, ~ (base <= x < base + total) -> write_header b (p - hs) base (2 ^ e) (mem k1) x = mem k x).
  { intros x Hx. rewrite write_header_outside by (fold hs; lia). apply Hm. }
  assert (Hhd : header_says l (write_header b (p - hs) base (2 ^ e) (mem k1)) (p - hs) base).
  { rewrite <- Hal. apply write_header_says; widths; lia. }
  destruct zero; (erewrite bind_done by reflexivity); do 2 eexists; (split; [reflexivity|]).
  - split_and!; [by repeat apply set_mem_ok|done|]. right. split; [lia|]. exists base, total.
    unfold placed. split_and!; try done; cbn; try (unfold total; lia); try (by rewrite Hal).
    + intros x Hx. rewrite write_zeros_outside by (unfold total in Hx; lia). by apply Hout.
    + intros _ x Hx. by apply write_zeros_inside.
    + eapply header_says_ext; [|exact Hhd]. fold hs. intros x Hx. apply write_zeros_outside. lia.
  - split_and!; [by apply set_mem_ok|done|]. right. split; [lia|]. exists base, total.
    unfold placed. split_and!; try done; cbn; try (unfold total; lia); by rewrite Hal.
Qed.

(** ** [WdkAllocator] *)

Definition overaligned (l : Layout) : bool := wdk_alloc_align b && needs_overaligned b l.

Definition wdk_holds (a : WdkAllocator) (l : Layout) (k : kernel) (p base : Z) : Prop :=
  (exists n, blocks k !! base = Some (n, tag a))
  /\ if overaligned l then 0 <= base <= p - WDK_ALLOC_HEADER_SIZE b
        /\ header_says l (mem k) (p - WDK_ALLOC_HEADER_SIZE b) base
     else p = base.

(** The branches [alloc], [alloc_uninitialized] and [alloc_zeroed] share. *)
Definition wdk_body (a : WdkAllocator) (l : Layout) (zero : bool) : M kernel Z :=
  if overaligned l then alloc_overaligned b (pool a) (tag a) l zero
  else if negb (wdk_alloc_align b) && (WDK_ALLOC_ALIGNMENT <? align l) then mret 0
  else if zero then ex_allocate_pool (pool a) (size l) (tag a)
  else ex_allocate_pool_uninitialized (pool a) (size l) (tag a).

(** The address 1 has no alignment but 1. *)
Lemma one_mod_align l : valid_layout l -> 1 mod align l = 0 <-> align l = 1.
Proof.
  intros [(e & He & Hal) _]. rewrite Hal.
  assert (Hp : 0 < 2 ^ e) by (apply Z.pow_pos_nonneg; lia).
  split; [|intros ->; done]. intros H0. destruct (Z.eq_dec (2 ^ e) 1); [done|]. rewrite Z.mod_small in H0; lia.
Qed.

Lemma small_alignment_divides l x e :
  align l = 2 ^ e -> 0 <= e -> align l <= WDK_ALLOC_ALIGNMENT -> x mod WDK_ALLOC_ALIGNMENT = 0 ->
  x mod align l = 0.
Proof.
  unfold WDK_ALLOC_ALIGNMENT. intros -> He Hle Hx.
  assert (He4 : e <= 4) by (apply (Z.pow_le_mono_r_iff 2); lia).
  apply Z.mod_divide in Hx as [q Hq]; [|lia]. apply Z.mod_divide; [apply Z.pow_nonzero; lia|].
  exists (q * 2 ^ (4 - e)). rewrite <- Z.mul_assoc, <- Z.pow_add_r by lia.
  by replace (4 - e + e) with 4 by lia.
Qed.

Lemma wdk_body_spec a l zero k :
  valid_layout l -> 0 < size l -> kernel_ok k ->
  exists p k', wdk_body a l zero k = Done (p, k') /\ kernel_ok k' /\ drops k' = drops k /\
    ((p = 0 /\ refused k k')
     \/ (0 < p /\ exists base n, placed k l (tag a) zero p base n k' /\ wdk_holds a l k' p base)).
Proof.
  intros Hv Hpos Hk. unfold wdk_body, wdk_holds. destruct (overaligned l) eqn:Ho.
  - destruct (alloc_overaligned_spec (pool a) (tag a) l zero k Hv Hpos Hk)
      as (p & k' & E & Hok & Hd & Hr). do 2 eexists. split; [exact E|]. split_and!; try done.
    destruct Hr as [?|(Hp & base & n & Hpl & Hle & Hh)]; [by left|right]. split; [done|]. exists base, n.
    split; [done|]. split; [|split; [destruct Hpl as (_ & _ & ? & _); lia|done]].
    exists n. destruct Hpl as (_ & -> & _). apply lookup_insert_eq.
  - destruct (negb (wdk_alloc_align b) && (WDK_ALLOC_ALIGNMENT <? align l)) eqn:Hr.
    { do 2 eexists. split; [reflexivity|]. split_and!; try done. by left. }
    assert (Hsmall : align l <= WDK_ALLOC_ALIGNMENT).
    { unfold overaligned, needs_overaligned in Ho. destruct (wdk_alloc_align b), (debug_assertions b);
        cbn in *; try done; by to_prop. }
    destruct Hv as [(e & He & Hal) _].
    assert (Hans : exists base k', (if zero then ex_allocate_pool (pool a) (size l) (tag a)
        else ex_allocate_pool_uninitialized (pool a) (size l) (tag a)) k = Done (base, k')
        /\ answered k (size l) (tag a) zero base k').
    { destruct zero; [by apply ex_allocate_pool_spec|by apply ex_allocate_pool_uninitialized_spec]. }
    destruct Hans as (base & k' & E & Hok & Hd & Hg & Hnull & Hgot).
    exists base, k'. split; [by rewrite <- E; destruct zero|]. split_and!; try done.
    destruct (Z.eq_dec base 0) as [->|Hne]; [left; split; [done|by apply Hnull]|right].
    pose proof (grants_fresh k (size l) base Hk Hpos Hg Hne). destruct Hg as [?|(Hb & Hfit & Hmod & _)]; [done|].
    destruct (Hgot Hne) as [Hbs Hm]. split; [done|]. exists base, (size l). split.
    + unfold placed. split_and!; try done; try lia.
      * apply (small_alignment_divides l base e); try done; lia.
      * intros x Hx. rewrite Hm. destruct zero; [by apply write_zeros_outside|done].
      * intros -> x Hx. rewrite Hm. by apply write_zeros_inside.
    + split; [|done]. exists (size l). rewrite Hbs. apply lookup_insert_eq.
Qed.

Lemma wdk_alloc_body a l k : 0 < size l -> wdk_alloc b a l k = wdk_body a l false k.
Proof. intros Hs. unfold wdk_alloc, wdk_body. destruct (Z.eqb_spec (size l) 0); [lia|done]. Qed.

Lemma wdk_alloc_zeroed_body a l k : 0 < size l -> wdk_alloc_zeroed b a l k = wdk_body a l true k.
Proof. intros Hs. unfold wdk_alloc_zeroed, wdk_body. destruct (Z.eqb_spec (size l) 0); [lia|done]. Qed.

Lemma wdk_holds_frame a l k k' p base :
  wdk_holds a l k p base -> blocks k' !! base = blocks k !! base ->
  (forall x, base <= x < p -> mem k' x = mem k x) -> wdk_holds a l k' p base.
Proof.
  unfold wdk_holds. intros [Hn Hh] -> Hm. split; [done|]. destruct (overaligned l); [|done].
  destruct Hh as [? Hh]. split; [done|]. eapply header_says_ext; [|exact Hh]. intros x Hx. apply Hm. lia.
Qed.

Lemma wdk_dealloc_spec a l k p base :
  0 < size l -> wdk_holds a l k p base -> wdk_dealloc b a p l k = Done (tt, set_blocks (delete base) k).
Proof.
  intros Hs [[n Hn] Hh].
  assert (Hfree : ExFreePoolWithTag base (tag a) k = Done (tt, set_blocks (delete base) k)).
  { unfold ExFreePoolWithTag. rewrite Hn. by rewrite Z.eqb_refl. }
  assert (Hover : overaligned l = true -> dealloc_overaligned b p (tag a) l k = Done (tt, set_blocks (delete base) k)).
  { intros Ho. rewrite Ho in Hh. destruct Hh as [Hle Hh]. unfold dealloc_overaligned, usize_sub.
    destruct (Z.leb_spec (WDK_ALLOC_HEADER_SIZE b) p); [|lia]. erewrite bind_done by reflexivity.
    erewrite bind_done by reflexivity. unfold header_says in Hh.
    destruct (debug_assertions b); [|by rewrite Hh]. rewrite Hh. unfold assert_overaligned_header. cbn.
    rewrite Z.eqb_refl. by erewrite bind_done by reflexivity. }
  unfold wdk_dealloc. destruct (Z.eqb_spec (size l) 0); [lia|].
  unfold overaligned, needs_overaligned in *.
  destruct (wdk_alloc_align b), (debug_assertions b); cbn in *; try (by apply Hover); try (by subst p).
  destruct (WDK_ALLOC_ALIGNMENT <? align l); [by apply Hover|by subst p].
Qed.

#[global] Program Instance wdk_raw_allocator : RawAllocator WdkAllocator := {|
  alloc := wdk_alloc b;
  dealloc := wdk_dealloc b;
  holds := wdk_holds
|}.
Next Obligation.
  intros a l k Hv Hs Hk. rewrite wdk_alloc_body by done.
  destruct (wdk_body_spec a l false k Hv Hs Hk) as (p & k' & E & Hok & Hd & Hr).
  exists p, k'. split_and!; try done.
  destruct Hr as [(-> & Hb & Hm)|(Hp & base & n & (Hf & Hbs & _ & Hle & Hfit & Hend & Hmod & Hout & _) & Hh)].
  - left. by rewrite Hm.
  - right. split_and!; try done. exists base, n, (tag a). by split_and!.
Qed.
Next Obligation. intros. by eapply wdk_holds_frame. Qed.
Next Obligation. intros. by apply wdk_dealloc_spec. Qed.

(** C25: [WdkAllocator::alloc] and [alloc_zeroed] always return, in every
    build.  For a layout of positive size the answer is null, with memory and
    blocks as they were, or an address with the alignment of the layout and
    room for its size inside a pool block that was not live before, and whose
    bytes are zero when [alloc_zeroed] was asked; no byte outside the new
    block changes, and live blocks stay disjoint.  For a layout of size zero
    it is the address 1, in no block and aligned for alignment 1 only, and
    nothing is allocated. *)
Theorem wdk_allocations_are_placed (a : WdkAllocator) (l : Layout) (zero : bool) (k : kernel) :
  valid_layout l -> kernel_ok k ->
  exists p k', (if zero then wdk_alloc_zeroed b a l else wdk_alloc b a l) k = Done (p, k')
    /\ kernel_ok k'
    /\ if size l =? 0 then p = 1 /\ k' = k /\ (p mod align l = 0 <-> align l = 1)
       else (p = 0 /\ blocks k' = blocks k /\ mem k' = mem k)
            \/ (0 < p /\ exists base n, placed k l (tag a) zero p base n k').
Proof.
  intros Hv Hk. destruct (Z.eqb_spec (size l) 0) as [Hz|Hz].
  - exists 1, k. split; [unfold wdk_alloc_zeroed, wdk_alloc; rewrite Hz; by destruct zero|].
    split; [done|]. split_and!; [done..|]. by apply one_mod_align.
  - assert (Hs : 0 < size l) by (destruct Hv as [_ [? _]]; lia).
    destruct (wdk_body_spec a l zero k Hv Hs Hk) as (p & k' & E & Hok & _ & Hr).
    exists p, k'. split_and!; [|done|destruct Hr as [[? []]|(? & base & n & ? & _)]; eauto 6].
    rewrite <- E. destruct zero; [by apply wdk_alloc_zeroed_body|by apply wdk_alloc_body].
Qed.

(** C24: [dealloc] with the same layout finds the pool block of an allocation
    and gives it back to the pool, in every build, whatever the user wrote
    into the allocation and whatever other allocations came and went: only
    the bytes of the block in front of the allocation must be as [alloc] left
    them. *)
Theorem wdk_dealloc_finds_block (a : WdkAllocator) (l : Layout) (k k' k2 : kernel) (p : Z) :
  valid_layout l -> 0 < size l -> kernel_ok k -> wdk_alloc b a l k = Done (p, k') -> p <> 0 ->
  exists base, blocks k !! base = None
    /\ (blocks k2 !! base = blocks k' !! base ->
        (forall x, base <= x < p -> mem k2 x = mem k' x) ->
        wdk_dealloc b a p l k2 = Done (tt, set_blocks (delete base) k2))
    /\ delete base (blocks k') = blocks k.
Proof.
  intros Hv Hs Hk E Hp. rewrite wdk_alloc_body in E by done.
  destruct (wdk_body_spec a l false k Hv Hs Hk) as (p' & k'' & E' & _ & _ & Hr).
  rewrite E in E'. simplify_eq. destruct Hr as [[? ?]|(_ & base & n & Hpl & Hh)]; [done|].
  destruct Hpl as (Hf & Hbs & _). exists base. split_and!; [done| |by rewrite Hbs, delete_insert_id].
  intros Hb Hm. apply wdk_dealloc_spec; [done|]. by eapply wdk_holds_frame.
Qed.
End Overaligned.
End Pool.

(** ** Edge cases *)

(** A layout of size zero takes no memory and [dealloc] of it does
    nothing, but its address 1 is aligned only for alignment 1; and without
    [wdk-alloc-align] a layout that needs more than the pool's alignment is
    refused without touching the pool. *)
Theorem wdk_alloc_edge_cases `{!Kernel} (b : build) (a : WdkAllocator) (l : Layout) (k : kernel) (p : Z) :
  valid_layout l ->
  (size l = 0 ->
     wdk_alloc b a l k = Done (dangling_u8, k) /\ wdk_dealloc b a p l k = Done (tt, k)
     /\ (dangling_u8 mod align l = 0 <-> align l = 1))
  /\ (0 < size l -> wdk_alloc_align b = false -> WDK_ALLOC_ALIGNMENT < align l ->
     wdk_alloc b a l k = Done (0, k) /\ wdk_alloc_zeroed b a l k = Done (0, k)).
Proof.
  intros Hv. unfold wdk_alloc, wdk_alloc_zeroed, wdk_dealloc. split.
  - intros ->. cbn. split_and!; [done..|]. by apply one_mod_align.
  - intros Hs -> Hbig. destruct (Z.eqb_spec (size l) 0); [lia|]. cbn.
    by destruct (Z.ltb_spec WDK_ALLOC_ALIGNMENT (align l)); [|lia].
Qed.

(** The bits with which a caller of ExAllocatePool2 selects a pool:
    POOL_FLAG_NON_PAGED, POOL_FLAG_NON_PAGED_EXECUTE and POOL_FLAG_PAGED of
    the WDK headers, of which a request must name one. *)
Definition pool_selection_mask : Z := Z.lor 0x40 (Z.lor 0x80 0x100).

(** The constant the crate uses for POOL_FLAG_PAGED names no pool.  When
    ExAllocatePool2 answers null to a request that names no pool, no
    allocation of positive size from the paged pool succeeds once the
    routine is resolved. *)
Theorem paged_pool_is_not_requested `{!Kernel} (b : build) (tag : Z) (l : Layout) (k : kernel) :
  (forall flags n t bs, Z.land flags pool_selection_mask = 0 ->
     routine_at (MmGetSystemRoutineAddress (take 15 EX_ALLOCATE_POOL2_NAME)) flags n t bs = 0) ->
  kernel_ok k -> EX_ALLOCATE_POOL2_STATE k = EX_ALLOCATE_POOL2_STATE_READY ->
  MmGetSystemRoutineAddress (take 15 EX_ALLOCATE_POOL2_NAME) <> 0 -> size l <> 0 ->
  wdk_alloc b (mkWdk Paged tag) l k = Done (0, k).
Proof.
  intros Hdoc Hk Hr Hmm Hs.
  assert (Hget : get_ex_allocate_pool2 k
    = Done (Some (MmGetSystemRoutineAddress (take 15 EX_ALLOCATE_POOL2_NAME)), k)).
  { unfold get_ex_allocate_pool2, bind, mget. rewrite Hr. cbn [negb Z.eqb EX_ALLOCATE_POOL2_STATE_READY Pos.eqb].
    unfold mret at 1. rewrite Hr. cbn [negb Z.eqb EX_ALLOCATE_POOL2_STATE_READY Pos.eqb].
    rewrite (ok_pool2 _ Hk Hr). apply Z.eqb_neq in Hmm. by rewrite Hmm. }
  assert (Hun : forall n, ex_allocate_pool_uninitialized Paged n tag k = Done (0, k)).
  { intros n. unfold ex_allocate_pool_uninitialized. erewrite bind_done by exact Hget.
    unfold call_pool2. by rewrite Hdoc. }
  unfold wdk_alloc. apply Z.eqb_neq in Hs. rewrite Hs. cbn [pool Allocator.tag].
  destruct (wdk_alloc_align b && needs_overaligned b l).
  - unfold alloc_overaligned. destruct (match usize_checked_add (size l) (align l) with Some v => _ | None => None end); [|done].
    by erewrite bind_done by apply Hun.
  - by destruct (negb (wdk_alloc_align b) && (WDK_ALLOC_ALIGNMENT <? align l)).
Qed.

(** ** The cache *)

Section Cache.
Context (routine : Z).

Definition quiet (pc : cache_pc) : Prop := pc = Outside \/ pc = AtExchange.

Definition cache_inv (c : cache) : Prop :=
  Forall (eq routine) (seen c)
  /\ ((c_state c = EX_ALLOCATE_POOL2_STATE_UNINIT /\ resolutions c = 0%nat /\ forall t, quiet (pcs c t))
      \/ (c_state c = EX_ALLOCATE_POOL2_STATE_INITING /\ exists t,
            (forall u, u <> t -> quiet (pcs c u))
            /\ ((pcs c t = AtResolve /\ resolutions c = 0%nat)
                \/ (pcs c t = AtStorePtr routine /\ resolutions c = 1%nat)
                \/ (pcs c t = AtStoreReady /\ c_ptr c = routine /\ resolutions c = 1%nat)))
      \/ (c_state c = EX_ALLOCATE_POOL2_STATE_READY /\ resolutions c = 1%nat /\ c_ptr c = routine
          /\ forall t, quiet (pcs c t) \/ pcs c t = AtLoadPtr)).

Lemma set_pc_eq t pc f : set_pc t pc f t = pc.
Proof. unfold set_pc. by rewrite Nat.eqb_refl. Qed.

Lemma set_pc_ne t pc f u : u <> t -> set_pc t pc f u = f u.
Proof. intros Hu. unfold set_pc. apply Nat.eqb_neq in Hu. by rewrite Hu. Qed.

Lemma set_pc_all (P : cache_pc -> Prop) t pc f :
  P pc -> (forall u, u <> t -> P (f u)) -> forall u, P (set_pc t pc f u).
Proof. intros Hp Hf u. destruct (decide (u = t)) as [->|Hu]; [by rewrite set_pc_eq|rewrite set_pc_ne by done; auto]. Qed.

Lemma quiet_outside : quiet Outside. Proof. by left. Qed.
Lemma quiet_exchange : quiet AtExchange. Proof. by right. Qed.
Hint Resolve quiet_outside quiet_exchange : core.

Lemma cache_step_inv c s : cache_inv c -> cache_inv (cache_step routine c s).
Proof.
  destruct s as [[t call] irql]. intros [Hseen [(Hst & Hres & Hq)|[(Hst & o & Hq & Ho)|(Hst & Hres & Hp & Hq)]]];
    unfold cache_step.
  - destruct (Hq t) as [E|E]; rewrite E.
    + destruct call; [destruct (PASSIVE_LEVEL <? irql)|rewrite Hst; cbn];
        split; cbn; auto; left; split_and!; auto. by apply set_pc_all.
    + rewrite Hst. cbn. split; [done|]. right; left. split; [done|]. exists t. cbn. rewrite set_pc_eq. split; [|auto].
      intros u Hu. by rewrite set_pc_ne by done.
  - destruct (decide (t = o)) as [->|Hne].
    + assert (Hoth : forall pc u, u <> o -> quiet (set_pc o pc (pcs c) u))
        by (intros pc u Hu; rewrite set_pc_ne by done; auto).
      destruct Ho as [[E Hr]|[[E Hr]|(E & Hp & Hr)]]; rewrite E; (split; [done|]); cbn.
      * right; left. split; [done|]. exists o. cbn. split; [auto|]. rewrite set_pc_eq, Hr. auto.
      * right; left. split; [done|]. exists o. cbn. split; [auto|]. rewrite set_pc_eq, Hr. auto.
      * right; right. split_and!; try done. intros u. left. by apply set_pc_all; [|auto].
    + assert (Hstay : forall pc, quiet pc -> cache_inv
        (mkCache (c_state c) (c_ptr c) (set_pc t pc (pcs c)) (resolutions c) (seen c))).
      { intros pc Hpc. split; [done|]. right; left. split; [done|]. exists o. cbn.
        rewrite (set_pc_ne t pc (pcs c) o) by congruence. split; [|done].
        intros u Hu. destruct (decide (u = t)) as [->|]; [by rewrite set_pc_eq|rewrite set_pc_ne by done; auto]. }
      destruct (Hq t Hne) as [E|E]; rewrite E.
      * destruct call; [destruct (PASSIVE_LEVEL <? irql)|rewrite Hst; cbn].
        1, 3: split; [done|]; right; left; eauto. by apply Hstay.
      * rewrite Hst. cbn [Z.eqb EX_ALLOCATE_POOL2_STATE_INITING EX_ALLOCATE_POOL2_STATE_UNINIT]. 
        rewrite <- Hst. by apply Hstay.
  - assert (Hstay : forall pc sn, quiet pc \/ pc = AtLoadPtr -> Forall (eq routine) sn -> cache_inv
      (mkCache (c_state c) (c_ptr c) (set_pc t pc (pcs c)) (resolutions c) sn)).
    { intros pc sn Hpc Hsn. split; [done|]. right; right. split_and!; try done. cbn.
      intros u. apply (set_pc_all (fun pc => quiet pc \/ pc = AtLoadPtr)); auto. }
    destruct (Hq t) as [[E|E]|E]; rewrite E.
    + destruct call; [destruct (PASSIVE_LEVEL <? irql)|rewrite Hst at 1; cbn]; auto.
      split; [done|]. right; right. auto.
    + rewrite Hst at 1. cbn. auto.
    + apply Hstay; [auto|]. apply Forall_app. by rewrite Forall_singleton.
Qed.

(** However the processors interleave in [try_init_ex_allocate_pool2]
    and [get_ex_allocate_pool2], MmGetSystemRoutineAddress is called at most
    once, and every pointer that [get_ex_allocate_pool2] loads is the one it
    returned: nobody calls through a pointer that is not stored yet. *)
Theorem pool2_cache_is_safe (steps : list (nat * cache_call * Z)) :
  let c := cache_run routine steps in
  (resolutions c <= 1)%nat /\ Forall (eq routine) (seen c)
  /\ (c_state c = EX_ALLOCATE_POOL2_STATE_READY -> c_ptr c = routine /\ resolutions c = 1%nat).
Proof.
  assert (Hinv : forall c, cache_inv c -> cache_inv (fold_left (cache_step routine) steps c)).
  { induction steps as [|s ss IH]; intros c Hc; [done|]. cbn. by apply IH, cache_step_inv. }
  assert (H0 : cache_inv cache_init) by (split; [done|]; left; split_and!; auto).
  apply Hinv in H0. fold (cache_run routine steps) in H0. cbv zeta.
  destruct H0 as [Hs [(Hst & Hr & _)|[(Hst & o & _ & Ho)|(Hst & Hr & Hp & _)]]]; rewrite Hst; split_and!; try done; lia || auto.
Qed.
End Cache.

(** ** A concrete kernel

    A pool that grants the first free addresses above all live blocks. *)

Definition demo_ends (bs : gmap Z (Z * Z)) : list Z := (fun x => x.1 + x.2.1) <$> map_to_list bs.
Definition demo_choose (n : Z) (bs : gmap Z (Z * Z)) : Z :=
  let base := 16 * ((foldr Z.max 16 (demo_ends bs) + 15) / 16) in
  if base + n <=? usize_MAX + 1 then base else 0.

Lemma foldr_Zmax_ge (x z : Z) (xs : list Z) : z <= foldr Z.max z xs /\ (x ∈ xs -> x <= foldr Z.max z xs).
Proof.
  induction xs as [|y xs [IH1 IH2]]; cbn; [split; [lia|by intros ?%not_elem_of_nil]|].
  split; [lia|]. intros [->|Hx]%elem_of_cons; [lia|]. specialize (IH2 Hx). lia.
Qed.

Lemma demo_choose_grants n bs : grants bs n (demo_choose n bs).
Proof.
  unfold demo_choose, grants, WDK_ALLOC_ALIGNMENT. set (m := foldr Z.max 16 (demo_ends bs)).
  assert (Hm : 16 <= m) by apply (foldr_Zmax_ge 0).
  destruct (Z.leb_spec (16 * ((m + 15) / 16) + n) (usize_MAX + 1)); [right|by left].
  pose proof (Z.div_mod (m + 15) 16 ltac:(lia)). pose proof (Z.mod_pos_bound (m + 15) 16 ltac:(lia)).
  split_and!; [lia|lia|rewrite Z.mul_comm; apply Z.mod_mul; lia|].
  intros b' n' t Hb. right. apply Z.le_trans with m; [|lia].
  apply (foldr_Zmax_ge (b' + n')). apply list_elem_of_fmap. exists (b', (n', t)).
  split; [done|]. by apply elem_of_map_to_list.
Qed.

(** Its ExAllocatePool2, at address 4096, refuses requests that name no
    pool. *)
#[global] Program Instance demo_kernel : Kernel := {|
  routine_at := fun _ flags n _ bs => if Z.land flags pool_selection_mask =? 0 then 0 else demo_choose n bs;
  ExAllocatePoolWithTag := fun _ n _ bs => demo_choose n bs;
  MmGetSystemRoutineAddress := fun _ => 4096
|}.
Next Obligation.
  intros flags n tag bs _ _. cbn. destruct (Z.land flags pool_selection_mask =? 0); [by left|apply demo_choose_grants].
Qed.
Next Obligation. intros. apply demo_choose_grants. Qed.

Definition demo_memory : kernel :=
  mkKernel (fun _ => 170) ∅ EX_ALLOCATE_POOL2_STATE_READY 4096 PASSIVE_LEVEL [].

Lemma demo_memory_ok : kernel_ok demo_memory.
Proof. split; [done|..]; cbn; intros *; by rewrite lookup_empty. Qed.

Definition demo_layout : Layout := mkLayout 40 64.

Lemma demo_layout_valid : valid_layout demo_layout.
Proof. split; [exists 6; cbn; lia|]. unfold isize_MAX. cbn. lia. Qed.

Lemma wdk_allocations_are_placed_witness :
  exists p k', wdk_alloc_zeroed (mkBuild true true) global_wdk demo_layout demo_memory = Done (p, k')
    /\ kernel_ok k'
    /\ ((p = 0 /\ blocks k' = blocks demo_memory /\ mem k' = mem demo_memory)
       \/ (0 < p /\ exists base n, placed demo_memory demo_layout (tag global_wdk) true p base n k')).
Proof.
  apply (wdk_allocations_are_placed (mkBuild true true) global_wdk demo_layout true demo_memory);
    [apply demo_layout_valid|apply demo_memory_ok].
Defined.

(** The allocation of the witness: the header is 24 bytes, the user pointer
    the next multiple of 64. *)
Example demo_overaligned_address :
  match wdk_alloc (mkBuild true true) global_wdk demo_layout demo_memory with
  | Done (p, k') => p = 64 /\ blocks k' = {[ 16 := (128, GLOBAL_POOL_TAG) ]}
  | Fault _ => False
  end.
Proof. vm_compute. by split. Qed.

Definition demo_allocated : Z * kernel :=
  match wdk_alloc (mkBuild true true) global_wdk demo_layout demo_memory with
  | Done r => r
  | Fault _ => (0, demo_memory)
  end.

Lemma wdk_dealloc_finds_block_witness :
  exists base, blocks demo_memory !! base = None
    /\ (blocks demo_allocated.2 !! base = blocks demo_allocated.2 !! base ->
        (forall x, base <= x < demo_allocated.1 -> mem demo_allocated.2 x = mem demo_allocated.2 x) ->
        wdk_dealloc (mkBuild true true) global_wdk demo_allocated.1 demo_layout demo_allocated.2
        = Done (tt, set_blocks (delete base) demo_allocated.2))
    /\ delete base (blocks demo_allocated.2) = blocks demo_memory.
Proof.
  apply (wdk_dealloc_finds_block (mkBuild true true) global_wdk demo_layout demo_memory);
    [apply demo_layout_valid|cbn; lia|apply demo_memory_ok|vm_compute; reflexivity|vm_compute; discriminate].
Defined.

Lemma wdk_alloc_edge_cases_witness :
  wdk_alloc (mkBuild false false) global_wdk demo_layout demo_memory = Done (0, demo_memory)
  /\ wdk_alloc_zeroed (mkBuild false false) global_wdk demo_layout demo_memory = Done (0, demo_memory).
Proof.
  apply (wdk_alloc_edge_cases (mkBuild false false) global_wdk demo_layout demo_memory 0);
    [apply demo_layout_valid|cbn; lia|reflexivity|reflexivity].
Defined.

Lemma paged_pool_is_not_requested_witness :
  wdk_alloc (mkBuild true false) (mkWdk Paged 7) demo_layout demo_memory = Done (0, demo_memory).
Proof.
  apply (paged_pool_is_not_requested (mkBuild true false) 7 demo_layout demo_memory);
    [|apply demo_memory_ok|reflexivity|discriminate|discriminate].
  intros flags n t bs Hf. cbn. by rewrite Hf.
Defined.
