(* ===== verification/KBox.v ===== *)
(** * Pinned boxes and allocator helpers

    Models [KBox], [PinInit], [PinInitOnce], [KBoxError] and [InitBox] of
    [src/src/allocator.rs].  The theorems are proved against the interface
    [RawAllocator], so they hold for every allocator that meets it;
    [AllocatorTheorems] shows that [WdkAllocator] does. *)

From S2P Require Import Prelude Status Allocator AllocatorTheorems.

(** ** Errors *)

Inductive KBoxError (E : Type) : Type :=
| Alloc (status : NTSTATUS)
| Init (err : E).
Arguments Alloc {E} status.
Arguments Init {E} err.

Definition into_status {E : Type} `{!IntoRaw E} (e : KBoxError E) : NTSTATUS :=
  match e with
  | Alloc status => status
  | Init err => into err
  end.

#[global] Instance KBoxError_into_raw {E : Type} `{!IntoRaw E} : IntoRaw (KBoxError E) := into_status.
Definition KBoxError_into_Status {E : Type} `{!IntoRaw E} (e : KBoxError E) : Status :=
  Status.from_raw (into_status e).

(** ** In-place initialisers *)

(** The trait [PinInit<T, E>]: [init] is called with the address of memory
    for a [T] and returns the initialiser as it left it. *)
Class PinInit (I E : Type) : Type := init : I -> Z -> M kernel (result unit E * I).

Record PinInitOnce (F : Type) : Type := mkOnce { once : option F }.
Arguments mkOnce {F} once.
Arguments once {F} p.

Definition PinInitOnce_new {F : Type} (f : F) : PinInitOnce F := mkOnce (Some f).

(** [E: From<NTSTATUS>] *)
Class FromStatus (E : Type) : Type := from_status : NTSTATUS -> E.

#[global] Instance PinInitOnce_init {E : Type} `{!FromStatus E} :
  PinInit (PinInitOnce (Z -> M kernel (result unit E))) E :=
  fun self ptr =>
    match once self with
    | None => mret (Err (from_status STATUS_UNSUCCESSFUL), self)
    | Some f => let* r := f ptr in mret (r, mkOnce None)
    end.

(** [Box<dyn PinInit>] forwards. *)
Record BoxedInit (I : Type) : Type := mkBoxed { boxed : I }.
Arguments mkBoxed {I} boxed.
Arguments boxed {I} b.
#[global] Instance BoxedInit_init {I E : Type} `{!PinInit I E} : PinInit (BoxedInit I) E :=
  fun self ptr => let* (r, i) := init (boxed self) ptr in mret (r, mkBoxed i).

(** What an operation through a pointer may do: it returns, and changes
    memory only in the [n] bytes at [p]. *)
Definition local_to {R : Type} (p n : Z) (c : M kernel R) : Prop :=
  forall k, exists r m, c k = Done (r, set_mem (fun _ => m) k)
    /\ forall x, ~ (p <= x < p + n) -> m x = mem k x.

(** ** Boxes *)

Section KBox.
Context `{!Kernel} {A : Type} `{!RawAllocator A}.
Context (l : Layout).                       (* [Layout::new::<T>()] *)
Context (dtor : Z -> M kernel unit).        (* the destructor of [T] *)

Record KBox : Type := mkKBox { kb_ptr : Z; kb_alloc : A; kb_layout : Layout }.

Definition from_raw_parts (ptr : Z) (a : A) (layout : Layout) : KBox := mkKBox ptr a layout.
Definition into_raw_parts (bx : KBox) : Z * A * Layout := (kb_ptr bx, kb_alloc bx, kb_layout bx).

Definition try_pin_init {I E : Type} `{!PinInit I E} (a : A) (i : I) : M kernel (result KBox (KBoxError E)) :=
  let* ptr := alloc a l in
  match non_null ptr (Alloc STATUS_INSUFFICIENT_RESOURCES) with
  | Err e => mret (Err e)
  | Ok ptr =>
      let* (r, _) := init i ptr in
      match r with
      | Err err => dealloc a ptr l ;; mret (Err (Init err))
      | Ok tt => mret (Ok (from_raw_parts ptr a l))
      end
  end.

(** [Drop for KBox]: [ptr::drop_in_place], then [dealloc]. *)
Definition kbox_drop (bx : KBox) : M kernel unit :=
  update (log_drop (kb_ptr bx)) ;;
  dtor (kb_ptr bx) ;;
  dealloc (kb_alloc bx) (kb_ptr bx) (kb_layout bx).

Record InitBox (I : Type) : Type := mkInitBox { ib_alloc : A; ib_init : I }.
Definition InitBox_new {I : Type} (a : A) (i : I) : InitBox I := mkInitBox I a i.
Definition try_pin {I E : Type} `{!PinInit I E} (ib : InitBox I) : M kernel (result KBox (KBoxError E)) :=
  try_pin_init (ib_alloc I ib) (ib_init I ib).

Context (Hl : valid_layout l) (Hsize : 0 < size l).

Lemma local_frame {R : Type} (a : A) p base (c : M kernel R) k :
  local_to p (size l) c -> kernel_ok k -> holds a l k p base -> base <= p ->
  exists r m, c k = Done (r, set_mem (fun _ => m) k) /\ holds a l (set_mem (fun _ => m) k) p base.
Proof.
  intros Hc Hk Hh Hle. destruct (Hc k) as (r & m & E & Hm). exists r, m. split; [done|].
  eapply holds_frame; [done|done|]. cbn. intros x Hx. apply Hm. lia.
Qed.

(** A live allocation for the value of a box, in a block that was free in
    [k]. *)
Definition boxed_in (k : kernel) (a : A) (p base : Z) (k' : kernel) : Prop :=
  blocks k !! base = None /\ delete base (blocks k') = blocks k
  /\ holds a l k' p base /\ base <= p /\ p mod align l = 0.

Lemma alloc_boxed a k : kernel_ok k ->
  exists p k', alloc a l k = Done (p, k') /\ kernel_ok k' /\ drops k' = drops k
    /\ (p = 0 -> blocks k' = blocks k) /\ (p <> 0 -> exists base, boxed_in k a p base k').
Proof.
  intros Hk. destruct (alloc_law a l k Hl Hsize Hk) as (p & k' & E & Hok & Hd & Hr).
  exists p, k'. split_and!; try done.
  - intros ->. destruct Hr as [(_ & Hb & _)|[? _]]; [done|lia].
  - intros Hp. destruct Hr as [[? _]|(_ & Hal & base & n & t & Hf & Hb & Hle & _ & _ & Hh & _)]; [done|].
    exists base. unfold boxed_in. rewrite Hb, delete_insert_id by done. by split_and!.
Qed.


(** A value allocated with [try_alloc_value_in] is in memory as it was
    given, and [dealloc_value_in] gives its block back; memory from
    [alloc_zeroed] is zero; and when the allocator refuses, the caller gets
    STATUS_INSUFFICIENT_RESOURCES and nothing is kept. *)
Theorem allocated_values_round_trip (a : A) (value : list Z) (k : kernel) :
  kernel_ok k -> Z.of_nat (length value) = size l ->
  (exists r k', try_alloc_value_in a l value k = Done (r, k') /\
     match r with
     | Err e => e = STATUS_INSUFFICIENT_RESOURCES /\ blocks k' = blocks k
     | Ok p => p mod align l = 0 /\ load_bytes p (size l) (mem k') = value
               /\ exists k'', dealloc_value_in a l p k' = Done (tt, k'') /\ blocks k'' = blocks k
     end)
  /\ (exists p k', alloc_zeroed a l k = Done (p, k')
      /\ (p <> 0 -> (forall x, p <= x < p + size l -> mem k' x = 0)
            /\ exists k'', dealloc a p l k' = Done (tt, k'') /\ blocks k'' = blocks k)).
Proof.
  intros Hk Hlen. unfold try_alloc_value_in, alloc_zeroed, dealloc_value_in, non_null.
  destruct (alloc_boxed a k Hk) as (p & k1 & E1 & Hok & Hdr & Hnull & Hgot).
  split; (erewrite bind_done by exact E1); (destruct (Z.eqb_spec p 0) as [->|Hp]);
    [do 2 eexists; split; [reflexivity|by split; [|apply Hnull]]| |do 2 eexists; split; [reflexivity|by intros ?]|];
    destruct (Hgot Hp) as (base & Hf & Hdel & Hh & Hle & Hal);
    do 2 eexists; (split; [reflexivity|]).
  - split_and!; [done|cbn; rewrite <- Hlen; apply load_store_bytes|].
    eexists. split; [apply (dealloc_law a l _ p base); [done|by apply set_mem_ok|]|done].
    eapply holds_frame; [done|done|]. cbn. intros x Hx. apply store_bytes_outside. lia.
  - intros _. split; [cbn; intros x Hx; by apply write_zeros_inside|].
    eexists. split; [apply (dealloc_law a l _ p base); [done|by apply set_mem_ok|]|done].
    eapply holds_frame; [done|done|]. cbn. intros x Hx. apply write_zeros_outside. lia.
Qed.
End KBox.

Definition init_box_with_tag {I : Type} (p : PoolType) (tag : Z) (i : I) : InitBox (A := WdkAllocator) I :=
  InitBox_new (mkWdk p tag) i.

(** The closure of a [PinInitOnce] runs at most once: the first [init]
    runs it and keeps no closure, and every later one fails with
    STATUS_UNSUCCESSFUL and changes nothing. *)
Theorem pin_init_runs_once {E : Type} `{!FromStatus E} (f : Z -> M kernel (result unit E))
    (p q : Z) (k k1 k2 : kernel) (r : result unit E) (self : PinInitOnce (Z -> M kernel (result unit E))) :
  init (PinInitOnce_new f) p k = Done ((r, self), k1) ->
  f p k = Done (r, k1) /\ init self q k2 = Done ((Err (from_status STATUS_UNSUCCESSFUL), self), k2).
Proof.
  unfold init, PinInitOnce_init, PinInitOnce_new. cbn. intros E0.
  apply bind_inv in E0 as (r' & k' & Hf & [= -> <- ->]). done.
Qed.

(** ** Examples *)

Definition demo_init (p : Z) : M kernel (result unit NTSTATUS) :=
  update (set_mem (store_bytes p (replicate 40 7))) ;; mret (Ok tt).

#[global] Instance NTSTATUS_from : FromStatus NTSTATUS := fun s => s.

Lemma demo_init_local p : local_to p 40 (init (E := NTSTATUS) (PinInitOnce_new demo_init) p).
Proof. intros k. do 2 eexists. split; [reflexivity|]. intros x Hx. apply store_bytes_outside. cbn. lia. Qed.


Lemma allocated_values_round_trip_witness :
  exists r k', try_alloc_value_in (RawAllocator0 := wdk_raw_allocator (mkBuild true true))
      global_wdk demo_layout (replicate 40 9) demo_memory = Done (r, k') /\
     match r with
     | Err e => e = STATUS_INSUFFICIENT_RESOURCES /\ blocks k' = blocks demo_memory
     | Ok p => p mod align demo_layout = 0 /\ load_bytes p (size demo_layout) (mem k') = replicate 40 9
               /\ exists k'', dealloc_value_in (RawAllocator0 := wdk_raw_allocator (mkBuild true true))
                    global_wdk demo_layout p k' = Done (tt, k'') /\ blocks k'' = blocks demo_memory
     end.
Proof.
  apply (allocated_values_round_trip (RawAllocator0 := wdk_raw_allocator (mkBuild true true))
    demo_layout demo_layout_valid ltac:(cbn; lia) global_wdk (replicate 40 9) demo_memory demo_memory_ok eq_refl).
Defined.

Lemma pin_init_runs_once_witness :
  exists k1, demo_init 64 demo_memory = Done (Ok tt, k1)
  /\ init (E := NTSTATUS) (mkOnce (F := Z -> M kernel (result unit NTSTATUS)) None) 128 demo_memory
     = Done ((Err (from_status STATUS_UNSUCCESSFUL), mkOnce None), demo_memory).
Proof.
  eexists. apply (pin_init_runs_once demo_init 64 128 demo_memory _ demo_memory (Ok tt) (mkOnce None)). reflexivity.
Defined.
