(* ===== verification/Unicode.v ===== *)
(** * UNICODE_STRING helpers

    Models [src/src/unicode.rs]: the [kstr!] macro, [OwnedUnicodeString] over
    the allocator interface, the fixed-capacity [LocalUnicodeString] and the
    conversions of a UNICODE_STRING to a slice and to a [String].

    A [str] is the list of its characters (Unicode scalar values);
    [encode_utf16] and [decode_utf16] are the standard library's. *)

From stdpp Require Import strings.
From S2P Require Import Prelude Status Allocator AllocatorTheorems KBox.

(** ** UTF-16 *)

Definition valid_char (c : Z) : Prop := 0 <= c < 0xD800 \/ 0xE000 <= c < 0x110000.

Definition encode_char (c : Z) : list Z :=
  if c <? 0x10000 then [c]
  else [0xD800 + (c - 0x10000) / 0x400; 0xDC00 + (c - 0x10000) mod 0x400].
Definition encode_utf16 (s : list Z) : list Z := flat_map encode_char s.

(** Each item is a character, or the unpaired surrogate. *)
Fixpoint decode_utf16 (us : list Z) : list (result Z Z) :=
  match us with
  | [] => []
  | u :: rest =>
      if (u <? 0xD800) || (0xDFFF <? u) then Ok u :: decode_utf16 rest
      else if 0xDC00 <=? u then Err u :: decode_utf16 rest
      else match rest with
           | [] => [Err u]
           | u2 :: rest' =>
               if (u2 <? 0xDC00) || (0xDFFF <? u2) then Err u :: decode_utf16 rest
               else Ok (0x10000 + (u - 0xD800) * 0x400 + (u2 - 0xDC00)) :: decode_utf16 rest'
           end
  end.

(** ** Data *)

Inductive UnicodeStringError : Type := TooLong | AllocationFailed | InvalidUtf16.

#[global] Instance UnicodeStringError_eq_dec : EqDecision UnicodeStringError.
Proof. solve_decision. Defined.

(** The text [Display] writes. *)
Definition UnicodeStringError_fmt (e : UnicodeStringError) : string :=
  match e with
  | TooLong => "UNICODE_STRING exceeds u16 length"
  | AllocationFailed => "UNICODE_STRING allocation failed"
  | InvalidUtf16 => "UNICODE_STRING contains invalid UTF-16"
  end%string.

(** [Buffer] is an address. *)
Record UNICODE_STRING : Type := mkUnicode { Length : Z; MaximumLength : Z; Buffer : Z }.

(** [as u16] *)
Definition as_u16 (z : Z) : Z := wrap 16 z.
(** [(u16::MAX as usize) / 2] *)
Definition max_units : Z := u16_MAX / 2.

(** Reads and writes of one and of several units. *)
Definition write_u16 (a v : Z) (m : memory) : memory := store_bytes a (Z_to_little_endian 2 8 v) m.
Definition read_u16 (a : Z) (m : memory) : Z := little_endian_to_Z 8 (load_bytes a 2 m).
(** [slice::from_raw_parts] *)
Definition slice_u16 (buffer len : Z) (m : memory) : list Z :=
  (fun i => read_u16 (buffer + 2 * i) m) <$> seqZ 0 len.

(** [kstr!], for a literal stored at [buf]: the units are [encode_utf16] of
    the literal and a NUL. *)
Definition kstr (buf : Z) (lit : list Z) : UNICODE_STRING :=
  let BUF := encode_utf16 lit ++ [0] in
  let len := Z.of_nat (length BUF) in
  {| Length := as_u16 ((len - 1) * 2); MaximumLength := as_u16 (len * 2); Buffer := buf |}.

(** ** Conversions *)

Definition unicode_string_as_slice (u : UNICODE_STRING) (m : memory) : list Z :=
  if (Buffer u =? 0) || (Length u =? 0) then []
  else slice_u16 (Buffer u) (Length u / 2) m.

(** The loop of [unicode_string_to_string], which stops at the first error. *)
Fixpoint push_chars (units : list (result Z Z)) (out : list Z) : result (list Z) UnicodeStringError :=
  match units with
  | [] => Ok out
  | Ok ch :: units => push_chars units (out ++ [ch])
  | Err _ :: _ => Err InvalidUtf16
  end.

(** [try_reserve] tells whether the reservation of that many bytes succeeds. *)
Definition unicode_string_to_string (try_reserve : Z -> bool) (u : UNICODE_STRING) (m : memory)
    : result (list Z) UnicodeStringError :=
  let slice := unicode_string_as_slice u m in
  match usize_checked_mul (Z.of_nat (length slice)) 3 with
  | None => Err TooLong
  | Some reserve =>
      if try_reserve reserve then push_chars (decode_utf16 slice) [] else Err AllocationFailed
  end.

(** ** Owned strings *)

Section Owned.
Context `{!Kernel} {A : Type} `{!RawAllocator A}.

Record OwnedUnicodeString : Type := mkOwned {
  inner : UNICODE_STRING;
  buffer : Z;
  buffer_len : Z;
  owned_alloc : A
}.

Definition u16_layout : Layout := mkLayout 2 2.

(** The loop of [new_in] over the units, from index [idx]. *)
Fixpoint write_units (buffer idx : Z) (units : list Z) (m : memory) : memory :=
  match units with
  | [] => m
  | unit :: units => write_units buffer (idx + 1) units (write_u16 (buffer + 2 * idx) unit m)
  end.

Definition owned_new_in (value : list Z) (a : A) : M kernel (result OwnedUnicodeString UnicodeStringError) :=
  let len := Z.of_nat (length (encode_utf16 value)) in
  if max_units <? len + 1 then mret (Err TooLong)
  else
    match layout_array u16_layout (len + 1) with
    | None => mret (Err TooLong)
    | Some layout =>
        let* buffer := alloc a layout in
        if buffer =? 0 then mret (Err AllocationFailed)
        else
          update (set_mem (write_units buffer 0 (encode_utf16 value))) ;;
          update (set_mem (write_u16 (buffer + 2 * len) 0)) ;;
          mret (Ok {|
            inner := {| Length := as_u16 (len * 2); MaximumLength := as_u16 ((len + 1) * 2); Buffer := buffer |};
            buffer := buffer;
            buffer_len := len + 1;
            owned_alloc := a |})
    end.

Definition as_unicode (o : OwnedUnicodeString) : UNICODE_STRING := inner o.
Definition owned_as_utf16 (o : OwnedUnicodeString) (m : memory) : list Z :=
  slice_u16 (buffer o) (Length (inner o) / 2) m.

Definition owned_drop (o : OwnedUnicodeString) : M kernel unit :=
  if buffer o =? 0 then mret tt
  else
    match layout_array u16_layout (buffer_len o) with
    | None => mret tt
    | Some layout => dealloc (owned_alloc o) (buffer o) layout
    end.
End Owned.

(** [OwnedUnicodeString::new], with the driver's global allocator. *)
Definition owned_new `{!Kernel} (b : build) (value : list Z)
    : M kernel (result (OwnedUnicodeString (A := WdkAllocator)) UnicodeStringError) :=
  owned_new_in (RawAllocator0 := wdk_raw_allocator b) value global_wdk.

(** ** Strings in a fixed buffer

    [N] is the length of the array; indexing out of its range panics. *)
Record LocalUnicodeString : Type := mkLocal { l_buffer : list Z; l_len : Z }.

Definition local_new (N : nat) : LocalUnicodeString := mkLocal (replicate N 0) 0.

(** [buffer[i] = v] *)
Definition index_set (i v : Z) (buf : list Z) : outcome (list Z) :=
  if (0 <=? i) && (i <? Z.of_nat (length buf)) then Done (<[Z.to_nat i := v]> buf) else Fault Panic.

Fixpoint push_units (len idx : Z) (units : list Z) (buf : list Z) : outcome (list Z) :=
  match units with
  | [] => Done buf
  | unit :: units =>
      match index_set (len + idx) unit buf with
      | Done buf => push_units len (idx + 1) units buf
      | Fault f => Fault f
      end
  end.

Definition try_push_str (N : nat) (self : LocalUnicodeString) (value : list Z)
    : outcome (result unit UnicodeStringError * LocalUnicodeString) :=
  let cap_units := Z.min (Z.of_nat N) max_units in
  let value_len := Z.of_nat (length (encode_utf16 value)) in
  if cap_units <? l_len self + value_len + 1 then Done (Err TooLong, self)
  else
    match push_units (l_len self) 0 (encode_utf16 value) (l_buffer self) with
    | Fault f => Fault f
    | Done buf =>
        let len := l_len self + value_len in
        if len <? Z.of_nat N then
          match index_set len 0 buf with
          | Done buf => Done (Ok tt, mkLocal buf len)
          | Fault f => Fault f
          end
        else Done (Ok tt, mkLocal buf len)
    end.

Definition from_str (N : nat) (value : list Z) : outcome (result LocalUnicodeString UnicodeStringError) :=
  match try_push_str N (local_new N) value with
  | Fault f => Fault f
  | Done (Ok _, out) => Done (Ok out)
  | Done (Err e, _) => Done (Err e)
  end.

Definition clear (self : LocalUnicodeString) : outcome LocalUnicodeString :=
  match l_buffer self with
  | [] => Done (mkLocal [] 0)
  | buf => match index_set 0 0 buf with
           | Done buf => Done (mkLocal buf 0)
           | Fault f => Fault f
           end
  end.

Definition len (self : LocalUnicodeString) : Z := l_len self.
Definition is_empty (self : LocalUnicodeString) : bool := l_len self =? 0.

(** [at_] is the address of the value's buffer. *)
Definition as_unicode_ref (N : nat) (at_ : Z) (self : LocalUnicodeString) : UNICODE_STRING :=
  let cap_units := Z.min (Z.of_nat N) max_units in
  {| Length := as_u16 (l_len self * 2); MaximumLength := as_u16 (cap_units * 2); Buffer := at_ |}.

(** [&buffer[..len]] panics when [len] is past the end. *)
Definition local_as_utf16 (self : LocalUnicodeString) : outcome (list Z) :=
  if l_len self <=? Z.of_nat (length (l_buffer self)) then Done (take (Z.to_nat (l_len self)) (l_buffer self))
  else Fault Panic.

(** [fmt::Write::write_str]; the error carries nothing. *)
Definition write_str (N : nat) (self : LocalUnicodeString) (s : list Z)
    : outcome (result unit unit * LocalUnicodeString) :=
  match try_push_str N self s with
  | Fault f => Fault f
  | Done (Ok u, self) => Done (Ok u, self)
  | Done (Err _, self) => Done (Err tt, self)
  end.
