(* ===== verification/UnicodeTheorems.v ===== *)
(** * Correctness of the UNICODE_STRING helpers *)

From S2P Require Import Prelude Status Allocator AllocatorTheorems KBox Unicode.

(** ** UTF-16 *)

Lemma encode_char_u16 c : valid_char c -> Forall u16 (encode_char c).
Proof.
  unfold valid_char, encode_char. intros Hc. widths.
  destruct (Z.ltb_spec c 0x10000); repeat constructor; try lia.
  1, 2: pose proof (Z.div_le_mono (c - 0x10000) 0xFFFFF 0x400 ltac:(lia) ltac:(lia)); 
    pose proof (Z.div_pos (c - 0x10000) 0x400); change (0xFFFFF / 0x400) with 1023 in *; lia.
  all: pose proof (Z.mod_pos_bound (c - 0x10000) 0x400); lia.
Qed.

Lemma encode_utf16_u16 s : Forall valid_char s -> Forall u16 (encode_utf16 s).
Proof. induction 1; cbn; [done|]. apply Forall_app. split; [by apply encode_char_u16|done]. Qed.

Lemma decode_encode_char c us :
  valid_char c -> decode_utf16 (encode_char c ++ us) = Ok c :: decode_utf16 us.
Proof.
  intros Hc. unfold encode_char. destruct (Z.ltb_spec c 0x10000); cbn -[Z.add Z.sub Z.mul Z.div Z.modulo Z.ltb Z.leb].
  - destruct (Z.ltb_spec c 0xD800), (Z.ltb_spec 0xDFFF c); cbn; try done. unfold valid_char in Hc. lia.
  - unfold valid_char in Hc. pose proof (Z.div_mod (c - 0x10000) 0x400 ltac:(lia)).
    pose proof (Z.mod_pos_bound (c - 0x10000) 0x400 ltac:(lia)).
    set (q := (c - 0x10000) / 0x400) in *. set (r := (c - 0x10000) mod 0x400) in *.
    destruct (Z.ltb_spec (0xD800 + q) 0xD800), (Z.ltb_spec 0xDFFF (0xD800 + q)),
      (Z.leb_spec 0xDC00 (0xD800 + q)), (Z.ltb_spec (0xDC00 + r) 0xDC00), (Z.ltb_spec 0xDFFF (0xDC00 + r));
      try lia. cbn -[Z.add Z.sub Z.mul]. do 2 f_equal. lia.
Qed.

Lemma decode_encode s : Forall valid_char s -> decode_utf16 (encode_utf16 s) = Ok <$> s.
Proof.
  induction 1 as [|c s Hc Hs IH]; [done|]. change (encode_utf16 (c :: s)) with (encode_char c ++ encode_utf16 s).
  by rewrite decode_encode_char, IH.
Qed.

Lemma push_chars_ok s out : push_chars (Ok <$> s) out = Ok (out ++ s).
Proof.
  revert out. induction s as [|c s IH]; intros out; cbn; [by rewrite app_nil_r|].
  rewrite IH, <- app_assoc. done.
Qed.

(** ** Units in memory *)

Lemma read_write_u16 a v m : u16 v -> read_u16 a (write_u16 a v m) = v.
Proof.
  intros Hv. unfold read_u16, write_u16.
  pose proof (load_store_bytes a (Z_to_little_endian 2 8 v) m) as Hl.
  rewrite length_Z_to_little_endian in Hl by lia. rewrite Hl.
  rewrite little_endian_to_Z_to_little_endian by lia. apply Z.mod_small. widths. lia.
Qed.

Lemma write_u16_outside a v m x : ~ (a <= x < a + 2) -> write_u16 a v m x = m x.
Proof. intros Hx. apply store_bytes_outside. by rewrite length_Z_to_little_endian. Qed.

Lemma read_u16_ext a m m' : (forall x, a <= x < a + 2 -> m x = m' x) -> read_u16 a m = read_u16 a m'.
Proof. intros Hm. unfold read_u16. by rewrite (load_bytes_ext a 2 m m'). Qed.

Lemma write_units_outside buf idx us m x :
  ~ (buf + 2 * idx <= x < buf + 2 * (idx + Z.of_nat (length us))) -> write_units buf idx us m x = m x.
Proof.
  revert idx m. induction us as [|u us IH]; intros idx m Hx; [done|]. cbn in *.
  rewrite IH by lia. apply write_u16_outside. lia.
Qed.

Lemma write_units_read buf idx us m (i : nat) u :
  Forall u16 us -> us !! i = Some u -> read_u16 (buf + 2 * (idx + Z.of_nat i)) (write_units buf idx us m) = u.
Proof.
  intros Hus. revert idx m i. induction Hus as [|v us Hv Hus IH]; intros idx m i Hi; [done|].
  destruct i as [|i]; cbn in *; simplify_eq.
  - rewrite Z.add_0_r. rewrite (read_u16_ext _ _ (write_u16 (buf + 2 * idx) u m)); [by apply read_write_u16|].
    intros x Hx. apply write_units_outside. lia.
  - replace (idx + Z.of_nat (S i)) with (idx + 1 + Z.of_nat i) by lia. by apply IH.
Qed.

Lemma slice_write_units buf us m :
  Forall u16 us -> slice_u16 buf (Z.of_nat (length us)) (write_units buf 0 us m) = us.
Proof.
  intros Hus. apply list_eq. intros i. unfold slice_u16. rewrite list_lookup_fmap.
  destruct (us !! i) as [u|] eqn:E.
  - pose proof (lookup_lt_Some _ _ _ E). rewrite lookup_seqZ_lt by lia. cbn. f_equal.
    by apply write_units_read.
  - apply lookup_ge_None_1 in E. by rewrite lookup_seqZ_ge by lia.
Qed.

Lemma slice_ext buf n m m' :
  (forall x, buf <= x < buf + 2 * n -> m x = m' x) -> slice_u16 buf n m = slice_u16 buf n m'.
Proof.
  intros Hm. unfold slice_u16. apply list_fmap_ext. intros i x Hx. apply lookup_seqZ in Hx as [-> ?].
  apply read_u16_ext. intros y Hy. apply Hm. lia.
Qed.

Lemma length_slice buf n m : length (slice_u16 buf n m) = Z.to_nat n.
Proof. unfold slice_u16. by rewrite length_fmap, length_seqZ. Qed.

(** ** Conversion to a string *)

Lemma push_chars_invalid us out v : Err v ∈ us -> push_chars us out = Err InvalidUtf16.
Proof.
  revert out. induction us as [|[c|e] us IH]; intros out; [by intros ?%not_elem_of_nil| |done].
  intros [?|H]%elem_of_cons; [done|]. by apply IH.
Qed.

Lemma slice_length_bound u m :
  u16 (Length u) -> Z.of_nat (length (unicode_string_as_slice u m)) <= 32767.
Proof.
  intros Hu. unfold unicode_string_as_slice. destruct (_ || _); cbn; [lia|]. rewrite length_slice.
  pose proof (Z.div_le_mono (Length u) 65535 2 ltac:(lia) ltac:(widths; lia)).
  change (65535 / 2) with 32767 in *. lia.
Qed.

Lemma to_string_reserves try_reserve u m :
  u16 (Length u) ->
  unicode_string_to_string try_reserve u m
  = if try_reserve (Z.of_nat (length (unicode_string_as_slice u m)) * 3)
    then push_chars (decode_utf16 (unicode_string_as_slice u m)) [] else Err AllocationFailed.
Proof.
  intros Hu. pose proof (slice_length_bound u m Hu). unfold unicode_string_to_string, usize_checked_mul.
  by destruct (Z.leb_spec (Z.of_nat (length (unicode_string_as_slice u m)) * 3) usize_MAX); [|widths; lia].
Qed.

(** A UNICODE_STRING whose units encode a string converts back to
    exactly that string when the memory for it can be reserved, and to the
    allocation error otherwise; one whose units contain an unpaired surrogate
    is reported as invalid. *)
Theorem unicode_string_round_trip (try_reserve : Z -> bool) (u : UNICODE_STRING) (m : memory) :
  u16 (Length u) ->
  (forall s, Forall valid_char s -> unicode_string_as_slice u m = encode_utf16 s ->
     unicode_string_to_string try_reserve u m
     = if try_reserve (Z.of_nat (length (encode_utf16 s)) * 3) then Ok s else Err AllocationFailed)
  /\ (forall v, Err v ∈ decode_utf16 (unicode_string_as_slice u m) ->
     try_reserve (Z.of_nat (length (unicode_string_as_slice u m)) * 3) = true ->
     unicode_string_to_string try_reserve u m = Err InvalidUtf16).
Proof.
  intros Hu. rewrite to_string_reserves by done. split.
  - intros s Hs ->. by rewrite decode_encode, push_chars_ok.
  - intros v Hv ->. by eapply push_chars_invalid.
Qed.

(** The units "A", "B" and an unpaired high surrogate. *)
Definition demo_units : list Z := [65; 66; 0xD83D].

Lemma unicode_string_round_trip_witness :
  unicode_string_to_string (fun _ => true) (mkUnicode 6 8 64) (write_units 64 0 demo_units (fun _ => 0))
  = Err InvalidUtf16.
Proof.
  apply (unicode_string_round_trip (fun _ => true) (mkUnicode 6 8 64) (write_units 64 0 demo_units (fun _ => 0)))
    with (v := 0xD83D); [unfold u16, u16_MAX; cbn; lia| |reflexivity].
  vm_compute. by do 2 right; left.
Defined.

(** ** Owned strings *)

Section Owned.
Context `{!Kernel} {A : Type} `{!RawAllocator A}.

Lemma u16_array_layout n :
  0 < n <= max_units -> layout_array u16_layout n = Some (mkLayout (2 * n) 2) /\ valid_layout (mkLayout (2 * n) 2).
Proof.
  intros Hn. unfold max_units, u16_MAX in Hn. change (65535 / 2) with 32767 in Hn. unfold layout_array, isize_MAX. cbn [size align u16_layout].
  change ((9223372036854775807 + 1 - 2) / 2) with 4611686018427387903.
  destruct (Z.ltb_spec 4611686018427387903 n); [lia|]. split; [done|].
  split; [exists 1; cbn; lia|]. unfold isize_MAX. cbn [size]. lia.
Qed.

(** C34: [OwnedUnicodeString::new_in] on a string of [n] UTF-16 units.  It
    answers [TooLong] exactly when the string and its NUL do not fit 32767
    units, without asking for memory.  Otherwise it asks the allocator for the
    [n + 1] units and answers [AllocationFailed] exactly when the allocator
    answers null, which leaves the blocks as they were; with an address it
    answers a string in that block.  The string has the lengths in bytes,
    exactly, a NUL behind the last unit and the units of the string in front
    of it; it converts back to the string it was made from; and dropping it
    gives the memory back. *)
Theorem owned_string_round_trip (value : list Z) (a : A) (k : kernel) :
  kernel_ok k -> Forall valid_char value ->
  let n := Z.of_nat (length (encode_utf16 value)) in
  if 32767 <? n + 1 then owned_new_in value a k = Done (Err TooLong, k)
  else exists p k1, alloc a (mkLayout (2 * (n + 1)) 2) k = Done (p, k1) /\ kernel_ok k1 /\
    if p =? 0 then owned_new_in value a k = Done (Err AllocationFailed, k1) /\ blocks k1 = blocks k
    else exists o k', owned_new_in value a k = Done (Ok o, k') /\ kernel_ok k'
        /\ Buffer (as_unicode o) = p /\ blocks k' = blocks k1
        /\ Length (as_unicode o) = 2 * n /\ MaximumLength (as_unicode o) = 2 * (n + 1)
        /\ read_u16 (Buffer (as_unicode o) + Length (as_unicode o)) (mem k') = 0
        /\ owned_as_utf16 o (mem k') = encode_utf16 value
        /\ unicode_string_to_string (fun _ => true) (as_unicode o) (mem k') = Ok value
        /\ exists k'', owned_drop o k' = Done (tt, k'') /\ blocks k'' = blocks k.
Proof.
  intros Hk Hv n. unfold owned_new_in. fold n. change max_units with 32767.
  destruct (Z.ltb_spec 32767 (n + 1)) as [Hlong|Hfit]; [done|].
  destruct (u16_array_layout (n + 1)) as [Hlay Hvl]; [change max_units with 32767; lia|]. rewrite Hlay.
  destruct (alloc_boxed (mkLayout (2 * (n + 1)) 2) Hvl ltac:(cbn; lia) a k Hk) as (p & k1 & E & Hok & _ & Hnull & Hgot).
  exists p, k1. split; [done|]. split; [done|].
  rewrite (bind_done _ _ _ _ _ E). destruct (Z.eqb_spec p 0) as [->|Hp];
    [split; [done|by apply Hnull]|].
  destruct (Hgot Hp) as (base & _ & Hdel & Hh & Hle & _).
  do 2 eexists. split; [reflexivity|]. split; [by repeat apply set_mem_ok|]. split; [done|]. split; [done|].
  assert (Hlen : as_u16 (n * 2) = 2 * n) by (unfold as_u16; rewrite wrap_small; lia).
  assert (Hmax : as_u16 ((n + 1) * 2) = 2 * (n + 1)) by (unfold as_u16; rewrite wrap_small; lia).
  cbn [as_unicode inner Length MaximumLength Buffer buffer buffer_len owned_alloc mem set_mem]. rewrite Hlen, Hmax.
  set (m' := write_u16 _ _ _).
  assert (Hslice : slice_u16 p n m' = encode_utf16 value).
  { rewrite (slice_ext p n m' (write_units p 0 (encode_utf16 value) (mem k1)));
      [by apply slice_write_units, encode_utf16_u16|]. intros x Hx. apply write_u16_outside. lia. }
  assert (Hhalf : 2 * n / 2 = n) by (rewrite Z.mul_comm; by apply Z.div_mul).
  split_and!; try done.
  - apply read_write_u16. widths. lia.
  - unfold owned_as_utf16. cbn [inner Length buffer]. by rewrite Hhalf.
  - rewrite to_string_reserves by (unfold u16, u16_MAX; cbn; lia). unfold unicode_string_as_slice. cbn [Buffer Length].
    destruct (Z.eqb_spec p 0); [done|]. destruct (Z.eqb_spec (2 * n) 0) as [H0|]; cbn [orb].
    + assert (value = []) as -> by (destruct value as [|c v]; [done|]; unfold n, encode_utf16, encode_char in H0;
        cbn in H0; destruct (c <? 65536); cbn in H0; lia). done.
    + rewrite Hhalf, Hslice, decode_encode by done. by rewrite push_chars_ok.
  - unfold owned_drop. cbn [buffer buffer_len owned_alloc]. destruct (Z.eqb_spec p 0); [done|]. rewrite Hlay.
    eexists. split; [apply (dealloc_law a _ _ p base); [cbn; lia|by repeat apply set_mem_ok|]|done].
    eapply holds_frame; [exact Hh|done|]. intros x Hx. cbn. rewrite write_u16_outside, write_units_outside by lia. done.
Qed.
End Owned.

Lemma owned_string_round_trip_witness :
  let alloc := alloc (RawAllocator := wdk_raw_allocator (mkBuild true false)) global_wdk in
  let new_in := owned_new_in (RawAllocator0 := wdk_raw_allocator (mkBuild true false)) [72; 105; 0x1F600] global_wdk in
  exists p k1, alloc (mkLayout 10 2) demo_memory = Done (p, k1) /\ kernel_ok k1 /\
    if p =? 0 then new_in demo_memory = Done (Err AllocationFailed, k1) /\ blocks k1 = blocks demo_memory
    else exists o k', new_in demo_memory = Done (Ok o, k') /\ kernel_ok k'
        /\ Buffer (as_unicode o) = p /\ blocks k' = blocks k1
        /\ Length (as_unicode o) = 2 * 4 /\ MaximumLength (as_unicode o) = 2 * (4 + 1)
        /\ read_u16 (Buffer (as_unicode o) + Length (as_unicode o)) (mem k') = 0
        /\ owned_as_utf16 o (mem k') = encode_utf16 [72; 105; 0x1F600]
        /\ unicode_string_to_string (fun _ => true) (as_unicode o) (mem k') = Ok [72; 105; 0x1F600]
        /\ exists k'', owned_drop (RawAllocator0 := wdk_raw_allocator (mkBuild true false)) o k' = Done (tt, k'')
             /\ blocks k'' = blocks demo_memory.
Proof.
  apply (owned_string_round_trip (RawAllocator0 := wdk_raw_allocator (mkBuild true false)) [72; 105; 0x1F600]
    global_wdk demo_memory); [apply demo_memory_ok|]. repeat constructor; unfold valid_char; lia.
Defined.

(** ** Literals *)

(** The lengths of a [kstr!] literal of [n] units are exact up to 32766
    units.  Beyond that the casts truncate silently: at 32768 units the
    string reads as empty. *)
Theorem kstr_lengths (buf : Z) (lit : list Z) :
  let n := Z.of_nat (length (encode_utf16 lit)) in
  (n <= 32766 -> Length (kstr buf lit) = 2 * n /\ MaximumLength (kstr buf lit) = 2 * (n + 1))
  /\ (n = 32767 -> Length (kstr buf lit) = 2 * n /\ MaximumLength (kstr buf lit) = 0)
  /\ (n = 32768 -> Length (kstr buf lit) = 0 /\ forall m, unicode_string_as_slice (kstr buf lit) m = []).
Proof.
  intros n. unfold kstr. rewrite length_app, Nat2Z.inj_add. fold n. cbn [length Length MaximumLength].
  assert (Hpos : 0 <= n) by (unfold n; lia).
  replace ((n + Z.of_nat 1 - 1) * 2) with (2 * n) by lia. replace ((n + Z.of_nat 1) * 2) with (2 * (n + 1)) by lia.
  unfold as_u16. split_and!.
  - intros Hn. by rewrite !wrap_small by lia.
  - intros ->. done.
  - intros ->. split; [done|]. intros m. unfold unicode_string_as_slice. cbn. by rewrite orb_true_r.
Qed.

Lemma kstr_lengths_witness :
  Length (kstr 64 [84; 101; 115; 116]) = 2 * 4 /\ MaximumLength (kstr 64 [84; 101; 115; 116]) = 2 * (4 + 1).
Proof. apply (kstr_lengths 64 [84; 101; 115; 116]). cbn. lia. Defined.

(** ** Strings in a fixed buffer *)

(** The buffer has its [N] units and the length leaves room for the NUL,
    which is there. *)
Record local_ok (N : nat) (self : LocalUnicodeString) : Prop := {
  lo_buffer : length (l_buffer self) = N;
  lo_len : 0 <= l_len self /\ (l_len self = 0 \/ l_len self + 1 <= Z.min (Z.of_nat N) max_units);
  lo_nul : forall v, l_buffer self !! Z.to_nat (l_len self) = Some v -> v = 0
}.

Definition units_of (self : LocalUnicodeString) : list Z := take (Z.to_nat (l_len self)) (l_buffer self).

Lemma push_units_spec len idx us buf :
  0 <= len + idx -> len + idx + Z.of_nat (length us) <= Z.of_nat (length buf) ->
  push_units len idx us buf
  = Done (take (Z.to_nat (len + idx)) buf ++ us ++ drop (Z.to_nat (len + idx) + length us) buf).
Proof.
  revert idx buf. induction us as [|u us IH]; intros idx buf H0 Hlen; cbn [push_units].
  - cbn. by rewrite Nat.add_0_r, take_drop.
  - cbn in Hlen. unfold index_set. destruct (Z.leb_spec 0 (len + idx)); [|lia].
    destruct (Z.ltb_spec (len + idx) (Z.of_nat (length buf))); [|lia]. cbn [andb].
    rewrite IH by (rewrite ?length_insert; lia). f_equal.
    replace (Z.to_nat (len + (idx + 1))) with (S (Z.to_nat (len + idx))) by lia.
    rewrite (take_S_r _ _ u) by (apply list_lookup_insert_eq; lia).
    rewrite take_insert_ge by lia. rewrite drop_insert_lt by lia. rewrite <- app_assoc. cbn.
    do 3 f_equal. f_equal. lia.
Qed.

Lemma index_set_zero_units len buf :
  0 <= len < Z.of_nat (length buf) ->
  index_set len 0 buf = Done (<[Z.to_nat len := 0]> buf).
Proof.
  intros Hl. unfold index_set. destruct (Z.leb_spec 0 len), (Z.ltb_spec len (Z.of_nat (length buf))); try lia. done.
Qed.

Lemma try_push_str_spec N self value : local_ok N self ->
  let n := Z.of_nat (length (encode_utf16 value)) in
  let cap := Z.min (Z.of_nat N) max_units in
  (cap < l_len self + n + 1 -> try_push_str N self value = Done (Err TooLong, self))
  /\ (l_len self + n + 1 <= cap -> exists self', try_push_str N self value = Done (Ok tt, self')
      /\ local_ok N self' /\ l_len self' = l_len self + n /\ units_of self' = units_of self ++ encode_utf16 value).
Proof.
  intros [Hb [Hl0 Hl] Hnul] n cap. unfold try_push_str. fold n cap. split; intros Hc.
  - by destruct (Z.ltb_spec cap (l_len self + n + 1)); [|lia].
  - destruct (Z.ltb_spec cap (l_len self + n + 1)); [lia|].
    assert (Hn : 0 <= n) by (unfold n; lia).
    rewrite push_units_spec by (fold n; lia). rewrite Z.add_0_r.
    set (buf := take _ _ ++ _). destruct (Z.ltb_spec (l_len self + n) (Z.of_nat N)); [|lia].
    assert (Hbl : length buf = N).
    { unfold buf. rewrite !length_app, length_take, length_drop. unfold n in *. lia. }
    rewrite index_set_zero_units by lia. eexists. split; [reflexivity|]. cbn [l_len l_buffer]. split; [split|split].
    + cbn. by rewrite length_insert.
    + cbn [l_len]. lia.
    + cbn [l_len l_buffer]. intros v. rewrite list_lookup_insert_eq by lia. congruence.
    + done.
    + unfold units_of. cbn [l_len l_buffer]. rewrite take_insert_ge by lia. unfold buf.
      rewrite app_assoc. rewrite take_app_le by (rewrite length_app, length_take; unfold n in *; lia).
      rewrite take_ge; [done|]. rewrite length_app, length_take. unfold n. lia.
Qed.

Lemma local_new_ok N : local_ok N (local_new N).
Proof.
  split; cbn; [by rewrite length_replicate|lia|]. intros v Hv. by apply lookup_replicate in Hv as [-> _].
Qed.

Lemma clear_spec N self : local_ok N self ->
  exists self', clear self = Done self' /\ local_ok N self' /\ l_len self' = 0.
Proof.
  intros [Hb Hl Hnul]. unfold clear. destruct (l_buffer self) as [|u buf] eqn:E.
  - eexists. split; [reflexivity|]. split; [|done]. cbn in Hb. subst N. split; cbn; [done|lia|done].
  - eexists. split; [reflexivity|]. split; [|done]. split; cbn in *; [done|lia|].
    by intros v [= <-].
Qed.

(** The operations that change a [LocalUnicodeString], and their effect on
    the sequence of units it stands for. *)
Inductive local_op : Type := PushStr (s : list Z) | Clear.

Definition run_op (N : nat) (self : outcome LocalUnicodeString) (op : local_op) : outcome LocalUnicodeString :=
  match self with
  | Fault f => Fault f
  | Done self =>
      match op with
      | PushStr s => match write_str N self s with Done (_, self) => Done self | Fault f => Fault f end
      | Clear => clear self
      end
  end.
Definition run_ops (N : nat) (ops : list local_op) : outcome LocalUnicodeString :=
  fold_left (run_op N) ops (Done (local_new N)).

Definition spec_op (N : nat) (us : list Z) (op : local_op) : list Z :=
  match op with
  | PushStr s =>
      if Z.min (Z.of_nat N) max_units <? Z.of_nat (length us) + Z.of_nat (length (encode_utf16 s)) + 1
      then us else us ++ encode_utf16 s
  | Clear => []
  end.
Definition spec_ops (N : nat) (ops : list local_op) : list Z := fold_left (spec_op N) ops [].

Lemma length_units_of N self : local_ok N self -> Z.of_nat (length (units_of self)) = l_len self.
Proof. intros [Hb Hl _]. unfold units_of. rewrite length_take. lia. Qed.

Lemma run_op_refines N self op : local_ok N self ->
  exists self', run_op N (Done self) op = Done self' /\ local_ok N self'
    /\ units_of self' = spec_op N (units_of self) op.
Proof.
  intros Hok. destruct op as [s|]; cbn [run_op spec_op].
  - unfold write_str. rewrite (length_units_of N self Hok).
    destruct (try_push_str_spec N self s Hok) as [Hlong Hfit].
    destruct (Z.ltb_spec (Z.min (Z.of_nat N) max_units)
      (l_len self + Z.of_nat (length (encode_utf16 s)) + 1)) as [Hc|Hc].
    + rewrite Hlong by done. eauto.
    + destruct (Hfit Hc) as (self' & -> & Hok' & _ & Hu). eauto.
  - destruct (clear_spec N self Hok) as (self' & E & Hok' & Hl). exists self'. split_and!; try done.
    unfold units_of. by rewrite Hl.
Qed.

(** C35: a [LocalUnicodeString] refines a bounded sequence of UTF-16 units.
    Any history of [write_str] and [clear] on a fresh string runs without a
    panic and leaves the units of the strings that fitted, in order; the view
    handed to the kernel has exactly their length in bytes, never beyond its
    maximum length; and unless the buffer is empty a NUL follows the last
    unit. *)
Theorem local_string_refines_bounded_units (N : nat) (at_ : Z) (ops : list local_op) :
  exists self, run_ops N ops = Done self
    /\ local_as_utf16 self = Done (spec_ops N ops)
    /\ Length (as_unicode_ref N at_ self) = 2 * Z.of_nat (length (spec_ops N ops))
    /\ Length (as_unicode_ref N at_ self) <= MaximumLength (as_unicode_ref N at_ self)
    /\ ((0 < N)%nat -> l_buffer self !! length (spec_ops N ops) = Some 0).
Proof.
  assert (Hrun : forall self us, local_ok N self -> units_of self = us ->
    exists self', fold_left (run_op N) ops (Done self) = Done self' /\ local_ok N self'
      /\ units_of self' = fold_left (spec_op N) ops us).
  { induction ops as [|op ops IH]; intros self us Hok <-; [by exists self|].
    destruct (run_op_refines N self op Hok) as (self' & E & Hok' & Hu). cbn [fold_left]. rewrite E. by apply IH. }
  destruct (Hrun (local_new N) [] (local_new_ok N) eq_refl) as (self & E & Hok & Hu).
  exists self. unfold spec_ops. rewrite <- Hu. pose proof (length_units_of N self Hok) as Hlen.
  destruct Hok as [Hb [Hl0 Hl] Hnul].
  assert (Hmax : max_units = 32767) by done.
  assert (HL : Length (as_unicode_ref N at_ self) = 2 * l_len self).
  { cbn [as_unicode_ref Length]. unfold as_u16. rewrite wrap_small; lia. }
  split_and!; [done| |by rewrite HL, Hlen| |].
  - unfold local_as_utf16. destruct (Z.leb_spec (l_len self) (Z.of_nat (length (l_buffer self)))); [done|lia].
  - rewrite HL. cbn [as_unicode_ref MaximumLength]. unfold as_u16. rewrite wrap_small; lia.
  - intros HN. replace (length (units_of self)) with (Z.to_nat (l_len self)) by lia.
    destruct (lookup_lt_is_Some_2 (l_buffer self) (Z.to_nat (l_len self))) as [v Hv]; [lia|].
    by rewrite Hv, (Hnul v Hv).
Qed.

Lemma local_string_refines_bounded_units_witness :
  exists self, run_ops 8 [PushStr [84; 101; 115; 116]; PushStr [1; 2; 3; 4]; PushStr [33]] = Done self
    /\ local_as_utf16 self = Done [84; 101; 115; 116; 33]
    /\ Length (as_unicode_ref 8 64 self) = 2 * 5
    /\ Length (as_unicode_ref 8 64 self) <= MaximumLength (as_unicode_ref 8 64 self)
    /\ ((0 < 8)%nat -> l_buffer self !! 5%nat = Some 0).
Proof.
  apply (local_string_refines_bounded_units 8 64 [PushStr [84; 101; 115; 116]; PushStr [1; 2; 3; 4]; PushStr [33]]).
Defined.
