(* ===== verification/Tracker.v ===== *)
(** * Task trackers

    Models [TaskTracker] and [WorkItemTracker] of [src/src/executor.rs],
    whose code is the same: a count of pending tasks and an auto-reset kernel
    event that [drain] waits for.  The methods are programs over atomic
    operations; a schedule interleaves the threads that run them. *)

From S2P Require Import Prelude.

(** ** The methods *)

Inductive tracker_op : Type :=
| FetchAdd                    (* [pending.fetch_add(1)] *)
| FetchSub                    (* [pending.fetch_sub(1)] *)
| LoadPending
| InitializeEvent (state : bool)
| SetEvent
| WaitForEvent.

(** A program; operations without a value answer 0. *)
Inductive tracker_prog : Type :=
| TRet
| TVis (o : tracker_op) (k : Z -> tracker_prog).

Record TaskTracker : Type := mkTracker { pending : Z; event : bool }.

(** The event is created signalled. *)
Definition tracker_new : TaskTracker := mkTracker 0 true.

Definition tracker_begin : tracker_prog :=
  TVis FetchAdd (fun prev =>
    if prev =? 0 then TVis (InitializeEvent false) (fun _ => TRet) else TRet).
Definition tracker_complete : tracker_prog :=
  TVis FetchSub (fun prev =>
    if prev =? 1 then TVis SetEvent (fun _ => TRet) else TRet).
Definition tracker_drain : tracker_prog :=
  TVis LoadPending (fun p => if p =? 0 then TRet else TVis WaitForEvent (fun _ => TRet)).

(** [task_tracker_begin] and [task_tracker_complete], which do nothing for a
    null tracker. *)
Definition task_tracker_begin (tracker_null : bool) : tracker_prog :=
  if negb tracker_null then tracker_begin else TRet.
Definition task_tracker_complete (tracker_null : bool) : tracker_prog :=
  if negb tracker_null then tracker_complete else TRet.

(** [WorkItemTracker] is written separately in the source; the lemma
    [work_item_tracker_methods] below lets every theorem on [TaskTracker]
    speak about it. *)
Definition WorkItemTracker_new : TaskTracker :=
  let event := true in
  {| pending := 0; event := event |}.
Definition WorkItemTracker_begin : tracker_prog :=
  TVis FetchAdd (fun prev =>
    if prev =? 0 then TVis (InitializeEvent false) (fun _ => TRet) else TRet).
Definition WorkItemTracker_complete : tracker_prog :=
  TVis FetchSub (fun prev =>
    if prev =? 1 then TVis SetEvent (fun _ => TRet) else TRet).
Definition WorkItemTracker_drain : tracker_prog :=
  TVis LoadPending (fun p => if p =? 0 then TRet else TVis WaitForEvent (fun _ => TRet)).

Lemma work_item_tracker_methods :
  WorkItemTracker_new = tracker_new /\ WorkItemTracker_begin = tracker_begin
  /\ WorkItemTracker_complete = tracker_complete /\ WorkItemTracker_drain = tracker_drain.
Proof. repeat split. Qed.

(** The effect of one operation: its answer and the new state, or nothing
    while it blocks.  A wait consumes the signal of a SynchronizationEvent. *)
Definition tracker_exec (o : tracker_op) (t : TaskTracker) : option (Z * TaskTracker) :=
  match o with
  | FetchAdd => Some (pending t, mkTracker (wrap 32 (pending t + 1)) (event t))
  | FetchSub => Some (pending t, mkTracker (wrap 32 (pending t - 1)) (event t))
  | LoadPending => Some (pending t, t)
  | InitializeEvent s => Some (0, mkTracker (pending t) s)
  | SetEvent => Some (0, mkTracker (pending t) true)
  | WaitForEvent => if event t then Some (0, mkTracker (pending t) false) else None
  end.

(** ** Interleavings *)

Inductive tracker_call : Type := Begin | Complete | Drain.

#[global] Instance tracker_call_eq_dec : EqDecision tracker_call.
Proof. solve_decision. Defined.

Definition call_prog (c : tracker_call) : tracker_prog :=
  match c with
  | Begin => task_tracker_begin false
  | Complete => task_tracker_complete false
  | Drain => tracker_drain
  end.

Record call_thread : Type := mkCall { ct_call : tracker_call; ct_prog : tracker_prog }.

(** [tasks] are the tasks whose [begin] has returned and whose [complete]
    has not been called; [closed] once [drain] was called; [drained] the
    pending counts at which it returned. *)
Record tracker_sys : Type := mkTSys {
  ts : TaskTracker;
  calls : list call_thread;
  tasks : nat;
  closed : bool;
  drained : list Z
}.

Inductive tracker_event : Type :=
| Call (c : tracker_call)
| Advance (i : nat).

(** What happens when a call returns. *)
Definition on_return (c : tracker_call) (s : tracker_sys) : tracker_sys :=
  match c with
  | Begin => mkTSys (ts s) (calls s) (S (tasks s)) (closed s) (drained s)
  | Complete => s
  | Drain => mkTSys (ts s) (calls s) (tasks s) (closed s) (drained s ++ [pending (ts s)])
  end.

Definition in_progress (c : tracker_call) (t : call_thread) : bool :=
  bool_decide (ct_call t = c) && match ct_prog t with TRet => false | TVis _ _ => true end.

Definition about_to (f : tracker_op -> bool) (t : call_thread) : bool :=
  match ct_prog t with TVis o _ => f o | TRet => false end.
Definition is_set (o : tracker_op) : bool := match o with SetEvent => true | _ => false end.

(** A task completes once; [drain] is called once, after the submissions have
    stopped, as its documentation asks.  [careful] is the further discipline
    that a submission does not overlap the end of the last pending task, and
    that fewer than 2^32 tasks are pending. *)
Definition may_call (c : tracker_call) (s : tracker_sys) : bool :=
  match c with
  | Begin => negb (closed s)
  | Complete => negb (Nat.eqb (tasks s) 0)
  | Drain => negb (closed s) && negb (existsb (in_progress Begin) (calls s))
  end.

Definition may_advance (careful : bool) (o : tracker_op) (s : tracker_sys) : bool :=
  match o with
  | FetchAdd =>
      negb careful || (negb (existsb (about_to is_set) (calls s)) && (pending (ts s) <? u32_MAX))
  | _ => true
  end.

Definition tracker_step (careful : bool) (e : tracker_event) (s : tracker_sys) : option tracker_sys :=
  match e with
  | Call c =>
      if may_call c s then
        Some (mkTSys (ts s) (calls s ++ [mkCall c (call_prog c)])
                (match c with Complete => pred (tasks s) | _ => tasks s end)
                (match c with Drain => true | _ => closed s end) (drained s))
      else None
  | Advance i =>
      match calls s !! i with
      | Some (mkCall c (TVis o k)) =>
          if may_advance careful o s then
            match tracker_exec o (ts s) with
            | Some (r, t) =>
                let s := mkTSys t (<[i := mkCall c (k r)]> (calls s)) (tasks s) (closed s) (drained s) in
                Some (match k r with TRet => on_return c s | TVis _ _ => s end)
            | None => None
            end
          else None
      | _ => None
      end
  end.

Fixpoint tracker_run (careful : bool) (es : list tracker_event) (s : tracker_sys) : option tracker_sys :=
  match es with
  | [] => Some s
  | e :: es =>
      match tracker_step careful e s with
      | Some s => tracker_run careful es s
      | None => None
      end
  end.

Definition tracker_start : tracker_sys := mkTSys tracker_new [] 0 false [].

(** ** Invariant *)

(** The number of threads about to perform an operation of [f]. *)
Fixpoint waiting_at (f : tracker_op -> bool) (l : list call_thread) : Z :=
  match l with
  | [] => 0
  | t :: l => (if about_to f t then 1 else 0) + waiting_at f l
  end.

Definition is_add (o : tracker_op) : bool := match o with FetchAdd => true | _ => false end.
Definition is_sub (o : tracker_op) : bool := match o with FetchSub => true | _ => false end.
Definition is_init (o : tracker_op) : bool := match o with InitializeEvent _ => true | _ => false end.
Definition is_wait (o : tracker_op) : bool := match o with WaitForEvent => true | _ => false end.
Definition is_drain (o : tracker_op) : bool := match o with WaitForEvent | LoadPending => true | _ => false end.

Lemma waiting_at_nonneg f l : 0 <= waiting_at f l.
Proof. induction l as [|t l IH]; cbn; [lia|]. destruct (about_to f t); lia. Qed.

Lemma waiting_at_app f l l' : waiting_at f (l ++ l') = waiting_at f l + waiting_at f l'.
Proof. induction l as [|t l IH]; cbn; [done|]. rewrite IH. lia. Qed.

Lemma waiting_at_insert f l i t t' : l !! i = Some t ->
  waiting_at f (<[i := t']> l)
  = waiting_at f l - (if about_to f t then 1 else 0) + (if about_to f t' then 1 else 0).
Proof.
  revert i. induction l as [|u l IH]; intros [|i] Hi; simplify_eq/=; [lia|]. rewrite (IH i Hi). lia.
Qed.

Lemma waiting_at_pos f l i t : l !! i = Some t -> about_to f t = true -> 0 < waiting_at f l.
Proof.
  revert i. induction l as [|u l IH]; intros [|i] Hi Ht; simplify_eq/=.
  - rewrite Ht. pose proof (waiting_at_nonneg f l). lia.
  - specialize (IH i Hi Ht). destruct (about_to f u); lia.
Qed.

Lemma existsb_waiting_at f l : existsb (about_to f) l = false -> waiting_at f l = 0.
Proof.
  induction l as [|t l IH]; cbn; [done|]. intros H. apply orb_false_iff in H as [-> H]. by rewrite (IH H).
Qed.

(** The points a call can be at. *)
Definition point_of (t : call_thread) : Prop :=
  ct_prog t = TRet \/
  match ct_call t with
  | Begin => ct_prog t = tracker_begin \/ ct_prog t = TVis (InitializeEvent false) (fun _ => TRet)
  | Complete => ct_prog t = tracker_complete \/ ct_prog t = TVis SetEvent (fun _ => TRet)
  | Drain => ct_prog t = tracker_drain \/ ct_prog t = TVis WaitForEvent (fun _ => TRet)
  end.

(** The pending count is exact; at most one thread is between its update of
    the count and its update of the event; while tasks are pending the event
    is not signalled; and a waiting [drain] will be woken. *)
Record tracker_inv (s : tracker_sys) : Prop := {
  ti_points : Forall point_of (calls s);
  ti_pending : pending (ts s) = Z.of_nat (tasks s) + waiting_at is_init (calls s) + waiting_at is_sub (calls s);
  ti_range : 0 <= pending (ts s) <= u32_MAX;
  ti_inits : waiting_at is_init (calls s) <= 1;
  ti_sets : waiting_at is_set (calls s) <= 1;
  ti_set_zero : 0 < waiting_at is_set (calls s) -> pending (ts s) = 0;
  ti_event : 0 < pending (ts s) -> waiting_at is_init (calls s) = 0 -> event (ts s) = false;
  ti_closed : closed s = true -> waiting_at is_init (calls s) = 0 /\ waiting_at is_add (calls s) = 0;
  ti_drains : waiting_at is_drain (calls s) + Z.of_nat (length (drained s)) <= (if closed s then 1 else 0);
  ti_wait : 0 < waiting_at is_wait (calls s) ->
    0 < pending (ts s) \/ 0 < waiting_at is_set (calls s) \/ event (ts s) = true;
  ti_drained : Forall (eq 0) (drained s);
  ti_done : drained s <> [] -> closed s = true /\ pending (ts s) = 0
}.

Lemma tracker_start_inv : tracker_inv tracker_start.
Proof. split; cbn; try done; unfold u32_MAX; lia. Qed.

Lemma no_begin_in_progress l :
  Forall point_of l -> existsb (in_progress Begin) l = false ->
  waiting_at is_init l = 0 /\ waiting_at is_add l = 0.
Proof.
  induction 1 as [|[c p] l Hp Hl IH]; cbn; [done|]. intros H.
  apply orb_false_iff in H as [Ht H]. destruct (IH H) as [-> ->]. unfold point_of in Hp. cbn in Hp.
  destruct Hp as [->|Hp]; [done|]. destruct c; destruct Hp as [->| ->]; cbn in *; try done.
Qed.

Lemma waits_are_drains l : waiting_at is_wait l <= waiting_at is_drain l.
Proof.
  induction l as [|t l IH]; cbn; [done|]. unfold about_to. destruct (ct_prog t) as [|[]]; cbn; lia.
Qed.
#[local] Hint Resolve waiting_at_nonneg : core.

Lemma call_inv careful c s s' :
  tracker_inv s -> tracker_step careful (Call c) s = Some s' -> tracker_inv s'.
Proof.
  intros [Hp Hpe Hr Hi Hs Hz He Hc Hd Hw Hdr Hdn]. unfold tracker_step.
  destruct (may_call c s) eqn:Hm; [|done]. intros [= <-].
  destruct c; cbn in Hm; split; cbn; rewrite ?waiting_at_app; cbn; rewrite ?Z.add_0_r; auto;
    try (apply Forall_app; split; [done|]; repeat constructor; unfold point_of; cbn; by auto).
  - intros Hcl. by rewrite Hcl in Hm.
  - apply negb_true_iff, Nat.eqb_neq in Hm. lia.
  - apply andb_true_iff in Hm as [_ Hm%negb_true_iff]. by intros _; apply no_begin_in_progress.
  - apply andb_true_iff in Hm as [Hm%negb_true_iff _]. rewrite Hm in Hd.
    pose proof (waiting_at_nonneg is_drain (calls s)). lia.
  - intros Hdd. split; [done|by apply Hdn].
Qed.

(** Close the fields of the invariant after a step of one thread: [HW] counts
    the threads at each point, [Hup] the new point of the thread, [Hc],
    [He] and [Hdn] are the fields on closing, on the event and on the end. *)
Ltac tracker_fin HW Hup Hc He Hdn :=
  split; cbn; rewrite ?HW, ?length_app; cbn; try lia; try done;
  first [ apply Hup; unfold point_of; cbn; tauto
        | let Hcl := fresh in intros Hcl; destruct (Hc Hcl); split; lia
        | let Hd := fresh in let Hcl := fresh in
          intros Hd; destruct (Hdn Hd) as [Hcl ?]; destruct (Hc Hcl); split; [done|lia]
        | intros; apply He; lia
        | apply Forall_app; split; [done|]; apply Forall_singleton; cbn; lia
        | rewrite ?Z.sub_0_r, ?Z.add_0_r; assumption
        | idtac ].

Lemma advance_inv i s s' :
  tracker_inv s -> tracker_step true (Advance i) s = Some s' -> tracker_inv s'.
Proof.
  intros [Hp Hpe Hr Hi Hs Hz He Hc Hd Hw Hdr Hdn]. unfold tracker_step.
  destruct (calls s !! i) as [[c [|o k]]|] eqn:Hl; try done.
  destruct (may_advance true o s) eqn:Hm; [|done].
  assert (Hpt : point_of (mkCall c (TVis o k))) by (by eapply (Forall_lookup_1 _ _ _ _ Hp)).
  assert (Hup : forall p', point_of (mkCall c p') -> Forall point_of (<[i := mkCall c p']> (calls s)))
    by (intros p' Hp'; by apply Forall_insert).
  assert (HW : forall f p', waiting_at f (<[i := mkCall c p']> (calls s)) = waiting_at f (calls s)
      - (if f o then 1 else 0) + (if about_to f (mkCall c p') then 1 else 0))
    by (intros f p'; by rewrite (waiting_at_insert f _ _ _ _ Hl)).
  assert (HP : forall f, f o = true -> 0 < waiting_at f (calls s))
    by (intros f Hf; by apply (waiting_at_pos f _ i _ Hl)).
  pose proof (waiting_at_nonneg is_init (calls s)). pose proof (waiting_at_nonneg is_sub (calls s)).
  pose proof (waiting_at_nonneg is_set (calls s)). pose proof (waits_are_drains (calls s)).
  destruct Hpt as [Hpt|Hpt]; [done|]. cbn in Hpt.
  destruct c; destruct Hpt as [[= -> ->]|[= -> ->]]; cbn [tracker_exec].
  - (* fetch_add *)
    specialize (HP is_add eq_refl). cbn in Hm. apply andb_true_iff in Hm as [Hm1%negb_true_iff%existsb_waiting_at Hm2%Z.ltb_lt].
    rewrite wrap_small by (unfold u32_MAX in *; lia).
    destruct (Z.eqb_spec (pending (ts s)) 0) as [Hz0|Hnz]; intros [= <-]; tracker_fin HW Hup Hc He Hdn.
  - (* KeInitializeEvent *)
    specialize (HP is_init eq_refl). intros [= <-]; tracker_fin HW Hup Hc He Hdn.
  - (* fetch_sub *)
    specialize (HP is_sub eq_refl). rewrite wrap_small by (unfold u32_MAX in *; lia).
    destruct (Z.eqb_spec (pending (ts s)) 1) as [Hz0|Hnz]; intros [= <-]; tracker_fin HW Hup Hc He Hdn.
  - (* KeSetEvent *)
    specialize (HP is_set eq_refl). intros [= <-]; tracker_fin HW Hup Hc He Hdn.
  - (* load *)
    specialize (HP is_drain eq_refl). destruct (closed s) eqn:Hcl; [|lia].
    destruct (Z.eqb_spec (pending (ts s)) 0) as [Hz0|Hnz]; intros [= <-]; tracker_fin HW Hup Hc He Hdn.
  - (* wait *)
    specialize (HP is_drain eq_refl).
    destruct (event (ts s)) eqn:Hev; [|done]. destruct (closed s) eqn:Hcl; [|lia]. destruct (Hc eq_refl).
    assert (Hp0 : pending (ts s) = 0).
    { destruct (Z.eq_dec (pending (ts s)) 0); [done|]. discriminate He; lia. }
    intros [= <-]; tracker_fin HW Hup Hc He Hdn.
Qed.

Lemma tracker_run_inv es s s' :
  tracker_inv s -> tracker_run true es s = Some s' -> tracker_inv s'.
Proof.
  revert s. induction es as [|[c|i] es IH]; intros s Hs; cbn [tracker_run]; [by intros [= <-]|..].
  - destruct (tracker_step true (Call c) s) as [s1|] eqn:E; [|done]. by eapply IH, call_inv.
  - destruct (tracker_step true (Advance i) s) as [s1|] eqn:E; [|done]. by eapply IH, advance_inv.
Qed.

(** Once everyone else has returned and no task is left, a waiting [drain]
    finds the event signalled. *)
Lemma drain_can_go_on s i k :
  tracker_inv s -> calls s !! i = Some (mkCall Drain (TVis WaitForEvent k)) -> tasks s = 0%nat ->
  (forall j t, calls s !! j = Some t -> ct_call t <> Drain -> ct_prog t = TRet) ->
  exists s', tracker_step true (Advance i) s = Some s'.
Proof.
  intros [Hp Hpe Hr Hi Hs Hz He Hc Hd Hw Hdr Hdn] Hl Ht Hall.
  assert (Hidle : forall f, f LoadPending = false -> f WaitForEvent = false -> waiting_at f (calls s) = 0).
  { intros f Hf1 Hf2. clear -Hp Hall Hf1 Hf2. revert Hall. induction Hp as [|[c p] l Hpt _ IH]; intros Hall; [done|].
    cbn. rewrite IH by (intros j t Hj; by apply (Hall (S j))). specialize (Hall 0%nat _ eq_refl). cbn in Hall.
    unfold point_of in Hpt. cbn in Hpt. destruct Hpt as [->|Hpt]; [done|].
    destruct c; [by rewrite Hall by done|by rewrite Hall by done|].
    destruct Hpt as [->| ->]; unfold about_to; cbn; by rewrite ?Hf1, ?Hf2. }
  assert (Hev : event (ts s) = true).
  { destruct Hw as [Hw|[Hw|Hw]]; [by eapply waiting_at_pos| | |done].
    - rewrite Hpe, !Hidle in Hw by done. lia.
    - rewrite Hidle in Hw by done. lia. }
  unfold tracker_step. rewrite Hl. cbn [may_advance tracker_exec]. rewrite Hev. eauto.
Qed.

(** When [drain] has returned, no task is left, and a call that has not
    returned is about to signal the event. *)
Lemma after_drain s :
  tracker_inv s -> drained s <> [] ->
  closed s = true /\ tasks s = 0%nat
  /\ Forall (fun t => ct_prog t = TRet \/ ct_prog t = TVis SetEvent (fun _ => TRet)) (calls s).
Proof.
  intros [Hp Hpe Hr Hi Hs Hz He Hc Hd Hw Hdr Hdn] Hne. destruct (Hdn Hne) as [Hcl Hz0].
  destruct (Hc Hcl) as [Hin Had]. rewrite Hcl in Hd.
  assert (0 < Z.of_nat (length (drained s))) by (destruct (drained s); cbn; [done|lia]).
  pose proof (waiting_at_nonneg is_sub (calls s)). pose proof (waiting_at_nonneg is_drain (calls s)).
  split_and!; [done|lia|]. apply Forall_lookup_2. intros i [c p] Hl.
  pose proof (Forall_lookup_1 _ _ _ _ Hp Hl) as Hpt. unfold point_of in Hpt. cbn in Hpt |- *.
  assert (HP : forall f, about_to f (mkCall c p) = true -> 0 < waiting_at f (calls s))
    by (intros f; by apply (waiting_at_pos f _ i)).
  destruct Hpt as [->|Hpt]; [by left|]. destruct c; destruct Hpt as [->| ->]; auto; exfalso.
  - specialize (HP is_add eq_refl). lia.
  - specialize (HP is_init eq_refl). lia.
  - specialize (HP is_sub eq_refl). lia.
  - specialize (HP is_drain eq_refl). lia.
  - specialize (HP is_drain eq_refl). lia.
Qed.

(** ** Properties *)

(** In every interleaving of [begin], [complete] and one [drain] in which
    [drain] is called after the submissions have stopped, and no submission
    overlaps the end of the last pending task, [drain] returns only when no
    tracked task is left; and it does not hang: once the tasks have completed,
    a [drain] that waits can go on. *)
Theorem drain_waits_for_all_tasks (es : list tracker_event) (s : tracker_sys) :
  tracker_run true es tracker_start = Some s ->
  Forall (eq 0) (drained s)
  /\ (drained s <> [] -> tasks s = 0%nat /\ pending (ts s) = 0)
  /\ (forall i k, calls s !! i = Some (mkCall Drain (TVis WaitForEvent k)) -> tasks s = 0%nat ->
      (forall j t, calls s !! j = Some t -> ct_call t <> Drain -> ct_prog t = TRet) ->
      exists s', tracker_step true (Advance i) s = Some s').
Proof.
  intros Hrun. apply tracker_run_inv in Hrun; [|apply tracker_start_inv]. split_and!.
  - by destruct Hrun.
  - intros Hne. destruct (after_drain s Hrun Hne) as (_ & Ht & _). split; [done|]. by apply (ti_done _ Hrun).
  - intros i k Hl Ht Hall. by eapply drain_can_go_on.
Qed.

Definition one_task_drained : list tracker_event :=
  [Call Begin; Advance 0; Advance 0; Call Complete; Call Drain; Advance 2; Advance 1; Advance 1; Advance 2].

Lemma drain_waits_for_all_tasks_witness :
  exists s, tracker_run true one_task_drained tracker_start = Some s /\
  Forall (eq 0) (drained s)
  /\ (drained s <> [] -> tasks s = 0%nat /\ pending (ts s) = 0)
  /\ (forall i k, calls s !! i = Some (mkCall Drain (TVis WaitForEvent k)) -> tasks s = 0%nat ->
      (forall j t, calls s !! j = Some t -> ct_call t <> Drain -> ct_prog t = TRet) ->
      exists s', tracker_step true (Advance i) s = Some s').
Proof.
  eexists. split; [vm_compute; reflexivity|].
  apply (drain_waits_for_all_tasks one_task_drained). vm_compute; reflexivity.
Defined.

(** The last pending task gives up its count, the next task is submitted, and
    then the first one signals the event. *)
Definition overlapping_submission : list tracker_event :=
  [Call Begin; Advance 0; Advance 0; Call Complete; Advance 1; Call Begin; Advance 2; Advance 2;
   Advance 1; Call Drain; Advance 3; Advance 3].

(** The last task has given up its count but not signalled the event yet when
    [drain] looks. *)
Definition late_signal : list tracker_event :=
  [Call Begin; Advance 0; Advance 0; Call Complete; Advance 1; Call Drain; Advance 2].

(** Two interleavings against [drain].  A submission that overlaps the
    end of the last pending task leaves the event signalled, so a later
    [drain] returns while the new task is pending.  And [drain] can return
    while a completing task has yet to signal the event, whose memory the
    caller of [drain] may free. *)
Theorem drain_can_return_too_early :
  (exists s, tracker_run false overlapping_submission tracker_start = Some s
     /\ drained s = [1] /\ tasks s = 1%nat)
  /\ (exists s, tracker_run true late_signal tracker_start = Some s
     /\ drained s = [0] /\ existsb (about_to is_set) (calls s) = true).
Proof. split; eexists; (split; [vm_compute; reflexivity|]); by split. Qed.
