(* ===== verification/TrackedTasks.v ===== *)
(** * A driver with tracked tasks

    [TaskTracker] and the DPC executor together: any number of tasks spawned
    with the tracked spawn functions of [src/src/executor.rs] over one
    tracker, which counts a task in [Task::allocate] and out when its block
    has been freed, and one [drain].  The machine interleaves the calls of the
    tracker's methods, operation by operation, with the schedules of all the
    tasks. *)

From S2P Require Import Prelude Programs Status Refcount Tracker.
From S2P Require Import Executor ExecutorSem ExecutorSafety ExecutorTheorems ExecutorWake.

(** ** The machine *)

Record driver : Type := mkDriver {
  dr_tracker : tracker_sys;
  dr_tasks : list ExecutorSem.sys
}.

Inductive driver_event : Type :=
| Submit (block : option unit)               (* a spawn function is called; what the pool gives it *)
| DrainTasks                                 (* [drain] is called *)
| TrackerRuns (i : nat) (handle : bool)      (* a call of the tracker goes on *)
| TaskRuns (j : nat) (e : ExecutorSem.event) (* an event of a task *).

(** Whether call [i] is a [begin] that has returned. *)
Definition begun (i : nat) (t : tracker_sys) : bool :=
  match calls t !! i with Some (mkCall Begin TRet) => true | _ => false end.

(** Whether the event is the operation that tells the tracker. *)
Definition reports (e : ExecutorSem.event) (x : ExecutorSem.sys) : bool :=
  match e with
  | Run i _ => match next_op x i with Some TrackerComplete => true | _ => false end
  | _ => false
  end.

(** A spawn function allocates the block, or fails without telling the
    tracker; it calls [begin]; when that has returned the task is published,
    with a handle or without one.  The operation of a task that tells the
    tracker begins a call of [complete].  [careful] is the discipline of
    [Tracker]; it restricts the calls of the driver, not the tasks. *)
Definition driver_step (c : config) (serial careful : bool) (b : budget) (e : driver_event) (s : driver)
    : option driver :=
  let t := dr_tracker s in
  match e with
  | Submit block =>
      match task_allocate block b with
      | Err _ => Some s
      | Ok _ =>
          match tracker_step careful (Call Begin) t with
          | Some t => Some (mkDriver t (dr_tasks s))
          | None => None
          end
      end
  | DrainTasks =>
      match tracker_step careful (Call Drain) t with
      | Some t => Some (mkDriver t (dr_tasks s))
      | None => None
      end
  | TrackerRuns i handle =>
      match tracker_step careful (Advance i) t with
      | Some t =>
          Some (mkDriver t (dr_tasks s ++ if begun i t then [spawned b (spawn_prog handle)] else []))
      | None => None
      end
  | TaskRuns j e =>
      match dr_tasks s !! j with
      | Some x =>
          match ExecutorSem.step c serial e x,
                (if reports e x then tracker_step careful (Call Complete) t else Some t) with
          | Some x, Some t => Some (mkDriver t (<[j := x]> (dr_tasks s)))
          | _, _ => None
          end
      | None => None
      end
  end.

Fixpoint driver_run (c : config) (serial careful : bool) (b : budget) (es : list driver_event) (s : driver)
    : option driver :=
  match es with
  | [] => Some s
  | e :: es =>
      match driver_step c serial careful b e s with
      | Some s => driver_run c serial careful b es s
      | None => None
      end
  end.

Definition driver_start : driver := mkDriver tracker_start [].

(** ** Invariant *)

Definition reported (xs : list ExecutorSem.sys) : nat := sum_list_with (fun x => m_tracked (s_mem x)) xs.
#[local] Arguments reported : simpl never.

(** The tracker counts the tasks that have not reported yet. *)
Record driver_inv (serial : bool) (s : driver) : Prop := {
  di_tracker : tracker_inv (dr_tracker s);
  di_tasks : Forall (Inv serial) (dr_tasks s);
  di_count : (tasks (dr_tracker s) + reported (dr_tasks s) = length (dr_tasks s))%nat
}.

Lemma driver_start_inv serial : driver_inv serial driver_start.
Proof. split; [apply tracker_start_inv|done|done]. Qed.

Lemma reported_insert xs j x x' :
  xs !! j = Some x ->
  (reported (<[j := x']> xs) + m_tracked (s_mem x) = reported xs + m_tracked (s_mem x'))%nat.
Proof.
  intros Hj. pose proof (sum_insert (fun x => m_tracked (s_mem x)) xs j x x' Hj) as H.
  unfold total in H. unfold reported. lia.
Qed.

Lemma reported_le serial xs : Forall (Inv serial) xs -> (reported xs <= length xs)%nat.
Proof.
  unfold reported. induction 1 as [|x xs Hx _ IH]; [done|]. cbn.
  pose proof (reported_at_most_once serial x Hx). lia.
Qed.

(** All of them reported: nothing is left of any. *)
Lemma all_gone serial xs : Forall (Inv serial) xs -> reported xs = length xs -> Forall (gone serial) xs.
Proof.
  induction 1 as [|x xs Hx Hxs IH]; [done|]. unfold reported. cbn. fold (reported xs). intros Hr.
  pose proof (reported_le serial xs Hxs). pose proof (reported_at_most_once serial x Hx).
  constructor; [apply reported_is_gone; [done|lia]|apply IH; lia].
Qed.

Lemma exec_tracked c o x m r m' :
  exec c o x m = Done (r, m') ->
  m_tracked m' = (m_tracked m + match o with TrackerComplete => 1 | _ => 0 end)%nat.
Proof.
  intros He. destruct o; cbn in He; repeat case_hyp He; try done; injection He as <- <-; cbn; lia.
Qed.

Lemma step_tracked c serial e x x' :
  ExecutorSem.step c serial e x = Some x' ->
  m_tracked (s_mem x') = (m_tracked (s_mem x) + Nat.b2n (reports e x))%nat.
Proof.
  destruct e as [i o|fuel cpu|a]; cbn; unfold next_op.
  - destruct (s_threads x !! i) as [[d [|op k]]|]; try done.
    destruct (exec c op o (s_mem x)) as [[r m']|] eqn:He; [|done]. intros [= <-]. cbn.
    rewrite (exec_tracked _ _ _ _ _ _ He). by destruct op.
  - destruct (can_dispatch serial x); [|done]. intros [= <-]. cbn. lia.
  - destruct (m_given (s_mem x)); [done|]. intros [= <-]. cbn. lia.
Qed.

Lemma advance_tasks careful i t t' :
  tracker_step careful (Advance i) t = Some t' -> tasks t' = (tasks t + Nat.b2n (begun i t'))%nat.
Proof.
  cbn [tracker_step]. destruct (calls t !! i) as [[c [|o k]]|] eqn:Hi; try done.
  destruct (may_advance careful o t); [|done]. destruct (tracker_exec o (ts t)) as [[r t1]|]; [|done].
  assert (Hb : <[i := mkCall c (k r)]> (calls t) !! i = Some (mkCall c (k r)))
    by (apply list_lookup_insert_eq; by apply lookup_lt_Some in Hi).
  unfold begun. destruct (k r) as [|o' k'] eqn:Hk; intros [= <-]; cbn.
  - destruct c; cbn; rewrite Hb; cbn; lia.
  - rewrite Hb. destruct c; cbn; lia.
Qed.

Lemma call_tasks careful call t t' :
  tracker_step careful (Call call) t = Some t' ->
  tasks t' = match call with Complete => pred (tasks t) | _ => tasks t end.
Proof. cbn. destruct (may_call call t); [|done]. by intros [= <-]. Qed.

Section Driver.
Context (c : config) (serial : bool) (b : budget).

Definition in_range (s : driver) : Prop :=
  Forall (fun x => m_ref_count (s_mem x) < MAX_REFCOUNT) (dr_tasks s).

(** No task on the way has more references than its counter can hold. *)
Fixpoint driver_within (es : list driver_event) (s : driver) : Prop :=
  in_range s
  /\ match es with
     | [] => True
     | e :: es =>
         match driver_step c serial true b e s with Some s' => driver_within es s' | None => True end
     end.

(** An event of a task, before the tracker is told: a task that reports was
    counted. *)
Lemma task_event s j x x' e :
  driver_inv serial s -> in_range s -> dr_tasks s !! j = Some x ->
  ExecutorSem.step c serial e x = Some x' ->
  Inv serial x' /\ (reports e x = true -> m_tracked (s_mem x) = 0%nat /\ (0 < tasks (dr_tracker s))%nat).
Proof.
  intros [Ht Hx Hn] Hr Hj Hs.
  pose proof (Forall_lookup_1 _ _ _ _ Hx Hj) as Hi. pose proof (Forall_lookup_1 _ _ _ _ Hr Hj) as Hm.
  assert (Hi' : Inv serial x') by (by eapply step_Inv). split; [done|]. intros Hrep.
  pose proof (step_tracked c serial e x x' Hs) as Htr. rewrite Hrep in Htr. cbn in Htr.
  pose proof (reported_at_most_once serial x' Hi'). split; [lia|].
  assert (Hxs' : Forall (Inv serial) (<[j := x']> (dr_tasks s))) by (by apply Forall_insert).
  pose proof (reported_le serial _ Hxs') as Hle. rewrite length_insert in Hle.
  pose proof (reported_insert _ _ _ x' Hj). lia.
Qed.

(** The tracker never refuses the report of a task. *)
Lemma task_event_runs s j x x' e :
  driver_inv serial s -> in_range s -> dr_tasks s !! j = Some x ->
  ExecutorSem.step c serial e x = Some x' ->
  exists s', driver_step c serial true b (TaskRuns j e) s = Some s'.
Proof.
  intros Hinv Hr Hj Hs. destruct (task_event s j x x' e Hinv Hr Hj Hs) as [_ Hrep].
  cbn. rewrite Hj, Hs. destruct (reports e x); [|by eexists]. destruct (Hrep eq_refl) as [_ Hn].
  rewrite (proj2 (Nat.eqb_neq _ 0)) by lia. by eexists.
Qed.

Lemma driver_step_inv e s s' :
  driver_inv serial s -> in_range s -> driver_step c serial true b e s = Some s' -> driver_inv serial s'.
Proof.
  intros Hinv Hr Hs. pose proof Hinv as [Ht Hx Hn]. destruct e as [block| |i handle|j e]; cbn -[tracker_step] in Hs.
  - destruct block as [[]|]; cbn -[tracker_step] in Hs; [|by injection Hs as <-].
    destruct (tracker_step true (Call Begin) _) as [t|] eqn:E; [|done]. injection Hs as <-.
    split; cbn; [by eapply call_inv|done|]. by rewrite (call_tasks _ _ _ _ E).
  - destruct (tracker_step true (Call Drain) _) as [t|] eqn:E; [|done]. injection Hs as <-.
    split; cbn; [by eapply call_inv|done|]. by rewrite (call_tasks _ _ _ _ E).
  - destruct (tracker_step true (Advance i) _) as [t|] eqn:E; [|done]. injection Hs as <-.
    pose proof (advance_tasks _ _ _ _ E) as Hta. split; cbn; [by eapply advance_inv| |].
    + apply Forall_app. split; [done|]. destruct (begun i t); [|done].
      constructor; [|done]. apply spawned_Inv, spawn_wp, spawn_prog_ok.
    + unfold reported in *. rewrite sum_list_with_app, length_app. destruct (begun i t); cbn in *; lia.
  - destruct (dr_tasks s !! j) as [x|] eqn:Hj; [|done].
    destruct (ExecutorSem.step c serial e x) as [x'|] eqn:Hsx; [|done].
    destruct (task_event s j x x' e Hinv Hr Hj Hsx) as [Hi' Hrep].
    pose proof (reported_insert _ _ _ x' Hj) as Hri. rewrite (step_tracked c serial e x x' Hsx) in Hri.
    assert (Hxs : Forall (Inv serial) (<[j := x']> (dr_tasks s))) by (by apply Forall_insert).
    destruct (reports e x).
    + destruct (tracker_step true (Call Complete) _) as [t|] eqn:E; [|done]. injection Hs as <-.
      pose proof (call_tasks _ _ _ _ E) as Hta. cbn in Hta. destruct (Hrep eq_refl) as [H0 Hpos].
      split; cbn; [by eapply call_inv|done|]. rewrite length_insert. cbn in Hri. lia.
    + injection Hs as <-. split; cbn; [done..|]. rewrite length_insert. cbn in Hri. lia.
Qed.

Lemma driver_run_inv es s s' :
  driver_inv serial s -> driver_within es s -> driver_run c serial true b es s = Some s' ->
  driver_inv serial s'.
Proof.
  revert s. induction es as [|e es IH]; intros s Hs [Hm Hw] Hr; cbn -[driver_step] in Hr; [by injection Hr as <-|].
  destruct (driver_step c serial true b e s) as [s1|] eqn:E; [|done].
  by apply (IH s1); [eapply driver_step_inv|..].
Qed.

(** Schedules shorter than the counters are wide. *)
Lemma short_driver_runs_are_within es s n :
  driver_inv serial s -> 0 < n -> Forall (fun x => m_ref_count (s_mem x) <= n) (dr_tasks s) ->
  n + Z.of_nat (length es) < MAX_REFCOUNT -> driver_within es s.
Proof.
  revert s n. induction es as [|e es IH]; intros s n Hs Hn Hx Hl; cbn -[driver_step] in *;
    (split; [by eapply Forall_impl; [|exact Hx]; cbn; lia|]); [done|].
  assert (Hr : in_range s) by (eapply Forall_impl; [|exact Hx]; cbn; lia).
  destruct (driver_step c serial true b e s) as [s'|] eqn:E; [|done].
  apply (IH s' (n + 1)); [by eapply driver_step_inv|lia| |lia].
  assert (Hx1 : Forall (fun x => m_ref_count (s_mem x) <= n + 1) (dr_tasks s))
    by (eapply Forall_impl; [|exact Hx]; cbn; lia).
  destruct e as [block| |i handle|j e]; cbn -[tracker_step] in E.
  - destruct block as [[]|]; cbn -[tracker_step] in E; [|by injection E as <-].
    destruct (tracker_step _ _ _); [|done]. by injection E as <-.
  - destruct (tracker_step _ _ _); [|done]. by injection E as <-.
  - destruct (tracker_step _ _ _) as [t|]; [|done]. injection E as <-. cbn.
    apply Forall_app. split; [done|]. destruct (begun i t); [|done]. constructor; [cbn; lia|done].
  - destruct (dr_tasks s !! j) as [x|] eqn:Hj; [|done].
    destruct (ExecutorSem.step c serial e x) as [x'|] eqn:Hsx; [|done].
    assert (Hc : m_ref_count (s_mem x') <= n + 1).
    { pose proof (Forall_lookup_1 _ _ _ _ Hx Hj). pose proof (Forall_lookup_1 _ _ _ _ (di_tasks _ _ Hs) Hj).
      pose proof (step_count c serial e x x') as Hc. cbn in *. specialize (Hc ltac:(done) ltac:(lia) Hsx). lia. }
    destruct (if reports e x then _ else _) as [t|]; [|done]. injection E as <-. by apply Forall_insert.
Qed.
End Driver.

(** ** Unloading the driver *)

(** C9: when [drain] has returned, nothing is left of any task that was ever
    spawned on the tracker, in every interleaving of the spawn functions,
    the tasks with their DPCs, wakers and handles, and the tracker, in which
    [drain] is called after the submissions have stopped and no submission
    overlaps the end of the last task: every block has been freed, no DPC is
    queued, no thread is in the code of a task, nobody holds a waker or a
    handle, every future was dropped if the DPC routines of a task do not
    overlap, and no event of a task can happen any more.  Of the tracker's
    own code at most signalling the event is left to run. *)
Theorem drain_leaves_no_task (c : config) (serial : bool) (b : budget) (es : list driver_event) (s : driver) :
  driver_within c serial b es driver_start -> driver_run c serial true b es driver_start = Some s ->
  drained (dr_tracker s) <> [] ->
  Forall (gone serial) (dr_tasks s)
  /\ (forall j e, driver_step c serial true b (TaskRuns j e) s = None)
  /\ Forall (fun t => ct_prog t = TRet \/ ct_prog t = TVis SetEvent (fun _ => TRet)) (calls (dr_tracker s)).
Proof.
  intros Hw Hr Hd. apply driver_run_inv in Hr as [Ht Hx Hn]; [|apply driver_start_inv|done].
  destruct (after_drain _ Ht Hd) as (_ & H0 & Hcalls).
  assert (Hall : Forall (gone serial) (dr_tasks s)) by (apply all_gone; [done|lia]).
  split_and!; [done| |done]. intros j e. cbn -[tracker_step].
  destruct (dr_tasks s !! j) as [x|] eqn:Hj; [|done].
  by rewrite (gone_is_stuck c serial serial e x (Forall_lookup_1 _ _ _ _ Hall Hj)).
Qed.

(** C10: [drain] is not kept waiting.  In the same interleavings no task is
    ever refused its report to the tracker; and once every task has come to
    rest with no queued DPC and nobody holding a waker or a handle, and the
    calls of the tracker other than [drain] have returned, a [drain] that
    waits goes on. *)
Theorem drain_is_not_kept_waiting (c : config) (serial : bool) (b : budget) (es : list driver_event)
    (s : driver) :
  driver_within c serial b es driver_start -> driver_run c serial true b es driver_start = Some s ->
  (forall j x x' e, dr_tasks s !! j = Some x -> in_range s -> ExecutorSem.step c serial e x = Some x' ->
     exists s', driver_step c serial true b (TaskRuns j e) s = Some s')
  /\ (forall i k h, calls (dr_tracker s) !! i = Some (mkCall Drain (TVis WaitForEvent k)) ->
        (forall j t, calls (dr_tracker s) !! j = Some t -> ct_call t <> Drain -> ct_prog t = TRet) ->
        Forall (fun x => quiescent x /\ m_given (s_mem x) = 0%nat /\ m_queued (s_mem x) = false) (dr_tasks s) ->
        exists s', driver_step c serial true b (TrackerRuns i h) s = Some s').
Proof.
  intros Hw Hr. apply driver_run_inv in Hr as Hinv; [|apply driver_start_inv|done]. split.
  - intros j x x' e Hj Hm Hs. by eapply task_event_runs.
  - intros i k h Hl Hall Hrest. destruct Hinv as [Ht Hx Hn].
    assert (H0 : tasks (dr_tracker s) = 0%nat).
    { assert (reported (dr_tasks s) = length (dr_tasks s)); [|lia]. clear -Hx Hrest.
      induction Hx as [|x xs Hi _ IH]; [done|]. apply Forall_cons_iff in Hrest as [(H1 & H2 & H3) Hrest].
      destruct (at_rest_reported serial x Hi H1 H2 H3) as [_ Hm]. specialize (IH Hrest).
      unfold reported in *. cbn. rewrite Hm. lia. }
    destruct (drain_can_go_on _ i k Ht Hl H0 Hall) as [t Hstep]. cbn -[tracker_step]. rewrite Hstep. eauto.
Qed.

(** ** A run: two tasks, one of which wakes itself in its first poll *)

Definition task_runs (j n i : nat) (x : oracle) : list driver_event := replicate n (TaskRuns j (Run i x)).
Definition yields : oracle := mkOracle ([ActWakeByRef], PollPending) (0, 0).

(** Spawning task [j], whose [begin] is call [i] of the tracker and has [n]
    operations. *)
Definition spawn_events (j i n : nat) : list driver_event :=
  Submit (Some tt) :: replicate n (TrackerRuns i false) ++ task_runs j 5 0 idle_oracle.

Definition unloading : list driver_event :=
  spawn_events 0 0 2 ++ [Submit None] ++ spawn_events 1 1 1
  ++ [TaskRuns 0 (ExecutorSem.Dispatch 5 (Some 0)); TaskRuns 1 (ExecutorSem.Dispatch 5 (Some 1))]
  ++ task_runs 1 6 1 yields ++ task_runs 0 16 1 ready_oracle
  ++ [DrainTasks; TrackerRuns 3 false; TrackerRuns 2 false]
  ++ task_runs 1 8 1 yields ++ task_runs 1 7 1 ready_oracle
  ++ [TaskRuns 1 (ExecutorSem.Dispatch 5 (Some 1))] ++ task_runs 1 6 2 idle_oracle
  ++ [TrackerRuns 4 false; TrackerRuns 4 false].

Definition hardened : config := mkConfig Hardened true.
Definition unloaded : driver :=
  default driver_start (driver_run hardened true true default_budget
    (unloading ++ [TrackerRuns 3 false]) driver_start).
Definition waiting_driver : driver :=
  default driver_start (driver_run hardened true true default_budget unloading driver_start).

Lemma unloading_within : driver_within hardened true default_budget (unloading ++ [TrackerRuns 3 false]) driver_start.
Proof.
  apply (short_driver_runs_are_within _ _ _ _ _ 1); [apply driver_start_inv|lia|constructor|].
  vm_compute. reflexivity.
Qed.

Lemma drain_leaves_no_task_witness :
  length (dr_tasks unloaded) = 2%nat /\ Forall (gone true) (dr_tasks unloaded).
Proof.
  split; [vm_compute; reflexivity|].
  apply (drain_leaves_no_task hardened true default_budget (unloading ++ [TrackerRuns 3 false])).
  - exact unloading_within.
  - vm_compute. reflexivity.
  - vm_compute. discriminate.
Defined.

Lemma drain_is_not_kept_waiting_witness :
  exists s', driver_step hardened true true default_budget (TrackerRuns 3 false) waiting_driver = Some s'.
Proof.
  apply (drain_is_not_kept_waiting hardened true default_budget unloading waiting_driver) with (k := fun _ => TRet).
  - apply (short_driver_runs_are_within _ _ _ _ _ 1); [apply driver_start_inv|lia|constructor|].
    vm_compute. reflexivity.
  - vm_compute. reflexivity.
  - vm_compute. reflexivity.
  - intros j t. vm_compute. do 5 (destruct j as [|j]; [intros [= <-]; try done; by intros []|]). done.
  - vm_compute. repeat constructor.
Defined.
