(* ===== verification/Timer.v ===== *)
(** * The kernel timer future

    Models [KernelTimerInner] and [KernelTimerFuture] of
    [src/src/executor.rs]: a block shared by the future and by the DPC of the
    timer, with a reference count, the [fired], [armed] and [cancelled] words
    and a waker behind a spin lock.

    [poll] and [drop] take the future exclusively, so its owner makes one
    call at a time; the kernel lets the timer expire and dispatches its DPC
    at any moment.  A section under the spin lock is one step. *)

From S2P Require Import Prelude Refcount.

(** ** Operations on the block *)

Inductive timer_op : Type :=
| RefAdd | RefSub | Free
| LoadFired | StoreFired
| CasArmed                       (* [armed.compare_exchange(0, 1)] *)
| StoreCancelled | LoadCancelled
| StoreWaker (w : nat)           (* [*waker.lock() = Some(waker.clone())] *)
| WakeStored                     (* wake_by_ref on the waker under the lock *)
| InitializeTimer                (* KeInitializeTimer and KeInitializeDpc *)
| SetTimer                       (* KeSetTimer *)
| CancelTimer                    (* KeCancelTimer: was the timer set? *)
| RemoveQueueDpc.                (* KeRemoveQueueDpc: was the DPC queued? *)

(** Programs; a boolean answer is 0 or 1, and [poll] returns 1 when ready. *)
Inductive timer_prog : Type :=
| PRet (r : Z)
| PVis (o : timer_op) (k : Z -> timer_prog).

Definition PENDING : Z := 0.
Definition READY : Z := 1.

(** [KernelTimerInner::add_ref] and [release], then [k]. *)
Definition timer_add_ref (k : timer_prog) : timer_prog := PVis RefAdd (fun _ => k).
Definition timer_release (k : timer_prog) : timer_prog :=
  PVis RefSub (fun count => if negb (count =? 0) then k else PVis Free (fun _ => k)).

(** [KernelTimerFuture::poll] with the waker [w]. *)
Definition timer_poll (w : nat) : timer_prog :=
  PVis LoadFired (fun fired =>
    if negb (fired =? 0) then PRet READY
    else
      PVis (StoreWaker w) (fun _ =>
        PVis CasArmed (fun ok =>
          if ok =? 1 then
            timer_add_ref
              (PVis InitializeTimer (fun _ => PVis SetTimer (fun _ => PRet PENDING)))
          else PRet PENDING))).

(** [Drop for KernelTimerFuture]. *)
Definition timer_drop : timer_prog :=
  PVis StoreCancelled (fun _ =>
    PVis CancelTimer (fun cancelled =>
      PVis RemoveQueueDpc (fun dpc_removed =>
        timer_release
          (if negb (cancelled =? 0) || negb (dpc_removed =? 0) then timer_release (PRet 0) else PRet 0)))).

Definition timer_dpc_routine : timer_prog :=
  PVis StoreFired (fun _ =>
    PVis LoadCancelled (fun cancelled =>
      if cancelled =? 0 then PVis WakeStored (fun _ => timer_release (PRet 0))
      else timer_release (PRet 0))).

(** ** The block and the kernel's view of it *)

Record timer_mem : Type := mkTimer {
  t_ref_count : Z;
  t_fired : Z;
  t_armed : Z;
  t_cancelled : Z;
  t_waker : option nat;
  t_ready : bool;          (* timer and DPC objects are initialised *)
  t_set : bool;            (* the timer is in the timer queue *)
  t_queued : bool;         (* the DPC is in a DPC queue *)
  t_freed : bool;
  t_woken : list nat;      (* the wakers that were woken *)
  t_uaf : bool;            (* the block was used after it was freed *)
  t_uninit : bool;         (* a timer routine got an object that was not initialised *)
  t_fault : bool           (* the reference count stopped the machine *)
}.

(** The block [KernelTimerInner::allocate] writes. *)
Definition timer_fresh : timer_mem :=
  mkTimer 1 0 0 0 None false false false false [] false false false.

Definition set_ref (n : Z) (m : timer_mem) : timer_mem :=
  mkTimer n (t_fired m) (t_armed m) (t_cancelled m) (t_waker m) (t_ready m) (t_set m) (t_queued m)
    (t_freed m) (t_woken m) (t_uaf m) (t_uninit m) (t_fault m).
Definition set_words (fired armed cancelled : Z) (m : timer_mem) : timer_mem :=
  mkTimer (t_ref_count m) fired armed cancelled (t_waker m) (t_ready m) (t_set m) (t_queued m)
    (t_freed m) (t_woken m) (t_uaf m) (t_uninit m) (t_fault m).
Definition set_waker (w : option nat) (woken : list nat) (m : timer_mem) : timer_mem :=
  mkTimer (t_ref_count m) (t_fired m) (t_armed m) (t_cancelled m) w (t_ready m) (t_set m) (t_queued m)
    (t_freed m) woken (t_uaf m) (t_uninit m) (t_fault m).
Definition set_kernel (ready set queued : bool) (m : timer_mem) : timer_mem :=
  mkTimer (t_ref_count m) (t_fired m) (t_armed m) (t_cancelled m) (t_waker m) ready set queued
    (t_freed m) (t_woken m) (t_uaf m) (t_uninit m) (t_fault m).
Definition set_freed (m : timer_mem) : timer_mem :=
  mkTimer (t_ref_count m) (t_fired m) (t_armed m) (t_cancelled m) (t_waker m) (t_ready m) (t_set m) (t_queued m)
    true (t_woken m) (t_uaf m) (t_uninit m) (t_fault m).
Definition note (uaf uninit fault : bool) (m : timer_mem) : timer_mem :=
  mkTimer (t_ref_count m) (t_fired m) (t_armed m) (t_cancelled m) (t_waker m) (t_ready m) (t_set m) (t_queued m)
    (t_freed m) (t_woken m) (t_uaf m || uaf) (t_uninit m || uninit) (t_fault m || fault).

Definition b2z (b : bool) : Z := if b then 1 else 0.

Definition timer_exec (c : config) (o : timer_op) (m0 : timer_mem) : Z * timer_mem :=
  let m := note (t_freed m0) false false m0 in
  match o with
  | RefAdd => match Refcount.add c (t_ref_count m) with
              | Done (r, n) => (r, set_ref n m)
              | Fault _ => (0, note false false true m)
              end
  | RefSub => match Refcount.sub c (t_ref_count m) with
              | Done (r, n) => (r, set_ref n m)
              | Fault _ => (0, note false false true m)
              end
  | Free => (0, set_freed m)
  | LoadFired => (t_fired m, m)
  | StoreFired => (0, set_words 1 (t_armed m) (t_cancelled m) m)
  | CasArmed => if t_armed m =? 0 then (1, set_words (t_fired m) 1 (t_cancelled m) m) else (0, m)
  | StoreCancelled => (0, set_words (t_fired m) (t_armed m) 1 m)
  | LoadCancelled => (t_cancelled m, m)
  | StoreWaker w => (0, set_waker (Some w) (t_woken m) m)
  | WakeStored => (0, set_waker (t_waker m) (t_woken m ++ option_list (t_waker m)) m)
  | InitializeTimer => (0, set_kernel true (t_set m) (t_queued m) m)
  | SetTimer => (0, note false (negb (t_ready m)) false (set_kernel (t_ready m) true (t_queued m) m))
  | CancelTimer => (b2z (t_set m), note false (negb (t_ready m)) false (set_kernel (t_ready m) false (t_queued m) m))
  | RemoveQueueDpc => (b2z (t_queued m), note false (negb (t_ready m)) false (set_kernel (t_ready m) (t_set m) false m))
  end.

(** ** Interleavings *)

Inductive owner_call : Type := PollCall (w : nat) | DropCall.

Record timer_sys : Type := mkTimerSys {
  tm : timer_mem;
  owner : option (owner_call * timer_prog);
  dpc : option timer_prog;
  dropped : bool;                (* [drop] was called *)
  polls : list (nat * Z)         (* the polls that returned: waker and answer *)
}.

Inductive timer_event : Type :=
| OwnerCall (call : owner_call)
| OwnerStep
| Expire          (* the timer is due: its DPC is queued *)
| Dispatch        (* the DPC starts *)
| DpcStep.

Definition settle (call : owner_call) (p : timer_prog) (m : timer_mem) (s : timer_sys) : timer_sys :=
  match p with
  | PVis _ _ => mkTimerSys m (Some (call, p)) (dpc s) (dropped s) (polls s)
  | PRet r =>
      mkTimerSys m None (dpc s) (dropped s)
        (match call with PollCall w => polls s ++ [(w, r)] | DropCall => polls s end)
  end.

Definition timer_step (c : config) (e : timer_event) (s : timer_sys) : option timer_sys :=
  match e with
  | OwnerCall call =>
      match owner s with
      | Some _ => None
      | None =>
          if dropped s then None
          else Some (match call with
                     | PollCall w => mkTimerSys (tm s) (Some (call, timer_poll w)) (dpc s) false (polls s)
                     | DropCall => mkTimerSys (tm s) (Some (call, timer_drop)) (dpc s) true (polls s)
                     end)
      end
  | OwnerStep =>
      match owner s with
      | Some (call, PVis o k) =>
          let '(r, m) := timer_exec c o (tm s) in Some (settle call (k r) m s)
      | _ => None
      end
  | Expire =>
      if t_set (tm s) then
        Some (mkTimerSys (note (t_freed (tm s)) false false (set_kernel (t_ready (tm s)) false true (tm s)))
                (owner s) (dpc s) (dropped s) (polls s))
      else None
  | Dispatch =>
      match t_queued (tm s), dpc s with
      | true, None =>
          Some (mkTimerSys (note (t_freed (tm s)) false false (set_kernel (t_ready (tm s)) (t_set (tm s)) false (tm s)))
                  (owner s) (Some timer_dpc_routine) (dropped s) (polls s))
      | _, _ => None
      end
  | DpcStep =>
      match dpc s with
      | Some (PVis o k) =>
          let '(r, m) := timer_exec c o (tm s) in
          Some (mkTimerSys m (owner s) (match k r with PRet _ => None | p => Some p end) (dropped s) (polls s))
      | _ => None
      end
  end.

Fixpoint timer_run (c : config) (es : list timer_event) (s : timer_sys) : option timer_sys :=
  match es with
  | [] => Some s
  | e :: es => match timer_step c e s with Some s => timer_run c es s | None => None end
  end.

Definition timer_start : timer_sys := mkTimerSys timer_fresh None None false [].

(** ** Invariant *)

(** Where the owner is. *)
Inductive owner_point : Type :=
| OOut | OLoad (w : nat) | OStore (w : nat) | OCas (w : nat) | OAdd (w : nat) | OInit (w : nat) | OSet (w : nat)
| OCancelled | OCancel | ORemove (x : bool) | ORelease (x : bool) | OFree (x : bool) | ORelease2 | OFree2 | ODone.

Definition tail (x : bool) : timer_prog := if x then timer_release (PRet 0) else PRet 0.

Definition arm_tail : timer_prog :=
  PVis InitializeTimer (fun _ => PVis SetTimer (fun _ => PRet PENDING)).
Definition poll_cas : timer_prog :=
  PVis CasArmed (fun ok => if ok =? 1 then timer_add_ref arm_tail else PRet PENDING).
Definition drop_remove (cancelled : Z) : timer_prog :=
  PVis RemoveQueueDpc (fun dpc_removed =>
    timer_release (if negb (cancelled =? 0) || negb (dpc_removed =? 0) then timer_release (PRet 0) else PRet 0)).

Definition owner_at (pt : owner_point) : option (owner_call * timer_prog) :=
  match pt with
  | OOut | ODone => None
  | OLoad w => Some (PollCall w, timer_poll w)
  | OStore w => Some (PollCall w, PVis (StoreWaker w) (fun _ => poll_cas))
  | OCas w => Some (PollCall w, poll_cas)
  | OAdd w => Some (PollCall w, timer_add_ref arm_tail)
  | OInit w => Some (PollCall w, arm_tail)
  | OSet w => Some (PollCall w, PVis SetTimer (fun _ => PRet PENDING))
  | OCancelled => Some (DropCall, timer_drop)
  | OCancel => Some (DropCall, PVis CancelTimer (fun cancelled => drop_remove cancelled))
  | ORemove x => Some (DropCall, drop_remove (b2z x))
  | ORelease x => Some (DropCall, timer_release (tail x))
  | OFree x => Some (DropCall, PVis Free (fun _ => tail x))
  | ORelease2 => Some (DropCall, timer_release (PRet 0))
  | OFree2 => Some (DropCall, PVis Free (fun _ => PRet 0))
  end.

(** Where the DPC is. *)
Inductive dpc_point : Type := DOut | DFired | DLoad | DWake | DRelease | DFree.

Definition dpc_load : timer_prog :=
  PVis LoadCancelled (fun cancelled =>
    if cancelled =? 0 then PVis WakeStored (fun _ => timer_release (PRet 0)) else timer_release (PRet 0)).

Definition dpc_at (pt : dpc_point) : option timer_prog :=
  match pt with
  | DOut => None
  | DFired => Some timer_dpc_routine
  | DLoad => Some dpc_load
  | DWake => Some (PVis WakeStored (fun _ => timer_release (PRet 0)))
  | DRelease => Some (timer_release (PRet 0))
  | DFree => Some (PVis Free (fun _ => PRet 0))
  end.

(** The reference of the future, the reference made for the DPC while the
    owner or the DPC has it, and the threads about to free the block. *)
Definition future_ref (pt : owner_point) : Z :=
  match pt with OFree _ | ORelease2 | OFree2 | ODone => 0 | _ => 1 end.
Definition owner_ref (pt : owner_point) : Z :=
  match pt with
  | OInit _ | OSet _ | ORelease2 => 1
  | ORemove x | ORelease x => b2z x
  | _ => 0
  end.
Definition dpc_ref (pt : dpc_point) : Z :=
  match pt with DFired | DLoad | DWake | DRelease => 1 | _ => 0 end.
Definition owner_frees (po : owner_point) : Z := match po with OFree _ | OFree2 => 1 | _ => 0 end.
Definition dpc_frees (pd : dpc_point) : Z := match pd with DFree => 1 | _ => 0 end.
Definition frees (po : owner_point) (pd : dpc_point) : Z := owner_frees po + dpc_frees pd.
Definition arming (pt : owner_point) : Z := match pt with OAdd _ => 1 | _ => 0 end.

(** The references made for the DPC, wherever they are. *)
Definition timer_refs (s : timer_sys) (po : owner_point) (pd : dpc_point) : Z :=
  b2z (t_set (tm s)) + b2z (t_queued (tm s)) + owner_ref po + dpc_ref pd.

(** The second release of [drop] follows the first one only when the DPC's
    reference was taken back, and then the first one is not the last. *)
Definition tail_ok (po : owner_point) : Prop := match po with OFree x => x = false | _ => True end.

Definition in_drop (po : owner_point) : bool :=
  match po with
  | OCancelled | OCancel | ORemove _ | ORelease _ | OFree _ | ORelease2 | OFree2 | ODone => true
  | _ => false
  end.

Record timer_inv (s : timer_sys) (po : owner_point) (pd : dpc_point) : Prop := {
  tv_owner : owner s = owner_at po;
  tv_dpc : dpc s = dpc_at pd;
  tv_count : t_ref_count (tm s) = future_ref po + timer_refs s po pd;
  tv_once : b2z (t_armed (tm s) =? 0) + arming po + timer_refs s po pd <= 1;
  tv_free : b2z (t_freed (tm s)) + frees po pd = b2z (t_ref_count (tm s) =? 0);
  tv_tail : tail_ok po;
  tv_dropped : dropped s = in_drop po;
  tv_clean : t_uaf (tm s) = false /\ t_fault (tm s) = false
}.

Lemma timer_start_inv : timer_inv timer_start OOut DOut.
Proof. split; cbn; try done. Qed.

Lemma b2z_range b : 0 <= b2z b <= 1.
Proof. by destruct b. Qed.

Lemma owner_range po : 0 <= owner_ref po /\ 0 <= owner_frees po.
Proof. destruct po as [| | | | | | | | |[]|[]| | | |]; cbn; lia. Qed.

Lemma dpc_range pd : 0 <= dpc_ref pd /\ 0 <= dpc_frees pd.
Proof. destruct pd; cbn; lia. Qed.

(** While a reference is left, or a thread is about to free the block, it is
    not freed. *)
Lemma not_freed s po pd :
  timer_inv s po pd -> 0 < future_ref po + timer_refs s po pd + frees po pd -> t_freed (tm s) = false.
Proof.
  intros [_ _ Hc _ Hf _ _ _] Hpos. pose proof (owner_range po). pose proof (dpc_range pd).
  destruct (t_freed (tm s)); [|done]. cbn [b2z] in Hf. unfold frees in *.
  destruct (Z.eqb_spec (t_ref_count (tm s)) 0); cbn in Hf; lia.
Qed.

(** Show the invariant at the point [p]. *)
Ltac timer_point p :=
  exists p; split; unfold timer_refs, frees in *; cbn in *; try done; try lia;
  repeat match goal with
         | |- context [?a =? ?b] => destruct (Z.eqb_spec a b); cbn in *
         | H : context [?a =? ?b] |- _ => destruct (Z.eqb_spec a b); cbn in *
         end; try done; try lia.

Lemma owner_step_inv c s s' po pd :
  timer_inv s po pd -> timer_step c OwnerStep s = Some s' -> exists po', timer_inv s' po' pd.
Proof.
  intros Hinv. pose proof (not_freed s po pd Hinv) as Hnf.
  destruct Hinv as [Ho Hd Hc H1 Hf Ht Hdr [Hu Hfa]]. unfold timer_step. rewrite Ho.
  destruct s as [[rc fired armed canc waker ready set queued freed woken uaf uninit fault] ow dp dr ps].
  pose proof (dpc_range pd). pose proof (b2z_range set). pose proof (b2z_range queued).
  pose proof (b2z_range (armed =? 0)). unfold timer_refs, frees in *. cbn in * |-. subst ow dp uaf fault.
  destruct po as [|w|w|w|w|w|w| | |x|x|x| | |]; cbn -[Refcount.add Refcount.sub]; try done;
    try pose proof (b2z_range x); rewrite Hnf in * by (cbn in *; lia); clear Hnf.
  - destruct (fired =? 0); intros [= <-]; [timer_point (OStore w)|timer_point OOut].
  - intros [= <-]. timer_point (OCas w).
  - destruct (Z.eqb_spec armed 0); intros [= <-]; [timer_point (OAdd w)|timer_point OOut].
  - rewrite add_ok by (unfold MAX_REFCOUNT, i32_MAX; cbn in *; lia). intros [= <-]. timer_point (OInit w).
  - intros [= <-]. timer_point (OSet w).
  - intros [= <-]. destruct set; [cbn in *; lia|]. timer_point OOut.
  - intros [= <-]. timer_point OCancel.
  - intros [= <-]. timer_point (ORemove set).
  - intros [= <-]. destruct x, queued;
      [cbn in *; lia|timer_point (ORelease true)|timer_point (ORelease true)|timer_point (ORelease false)].
  - rewrite sub_ok by (unfold u32_MAX; cbn in *; lia). destruct x; cbn in *.
    + destruct (Z.eqb_spec (1 + (b2z set + b2z queued + 1 + dpc_ref pd) - 1) 0); [lia|].
      intros [= <-]. timer_point ORelease2.
    + destruct (Z.eqb_spec (1 + (b2z set + b2z queued + 0 + dpc_ref pd) - 1) 0); intros [= <-];
        [timer_point (OFree false)|timer_point ODone].
  - cbn in Ht. subst x. intros [= <-]. timer_point ODone.
  - rewrite sub_ok by (unfold u32_MAX; cbn in *; lia).
    destruct (Z.eqb_spec (0 + (b2z set + b2z queued + 1 + dpc_ref pd) - 1) 0); intros [= <-];
      [timer_point OFree2|timer_point ODone].
  - intros [= <-]. timer_point ODone.
Qed.

Lemma dpc_step_inv c s s' po pd :
  timer_inv s po pd -> timer_step c DpcStep s = Some s' -> exists pd', timer_inv s' po pd'.
Proof.
  intros Hinv. pose proof (not_freed s po pd Hinv) as Hnf.
  destruct Hinv as [Ho Hd Hc H1 Hf Ht Hdr [Hu Hfa]]. unfold timer_step. rewrite Hd.
  destruct s as [[rc fired armed canc waker ready set queued freed woken uaf uninit fault] ow dp dr ps].
  pose proof (owner_range po). pose proof (b2z_range set). pose proof (b2z_range queued).
  assert (0 <= future_ref po <= 1) by (destruct po; cbn; lia).
  pose proof (b2z_range (armed =? 0)). assert (0 <= arming po) by (destruct po; cbn; lia).
  unfold timer_refs, frees in *. cbn in * |-. subst ow dp uaf fault.
  destruct pd; cbn -[Refcount.add Refcount.sub]; try done; rewrite Hnf in * by (cbn in *; lia); clear Hnf.
  - intros [= <-]. timer_point DLoad.
  - destruct (canc =? 0); intros [= <-]; [timer_point DWake|timer_point DRelease].
  - intros [= <-]. timer_point DRelease.
  - rewrite sub_ok by (unfold u32_MAX; cbn in *; lia). cbn.
    destruct (Z.eqb_spec (future_ref po + (b2z set + b2z queued + owner_ref po + 1) - 1) 0);
      intros [= <-]; [timer_point DFree|timer_point DOut].
  - intros [= <-]. timer_point DOut.
Qed.

Lemma timer_step_inv c e s s' po pd :
  timer_inv s po pd -> timer_step c e s = Some s' -> exists po' pd', timer_inv s' po' pd'.
Proof.
  intros Hinv Hstep. destruct e as [call| | | |].
  - destruct Hinv as [Ho Hd Hc H1 Hf Ht Hdr Hcl]. cbn in Hstep. rewrite Ho in Hstep.
    destruct po; cbn in Hstep; try done; rewrite Hdr in Hstep; cbn in Hstep; [|done].
    destruct call as [w|]; simplify_eq; [exists (OLoad w)|exists OCancelled]; exists pd; by split.
  - destruct (owner_step_inv c s s' po pd Hinv Hstep) as [po' ?]. eauto.
  - pose proof (not_freed s po pd Hinv) as Hnf. destruct Hinv as [Ho Hd Hc H1 Hf Ht Hdr [Hu Hfa]].
    pose proof (owner_range po). pose proof (dpc_range pd). pose proof (b2z_range (t_queued (tm s))).
    pose proof (b2z_range (t_armed (tm s) =? 0)).
    assert (0 <= future_ref po /\ 0 <= arming po) by (destruct po; cbn; lia).
    unfold timer_step in Hstep. unfold timer_refs, frees in *. destruct (t_set (tm s)) eqn:Hset; [|done]. simplify_eq.
    rewrite Hnf by (cbn; lia). exists po, pd.
    destruct (t_queued (tm s)) eqn:Hq; [cbn in *; lia|]. split; unfold timer_refs, frees; cbn; rewrite ?Hu, ?Hfa; try done.
  - pose proof (not_freed s po pd Hinv) as Hnf. destruct Hinv as [Ho Hd Hc H1 Hf Ht Hdr [Hu Hfa]].
    pose proof (owner_range po). pose proof (b2z_range (t_set (tm s))).
    assert (0 <= future_ref po) by (destruct po; cbn; lia).
    unfold timer_step in Hstep. unfold timer_refs, frees in *. rewrite Hd in Hstep.
    destruct (t_queued (tm s)) eqn:Hq; [|done]. destruct pd; cbn in Hstep; try done. simplify_eq.
    rewrite Hnf by (cbn; lia). exists po, DFired.
    split; unfold timer_refs, frees; cbn; rewrite ?Hu, ?Hfa; cbn in *; try done; lia.
  - destruct (dpc_step_inv c s s' po pd Hinv Hstep) as [pd' ?]. eauto.
Qed.

Lemma timer_run_inv c es s s' po pd :
  timer_inv s po pd -> timer_run c es s = Some s' -> exists po' pd', timer_inv s' po' pd'.
Proof.
  revert s po pd. induction es as [|e es IH]; intros s po pd Hs; cbn [timer_run]; [intros [= <-]; eauto|].
  destruct (timer_step c e s) as [s1|] eqn:E; [|done].
  destruct (timer_step_inv c e s s1 po pd Hs E) as (po1 & pd1 & H1). by apply (IH s1 po1 pd1).
Qed.

(** ** Wakeups *)

Definition dpc_wake : timer_prog := PVis WakeStored (fun _ => timer_release (PRet 0)).

(** With one waker [w]: it is stored before the timer is armed; once the
    timer has fired it was woken, or the DPC is on its way to it; and an
    armed timer is set, queued or running until it fires. *)
Definition arming_now (o : option (owner_call * timer_prog)) : Prop :=
  exists w, o = Some (PollCall w, timer_add_ref arm_tail) \/ o = Some (PollCall w, arm_tail)
    \/ o = Some (PollCall w, PVis SetTimer (fun _ => PRet PENDING)).

Record wake_inv (w : nat) (s : timer_sys) : Prop := {
  wv_waker : t_armed (tm s) <> 0 \/ owner s = Some (PollCall w, poll_cas) -> t_waker (tm s) = Some w;
  wv_same : t_waker (tm s) = None \/ t_waker (tm s) = Some w;
  wv_call : forall w' p, owner s = Some (PollCall w', p) -> w' = w;
  wv_cancelled : t_cancelled (tm s) <> 0 -> dropped s = true;
  wv_fired : t_fired (tm s) <> 0 -> dropped s = true \/ w ∈ t_woken (tm s)
    \/ dpc s = Some dpc_load \/ dpc s = Some dpc_wake;
  wv_live : t_armed (tm s) <> 0 -> t_fired (tm s) = 0 ->
    dropped s = true \/ arming_now (owner s) \/ t_set (tm s) = true \/ t_queued (tm s) = true
    \/ dpc s = Some timer_dpc_routine
}.

Lemma timer_start_wake w : wake_inv w timer_start.
Proof. split; cbn; try done; auto. intros [?|?]; done. Qed.

(** The polls of a schedule use the waker [w]. *)
Definition polls_with (w : nat) (e : timer_event) : Prop :=
  match e with OwnerCall (PollCall w') => w' = w | _ => True end.

Lemma arming_now_none : ~ arming_now None.
Proof. intros [w [H|[H|H]]]; done. Qed.

Ltac wake_fin Hwk Hfi Hli :=
  split; cbn in *; unfold arming_now, timer_add_ref, arm_tail, poll_cas in *; try done;
  first
    [ let Hx := fresh in intros [?|Hx]; [by auto|first [discriminate Hx|by auto]]
    | let Hx := fresh in intros ? ? Hx; first [discriminate Hx|injection Hx as -> _; reflexivity]
    | let Hx := fresh in intros Hx; destruct (Hfi Hx) as [?|[?|[?|?]]]; by auto
    | let Ha := fresh in let Hf := fresh in let Hx := fresh in
      intros Ha Hf; destruct (Hli Ha Hf) as [?|[(? & [Hx|[Hx|Hx]])|?]];
        [by auto|discriminate Hx|discriminate Hx|discriminate Hx|by auto]
    | by eauto 6
    | idtac ].

Lemma wake_owner_step c w s s' po pd :
  timer_inv s po pd -> wake_inv w s -> timer_step c OwnerStep s = Some s' -> wake_inv w s'.
Proof.
  intros Hinv Hw. pose proof (not_freed s po pd Hinv) as Hnf.
  destruct Hinv as [Ho Hd Hc H1 Hf Ht Hdr [Hu Hfa]]. unfold timer_step. rewrite Ho.
  destruct s as [[rc fired armed canc waker ready set queued freed woken uaf uninit fault] ow dp dr ps].
  pose proof (dpc_range pd). pose proof (b2z_range set). pose proof (b2z_range queued).
  pose proof (b2z_range (armed =? 0)). unfold timer_refs, frees in *. cbn in * |-. subst ow dp uaf fault dr.
  destruct Hw as [Hwk Hsame Hcall Hcan Hfi Hli]. cbn in *.
  destruct po as [|v|v|v|v|v|v| | |x|x|x| | |]; cbn -[Refcount.add Refcount.sub]; try done;
    try (rewrite (Hcall _ _ eq_refl) in *); clear Hcall Hnf Hf Ht.
  - destruct (Z.eqb_spec fired 0); intros [= <-]; wake_fin Hwk Hfi Hli.
  - intros [= <-]. wake_fin Hwk Hfi Hli.
  - destruct (Z.eqb_spec armed 0); intros [= <-]; wake_fin Hwk Hfi Hli.
  - rewrite add_ok by (unfold MAX_REFCOUNT, i32_MAX; cbn in *; lia). intros [= <-]. wake_fin Hwk Hfi Hli.
  - intros [= <-]. wake_fin Hwk Hfi Hli.
  - intros [= <-]. wake_fin Hwk Hfi Hli.
  - intros [= <-]. wake_fin Hwk Hfi Hli.
  - intros [= <-]. wake_fin Hwk Hfi Hli.
  - intros [= <-]. wake_fin Hwk Hfi Hli.
  - destruct (sub c _) as [[r n]|]; [destruct x, (negb (r =? 0))|destruct x]; intros [= <-]; wake_fin Hwk Hfi Hli.
  - destruct x; intros [= <-]; wake_fin Hwk Hfi Hli.
  - destruct (sub c _) as [[r n]|]; [destruct (negb (r =? 0))|]; intros [= <-]; wake_fin Hwk Hfi Hli.
  - intros [= <-]. wake_fin Hwk Hfi Hli.
Qed.
Lemma wake_dpc_step c w s s' po pd :
  timer_inv s po pd -> wake_inv w s -> timer_step c DpcStep s = Some s' -> wake_inv w s'.
Proof.
  intros [Ho Hd Hc H1 Hf Ht Hdr [Hu Hfa]] Hw. unfold timer_step. rewrite Hd.
  destruct s as [[rc fired armed canc waker ready set queued freed woken uaf uninit fault] ow dp dr ps].
  pose proof (owner_range po). pose proof (b2z_range set). pose proof (b2z_range queued).
  assert (0 <= arming po) by (destruct po; cbn; lia).
  unfold timer_refs, frees in *. cbn in * |-. clear Hf Ht. subst ow dp uaf fault.
  assert (Harm : 0 < dpc_ref pd -> armed <> 0) by (intros ? ->; cbn in H1; lia).
  destruct Hw as [Hwk Hsame Hcall Hcan Hfi Hli]. cbn in *.
  assert (Hfin : forall d', dpc_at pd <> Some timer_dpc_routine -> armed <> 0 -> fired = 0 ->
    dr = true \/ arming_now (owner_at po) \/ set = true \/ queued = true \/ d' = Some timer_dpc_routine)
    by (intros d' Hne Ha Hf; destruct (Hli Ha Hf) as [?|[?|[?|[?|?]]]]; auto; done).
  destruct pd; cbn -[Refcount.add Refcount.sub]; try done.
  - intros [= <-]. split; cbn in *; auto.
  - destruct (Z.eqb_spec canc 0); intros [= <-]; split; cbn in *; auto; by apply Hfin.
  - intros [= <-]. split; cbn in *; auto.
    intros _. right; left. rewrite Hwk by (left; apply Harm; cbn; lia). cbn. apply elem_of_app. right. by left.
  - destruct (sub c _) as [[r n]|]; [destruct (negb (r =? 0))|]; intros [= <-]; split; cbn in *; auto;
      try (by apply Hfin); intros Hx; destruct (Hfi Hx) as [?|[?|[?|?]]]; auto; done.
  - intros [= <-]; split; cbn in *; auto; try (by apply Hfin).
    intros Hx; destruct (Hfi Hx) as [?|[?|[?|?]]]; auto; done.
Qed.
Lemma wake_step c w e s s' po pd :
  timer_inv s po pd -> wake_inv w s -> polls_with w e -> timer_step c e s = Some s' -> wake_inv w s'.
Proof.
  intros Hinv Hw He Hstep. destruct e as [call| | | |].
  - destruct Hinv as [Ho Hd _ _ _ _ Hdr _]. destruct Hw as [Hwk Hsame Hcall Hcan Hfi Hli]. cbn in Hstep.
    destruct (owner s) eqn:E; [done|]. destruct (dropped s); [done|].
    destruct call as [w'|]; simplify_eq; split; cbn in *; subst; auto; try done.
    + intros [Ha|Hx]; [by apply Hwk; left|discriminate Hx].
    + intros ? ? [= <- _]. done.
    + intros Ha Hf. destruct (Hli Ha Hf) as [?|[?%arming_now_none|?]]; auto; done.
    + intros [Ha|Hx]; [by apply Hwk; left|discriminate Hx].
  - by eapply wake_owner_step.
  - destruct Hw as [Hwk Hsame Hcall Hcan Hfi Hli]. unfold timer_step in Hstep.
    destruct (t_set (tm s)); [|done]. simplify_eq. split; cbn in *; auto 7.
  - destruct Hinv as [_ Hd _ _ _ _ _ _]. destruct Hw as [Hwk Hsame Hcall Hcan Hfi Hli]. unfold timer_step in Hstep.
    rewrite Hd in *. destruct (t_queued (tm s)); [|done]. destruct pd; cbn in Hstep; try done. simplify_eq.
    split; cbn in *; auto 7. intros Hx. destruct (Hfi Hx) as [?|[?|[?|?]]]; auto; done.
  - by eapply wake_dpc_step.
Qed.

Lemma wake_run c w es s s' po pd :
  timer_inv s po pd -> wake_inv w s -> Forall (polls_with w) es -> timer_run c es s = Some s' ->
  wake_inv w s' /\ exists po' pd', timer_inv s' po' pd'.
Proof.
  revert s po pd. induction es as [|e es IH]; intros s po pd Hs Hw Hes; cbn [timer_run]; [intros [= <-]; eauto|].
  apply Forall_cons_iff in Hes as [He Hes]. destruct (timer_step c e s) as [s1|] eqn:E; [|done].
  destruct (timer_step_inv c e s s1 po pd Hs E) as (po1 & pd1 & H1).
  apply (IH s1 po1 pd1); [done|exact (wake_step c w e s s1 po pd Hs Hw He E)|done].
Qed.

(** ** Properties *)

(** C21: the block of a timer future is shared safely with the DPC of the
    timer.  In every interleaving of polls, the drop, expiry, dispatch and
    the DPC, in every configuration of the reference counts, no operation
    uses the block after it was freed and the count never stops the machine;
    a timer that is set or a DPC that is queued keeps the block alive; and
    once the future was dropped and nothing is in progress or outstanding,
    the block has been freed. *)
Theorem timer_block_is_safe (c : config) (es : list timer_event) (s : timer_sys) :
  timer_run c es timer_start = Some s ->
  t_uaf (tm s) = false /\ t_fault (tm s) = false
  /\ (t_set (tm s) = true \/ t_queued (tm s) = true -> t_freed (tm s) = false)
  /\ (dropped s = false -> t_freed (tm s) = false)
  /\ (dropped s = true -> owner s = None -> dpc s = None -> t_set (tm s) = false -> t_queued (tm s) = false ->
      t_freed (tm s) = true).
Proof.
  intros Hrun. destruct (timer_run_inv c es _ _ _ _ timer_start_inv Hrun) as (po & pd & Hinv).
  pose proof (not_freed s po pd Hinv) as Hnf. destruct Hinv as [Ho Hd Hc H1 Hf Ht Hdr [Hu Hfa]].
  pose proof (owner_range po). pose proof (dpc_range pd).
  pose proof (b2z_range (t_set (tm s))). pose proof (b2z_range (t_queued (tm s))).
  assert (Hfr : 0 <= future_ref po) by (destruct po; cbn; lia). unfold timer_refs, frees in *.
  split_and!; try done.
  - intros Hk. apply Hnf. destruct Hk as [Hk|Hk]; rewrite Hk in *; cbn in *; lia.
  - intros Hnd. rewrite Hdr in Hnd. apply Hnf. destruct po; cbn in *; try done; lia.
  - intros Hdp Hown Hdpc Hset Hq. rewrite Hdr in Hdp. rewrite Ho in Hown. rewrite Hd in Hdpc. rewrite Hset, Hq in *.
    destruct po; cbn in *; try done. destruct pd; cbn in *; try done.
    destruct (t_freed (tm s)), (Z.eqb_spec (t_ref_count (tm s)) 0); cbn in *; try done; lia.
Qed.

Definition plain_cfg : config := mkConfig Plain false.

(** Arm the timer, let it fire while [drop] has already marked the future
    cancelled, and finish both sides. *)
Definition timer_race : list timer_event :=
  [OwnerCall (PollCall 7)] ++ replicate 6 OwnerStep ++
  [Expire; OwnerCall DropCall; OwnerStep; Dispatch; DpcStep; OwnerStep; OwnerStep; DpcStep; OwnerStep; DpcStep; DpcStep].

Lemma timer_block_is_safe_witness :
  exists s, timer_run plain_cfg timer_race timer_start = Some s /\
  t_uaf (tm s) = false /\ t_fault (tm s) = false
  /\ (t_set (tm s) = true \/ t_queued (tm s) = true -> t_freed (tm s) = false)
  /\ (dropped s = false -> t_freed (tm s) = false)
  /\ (dropped s = true -> owner s = None -> dpc s = None -> t_set (tm s) = false -> t_queued (tm s) = false ->
      t_freed (tm s) = true).
Proof.
  eexists. split; [vm_compute; reflexivity|]. apply (timer_block_is_safe plain_cfg timer_race). vm_compute; reflexivity.
Defined.

(** A second poll with another waker looks at [fired], the timer fires and
    wakes the first waker, and only then the poll stores its waker. *)
Definition changed_waker : list timer_event :=
  [OwnerCall (PollCall 1)] ++ replicate 6 OwnerStep ++
  [OwnerCall (PollCall 2); OwnerStep; Expire; Dispatch] ++ replicate 4 DpcStep ++ [OwnerStep; OwnerStep].

(** Two interleavings and histories the code does not handle.  A poll
    that changes the waker while the timer fires returns pending although the
    timer has fired, and the new waker is never woken: [fired] is not read
    again after the waker is stored.  And dropping a future that was never
    polled hands timer and DPC objects to the kernel that were never
    initialised. *)
Theorem timer_loses_changed_waker (c : config) :
  (exists s, timer_run c changed_waker timer_start = Some s
     /\ polls s = [(1%nat, PENDING); (2%nat, PENDING)] /\ t_woken (tm s) = [1%nat]
     /\ t_fired (tm s) = 1 /\ t_set (tm s) = false /\ t_queued (tm s) = false
     /\ owner s = None /\ dpc s = None)
  /\ (exists s, timer_run c [OwnerCall DropCall; OwnerStep; OwnerStep] timer_start = Some s
     /\ t_uninit (tm s) = true).
Proof.
  destruct c as [[] []]; split; eexists; (split; [vm_compute; reflexivity|]); try split_and!; reflexivity.
Qed.

(** C22: when every poll uses the same waker, as the tasks of the executor do,
    no wakeup is lost.  In every interleaving, while the future is alive and
    its owner is between calls: once the timer has fired and its DPC has
    returned the waker was woken; and after a poll has armed the timer, as
    long as it has not fired, it is set, or its DPC is queued or running, so
    that it will. *)
Theorem timer_wakes_its_waker (c : config) (w : nat) (es : list timer_event) (s : timer_sys) :
  Forall (polls_with w) es -> timer_run c es timer_start = Some s -> dropped s = false -> owner s = None ->
  (t_fired (tm s) <> 0 -> dpc s = None -> w ∈ t_woken (tm s))
  /\ (t_armed (tm s) <> 0 -> t_fired (tm s) = 0 ->
      t_set (tm s) = true \/ t_queued (tm s) = true \/ dpc s = Some timer_dpc_routine).
Proof.
  intros Hes Hrun Hdr Hown.
  destruct (wake_run c w es _ _ _ _ timer_start_inv (timer_start_wake w) Hes Hrun) as [[_ _ _ _ Hfi Hli] _].
  rewrite Hdr, Hown in *. split.
  - intros Hf Hd. rewrite Hd in *. destruct (Hfi Hf) as [?|[?|[?|?]]]; done.
  - intros Ha Hf. destruct (Hli Ha Hf) as [?|[?%arming_now_none|?]]; done.
Qed.

Definition timer_fires : list timer_event :=
  [OwnerCall (PollCall 7)] ++ replicate 6 OwnerStep ++ [Expire; Dispatch] ++ replicate 4 DpcStep.

Lemma timer_wakes_its_waker_witness :
  exists s, timer_run plain_cfg timer_fires timer_start = Some s
  /\ (t_fired (tm s) <> 0 -> dpc s = None -> 7%nat ∈ t_woken (tm s)).
Proof.
  eexists. split; [vm_compute; reflexivity|].
  apply (timer_wakes_its_waker plain_cfg 7 timer_fires); [repeat constructor|vm_compute; reflexivity|reflexivity|reflexivity].
Defined.
