(* ===== verification/SpinLock.v ===== *)
(** * The spin lock, and the timer with its lock

    Models [SpinLock] and [SpinLockGuard] of [src/src/executor.rs] over the
    kernel's KeAcquireSpinLockRaiseToDpc and KeReleaseSpinLock, and the timer
    future with acquisition, access and release as separate steps.  [Timer]
    takes a section under the lock as one step; here that is justified: every
    run of the timer with explicit locking is a run of [Timer], it cannot
    deadlock, and it restores the IRQL. *)

From S2P Require Import Prelude Refcount Timer.

(** ** SpinLock *)

Definition PASSIVE_LEVEL : Z := 0.
Definition DISPATCH_LEVEL : Z := 2.

Section SpinLock.
Context {Thread T : Type}.

(** The lock word names its holder. *)
Record SpinLock : Type := mkSpinLock { sl_lock : option Thread; sl_value : T }.

Record SpinLockGuard : Type := mkSpinLockGuard { old_irql : Z }.

Definition SpinLock_new (value : T) : SpinLock := mkSpinLock None value.

(** KeAcquireSpinLockRaiseToDpc answers the IRQL of the caller, raises it to
    DISPATCH_LEVEL and takes the lock; [None] while the caller spins. *)
Definition KeAcquireSpinLockRaiseToDpc (t : Thread) (irql : Z) (s : SpinLock)
    : option (Z * Z * SpinLock) :=
  match sl_lock s with
  | Some _ => None
  | None => Some (irql, DISPATCH_LEVEL, mkSpinLock (Some t) (sl_value s))
  end.
(** KeReleaseSpinLock frees the lock and sets the IRQL. *)
Definition KeReleaseSpinLock (new_irql : Z) (s : SpinLock) : Z * SpinLock :=
  (new_irql, mkSpinLock None (sl_value s)).

(** The guard, the caller's new IRQL and the lock. *)
Definition lock (t : Thread) (irql : Z) (s : SpinLock) : option (SpinLockGuard * Z * SpinLock) :=
  match KeAcquireSpinLockRaiseToDpc t irql s with
  | Some (old_irql, irql, s) => Some (mkSpinLockGuard old_irql, irql, s)
  | None => None
  end.

Definition guard_deref (_ : SpinLockGuard) (s : SpinLock) : T := sl_value s.
Definition guard_deref_mut (f : T -> T) (_ : SpinLockGuard) (s : SpinLock) : SpinLock :=
  mkSpinLock (sl_lock s) (f (sl_value s)).

Definition guard_drop (g : SpinLockGuard) (s : SpinLock) : Z * SpinLock :=
  KeReleaseSpinLock (old_irql g) s.

(** A section under the lock: its effect is that of the access, and the
    caller's IRQL is what it was. *)
Lemma locked_section t irql s f :
  sl_lock s = None ->
  exists g s', lock t irql s = Some (g, DISPATCH_LEVEL, s') /\ sl_lock s' = Some t
    /\ guard_deref g s' = sl_value s
    /\ guard_drop g (guard_deref_mut f g s') = (irql, mkSpinLock None (f (sl_value s))).
Proof. intros Hs. unfold lock, KeAcquireSpinLockRaiseToDpc. rewrite Hs. by repeat eexists. Qed.

(** While a thread holds the lock nobody gets it. *)
Lemma lock_is_exclusive t u irql s : sl_lock s = Some u -> lock t irql s = None.
Proof. intros Hs. unfold lock, KeAcquireSpinLockRaiseToDpc. by rewrite Hs. Qed.
End SpinLock.
Arguments SpinLock : clear implicits.

(** ** The timer with explicit locking *)

Inductive locked_op : Type :=
| Plain (o : timer_op)
| LockWaker      (* [inner.waker.lock()] *)
| DropGuard.

Inductive locked_prog : Type :=
| LRet (r : Z)
| LVis (o : locked_op) (k : Z -> locked_prog).

Definition plain (o : timer_op) (k : Z -> locked_prog) : locked_prog := LVis (Plain o) k.
Definition under_lock (o : timer_op) (k : locked_prog) : locked_prog :=
  LVis LockWaker (fun _ => plain o (fun _ => LVis DropGuard (fun _ => k))).

Definition locked_release (k : locked_prog) : locked_prog :=
  plain RefSub (fun count => if negb (count =? 0) then k else plain Free (fun _ => k)).

Definition locked_poll (w : nat) : locked_prog :=
  plain LoadFired (fun fired =>
    if negb (fired =? 0) then LRet READY
    else
      under_lock (StoreWaker w)
        (plain CasArmed (fun ok =>
          if ok =? 1 then
            plain RefAdd (fun _ => plain InitializeTimer (fun _ => plain SetTimer (fun _ => LRet PENDING)))
          else LRet PENDING))).

Definition locked_drop : locked_prog :=
  plain StoreCancelled (fun _ =>
    plain CancelTimer (fun cancelled =>
      plain RemoveQueueDpc (fun dpc_removed =>
        locked_release
          (if negb (cancelled =? 0) || negb (dpc_removed =? 0) then locked_release (LRet 0) else LRet 0)))).

Definition locked_dpc_routine : locked_prog :=
  plain StoreFired (fun _ =>
    plain LoadCancelled (fun cancelled =>
      if cancelled =? 0 then under_lock WakeStored (locked_release (LRet 0))
      else locked_release (LRet 0))).

(** The two threads.  The owner calls at [k_base]; [k_irql] is its IRQL now,
    and [k_guard] its guard.  [k_same] tells whether the DPC was dispatched
    on the owner's processor, which then does not run the owner. *)
Inductive timer_thread : Type := OwnerThread | DpcThread.

Record locked_sys : Type := mkLockedSys {
  k_mem : timer_mem;
  k_lock : SpinLock timer_thread unit;
  k_owner : option (owner_call * locked_prog);
  k_dpc : option locked_prog;
  k_dropped : bool;
  k_polls : list (nat * Z);
  k_irql : Z;
  k_guard : option SpinLockGuard;
  k_dpc_guard : option SpinLockGuard;
  k_same : bool
}.

Inductive locked_event : Type :=
| KOwnerCall (call : owner_call)
| KOwnerStep
| KExpire
| KDispatch (same_processor : bool)
| KDpcStep.

Definition locked_start (base : Z) : locked_sys :=
  mkLockedSys timer_fresh (SpinLock_new tt) None None false [] base None None false.

Definition k_settle (call : owner_call) (p : locked_prog) (m : timer_mem) (l : SpinLock timer_thread unit)
    (irql : Z) (g : option SpinLockGuard) (s : locked_sys) : locked_sys :=
  match p with
  | LVis _ _ => mkLockedSys m l (Some (call, p)) (k_dpc s) (k_dropped s) (k_polls s) irql g (k_dpc_guard s) (k_same s)
  | LRet r =>
      mkLockedSys m l None (k_dpc s) (k_dropped s)
        (match call with PollCall w => k_polls s ++ [(w, r)] | DropCall => k_polls s end)
        irql g (k_dpc_guard s) (k_same s)
  end.

Definition set_dpc (p : locked_prog) (m : timer_mem) (l : SpinLock timer_thread unit)
    (g : option SpinLockGuard) (s : locked_sys) : locked_sys :=
  mkLockedSys m l (k_owner s) (match p with LRet _ => None | _ => Some p end) (k_dropped s) (k_polls s)
    (k_irql s) (k_guard s) g (k_same s).

Definition owner_runs (s : locked_sys) : bool :=
  match k_dpc s with Some _ => negb (k_same s) | None => true end.

(** The kernel dispatches a DPC on a processor whose IRQL is below
    DISPATCH_LEVEL; between the owner's calls its processor is free. *)
Definition can_preempt (same : bool) (s : locked_sys) : bool :=
  negb same || match k_owner s with None => true | Some _ => k_irql s <? DISPATCH_LEVEL end.

Definition locked_step (c : config) (e : locked_event) (s : locked_sys) : option locked_sys :=
  match e with
  | KOwnerCall call =>
      match k_owner s with
      | Some _ => None
      | None =>
          if k_dropped s || negb (owner_runs s) then None
          else
            let start p dropped :=
              Some (mkLockedSys (k_mem s) (k_lock s) (Some (call, p)) (k_dpc s) dropped (k_polls s)
                      (k_irql s) (k_guard s) (k_dpc_guard s) (k_same s)) in
            match call with
            | PollCall w => start (locked_poll w) false
            | DropCall => start locked_drop true
            end
      end
  | KOwnerStep =>
      if negb (owner_runs s) then None
      else match k_owner s with
      | Some (call, LVis (Plain o) k) =>
          let '(r, m) := timer_exec c o (k_mem s) in
          Some (k_settle call (k r) m (k_lock s) (k_irql s) (k_guard s) s)
      | Some (call, LVis LockWaker k) =>
          match lock OwnerThread (k_irql s) (k_lock s) with
          | Some (g, irql, l) => Some (k_settle call (k 0) (k_mem s) l irql (Some g) s)
          | None => None
          end
      | Some (call, LVis DropGuard k) =>
          match k_guard s with
          | Some g => let '(irql, l) := guard_drop g (k_lock s) in
                      Some (k_settle call (k 0) (k_mem s) l irql None s)
          | None => None
          end
      | _ => None
      end
  | KExpire =>
      if t_set (k_mem s) then
        let m := k_mem s in
        Some (mkLockedSys (note (t_freed m) false false (set_kernel (t_ready m) false true m))
                (k_lock s) (k_owner s) (k_dpc s) (k_dropped s) (k_polls s) (k_irql s) (k_guard s)
                (k_dpc_guard s) (k_same s))
      else None
  | KDispatch same =>
      let m := k_mem s in
      match t_queued m, k_dpc s with
      | true, None =>
          if can_preempt same s then
            Some (mkLockedSys (note (t_freed m) false false (set_kernel (t_ready m) (t_set m) false m))
                    (k_lock s) (k_owner s) (Some locked_dpc_routine) (k_dropped s) (k_polls s)
                    (k_irql s) (k_guard s) (k_dpc_guard s) same)
          else None
      | _, _ => None
      end
  | KDpcStep =>
      match k_dpc s with
      | Some (LVis (Plain o) k) =>
          let '(r, m) := timer_exec c o (k_mem s) in
          Some (set_dpc (k r) m (k_lock s) (k_dpc_guard s) s)
      | Some (LVis LockWaker k) =>
          match lock DpcThread DISPATCH_LEVEL (k_lock s) with
          | Some (g, _, l) => Some (set_dpc (k 0) (k_mem s) l (Some g) s)
          | None => None
          end
      | Some (LVis DropGuard k) =>
          match k_dpc_guard s with
          | Some g => Some (set_dpc (k 0) (k_mem s) (snd (guard_drop g (k_lock s))) None s)
          | None => None
          end
      | _ => None
      end
  end.

Fixpoint locked_run (c : config) (es : list locked_event) (s : locked_sys) : option locked_sys :=
  match es with
  | [] => Some s
  | e :: es => match locked_step c e s with Some s => locked_run c es s | None => None end
  end.

(** ** The locked timer is the timer *)

(** [erases p q]: [q] is [p] without its locking. *)
Inductive erases : locked_prog -> timer_prog -> Prop :=
| er_ret r : erases (LRet r) (PRet r)
| er_plain o k k' : (forall r, erases (k r) (k' r)) -> erases (LVis (Plain o) k) (PVis o k')
| er_lock k o k' : erases (k 0) (PVis o k') -> erases (LVis LockWaker k) (PVis o k')
| er_drop k o k' : erases (k 0) (PVis o k') -> erases (LVis DropGuard k) (PVis o k').

(** [balanced held p]: [p], run by a thread that holds the lock or not,
    acquires and releases in turn, uses the waker only while it holds the
    lock, and ends without it. *)
Definition uses_waker (o : timer_op) : bool :=
  match o with StoreWaker _ | WakeStored => true | _ => false end.

Inductive balanced : bool -> locked_prog -> Prop :=
| ba_ret r : balanced false (LRet r)
| ba_plain held o k :
    (uses_waker o = true -> held = true) -> (forall r, balanced held (k r)) -> balanced held (LVis (Plain o) k)
| ba_lock k : balanced true (k 0) -> balanced false (LVis LockWaker k)
| ba_drop k : balanced false (k 0) -> balanced true (LVis DropGuard k).

Create HintDb locking.
#[local] Hint Constructors erases balanced : locking.
#[local] Hint Unfold plain under_lock locked_release timer_release timer_add_ref : locking.

Ltac walk_locked :=
  repeat match goal with
         | |- uses_waker _ = true -> _ => done
         | |- forall _, _ => intros
         | |- erases (if ?b then _ else _) _ => destruct b
         | |- balanced _ (if ?b then _ else _) => destruct b
         | |- _ => progress autounfold with locking
         | |- _ => constructor
         end.

Lemma erases_poll w : erases (locked_poll w) (timer_poll w).
Proof. unfold locked_poll, timer_poll. walk_locked. Qed.
Lemma erases_drop : erases locked_drop timer_drop.
Proof. unfold locked_drop, timer_drop. walk_locked. Qed.
Lemma erases_dpc : erases locked_dpc_routine timer_dpc_routine.
Proof. unfold locked_dpc_routine, timer_dpc_routine. walk_locked. Qed.
Lemma balanced_poll w : balanced false (locked_poll w).
Proof. unfold locked_poll. walk_locked. Qed.
Lemma balanced_drop : balanced false locked_drop.
Proof. unfold locked_drop. walk_locked. Qed.
Lemma balanced_dpc : balanced false locked_dpc_routine.
Proof. unfold locked_dpc_routine. walk_locked. Qed.

Definition same_call (a : option (owner_call * locked_prog)) (b : option (owner_call * timer_prog)) : Prop :=
  match a, b with
  | Some (call, p), Some (call', q) => call = call' /\ erases p q
  | None, None => True
  | _, _ => False
  end.
Definition same_dpc (a : option locked_prog) (b : option timer_prog) : Prop :=
  match a, b with Some p, Some q => erases p q | None, None => True | _, _ => False end.

Record simulates (s : locked_sys) (t : timer_sys) : Prop := {
  si_mem : k_mem s = tm t;
  si_owner : same_call (k_owner s) (owner t);
  si_dpc : same_dpc (k_dpc s) (dpc t);
  si_dropped : k_dropped s = dropped t;
  si_polls : k_polls s = polls t
}.

(** A plain step of the owner is one of the timer's owner. *)
Lemma simulates_settle s t call p q m l irql g :
  simulates s t -> erases p q -> simulates (k_settle call p m l irql g s) (settle call q m t).
Proof.
  intros [Hm Ho Hd Hdr Hps] He. destruct He; split; cbn; try done; try (by split; [done|constructor]);
    by rewrite ?Hps.
Qed.

Lemma simulates_dpc s t p q m l g :
  simulates s t -> erases p q ->
  simulates (set_dpc p m l g s)
    (mkTimerSys m (owner t) (match q with PRet _ => None | PVis o k => Some (PVis o k) end) (dropped t) (polls t)).
Proof. intros [Hm Ho Hd Hdr Hps] He. destruct He; split; cbn; try done; by constructor. Qed.

(** A locking step changes nothing the timer sees. *)
Lemma simulates_silent s t call p o k l irql g :
  simulates s t -> owner t = Some (call, PVis o k) -> erases p (PVis o k) ->
  simulates (k_settle call p (k_mem s) l irql g s) t.
Proof.
  intros [Hm Ho Hd Hdr Hps] Hq He. destruct p as [r|o' k']; [inversion He|]. split; cbn; try done.
  rewrite Hq. by split.
Qed.

Lemma locked_step_simulated c e s s' t :
  simulates s t -> locked_step c e s = Some s' ->
  simulates s' t \/ exists e' t', timer_step c e' t = Some t' /\ simulates s' t'.
Proof.
  intros Hsim Hs. pose proof Hsim as [Hm Ho Hd Hdr Hps].
  destruct e as [call| | |same|]; cbn [locked_step] in Hs.
  - right. destruct (k_owner s) as [[]|] eqn:Eo; [done|]. destruct (owner t) eqn:Et; [by destruct Ho|].
    destruct (k_dropped s) eqn:Ed; [done|]. destruct (negb (owner_runs s)); [done|].
    exists (OwnerCall call). cbn [timer_step]. rewrite Et, <- Hdr. destruct call as [w|]; injection Hs as <-;
      (eexists; split; [done|]); split; cbn; try done; (split; [done|]);
      auto using erases_poll, erases_drop.
  - destruct (negb (owner_runs s)); [done|].
    destruct (k_owner s) as [[call [|o k]]|] eqn:Eo; try done.
    destruct (owner t) as [[call' q]|] eqn:Et; [|done]. destruct Ho as [<- He].
    destruct o as [o| |]; inversion He as [|o1 k1 k' Hk|k1 o1 k' Hk|k1 o1 k' Hk]; subst.
    + right. exists OwnerStep. cbn [timer_step]. rewrite Et, <- Hm.
      destruct (timer_exec c o (k_mem s)) as [r m]. injection Hs as <-.
      eexists. split; [done|]. by apply simulates_settle.
    + left. destruct (lock _ _ _) as [[[g irql] l]|]; [|done]. injection Hs as <-.
      by eapply simulates_silent.
    + left. destruct (k_guard s) as [g|]; [|done]. injection Hs as <-. by eapply simulates_silent.
  - right. destruct (t_set (k_mem s)) eqn:Eset; [|done]. injection Hs as <-.
    exists Expire. cbn [timer_step]. rewrite <- Hm, Eset. eexists. split; [done|]. by split.
  - right. destruct (t_queued (k_mem s)) eqn:Eq; [|done]. destruct (k_dpc s) eqn:Ed; [done|].
    destruct (can_preempt same s); [|done]. injection Hs as <-.
    destruct (dpc t) eqn:Edt; [done|]. exists Dispatch. cbn [timer_step]. rewrite <- Hm, Eq, Edt.
    eexists. split; [done|]. split; cbn; try done. apply erases_dpc.
  - destruct (k_dpc s) as [[|o k]|] eqn:Ed; try done.
    destruct (dpc t) as [q|] eqn:Edt; [|done]. cbn in Hd.
    destruct o as [o| |]; inversion Hd as [|o1 k1 k' Hk|k1 o1 k' Hk|k1 o1 k' Hk]; subst.
    + right. exists DpcStep. cbn [timer_step]. rewrite Edt, <- Hm.
      destruct (timer_exec c o (k_mem s)) as [r m]. injection Hs as <-.
      eexists. split; [done|]. by apply (simulates_dpc s t).
    + left. destruct (lock _ _ _) as [[[g irql] l]|]; [|done]. injection Hs as <-.
      split; cbn; try done. rewrite Edt. destruct (k 0); [inversion Hk|done].
    + left. destruct (k_dpc_guard s) as [g|]; [|done]. injection Hs as <-.
      split; cbn; try done. rewrite Edt. destruct (k 0); [inversion Hk|done].
Qed.

Lemma locked_run_simulated c es s s' t :
  simulates s t -> locked_run c es s = Some s' ->
  exists es' t', timer_run c es' t = Some t' /\ simulates s' t'.
Proof.
  revert s t. induction es as [|e es IH]; intros s t Hsim Hr; cbn in Hr.
  - injection Hr as <-. by exists [], t.
  - destruct (locked_step c e s) as [s1|] eqn:E; [|done].
    destruct (locked_step_simulated c e s s1 t Hsim E) as [H1|(e' & t1 & Ht & H1)].
    + by apply (IH s1).
    + destruct (IH s1 t1 H1 Hr) as (es' & t' & Hr' & H'). exists (e' :: es'), t'. cbn. by rewrite Ht.
Qed.

(** ** The lock works *)

(** Who holds the lock is in a section, at DISPATCH_LEVEL and not preempted by
    the DPC; [base] is the IRQL the owner calls at. *)
Definition holds (t : timer_thread) (s : locked_sys) : bool :=
  match sl_lock (k_lock s), t with
  | Some OwnerThread, OwnerThread | Some DpcThread, DpcThread => true
  | _, _ => false
  end.

Record locked_inv (base : Z) (s : locked_sys) : Prop := {
  li_owner : match k_owner s with
             | Some (_, p) => balanced (holds OwnerThread s) p
             | None => holds OwnerThread s = false
             end;
  li_dpc : match k_dpc s with
           | Some p => balanced (holds DpcThread s) p
           | None => holds DpcThread s = false
           end;
  li_irql : if holds OwnerThread s
            then k_irql s = DISPATCH_LEVEL /\ k_guard s = Some (mkSpinLockGuard base)
            else k_irql s = base /\ k_guard s = None;
  li_guard : if holds DpcThread s then k_dpc_guard s = Some (mkSpinLockGuard DISPATCH_LEVEL)
             else k_dpc_guard s = None;
  li_same : holds OwnerThread s = true -> owner_runs s = true;
  li_left : match k_owner s with Some (_, LRet _) => False | _ => True end
            /\ match k_dpc s with Some (LRet _) => False | _ => True end
}.

Lemma locked_start_inv base : locked_inv base (locked_start base).
Proof. by split. Qed.

Lemma balanced_inv held o k :
  balanced held (LVis o k) ->
  match o with
  | Plain o => (uses_waker o = true -> held = true) /\ forall r, balanced held (k r)
  | LockWaker => held = false /\ balanced true (k 0)
  | DropGuard => held = true /\ balanced false (k 0)
  end.
Proof. by inversion 1. Qed.

Ltac locked_state s :=
  destruct s as [m0 [lk0 []] ow dp dr ps irql0 g0 dg0 same0]; unfold holds, owner_runs, can_preempt in *;
  cbn [k_mem k_lock k_owner k_dpc k_dropped k_polls k_irql k_guard k_dpc_guard k_same sl_lock sl_value] in *.

(** After a step of the owner or of the DPC. *)
Lemma owner_settled base call p m lk irql g (s : locked_sys) :
  locked_inv base s ->
  balanced (match lk with Some OwnerThread => true | _ => false end) p ->
  (match lk with Some DpcThread => true | _ => false end) = holds DpcThread s ->
  (match lk with Some OwnerThread => irql = DISPATCH_LEVEL /\ g = Some (mkSpinLockGuard base)
               | _ => irql = base /\ g = None end) ->
  owner_runs s = true ->
  locked_inv base (k_settle call p m (mkSpinLock lk tt) irql g s).
Proof.
  intros [Ho Hd Hi Hg Hsm [Hlo Hld]] Hp Hlk Hirql Hrun. locked_state s.
  destruct p as [r|o k]; split; cbn; unfold owner_runs; cbn; try done;
    try (inversion Hp; subst); destruct lk as [[]|]; cbn in *; try done; rewrite <- Hlk in *; done.
Qed.

Lemma dpc_settled base p m lk dg (s : locked_sys) :
  locked_inv base s ->
  balanced (match lk with Some DpcThread => true | _ => false end) p ->
  (match lk with Some OwnerThread => true | _ => false end) = holds OwnerThread s ->
  (match lk with Some DpcThread => dg = Some (mkSpinLockGuard DISPATCH_LEVEL) | _ => dg = None end) ->
  k_dpc s <> None ->
  locked_inv base (set_dpc p m (mkSpinLock lk tt) dg s).
Proof.
  intros [Ho Hd Hi Hg Hsm [Hlo Hld]] Hp Hlk Hdg Hne. locked_state s.
  destruct p as [r|o k]; split; unfold holds, owner_runs, set_dpc; cbn; try done;
    try (inversion Hp; subst); destruct lk as [[]|]; cbn in *; try done;
    rewrite <- ?Hlk in *; try done; intros _; by destruct dp; [apply Hsm|].
Qed.

Lemma locked_step_inv c base e s s' :
  locked_inv base s -> locked_step c e s = Some s' -> locked_inv base s'.
Proof.
  intros Hinv Hs. pose proof Hinv as [Ho Hd Hi Hg Hsm [Hlo Hld]].
  destruct e as [call| | |same|]; cbn [locked_step] in Hs.
  - locked_state s. destruct ow as [[]|]; [done|]. destruct (dr || _); [done|].
    destruct call; injection Hs as <-; split; unfold holds, owner_runs; cbn; rewrite ?Ho in *;
      auto using balanced_poll, balanced_drop; done.
  - destruct (owner_runs s) eqn:Hrun; [|done]. cbn [negb] in Hs.
    destruct (k_owner s) as [[call [|o k]]|] eqn:Eo; try done.
    apply balanced_inv in Ho. destruct o as [o| |].
    + destruct Ho as [_ Ho]. destruct (timer_exec c o (k_mem s)) as [r m']. injection Hs as <-.
      destruct (k_lock s) as [lk []] eqn:Elk. unfold holds in *. rewrite Elk in *. cbn [sl_lock] in *.
      apply owner_settled; try done; unfold holds; rewrite ?Elk; destruct lk as [[]|]; cbn; auto.
    + destruct Ho as [Hh Hk]. destruct (lock _ _ _) as [[[g irql] l]|] eqn:El; [|done]. injection Hs as <-.
      rewrite Hh in Hi. destruct Hi as [Hi Hgd]. unfold lock, KeAcquireSpinLockRaiseToDpc in El.
      destruct (sl_lock (k_lock s)) eqn:Elk; [done|]. injection El as <- <- <-. destruct (sl_value _).
      apply owner_settled; try done; [by unfold holds; rewrite Elk|]. by rewrite Hi.
    + destruct Ho as [Hh Hk]. rewrite Hh in Hi. destruct Hi as [_ Hgd]. rewrite Hgd in Hs.
      injection Hs as <-. unfold holds in Hh. destruct (sl_lock (k_lock s)) as [[]|] eqn:Elk; try done.
      destruct (sl_value _). apply owner_settled; try done. by unfold holds; rewrite Elk.
  - destruct (t_set (k_mem s)); [|done]. injection Hs as <-. by split.
  - destruct (t_queued (k_mem s)); [|done]. destruct (k_dpc s) eqn:Ed; [done|].
    destruct (can_preempt same s) eqn:Hp; [|done]. injection Hs as <-. locked_state s. subst dp.
    split; unfold holds, owner_runs; cbn; try done; [rewrite Hd; apply balanced_dpc|].
    destruct lk0 as [[]|]; cbn in *; try done. destruct Hi as [-> _]. intros _.
    destruct ow as [[]|]; [|done]. destruct same; done.
  - destruct (k_dpc s) as [[|o k]|] eqn:Ed; try done. apply balanced_inv in Hd.
    assert (Hne : k_dpc s <> None) by (by rewrite Ed). destruct o as [o| |].
    + destruct Hd as [_ Hd]. destruct (timer_exec c o (k_mem s)) as [r m']. injection Hs as <-.
      destruct (k_lock s) as [lk []] eqn:Elk. unfold holds in *. rewrite Elk in *. cbn [sl_lock] in *.
      apply dpc_settled; try done; unfold holds; rewrite ?Elk; destruct lk as [[]|]; cbn; auto.
    + destruct Hd as [Hh Hk]. destruct (lock _ _ _) as [[[g irql] l]|] eqn:El; [|done]. injection Hs as <-.
      unfold lock, KeAcquireSpinLockRaiseToDpc in El.
      destruct (sl_lock (k_lock s)) eqn:Elk; [done|]. injection El as <- _ <-. destruct (sl_value _).
      apply dpc_settled; try done. by unfold holds; rewrite Elk.
    + destruct Hd as [Hh Hk]. rewrite Hh in Hg. rewrite Hg in Hs. injection Hs as <-.
      unfold holds in Hh. destruct (sl_lock (k_lock s)) as [[]|] eqn:Elk; try done.
      destruct (sl_value _). apply dpc_settled; try done. by unfold holds; rewrite Elk.
Qed.

Lemma locked_run_inv c base es s s' :
  locked_inv base s -> locked_run c es s = Some s' -> locked_inv base s'.
Proof.
  revert s. induction es as [|e es IH]; intros s Hs Hr; cbn in Hr; [by injection Hr as <-|].
  destruct (locked_step c e s) as [s1|] eqn:E; [|done]. by apply (IH s1); [eapply locked_step_inv|].
Qed.

(** Somebody can always go on: the holder of the lock if there is one. *)
Lemma locked_progress c base s :
  locked_inv base s -> k_owner s <> None \/ k_dpc s <> None ->
  exists e s', (e = KOwnerStep \/ e = KDpcStep) /\ locked_step c e s = Some s'.
Proof.
  intros [Ho Hd Hi Hg Hsm [Hlo Hld]] Hwork.
  destruct (holds OwnerThread s) eqn:Hw.
  - (* the owner holds the lock, and its processor runs it *)
    exists KOwnerStep. cbn. rewrite (Hsm eq_refl). cbn [negb].
    destruct (k_owner s) as [[call [r|o k]]|]; try done. apply balanced_inv in Ho.
    destruct o as [o| |]; [|by destruct Ho|].
    + destruct (timer_exec c o (k_mem s)). eauto.
    + destruct Hi as [_ ->]. eauto.
  - destruct (k_dpc s) as [[r|o k]|] eqn:Ed; try done.
    + (* the DPC runs: nobody, or the DPC, holds the lock *)
      exists KDpcStep. cbn. rewrite Ed. apply balanced_inv in Hd. destruct o as [o| |].
      * destruct (timer_exec c o (k_mem s)). eauto.
      * destruct Hd as [Hh _]. unfold lock, KeAcquireSpinLockRaiseToDpc.
        unfold holds in Hw, Hh. destruct (sl_lock (k_lock s)) as [[]|]; [done..|]. eauto.
      * destruct Hd as [Hh _]. rewrite Hh in Hg. rewrite Hg. eauto.
    + (* only the owner is there, and the lock is free *)
      exists KOwnerStep. cbn. unfold owner_runs. rewrite Ed. cbn [negb].
      destruct (k_owner s) as [[call [r|o k]]|]; try done; [|by destruct Hwork].
      apply balanced_inv in Ho. destruct o as [o| |].
      * destruct (timer_exec c o (k_mem s)). eauto.
      * unfold lock, KeAcquireSpinLockRaiseToDpc. unfold holds in Hw, Hd.
        destruct (sl_lock (k_lock s)) as [[]|]; [done..|]. eauto.
      * by destruct Ho.
Qed.

(** ** Properties *)

(** The operation a thread performs next. *)
Definition next_owner_op (s : locked_sys) : option locked_op :=
  match k_owner s with Some (_, LVis o _) => Some o | _ => None end.
Definition next_dpc_op (s : locked_sys) : option locked_op :=
  match k_dpc s with Some (LVis o _) => Some o | _ => None end.

(** C23: the spin lock of the timer does its work.  Whatever IRQL the owner
    calls at and however its calls, the expiry of the timer and the DPC
    interleave, on one processor or two, with locking, access and unlocking
    as separate steps: every run is a run of the timer in which a locked
    section is one step, with the same memory and answers; the waker is only
    touched by the holder of the lock; outside its sections the owner is at
    the IRQL it called at; and as long as a call or the DPC is in progress
    one of them can go on, so nobody spins forever. *)
Theorem locked_timer_refines_timer (c : config) (base : Z) (es : list locked_event) (s : locked_sys) :
  locked_run c es (locked_start base) = Some s ->
  (exists es' t, timer_run c es' timer_start = Some t
     /\ k_mem s = tm t /\ k_dropped s = dropped t /\ k_polls s = polls t
     /\ (k_owner s = None <-> owner t = None) /\ (k_dpc s = None <-> dpc t = None))
  /\ (forall o, uses_waker o = true ->
       (next_owner_op s = Some (Plain o) -> sl_lock (k_lock s) = Some OwnerThread)
       /\ (next_dpc_op s = Some (Plain o) -> sl_lock (k_lock s) = Some DpcThread))
  /\ (sl_lock (k_lock s) <> Some OwnerThread -> k_irql s = base)
  /\ (k_owner s <> None \/ k_dpc s <> None ->
      exists e s', (e = KOwnerStep \/ e = KDpcStep) /\ locked_step c e s = Some s').
Proof.
  intros Hr. pose proof (locked_run_inv c base es _ _ (locked_start_inv base) Hr) as Hinv.
  assert (Hsim : simulates (locked_start base) timer_start) by (by split).
  destruct (locked_run_simulated c es _ _ _ Hsim Hr) as (es' & t & Ht & [Hm Ho Hd Hdr Hps]).
  split; [|split; [|split]].
  - exists es', t. split_and!; try done.
    + destruct (k_owner s) as [[]|], (owner t) as [[]|]; done.
    + destruct (k_dpc s), (dpc t); done.
  - destruct Hinv as [Hbo Hbd _ _ _ _]. intros o Hu. unfold next_owner_op, next_dpc_op. split; intros Hn.
    + destruct (k_owner s) as [[call [|o' k]]|]; try done. injection Hn as ->.
      apply balanced_inv in Hbo as [Hbo _]. specialize (Hbo Hu). unfold holds in Hbo.
      by destruct (sl_lock (k_lock s)) as [[]|].
    + destruct (k_dpc s) as [[|o' k]|]; try done. injection Hn as ->.
      apply balanced_inv in Hbd as [Hbd _]. specialize (Hbd Hu). unfold holds in Hbd.
      by destruct (sl_lock (k_lock s)) as [[]|].
  - destruct Hinv as [_ _ Hi _ _ _]. unfold holds in Hi. intros Hl.
    by destruct (sl_lock (k_lock s)) as [[]|], Hi.
  - intros Hwork. by eapply locked_progress.
Qed.

(** The DPC starts on another processor while the owner is about to store its
    waker under the lock, and has to wait for it. *)
Definition contended : list locked_event :=
  [KOwnerCall (PollCall 1)] ++ replicate 8 KOwnerStep ++ [KExpire; KOwnerCall (PollCall 1)]
  ++ [KOwnerStep; KOwnerStep; KDispatch false; KDpcStep; KDpcStep].
Definition contended_end : locked_sys :=
  default (locked_start PASSIVE_LEVEL) (locked_run plain_cfg contended (locked_start PASSIVE_LEVEL)).

Example dpc_spins :
  next_dpc_op contended_end = Some LockWaker /\ locked_step plain_cfg KDpcStep contended_end = None
  /\ next_owner_op contended_end = Some (Plain (StoreWaker 1)).
Proof. vm_compute. repeat split. Qed.

Lemma locked_timer_refines_timer_witness :
  (next_owner_op contended_end = Some (Plain (StoreWaker 1)) ->
   sl_lock (k_lock contended_end) = Some OwnerThread)
  /\ exists e s', (e = KOwnerStep \/ e = KDpcStep) /\ locked_step plain_cfg e contended_end = Some s'.
Proof.
  assert (H : locked_run plain_cfg contended (locked_start PASSIVE_LEVEL) = Some contended_end)
    by (vm_compute; reflexivity).
  pose proof (locked_timer_refines_timer plain_cfg PASSIVE_LEVEL contended contended_end H) as (_ & H1 & _ & H2).
  split; [exact (proj1 (H1 (StoreWaker 1) eq_refl))|]. apply H2. left. vm_compute. discriminate.
Defined.
