(* ===== verification/TimerTask.v ===== *)
(** * A task that awaits a timer

    [KernelTimerFuture] spawned as a task of the DPC executor: the parts of
    [Executor] and [Timer] run together.  A poll of the task's future is a
    call of the timer future's [poll], which clones the task's waker into the
    block of the timer; the DPC of the timer wakes the task through that
    clone; replacing the waker and freeing the block drop it; and dropping
    the task's future drops the timer future.  The whole is the product of
    the two machines under the constraints these calls put on it. *)

From S2P Require Import Prelude Status Refcount Programs.
From S2P Require Import Timer.
From S2P Require Import Executor ExecutorSem ExecutorSafety ExecutorTheorems ExecutorWake.

(** ** The product *)

(** [co_caller]: the thread that is, or was last, inside [poll] or [drop] of
    the timer future; [co_owner_call], [co_dpc_call] and [co_handle_call]:
    the last thread that ran a function of the task's waker or handle for the
    timer future, the timer's DPC and the client; [co_handle]: the client has
    the cancellation handle. *)
Record co_sys : Type := mkCo {
  co_task : ExecutorSem.sys;
  co_timer : timer_sys;
  co_caller : option nat;
  co_owner_call : option nat;
  co_dpc_call : option nat;
  co_handle : bool;
  co_handle_call : option nat
}.

Inductive co_event : Type :=
| CoRun (i : nat) (counter : Z * Z)          (* a thread of the executor *)
| CoDispatch (fuel : nat) (cpu : option Z)   (* the DPC of the task starts *)
| CoHandle (a : env_action)                  (* the client uses its handle *)
| CoOwner                                    (* the code of the timer future *)
| CoExpire | CoTimerDispatch | CoTimerDpc.   (* the timer and its DPC *)

Definition co_start (b : budget) (handle : bool) : co_sys :=
  mkCo (spawned b (spawn_prog handle)) timer_start None None None handle None.

(** A call of the waker or handle that has not returned. *)
Definition busy (x : ExecutorSem.sys) (j : option nat) : bool :=
  match j with
  | Some j => match s_threads x !! j with Some t => running t | None => false end
  | None => false
  end.

Definition in_poll (t : timer_sys) : bool :=
  match owner t with Some (PollCall _, _) => true | _ => false end.
Definition in_drop_call (t : timer_sys) : bool :=
  match owner t with Some (DropCall, _) => true | _ => false end.

Definition is_poll_end (o : option op) : bool := match o with Some PollEnd => true | _ => false end.
Definition is_handle_action (a : env_action) : bool :=
  match a with EnvCancel | EnvIsCancelled | EnvDropHandle => true | _ => false end.

Definition at_store (t : timer_sys) : bool :=
  match owner t with Some (_, PVis (StoreWaker _) _) => true | _ => false end.
Definition owner_at_free (t : timer_sys) : bool :=
  match owner t with Some (_, PVis Free _) => true | _ => false end.
Definition dpc_at_wake (t : timer_sys) : bool :=
  match dpc t with Some (PVis WakeStored _) => true | _ => false end.
Definition dpc_at_free (t : timer_sys) : bool :=
  match dpc t with Some (PVis Free _) => true | _ => false end.

(** Calls return before the caller goes on; the future stores the waker when
    its clone is made (here before it takes the lock, which only adds
    interleavings), and neither it nor the DPC gets the lock while the other
    is in a call under it; the handle is used once the spawn function has
    returned, one call at a time. *)
Definition co_allowed (e : co_event) (s : co_sys) : bool :=
  let x := co_task s in
  let t := co_timer s in
  match e with
  | CoRun i _ =>
      negb (bool_decide (co_caller s = Some i) && (in_drop_call t || busy x (co_owner_call s)))
      && negb (is_poll_end (next_op x i) && in_poll t)
  | CoHandle a =>
      is_handle_action a && co_handle s && negb (busy x (Some 0%nat)) && negb (busy x (co_handle_call s))
  | CoOwner =>
      negb (busy x (co_owner_call s))
      && (negb (at_store t)
          || match co_caller s with Some i => is_poll_end (next_op x i) | None => false end
             && negb (busy x (co_dpc_call s)))
  | CoTimerDpc =>
      negb (busy x (co_dpc_call s)) && negb (dpc_at_wake t && busy x (co_owner_call s))
  | _ => true
  end.

(** What [poll] of the timer future does with its waker and answers, by the
    [fired] word it loads. *)
Definition timer_answer (t : timer_sys) : list poll_action * Poll :=
  if t_fired (tm t) =? 0 then ([ActClone], PollPending) else ([], PollReady STATUS_SUCCESS).

(** A call on the waker in the block, if there is one. *)
Definition on_stored (a : env_action) (t : timer_sys) : list ExecutorSem.event :=
  match t_waker (tm t) with Some _ => [Env a] | None => [] end.

Definition task_events (e : co_event) (s : co_sys) : list ExecutorSem.event :=
  let t := co_timer s in
  match e with
  | CoRun i counter => [Run i (mkOracle (timer_answer t) counter)]
  | CoDispatch fuel cpu => [ExecutorSem.Dispatch fuel cpu]
  | CoHandle a => [Env a]
  | CoOwner => if at_store t || owner_at_free t then on_stored EnvDropWaker t else []
  | CoTimerDpc =>
      if dpc_at_wake t then on_stored EnvWakeByRef t
      else if dpc_at_free t then on_stored EnvDropWaker t else []
  | _ => []
  end.

(** A poll begins with the load of [fired].  All wakers of the task are one
    waker to the timer. *)
Definition timer_events (e : co_event) (s : co_sys) : list timer_event :=
  match e with
  | CoRun i _ =>
      match next_op (co_task s) i with
      | Some PollBegin => [OwnerCall (PollCall 0); OwnerStep]
      | Some DropFuture => [OwnerCall DropCall]
      | _ => []
      end
  | CoOwner => [OwnerStep]
  | CoExpire => [Expire]
  | CoTimerDispatch => [Timer.Dispatch]
  | CoTimerDpc => [DpcStep]
  | _ => []
  end.

(** The thread a call is given: the next one. *)
Definition new_call (es : list ExecutorSem.event) (x : ExecutorSem.sys) (old : option nat) : option nat :=
  match es with [] => old | _ => Some (length (s_threads x)) end.

Definition co_next (e : co_event) (s : co_sys) (x : ExecutorSem.sys) (t : timer_sys) : co_sys :=
  let call := new_call (task_events e s) (co_task s) in
  match e with
  | CoRun i _ =>
      mkCo x t (match timer_events e s with [] => co_caller s | _ => Some i end)
        (co_owner_call s) (co_dpc_call s) (co_handle s) (co_handle_call s)
  | CoHandle a =>
      mkCo x t (co_caller s) (co_owner_call s) (co_dpc_call s)
        (match a with EnvDropHandle => false | _ => co_handle s end) (call (co_handle_call s))
  | CoOwner => mkCo x t (co_caller s) (call (co_owner_call s)) (co_dpc_call s) (co_handle s) (co_handle_call s)
  | CoTimerDpc => mkCo x t (co_caller s) (co_owner_call s) (call (co_dpc_call s)) (co_handle s) (co_handle_call s)
  | _ => mkCo x t (co_caller s) (co_owner_call s) (co_dpc_call s) (co_handle s) (co_handle_call s)
  end.

Definition co_step (c : config) (e : co_event) (s : co_sys) : option co_sys :=
  if co_allowed e s then
    match ExecutorSem.run c true (task_events e s) (co_task s), timer_run c (timer_events e s) (co_timer s) with
    | Some x, Some t => Some (co_next e s x t)
    | _, _ => None
    end
  else None.

Fixpoint co_run (c : config) (es : list co_event) (s : co_sys) : option co_sys :=
  match es with
  | [] => Some s
  | e :: es => match co_step c e s with Some s => co_run c es s | None => None end
  end.

(** No state on the way has more references to the task than the counter can
    hold. *)
Fixpoint co_within (c : config) (es : list co_event) (s : co_sys) : Prop :=
  m_ref_count (s_mem (co_task s)) < MAX_REFCOUNT
  /\ match es with
     | [] => True
     | e :: es => match co_step c e s with Some s' => co_within c es s' | None => True end
     end.
