(* ===== verification/TimerTaskInv.v ===== *)
(** * The invariant of a task that awaits a timer

    The steps of the two machines of [TimerTask] as each sees those of the
    other, the references that go from one to the other, and the invariant of
    the product. *)

From S2P Require Import Prelude Status Refcount Programs.
From S2P Require Import Timer.
From S2P Require Import Executor ExecutorSem ExecutorSafety ExecutorTheorems ExecutorWake TimerTask.

(** ** References that a program hands out

    [gives n p]: with a future that answers like [timer_answer], [p] hands
    out [n] references to the environment, on every path, those of a poll
    before its end. *)
Fixpoint gives {A : Type} (n : nat) (p : prog A) : Prop :=
  match p with
  | Ret _ => n = 0%nat
  | Vis GiveWaker k => match n with O => False | S n => gives n (k tt) end
  | Vis PollBegin k =>
      n = 0%nat /\ gives 0 (k ([], PollReady STATUS_SUCCESS)) /\ gives 1 (k ([ActClone], PollPending))
  | Vis PollEnd k => n = 0%nat /\ gives 0 (k tt)
  | Vis NoFuel _ => n = 0%nat
  | Vis _ k => forall r, gives n (k r)
  end.

Definition quiet (o : op) : Prop :=
  match o with GiveWaker | PollBegin | PollEnd | NoFuel => False | _ => True end.

Lemma gives_seq {A B : Type} n (p : prog A) (f : A -> prog B) :
  all_ops quiet p -> (forall a, gives n (f a)) -> gives n (pbind p f).
Proof.
  intros Hp Hf. induction p as [a|o k IH]; [apply Hf|]. destruct Hp as [Ho Hk].
  destruct o; cbn in *; try done; auto.
Qed.

Lemma gives_bind {A B : Type} n (p : prog A) (f : A -> prog B) :
  gives n p -> (forall a, gives 0 (f a)) -> gives n (pbind p f).
Proof.
  intros Hp Hf. revert n Hp. induction p as [a|o k IH]; intros n Hp; [cbn in Hp; subst; apply Hf|].
  destruct o; cbn in *; try done; auto.
  - destruct Hp as (-> & H1 & H2). auto.
  - destruct Hp as [-> H]. auto.
  - destruct n; [done|auto].
Qed.

Lemma gives_quiet {A : Type} (p : prog A) : all_ops quiet p -> gives 0 p.
Proof.
  intros Hp. induction p as [a|o k IH]; [done|]. destruct Hp as [Ho Hk]. destruct o; cbn in *; try done; auto.
Qed.

Ltac quietly := walk; try (cbn; tauto).

Lemma quiet_add_ref : all_ops quiet task_add_ref.
Proof. unfold task_add_ref. quietly. Qed.
Lemma quiet_release : all_ops quiet task_release.
Proof. unfold task_release, destroy_shim. quietly. Qed.
Lemma quiet_queue_dpc : all_ops quiet queue_dpc.
Proof. unfold queue_dpc. quietly; auto using quiet_add_ref, quiet_release. Qed.
Lemma quiet_schedule : all_ops quiet task_schedule.
Proof. unfold task_schedule. quietly; auto using quiet_add_ref, quiet_release. Qed.
Lemma quiet_clear cpu : all_ops quiet (clear_current_task cpu).
Proof. unfold clear_current_task. quietly. Qed.
Lemma quiet_set cpu : all_ops quiet (set_current_task cpu).
Proof. unfold set_current_task. quietly. Qed.
Lemma quiet_check mode b t s k : all_ops quiet (check_budget mode b t s k).
Proof. unfold check_budget. cbv zeta. quietly. Qed.
Lemma quiet_time mode : all_ops quiet (time_budget mode).
Proof. unfold time_budget. quietly. Qed.
#[local] Hint Resolve quiet_add_ref quiet_release quiet_queue_dpc quiet_schedule quiet_clear quiet_set
  quiet_check quiet_time : core.

Lemma gives_dpc_loop fuel cpu mode b t s k : gives 0 (dpc_loop fuel cpu mode b t s k).
Proof.
  revert b k. induction fuel as [|fuel IH]; intros b k; [done|].
  cbn [dpc_loop poll_shim pbind act gives fst snd]. split; [done|].
  cbn [run_actions clone_raw raw_waker task_add_ref act pbind gives destroy_shim]. split.
  - split; [done|]. intros _ _. apply gives_seq; [done|]. intros _. by apply gives_quiet.
  - intros _. split; [done|]. intros r. destruct (r =? 0).
    + apply gives_seq; [done|]. intros _. by apply gives_quiet.
    + apply gives_seq; [done|]. intros [[[] b'] k'].
      * apply gives_seq; [done|]. intros _. apply gives_seq; [done|]. intros _. by apply gives_quiet.
      * cbn [pbind act gives]. intros _. apply IH.
Qed.

Lemma gives_dpc_routine fuel cpu : gives 0 (dpc_routine fuel cpu).
Proof.
  unfold dpc_routine. cbn [act pbind gives]. intros _ r. destruct (negb (r =? 0)); [by apply gives_quiet|].
  apply gives_seq; [done|]. intros _. apply gives_seq; [done|]. intros _. cbn [act pbind gives]. intros mode polls.
  apply gives_seq; [done|]. intros times. apply gives_bind; [apply gives_dpc_loop|]. intros _. by apply gives_quiet.
Qed.

(** The call with the handle or the waker gives the reference back, unless it
    drops it. *)
Definition env_gives (a : env_action) : nat :=
  match a with EnvWakeByRef | EnvCancel | EnvIsCancelled => 1 | EnvClone => 2 | _ => 0 end.

Lemma gives_env a : gives (env_gives a) (env_prog a).
Proof.
  destruct a; cbn [env_prog env_gives];
    unfold wake_raw, wake_by_ref_raw, clone_raw, raw_waker, drop_raw, CancelHandle_cancel, CancelHandle_is_cancelled,
      CancelHandle_drop, task_cancel.
  - apply gives_seq; [done|]. intros _. by apply gives_quiet.
  - by apply gives_seq.
  - by apply gives_seq.
  - by apply gives_quiet.
  - apply gives_seq; [|done]. quietly; auto.
  - apply gives_seq; [|done]. quietly.
  - by apply gives_quiet.
Qed.

Lemma gives_spawn handle : gives (Nat.b2n handle) (spawn_prog handle).
Proof.
  destruct handle; cbn [spawn_prog Nat.b2n]; unfold spawn_dpc_task_cancellable, spawn_dpc_task_tracked, CancelHandle_new.
  - apply gives_bind.
    + by apply gives_seq.
    + intros _. apply gives_seq; [done|]. intros _. by apply gives_quiet.
  - apply gives_seq; [done|]. intros _. by apply gives_quiet.
Qed.

(** A thread that will hand out a reference owns one. *)
Lemma giver_owns n (p : prog unit) g :
  ExecutorSafety.wp p g (fun _ => finished) -> gives n p -> own_of g = 0%nat -> n = 0%nat.
Proof.
  revert g. induction p as [a|o k IH]; intros g Hw Hg Ho; [done|]. unfold own_of in *.
  destruct o; cbn in Hw, Hg; try done;
    repeat match goal with
           | H : _ \/ _ |- _ => destruct H
           | H : exists _, _ |- _ => destruct H
           | H : _ /\ _ |- _ => destruct H
           | H : g_mode ?g = _ |- _ => rewrite H in *; clear H
           | H : g = mkG _ _ _ _ |- _ => subst g
           end; cbn in *; try done;
    first [by eapply (IH 0)|by eapply (IH tt)|by eapply (IH true)|by eapply (IH (0, 0))].
Qed.

(** ** Steps of the timer, as the task sees them *)

(** The waker in the block, and the clone that is about to be stored. *)
Definition slot (t : timer_sys) : nat :=
  match t_waker (tm t), t_freed (tm t) with Some _, false => 1 | _, _ => 0 end.
Definition in_flight (t : timer_sys) : nat := Nat.b2n (at_store t).

Definition at_load (t : timer_sys) : bool :=
  match owner t with Some (_, PVis LoadFired _) => true | _ => false end.
Definition at_set (t : timer_sys) : bool :=
  match owner t with Some (_, PVis SetTimer _) => true | _ => false end.

(** The timer and its DPC are used after their initialisation only, a timer
    that fired was armed, and a poll is past its load. *)
Record sane (t : timer_sys) : Prop := {
  sa_uninit : t_uninit (tm t) = false;
  sa_ready : t_ready (tm t) = false ->
    t_set (tm t) = false /\ t_queued (tm t) = false /\ dpc t = None /\ t_fired (tm t) = 0;
  sa_set : at_set t = true -> t_ready (tm t) = true;
  sa_fired : t_fired (tm t) <> 0 -> t_armed (tm t) <> 0;
  sa_load : at_load t = false
}.

Record owner_effect (t t' : timer_sys) : Prop := {
  oe_fired : t_fired (tm t') = t_fired (tm t);
  oe_dropped : dropped t' = dropped t;
  oe_dpc : dpc t' = dpc t;
  oe_armed : t_armed (tm t) <> 0 -> t_armed (tm t') <> 0;
  oe_poll : in_poll t' = true -> in_poll t = true;
  oe_ends : in_poll t = true -> in_poll t' = true \/ t_armed (tm t') <> 0;
  oe_polls : polls t' = polls t \/ in_poll t = true /\ polls t' = polls t ++ [(0%nat, PENDING)];
  oe_slot : if at_store t then in_flight t' = 0%nat /\ slot t' = 1%nat
            else in_flight t' = in_flight t
                 /\ slot t' = if owner_at_free t then 0%nat else slot t;
  oe_freed : at_store t = true \/ owner_at_free t = true -> t_freed (tm t) = false;
  oe_sane : sane t'
}.

Ltac effect := unfold slot, in_flight, at_store, owner_at_free, in_poll, at_load, at_set, drop_remove, arm_tail,
  timer_release, timer_add_ref, poll_cas in *; cbn in *.

Ltac owner_case :=
  split; effect; try done; auto; try (split; effect; try done; auto); try (by intros [?|?]);
  try (match goal with |- match ?w with _ => _ end = _ => by destruct w end).

Lemma owner_step_effect c t t' po pd :
  timer_inv t po pd -> wake_inv 0 t -> sane t -> (dropped t = true -> t_ready (tm t) = true) ->
  timer_step c OwnerStep t = Some t' -> owner_effect t t'.
Proof.
  intros Hinv Hw Hs Hdrop. pose proof (not_freed t po pd Hinv) as Hnf.
  destruct Hinv as [Ho Hd Hc H1 Hf Ht Hdr [Hu Hfa]]. unfold timer_step. rewrite Ho.
  destruct t as [[rc fired armed canc waker ready set queued freed woken uaf uninit fault] ow dp dr ps].
  pose proof (dpc_range pd). pose proof (b2z_range set). pose proof (b2z_range queued).
  pose proof (b2z_range (armed =? 0)). unfold timer_refs, frees in *. cbn in * |-. subst ow dp uaf fault dr.
  destruct Hs as [Hun Hre Hse Hfi Hlo]. destruct Hw as [_ _ Hcall _ _ _]. cbn in *. subst uninit.
  destruct po as [|v|v|v|v|v|v| | |x|x|x| | |]; cbn -[Refcount.add Refcount.sub]; try done;
    try pose proof (b2z_range x); rewrite Hnf in * by (cbn in *; lia); clear Hnf;
    try (rewrite (Hcall _ _ eq_refl) in *); clear Hcall; effect; try discriminate Hlo;
    try (rewrite (Hdrop eq_refl) in *); try (rewrite (Hse eq_refl) in *).
  - intros [= <-]. owner_case.
  - destruct (Z.eqb_spec armed 0); intros [= <-]; owner_case.
  - rewrite add_ok by (unfold MAX_REFCOUNT, i32_MAX; cbn in *; lia). intros [= <-]. owner_case.
  - intros [= <-]. owner_case.
  - intros [= <-]. owner_case. intros _. right. intros ->. cbn in *. lia.
  - intros [= <-]. owner_case.
  - intros [= <-]. owner_case.
  - intros [= <-]. owner_case.
  - destruct (sub c _) as [[r n]|]; [destruct x, (negb (r =? 0))|destruct x]; intros [= <-]; owner_case.
  - destruct x; intros [= <-]; owner_case.
  - destruct (sub c _) as [[r n]|]; [destruct (negb (r =? 0))|]; intros [= <-]; owner_case.
  - intros [= <-]. owner_case.
Qed.

Record dpc_effect (t t' : timer_sys) : Prop := {
  de_owner : owner t' = owner t;
  de_dropped : dropped t' = dropped t;
  de_polls : polls t' = polls t;
  de_armed : t_armed (tm t') = t_armed (tm t);
  de_fired : t_fired (tm t) <> 0 -> t_fired (tm t') <> 0;
  de_fires : t_fired (tm t') <> 0 -> t_fired (tm t) <> 0 \/ dpc t' = Some dpc_load;
  de_loads : dpc t = Some dpc_load -> dropped t = true \/ dpc t' = Some dpc_wake;
  de_wakes : dpc t = Some dpc_wake -> dpc_at_wake t = true;
  de_at_wake : dpc_at_wake t = true -> slot t = 1%nat;
  de_slot : slot t' = if dpc_at_free t then 0%nat else slot t;
  de_freed : dpc_at_free t = true -> t_freed (tm t) = false;
  de_sane : sane t'
}.

Ltac dpc_case :=
  split; unfold slot, dpc_at_wake, dpc_at_free, at_load, at_set in *; cbn in *; try done; auto;
  try (split; unfold at_load, at_set in *; cbn in *; try done; auto);
  try (match goal with |- match ?w with _ => _ end = _ => by destruct w end).

Lemma dpc_step_effect c t t' po pd :
  timer_inv t po pd -> wake_inv 0 t -> sane t ->
  timer_step c DpcStep t = Some t' -> dpc_effect t t'.
Proof.
  intros Hinv Hw Hs. pose proof (not_freed t po pd Hinv) as Hnf.
  destruct Hinv as [Ho Hd Hc H1 Hf Ht Hdr [Hu Hfa]]. unfold timer_step. rewrite Hd.
  destruct t as [[rc fired armed canc waker ready set queued freed woken uaf uninit fault] ow dp dr ps].
  pose proof (owner_range po). pose proof (b2z_range set). pose proof (b2z_range queued).
  assert (0 <= future_ref po <= 1) by (destruct po; cbn; lia).
  assert (Ha : 0 <= arming po) by (destruct po; cbn; lia).
  unfold timer_refs, frees in *. cbn in * |-. subst dp uaf fault.
  destruct Hs as [Hun Hre Hse Hfi Hlo]. destruct Hw as [Hwk _ _ Hca _ _]. cbn in *. subst uninit.
  assert (Harm : 0 < dpc_ref pd -> armed <> 0) by (intros ? ->; cbn in H1; lia).
  assert (Hrd : dpc_at pd <> None -> ready = true)
    by (intros Hne; destruct ready; [done|]; by destruct (Hre eq_refl) as (_ & _ & ? & _)).
  destruct pd; cbn -[Refcount.add Refcount.sub]; try done;
    rewrite Hnf in * by (cbn in *; lia); clear Hnf; rewrite (Hrd ltac:(done)) in *;
    try (pose proof (Harm eq_refl) as Harm'; rewrite (Hwk (or_introl Harm')) in * ).
  - intros [= <-]. dpc_case.
  - destruct (Z.eqb_spec canc 0); intros [= <-]; dpc_case.
  - intros [= <-]. dpc_case.
  - destruct (sub c _) as [[r n]|]; [destruct (negb (r =? 0))|]; intros [= <-]; dpc_case.
  - intros [= <-]. dpc_case.
Qed.

(** ** Counting the references handed out

    [given] references are with the environment and the threads will hand out
    the rest of [k]. *)
Definition tokens (ts : list thread) (given k : nat) : Prop :=
  exists ns, Forall2 (fun n t => gives n (th_prog t)) ns ts /\ (given + sum_list ns)%nat = k.

Lemma tokens_env a ts n k :
  tokens ts (S n) k -> tokens (ts ++ [mkThread false (env_prog a)]) n (k - 1 + env_gives a).
Proof.
  intros (ns & Hns & Hk). exists (ns ++ [env_gives a]). split.
  - apply Forall2_app; [done|]. constructor; [apply gives_env|done].
  - rewrite sum_list_with_app. cbn. lia.
Qed.

Lemma tokens_dpc fuel cpu ts n k :
  tokens ts n k -> tokens (ts ++ [mkThread true (dpc_routine fuel cpu)]) n k.
Proof.
  intros (ns & Hns & Hk). exists (ns ++ [0%nat]). split.
  - apply Forall2_app; [done|]. constructor; [apply gives_dpc_routine|done].
  - rewrite sum_list_with_app. cbn. lia.
Qed.

Lemma sum_list_insert ns i n n' :
  ns !! i = Some n -> (sum_list (<[i := n']> ns) + n = sum_list ns + n')%nat.
Proof.
  revert i. induction ns as [|m ns IH]; intros [|i] Hi; try done.
  - injection Hi as ->. cbn. unfold id. lia.
  - specialize (IH i Hi). change (<[S i := n']> (m :: ns)) with (m :: <[i := n']> ns).
    cbn [sum_list_with]. lia.
Qed.

#[global] Arguments tokens : simpl never.

Lemma tokens_eq ts n k k' : tokens ts n k -> k = k' -> tokens ts n k'.
Proof. by intros ? <-. Qed.

(** A thread that goes on. *)
Lemma tokens_run ts i d p d' p' given given' k k' :
  tokens ts given k -> ts !! i = Some (mkThread d p) ->
  (forall n, gives n p -> exists n', gives n' p' /\ (given + n + k' = given' + n' + k)%nat) ->
  tokens (<[i := mkThread d' p']> ts) given' k'.
Proof.
  intros (ns & Hns & Hk) Hi Hp. destruct (Forall2_lookup_r _ _ _ _ _ Hns Hi) as (m & Hm & Hg).
  destruct (Hp m Hg) as (m' & Hg' & Hsum). exists (<[i := m']> ns). split.
  - by apply Forall2_insert.
  - pose proof (sum_list_insert ns i m m' Hm). lia.
Qed.

Lemma tokens_idle ts given k :
  tokens ts given k -> Forall (fun t => running t = false) ts -> given = k.
Proof.
  intros (ns & Hns & Hk) Ht. assert (sum_list ns = 0%nat); [|lia]. clear Hk.
  induction Hns as [|n t ns ts Hn _ IH]; [done|]. apply Forall_cons_iff in Ht as [Hr Ht].
  unfold running in Hr. destruct (th_prog t); [|done]. cbn in Hn. cbn. rewrite Hn, IH; done.
Qed.

(** Without a reference in any thread the environment has them all. *)
Lemma tokens_unowned gs ts given k :
  tokens ts given k -> Forall2 typed gs ts -> total own_of gs = 0 -> given = k.
Proof.
  intros (ns & Hns & Hk) Ht Ho. assert (sum_list ns = 0%nat); [|lia]. clear Hk. unfold total in Ho.
  revert gs Ht Ho. induction Hns as [|n t ns ts Hn _ IH]; intros gs Ht Ho; [done|].
  inversion Ht as [|g t' gs' ts' [Hwp _] Hts]; subst. cbn in Ho |- *.
  rewrite (giver_owns n (th_prog t) g Hwp Hn), (IH gs'); [done|done|lia|lia].
Qed.

(** ** Steps of the executor, as the timer sees them *)

(** What the joint invariant looks at. *)
Definition view (m : task_mem) : Z * bool * bool * bool * bool * nat :=
  (m_completed m, m_future m, m_polling m, m_polled m, m_ready m, m_given m).

Definition plain_op (o : op) : bool :=
  match o with StoreCompleted | PollBegin | PollEnd | DropFuture | GiveWaker => false | _ => true end.

Lemma exec_view c o x m r m' :
  plain_op o = true -> exec c o x m = Done (r, m') ->
  view m' = view m /\ (m_owed m = true -> m_owed m' = true).
Proof.
  intros Ho He. destruct o; try discriminate Ho; cbn in He; repeat case_hyp He; try done;
    injection He as <- <-; split; try done; by destruct m.
Qed.

Lemma run_step c x i sys sys' :
  ExecutorSem.step c true (Run i x) sys = Some sys' ->
  exists d o k r m', s_threads sys !! i = Some (mkThread d (Vis o k)) /\ next_op sys i = Some o
    /\ exec c o x (s_mem sys) = Done (r, m') /\ sys' = mkSys m' (<[i := mkThread d (k r)]> (s_threads sys)).
Proof.
  cbn. unfold next_op. destruct (s_threads sys !! i) as [[d [|o k]]|] eqn:Hi; try done.
  destruct (exec c o x (s_mem sys)) as [[r m']|] eqn:He; [|done]. intros [= <-].
  by exists d, o, k, r, m'.
Qed.

(** A call of [wake_by_ref] that has yet to compete for the scheduled word. *)
Definition waking (x : ExecutorSem.sys) (j : option nat) : Prop :=
  exists i t, j = Some i /\ s_threads x !! i = Some t
    /\ (th_prog t = env_prog EnvWakeByRef \/ exists k, th_prog t = Vis CasScheduled k).

Lemma waking_busy x j : waking x j -> busy x j = true.
Proof.
  intros (i & t & -> & Hi & Hp). cbn. rewrite Hi. unfold running. by destruct Hp as [-> |[k ->]].
Qed.

Lemma waking_app x j ts m : waking x j -> waking (mkSys m (s_threads x ++ ts)) j.
Proof. intros (i & t & -> & Hi & Hp). exists i, t. split; [done|]. split; [by apply lookup_app_l_Some|done]. Qed.

(** One operation of a program. *)
Definition advance (c : config) (x : oracle) (p : prog unit) (m : task_mem) : option (prog unit * task_mem) :=
  match p with
  | Vis o k => match exec c o x m with Done (r, m') => Some (k r, m') | Fault _ => None end
  | Ret _ => None
  end.

Lemma waking_run c x i sys sys' j :
  waking sys j -> ExecutorSem.step c true (Run i x) sys = Some sys' ->
  m_completed (s_mem sys) = 0 -> waking sys' j \/ m_owed (s_mem sys') = true.
Proof.
  intros (l & t & -> & Hl & Hp) Hs Hc. apply run_step in Hs as (d & o & k & r & m' & Hi & _ & He & ->).
  destruct (decide (l = i)) as [->|Hne].
  - rewrite Hl in Hi. injection Hi as ->. cbn [th_prog] in Hp.
    assert (Ha : advance c x (Vis o k) (s_mem sys) = Some (k r, m')) by (cbn; by rewrite He).
    destruct Hp as [Hp|[k' Hp]]; rewrite Hp in Ha; cbn in Ha.
    + left. rewrite Hc in Ha. injection Ha as Hk _. exists i. eexists. split; [done|].
      split; [apply list_lookup_insert_eq; by apply lookup_lt_Some in Hl|]. right. cbn. rewrite <- Hk. eauto.
    + right. destruct (_ =? 0); by injection Ha as _ <-.
  - left. exists l, t. split; [done|]. cbn [s_threads].
    split; [by rewrite list_lookup_insert_ne by done|done].
Qed.

(** ** Consequences of the executor's invariant *)

Section Facts.
Context (x : ExecutorSem.sys) (Hx : Inv true x).

Lemma inv_future : m_future (s_mem x) = false -> m_completed (s_mem x) <> 0.
Proof using Hx.
  destruct Hx as (gs & _ & Hg). destruct (gl_future _ _ _ Hg eq_refl) as (_ & _ & _ & Hc & _).
  intros Hf H0. destruct (Hc H0) as [H1 _]. by rewrite Hf in H1.
Qed.

Lemma inv_good : m_bad_future (s_mem x) = false.
Proof using Hx.
  destruct Hx as (gs & _ & Hg). destruct (gl_future _ _ _ Hg eq_refl) as (_ & Hb & _). by destruct (m_bad_future _).
Qed.

(** [completed] is set after a poll that answered ready, or by the last
    owner, when no reference is left. *)
Lemma inv_completes i d k :
  s_threads x !! i = Some (mkThread d (Vis StoreCompleted k)) ->
  m_completed (s_mem x) <> 0 \/ m_ready (s_mem x) = true
  \/ exists gs, Forall2 typed gs (s_threads x) /\ total own_of gs = 0
       /\ m_given (s_mem x) = 0%nat /\ m_polled (s_mem x) = true /\ m_polling (s_mem x) = false.
Proof using Hx.
  destruct Hx as (gs & Ht & Hg). intros Hi. destruct (Forall2_lookup_r _ _ _ _ _ Ht Hi) as (g & Hgi & Hwp & _).
  destruct (Z.eq_dec (m_completed (s_mem x)) 0) as [Hc|]; [right|by left].
  destruct (gl_future _ _ _ Hg eq_refl) as (_ & _ & Hpg & Hlive & _). destruct (Hlive Hc) as (_ & _ & _ & Hr).
  pose proof (sum_caps gs (gl_wf _ _ _ Hg)) as Hs. pose proof (gl_refs _ _ _ Hg) as Hrefs.
  destruct Hwp as [(n & -> & _)|[-> _]].
  - left. pose proof (sum_lookup (fun g => cap_ready (g_cap g)) gs i _ Hgi) as H. cbn in H.
    destruct (m_ready _); [done|]. cbn in Hr. lia.
  - right. exists gs. split; [done|]. pose proof (sum_lookup excl_of gs i _ Hgi) as H. cbn in H.
    bounds gs (s_mem x). assert (Hown : total own_of gs = 0 /\ Z.of_nat (m_given (s_mem x)) = 0
      /\ flag (m_queued (s_mem x)) = 0) by (destruct Hrefs as [Hr'|[Hr'|Hr']]; lia).
    split; [lia|]. split; [lia|]. split.
    + destruct (m_polled (s_mem x)) eqn:Hp; [done|]. exfalso.
      pose proof (gl_first _ _ _ Hg) as Hf. rewrite Hp in Hf. destruct (Hf eq_refl) as (Ho & _).
      destruct (gl_owed _ _ _ Hg Ho Hc) as [Hsch|Hdue]; [|lia]. pose proof (gl_wake _ _ _ Hg Hsch). lia.
    + pose proof (sum_lookup (fun g => cap_live (g_cap g)) gs i _ Hgi) as Hl. cbn in Hl.
      pose proof (total_nonneg (fun g => cap_done (g_cap g)) gs).
      destruct (m_polling (s_mem x)); [cbn in Hpg; lia|done].
Qed.

(** At rest. *)
Context (Hq : quiescent x).

Lemma rest_owed : m_owed (s_mem x) = true -> m_completed (s_mem x) = 0 -> m_queued (s_mem x) = true.
Proof using Hx Hq.
  destruct Hx as (gs & Ht & Hg). destruct (quiescent_sums _ _ Ht Hq) as (_ & _ & _ & Ho & Hd). intros How Hc.
  pose proof (gl_owed _ _ _ Hg) as H. rewrite How, Hd in H. cbn in H.
  assert (Hs : m_scheduled (s_mem x) <> 0) by lia. pose proof (gl_wake _ _ _ Hg Hs) as Hw.
  destruct (m_queued _); [done|]. cbn in Hw. lia.
Qed.

Lemma rest_polled : m_completed (s_mem x) = 0 -> m_queued (s_mem x) = false -> m_polled (s_mem x) = true.
Proof using Hx Hq.
  intros Hc Hqd. destruct (m_polled (s_mem x)) eqn:Hp; [done|]. exfalso.
  destruct Hx as (gs & Ht & Hg). pose proof (gl_first _ _ _ Hg) as Hf. rewrite Hp in Hf.
  destruct (Hf eq_refl) as (Ho & _). rewrite rest_owed in Hqd; [done| |done]. by destruct (m_owed _).
Qed.

Lemma rest_caps (f : cap -> nat) gs :
  f CNone = 0%nat -> Forall2 typed gs (s_threads x) -> sum_cap f gs = 0.
Proof using Hq.
  intros Hf Ht. apply total_zero. unfold quiescent in Hq. clear -Hf Ht Hq.
  induction Ht as [|g t gs ts [Hwp _] _ IH]; constructor.
  - apply Forall_cons_iff in Hq as [Hr _]. unfold running in Hr.
    destruct (th_prog t); [|done]. by destruct Hwp as [-> | ->].
  - apply IH. by apply Forall_cons_iff in Hq as [_ ?].
Qed.

Lemma rest_ready : m_completed (s_mem x) = 0 -> m_ready (s_mem x) = false.
Proof using Hx Hq.
  destruct Hx as (gs & Ht & Hg). intros Hc.
  destruct (gl_future _ _ _ Hg eq_refl) as (_ & _ & _ & Hlive & _). destruct (Hlive Hc) as (_ & _ & _ & Hr).
  rewrite (rest_caps cap_ready gs) in Hr by done. by destruct (m_ready _).
Qed.

Lemma rest_dropped : m_completed (s_mem x) <> 0 -> m_future (s_mem x) = false.
Proof using Hx Hq.
  destruct Hx as (gs & Ht & Hg). intros Hc.
  destruct (gl_future _ _ _ Hg eq_refl) as (_ & _ & _ & _ & Hdone & _). destruct (Hdone Hc) as (_ & _ & _ & Hr).
  rewrite (rest_caps cap_must gs) in Hr by done. by destruct (m_future _).
Qed.

Lemma rest_freed :
  m_given (s_mem x) = 0%nat -> m_queued (s_mem x) = false ->
  m_freed (s_mem x) = true /\ m_tracked (s_mem x) = 1%nat.
Proof using Hx Hq.
  destruct Hx as (gs & Ht & Hg). intros Hg0 Hq0. destruct (quiescent_sums _ _ Ht Hq) as (H1 & H2 & H3 & _ & _).
  pose proof (gl_refs _ _ _ Hg) as Href. rewrite Hg0, Hq0 in Href.
  destruct (m_freed (s_mem x)); cbn in Href; [split; [done|lia]|lia].
Qed.
End Facts.

(** ** The invariant of the product *)

(** The task's future is the timer future, polled while it is alive; a poll
    that was pending has armed the timer or is about to; the task is complete
    after a poll that was ready, which is one that found the timer fired; a
    timer that fired has woken an incomplete task, or is on its way to; and
    the references of the environment are the handle's, that of the waker in
    the block and that of the clone on its way there. *)
Record joint (s : co_sys) : Prop := {
  jo_alive : dropped (co_timer s) = negb (m_future (s_mem (co_task s)));
  jo_poll : in_poll (co_timer s) = true ->
    m_polling (s_mem (co_task s)) = true /\ m_ready (s_mem (co_task s)) = false;
  jo_polled : m_polled (s_mem (co_task s)) = true ->
    t_armed (tm (co_timer s)) <> 0 \/ in_poll (co_timer s) = true;
  jo_ready : m_ready (s_mem (co_task s)) = true -> t_fired (tm (co_timer s)) <> 0;
  jo_completed : m_completed (s_mem (co_task s)) <> 0 -> m_ready (s_mem (co_task s)) = true;
  jo_woken : t_fired (tm (co_timer s)) <> 0 -> m_completed (s_mem (co_task s)) = 0 ->
    m_ready (s_mem (co_task s)) = true \/ m_owed (s_mem (co_task s)) = true
    \/ dpc (co_timer s) = Some dpc_load \/ dpc (co_timer s) = Some dpc_wake
    \/ waking (co_task s) (co_dpc_call s);
  jo_tokens : tokens (s_threads (co_task s)) (m_given (s_mem (co_task s)))
    (Nat.b2n (co_handle s) + slot (co_timer s) + in_flight (co_timer s));
  jo_polls : exists n, polls (co_timer s) = replicate n (0%nat, PENDING)
    ++ (if m_ready (s_mem (co_task s)) then [(0%nat, READY)] else [])
}.

Record co_inv (s : co_sys) : Prop := {
  ci_exec : Inv true (co_task s);
  ci_timer : exists po pd, timer_inv (co_timer s) po pd;
  ci_wake : wake_inv 0 (co_timer s);
  ci_sane : sane (co_timer s);
  ci_joint : joint s
}.

Lemma co_start_inv b handle : co_inv (co_start b handle).
Proof.
  split.
  - apply spawned_Inv, spawn_wp, spawn_prog_ok.
  - exists OOut, DOut. apply timer_start_inv.
  - apply timer_start_wake.
  - split; try done.
  - split; cbn; try done.
    + exists [Nat.b2n handle]. split; [|cbn; unfold id; lia]. constructor; [apply gives_spawn|done].
    + by exists 0%nat.
Qed.

Lemma freed_dropped t po pd : timer_inv t po pd -> t_freed (tm t) = true -> dropped t = true.
Proof.
  intros Hinv Hf. pose proof (not_freed t po pd Hinv) as Hnf. destruct Hinv as [_ _ _ _ _ _ Hdr _].
  pose proof (owner_range po). pose proof (dpc_range pd). pose proof (b2z_range (t_set (tm t))).
  pose proof (b2z_range (t_queued (tm t))). unfold timer_refs, frees in Hnf.
  destruct (dropped t) eqn:E; [done|]. rewrite Hdr in E. rewrite Hnf in Hf; [done|].
  destruct po; cbn in *; try done; lia.
Qed.

Lemma dropped_fired s : co_inv s -> dropped (co_timer s) = true -> t_fired (tm (co_timer s)) <> 0.
Proof.
  intros [Hx _ _ _ Hj] Hd. apply (jo_ready s Hj), (jo_completed s Hj), inv_future; [done|].
  rewrite (jo_alive s Hj) in Hd. by destruct (m_future _).
Qed.

Lemma dropped_ready s : co_inv s -> dropped (co_timer s) = true -> t_ready (tm (co_timer s)) = true.
Proof.
  intros Hs Hd. pose proof (dropped_fired s Hs Hd) as Hf. destruct (t_ready _) eqn:E; [done|].
  by destruct (sa_ready _ (ci_sane s Hs) E) as (_ & _ & _ & ?).
Qed.

(** [completed] is set after a ready poll only. *)
Lemma store_completed_ready s i d k :
  co_inv s -> s_threads (co_task s) !! i = Some (mkThread d (Vis StoreCompleted k)) ->
  m_ready (s_mem (co_task s)) = true.
Proof.
  intros Hs Hi. pose proof Hs as [Hx (po & pd & Ht) Hw _ Hj].
  destruct (inv_completes _ Hx i d k Hi) as [Hc|[Hr|(gs & Hgs & Hown & Hg & Hp & Hpg)]]; [by apply Hj|done|].
  pose proof (tokens_unowned _ _ _ _ (jo_tokens s Hj) Hgs Hown) as Hk. rewrite Hg in Hk.
  assert (Hslot : slot (co_timer s) = 0%nat) by lia. unfold slot in Hslot.
  destruct (jo_polled s Hj Hp) as [Ha|Hin].
  - rewrite (wv_waker _ _ Hw (or_introl Ha)) in Hslot. destruct (t_freed _) eqn:Hf; [|done].
    pose proof (freed_dropped _ _ _ Ht Hf) as Hd. rewrite (jo_alive s Hj) in Hd.
    apply (jo_completed s Hj), (inv_future _ Hx). by destruct (m_future _).
  - destruct (jo_poll s Hj Hin) as [Hpo _]. congruence.
Qed.

(** ** Steps *)

Section Steps.
Context (c : config).

Lemma co_step_split e s s' :
  co_step c e s = Some s' ->
  exists x t, co_allowed e s = true
    /\ ExecutorSem.run c true (task_events e s) (co_task s) = Some x
    /\ timer_run c (timer_events e s) (co_timer s) = Some t /\ s' = co_next e s x t.
Proof.
  unfold co_step. destruct (co_allowed e s); [|done].
  destruct (ExecutorSem.run _ _ _ _) as [x|]; [|done]. destruct (timer_run _ _ _) as [t|]; [|done].
  intros [= <-]. by exists x, t.
Qed.

Lemma task_events_one e s : task_events e s = [] \/ exists ev, task_events e s = [ev].
Proof.
  destruct e; cbn; eauto; unfold on_stored; repeat case_match; eauto.
Qed.

Lemma exec_part e s x :
  Inv true (co_task s) -> m_ref_count (s_mem (co_task s)) < MAX_REFCOUNT ->
  ExecutorSem.run c true (task_events e s) (co_task s) = Some x -> Inv true x.
Proof.
  intros Hx Hm Hr. destruct (task_events_one e s) as [E|[ev E]]; rewrite E in Hr; cbn in Hr.
  - by injection Hr as <-.
  - destruct (ExecutorSem.step c true ev (co_task s)) as [x1|] eqn:Es; [|done]. injection Hr as <-.
    by eapply step_Inv.
Qed.

Lemma polls_with_events e s : Forall (polls_with 0) (timer_events e s).
Proof. destruct e; cbn; repeat case_match; repeat constructor. Qed.

Lemma timer_part e s t po pd :
  timer_inv (co_timer s) po pd -> wake_inv 0 (co_timer s) ->
  timer_run c (timer_events e s) (co_timer s) = Some t ->
  wake_inv 0 t /\ exists po pd, timer_inv t po pd.
Proof.
  intros Ht Hw Hr. exact (wake_run c 0 _ _ _ po pd Ht Hw (polls_with_events e s) Hr).
Qed.

Lemma co_next_parts e s x t : co_task (co_next e s x t) = x /\ co_timer (co_next e s x t) = t.
Proof. by destruct e. Qed.

(** What is left to show of a step. *)
Lemma step_inv e s s' :
  co_inv s -> m_ref_count (s_mem (co_task s)) < MAX_REFCOUNT -> co_step c e s = Some s' ->
  (forall x t, co_allowed e s = true ->
     ExecutorSem.run c true (task_events e s) (co_task s) = Some x -> Inv true x ->
     timer_run c (timer_events e s) (co_timer s) = Some t -> (exists po pd, timer_inv t po pd) -> wake_inv 0 t ->
     sane t /\ joint (co_next e s x t)) ->
  co_inv s'.
Proof.
  intros [Hx (po & pd & Ht) Hw Hs Hj] Hm Hstep Hrest.
  apply co_step_split in Hstep as (x & t & Ha & Hrx & Hrt & ->).
  pose proof (exec_part e s x Hx Hm Hrx) as Hx'. destruct (timer_part e s t po pd Ht Hw Hrt) as [Hw' Ht'].
  destruct (Hrest x t Ha Hrx Hx' Hrt Ht' Hw') as [Hs' Hj'].
  destruct (co_next_parts e s x t) as [E1 E2]. by split; rewrite ?E1, ?E2.
Qed.

(** *** The timer and its DPC *)

Lemma run_env (a : env_action) (x x' : ExecutorSem.sys) :
  ExecutorSem.run c true [Env a] x = Some x' ->
  exists n, m_given (s_mem x) = S n
    /\ x' = mkSys (upd_given n (s_mem x)) (s_threads x ++ [mkThread false (env_prog a)]).
Proof.
  cbn. destruct (m_given (s_mem x)) as [|n]; [done|]. intros [= <-]. by exists n.
Qed.

Lemma expire_step s s' :
  co_inv s -> m_ref_count (s_mem (co_task s)) < MAX_REFCOUNT -> co_step c CoExpire s = Some s' -> co_inv s'.
Proof.
  intros Hs Hm Hstep. apply (step_inv CoExpire s s' Hs Hm Hstep). intros x t _ Hrx _ Hrt _ _.
  destruct Hs as [_ _ _ [S1 S2 S3 S4 S5] [J1 J2 J3 J4 J5 J6 J7 J8]].
  cbn in Hrx, Hrt. injection Hrx as <-. destruct (t_set (tm (co_timer s))) eqn:Hset; [|done]. injection Hrt as <-.
  split; split; cbn; try done.
  - by rewrite S1.
  - intros Hr. destruct (S2 Hr) as (Hf & _). congruence.
Qed.

Lemma timer_dispatch_step s s' :
  co_inv s -> m_ref_count (s_mem (co_task s)) < MAX_REFCOUNT -> co_step c CoTimerDispatch s = Some s' -> co_inv s'.
Proof.
  intros Hs Hm Hstep. apply (step_inv CoTimerDispatch s s' Hs Hm Hstep). intros x t _ Hrx _ Hrt _ _.
  destruct Hs as [_ _ _ [S1 S2 S3 S4 S5] [J1 J2 J3 J4 J5 J6 J7 J8]].
  cbn in Hrx, Hrt. injection Hrx as <-. destruct (t_queued (tm (co_timer s))) eqn:Hq; [|done].
  destruct (dpc (co_timer s)) eqn:Hd; [done|]. injection Hrt as <-.
  split; split; cbn; try done.
  - by rewrite S1.
  - intros Hr. destruct (S2 Hr) as (_ & ? & _). congruence.
  - intros Hf Hc. destruct (J6 Hf Hc) as [?|[?|[?|[?|?]]]]; auto; congruence.
Qed.

(** A call of the environment, or none. *)
Record calls (es : list ExecutorSem.event) (x x' : ExecutorSem.sys) : Prop := {
  ca_same : m_completed (s_mem x') = m_completed (s_mem x) /\ m_future (s_mem x') = m_future (s_mem x)
    /\ m_polling (s_mem x') = m_polling (s_mem x) /\ m_polled (s_mem x') = m_polled (s_mem x)
    /\ m_ready (s_mem x') = m_ready (s_mem x) /\ m_owed (s_mem x') = m_owed (s_mem x);
  ca_waking : forall j, waking x j -> waking x' j;
  ca_tokens : forall k, tokens (s_threads x) (m_given (s_mem x)) k ->
    tokens (s_threads x') (m_given (s_mem x'))
      (match es with [Env a] => k - 1 + env_gives a | _ => k end)
}.

Lemma no_call x x' : ExecutorSem.run c true [] x = Some x' -> calls [] x x'.
Proof. intros [= <-]. by split. Qed.

Lemma env_call a x x' : ExecutorSem.run c true [Env a] x = Some x' -> calls [Env a] x x'.
Proof.
  intros Hr. apply run_env in Hr as (n & Hn & ->). split; cbn.
  - done.
  - intros j. apply waking_app.
  - intros k. rewrite Hn. apply tokens_env.
Qed.

Lemma stored_call a t x x' :
  ExecutorSem.run c true (on_stored a t) x = Some x' -> calls (on_stored a t) x x'.
Proof. unfold on_stored. destruct (t_waker (tm t)); [apply env_call|apply no_call]. Qed.

Lemma stored_slot a t :
  t_freed (tm t) = false ->
  on_stored a t = [Env a] /\ slot t = 1%nat \/ on_stored a t = [] /\ slot t = 0%nat.
Proof. unfold on_stored, slot. intros ->. destruct (t_waker (tm t)); auto. Qed.

Lemma owner_calls s x :
  ExecutorSem.run c true (task_events CoOwner s) (co_task s) = Some x ->
  calls (task_events CoOwner s) (co_task s) x.
Proof. cbn [task_events]. destruct (_ || _); [apply stored_call|apply no_call]. Qed.

Lemma owner_step_keeps s s' :
  co_inv s -> m_ref_count (s_mem (co_task s)) < MAX_REFCOUNT -> co_step c CoOwner s = Some s' -> co_inv s'.
Proof.
  intros Hs Hm Hstep. apply (step_inv CoOwner s s' Hs Hm Hstep). intros x t Ha Hrx _ Hrt _ _.
  pose proof (dropped_ready s Hs) as Hdr. destruct Hs as [_ (po & pd & Ht) Hw Hsn [J1 J2 J3 J4 J5 J6 J7 J8]].
  apply owner_calls in Hrx as [(C1 & C2 & C3 & C4 & C5 & C6) Cw Ct]. cbn [timer_events timer_run] in Hrt.
  destruct (timer_step c OwnerStep (co_timer s)) as [t'|] eqn:Et; [|done]. injection Hrt as ->.
  destruct (owner_step_effect c _ _ po pd Ht Hw Hsn Hdr Et) as [E1 E2 E3 E4 E5 E6 E7 E8 E9 E10].
  split; [done|]. split; cbn [co_next co_task co_timer co_handle co_dpc_call]; rewrite ?C1, ?C2, ?C3, ?C4, ?C5, ?C6, ?E1, ?E2, ?E3; try done; auto.
  - intros Hp. destruct (J3 Hp) as [?|Hin]; [by auto|]. destruct (E6 Hin); auto.
  - intros Hf Hc. destruct (J6 Hf Hc) as [?|[?|[?|[?|?]]]]; auto 7.
  - apply Ct in J7. cbn [task_events] in J7. revert J7 E8.
    destruct (at_store (co_timer s)) eqn:Hst; [|destruct (owner_at_free (co_timer s)) eqn:Hfr]; cbn [orb].
    + destruct (stored_slot EnvDropWaker (co_timer s)) as [[-> Hsl]|[-> Hsl]]; [by auto|..];
        unfold in_flight; rewrite Hst, Hsl; cbn; intros J7 [-> ->]; (eapply tokens_eq; [exact J7|lia]).
    + destruct (stored_slot EnvDropWaker (co_timer s)) as [[-> Hsl]|[-> Hsl]]; [by auto|..];
        rewrite Hsl; cbn; intros J7 [-> ->]; (eapply tokens_eq; [exact J7|lia]).
    + by intros J7 [-> ->].
  - destruct J8 as [n J8]. destruct E7 as [->|[Hin ->]]; [by exists n|]. exists (S n). rewrite J8.
    rewrite (proj2 (J2 Hin)), !app_nil_r. by rewrite replicate_S_end.
Qed.

Lemma timer_dpc_step s s' :
  co_inv s -> m_ref_count (s_mem (co_task s)) < MAX_REFCOUNT -> co_step c CoTimerDpc s = Some s' -> co_inv s'.
Proof.
  intros Hs Hm Hstep. apply (step_inv CoTimerDpc s s' Hs Hm Hstep). intros x t Ha Hrx Hx' Hrt _ _.
  destruct Hs as [Hx (po & pd & Ht) Hw Hsn [J1 J2 J3 J4 J5 J6 J7 J8]].
  cbn [timer_events timer_run] in Hrt.
  destruct (timer_step c DpcStep (co_timer s)) as [t'|] eqn:Et; [|done]. injection Hrt as ->.
  destruct (dpc_step_effect c _ _ po pd Ht Hw Hsn Et) as [E1 E2 E3 E4 E5 E6 E7 E8 E9 E10 E11 E12].
  assert (Hwaked : dpc_at_wake (co_timer s) = true ->
    task_events CoTimerDpc s = [Env EnvWakeByRef]
    /\ waking x (new_call (task_events CoTimerDpc s) (co_task s) (co_dpc_call s))).
  { intros Hw1. assert (E : task_events CoTimerDpc s = [Env EnvWakeByRef]).
    { cbn [task_events]. rewrite Hw1. specialize (E9 Hw1). unfold slot, on_stored in *. by destruct (t_waker _). }
    split; [done|]. rewrite E in Hrx |- *. apply run_env in Hrx as (n & _ & ->).
    exists (length (s_threads (co_task s))), (mkThread false (env_prog EnvWakeByRef)). split; [done|].
    cbn [s_threads]. split; [by rewrite list_lookup_middle|by left]. }
  assert (Hcalls : calls (task_events CoTimerDpc s) (co_task s) x).
  { revert Hrx. cbn [task_events]. destruct (dpc_at_wake _); [|destruct (dpc_at_free _)];
      auto using stored_call, no_call. }
  destruct Hcalls as [(C1 & C2 & C3 & C4 & C5 & C6) Cw Ct]. split; [done|].
  split; cbn [co_next co_task co_timer co_handle co_dpc_call]; unfold in_poll, in_flight, at_store in *;
    rewrite ?C1, ?C2, ?C3, ?C4, ?C5, ?C6, ?E1, ?E2, ?E3, ?E4; try done; auto.
  - intros Hf Hc. destruct (E6 Hf) as [Hf0|?]; [|by auto].
    destruct (J6 Hf0 Hc) as [?|[?|[Hd|[Hd|Hd]]]]; auto.
    + destruct (E7 Hd) as [Hdp|?]; [|by auto]. exfalso. rewrite J1 in Hdp.
      apply (inv_future _ Hx); [by destruct (m_future _)|done].
    + right; right; right; right. by apply Hwaked, E8.
    + apply waking_busy in Hd. cbn in Ha. by rewrite Hd in Ha.
  - apply Ct in J7. rewrite E10. destruct (dpc_at_wake (co_timer s)) eqn:Hw1.
    + destruct (Hwaked eq_refl) as [E _]. rewrite E in J7. specialize (E9 eq_refl).
      assert (Hfr : dpc_at_free (co_timer s) = false).
      { unfold dpc_at_wake, dpc_at_free in *. by destruct (dpc (co_timer s)) as [[|[] ?]|]. }
      rewrite Hfr. eapply tokens_eq; [exact J7|]. cbn. rewrite E9. lia.
    + revert J7. cbn [task_events]. rewrite Hw1. destruct (dpc_at_free (co_timer s)) eqn:Hfr; [|done].
      destruct (stored_slot EnvDropWaker (co_timer s)) as [[-> Hsl]|[-> Hsl]]; [by auto|..];
        rewrite Hsl; cbn; intros J7; (eapply tokens_eq; [exact J7|lia]).
Qed.
(** *** The kernel's dispatch and the client *)

Lemma dispatch_step fuel cpu s s' :
  co_inv s -> m_ref_count (s_mem (co_task s)) < MAX_REFCOUNT ->
  co_step c (CoDispatch fuel cpu) s = Some s' -> co_inv s'.
Proof.
  intros Hs Hm Hstep. apply (step_inv _ s s' Hs Hm Hstep). intros x t _ Hrx _ Hrt _ _.
  destruct Hs as [_ _ _ Hsn [J1 J2 J3 J4 J5 J6 J7 J8]]. cbn in Hrt. injection Hrt as <-.
  cbn [task_events ExecutorSem.run ExecutorSem.step] in Hrx. destruct (can_dispatch true _); [|done].
  injection Hrx as <-. split; [done|]. split; cbn; try done.
  - intros Hf Hc. destruct (J6 Hf Hc) as [?|[?|[?|[?|?]]]]; auto. right; right; right; right. by apply waking_app.
  - by apply tokens_dpc.
Qed.

Lemma handle_step a s s' :
  co_inv s -> m_ref_count (s_mem (co_task s)) < MAX_REFCOUNT ->
  co_step c (CoHandle a) s = Some s' -> co_inv s'.
Proof.
  intros Hs Hm Hstep. apply (step_inv _ s s' Hs Hm Hstep). intros x t Ha Hrx _ Hrt _ _.
  destruct Hs as [_ _ _ Hsn [J1 J2 J3 J4 J5 J6 J7 J8]]. cbn in Hrt. injection Hrt as <-.
  apply env_call in Hrx as [(C1 & C2 & C3 & C4 & C5 & C6) Cw Ct]. split; [done|].
  split; cbn [co_next co_task co_timer co_handle co_dpc_call]; rewrite ?C1, ?C2, ?C3, ?C4, ?C5, ?C6; try done.
  - intros Hf Hc. destruct (J6 Hf Hc) as [?|[?|[?|[?|?]]]]; auto 7.
  - apply Ct in J7. cbn in Ha. destruct (co_handle s); [|by destruct a].
    destruct a; try discriminate Ha; (eapply tokens_eq; [exact J7|cbn; lia]).
Qed.

(** *** The threads of the executor *)

Lemma gives_plain o (k : resp o -> prog unit) r n x m m' :
  plain_op o = true -> exec c o x m = Done (r, m') -> gives n (Vis o k) -> gives n (k r).
Proof. destruct o; cbn; try done; intros _ _ Hg; apply Hg. Qed.

(** A fired timer whose wake is outstanding before a step of a thread that
    keeps the debt still has it outstanding after. *)
Lemma woken_kept s i ctr x' :
  joint s ->
  ExecutorSem.step c true (Run i (mkOracle (timer_answer (co_timer s)) ctr)) (co_task s) = Some x' ->
  (m_owed (s_mem (co_task s)) = true -> m_owed (s_mem x') = true) ->
  t_fired (tm (co_timer s)) <> 0 -> m_completed (s_mem (co_task s)) = 0 ->
  m_ready (s_mem (co_task s)) = true \/ m_owed (s_mem x') = true
    \/ dpc (co_timer s) = Some dpc_load \/ dpc (co_timer s) = Some dpc_wake
    \/ waking x' (co_dpc_call s).
Proof.
  intros Hj Hst Ho Hf Hc. destruct (jo_woken _ Hj Hf Hc) as [?|[?|[?|[?|Hw]]]]; auto.
  destruct (waking_run c _ i _ _ _ Hw Hst Hc) as [?|?]; auto 7.
Qed.

(** A step of a thread while the timer stays as it is. *)
Lemma run_plain s i ctr d o k r m' :
  co_inv s -> s_threads (co_task s) !! i = Some (mkThread d (Vis o k)) -> plain_op o = true ->
  exec c o (mkOracle (timer_answer (co_timer s)) ctr) (s_mem (co_task s)) = Done (r, m') ->
  ExecutorSem.step c true (Run i (mkOracle (timer_answer (co_timer s)) ctr)) (co_task s)
    = Some (mkSys m' (<[i := mkThread d (k r)]> (s_threads (co_task s)))) ->
  joint (mkCo (mkSys m' (<[i := mkThread d (k r)]> (s_threads (co_task s)))) (co_timer s) (co_caller s)
           (co_owner_call s) (co_dpc_call s) (co_handle s) (co_handle_call s)).
Proof.
  intros Hs Hi Ho He Hst. destruct Hs as [_ _ _ _ Hj]. pose proof Hj as [J1 J2 J3 J4 J5 _ J7 J8].
  destruct (exec_view c o _ _ r m' Ho He) as [Hv How]. unfold view in Hv. injection Hv as V1 V2 V3 V4 V5 V6.
  split; cbn [co_task co_timer co_handle co_dpc_call s_mem s_threads]; rewrite ?V1, ?V2, ?V3, ?V4, ?V5, ?V6; try done.
  - exact (woken_kept s i ctr _ Hj Hst How).
  - apply (tokens_run _ i d _ d _ _ _ _ _ J7 Hi). intros n Hg. exists n. split; [|lia].
    by eapply gives_plain.
Qed.

(** A poll of the timer future up to its load of [fired]. *)
Record begin_effect (t t' : timer_sys) : Prop := {
  be_owner : owner t = None;
  be_dropped : dropped t = false /\ dropped t' = false;
  be_words : t_fired (tm t') = t_fired (tm t) /\ t_armed (tm t') = t_armed (tm t) /\ dpc t' = dpc t;
  be_slot : slot t' = slot t;
  be_answer : if t_fired (tm t) =? 0 then in_poll t' = true /\ in_flight t' = 1%nat /\ polls t' = polls t
              else in_poll t' = false /\ in_flight t' = 0%nat /\ polls t' = polls t ++ [(0%nat, READY)];
  be_sane : sane t'
}.

Lemma poll_begin_effect t t' :
  sane t -> timer_run c [OwnerCall (PollCall 0); OwnerStep] t = Some t' -> begin_effect t t'.
Proof.
  destruct t as [[rc fired armed canc waker ready set queued freed woken uaf uninit fault] ow dp dr ps].
  intros [S1 S2 S3 S4 S5]. cbn in *. destruct ow; [done|]. destruct dr; [done|]. cbn.
  destruct (Z.eqb_spec fired 0) as [->|Hf]; cbn; intros [= <-].
  all: split; cbn; try done; rewrite ?(proj2 (Z.eqb_neq fired 0) Hf); try done; split; cbn; try done; by subst.
Qed.

Lemma poll_begin_joint s i ctr d k r m' t :
  co_inv s -> s_threads (co_task s) !! i = Some (mkThread d (Vis PollBegin k)) ->
  exec c PollBegin (mkOracle (timer_answer (co_timer s)) ctr) (s_mem (co_task s)) = Done (r, m') ->
  m_bad_future m' = false -> begin_effect (co_timer s) t ->
  joint (mkCo (mkSys m' (<[i := mkThread d (k r)]> (s_threads (co_task s)))) t (Some i)
           (co_owner_call s) (co_dpc_call s) (co_handle s) (co_handle_call s)).
Proof.
  intros [_ _ _ Hsn [J1 J2 J3 J4 J5 J6 J7 J8]] Hi He Hbad [B1 [B2 B2'] (B3 & B4 & B5) B6 B7 B8].
  cbn in He. injection He as <- <-. cbn in Hbad. apply orb_false_iff in Hbad as [_ Hbad].
  apply orb_false_iff in Hbad as [_ Hr0]. destruct J8 as [n J8]. rewrite Hr0, app_nil_r in J8.
  assert (Hfl : in_flight (co_timer s) = 0%nat) by (unfold in_flight, at_store; by rewrite B1).
  rewrite Hfl in J7. unfold timer_answer in *.
  split; cbn [co_task co_timer co_handle co_dpc_call s_mem s_threads]; cbn; rewrite ?B3, ?B4, ?B5, ?B6.
  - by rewrite B2', <- J1.
  - destruct (_ =? 0); [done|]. destruct B7 as [-> _]. done.
  - intros _. destruct (Z.eqb_spec (t_fired (tm (co_timer s))) 0) as [Hf|Hf]; [right; apply B7|left].
    by apply (sa_fired _ Hsn).
  - by destruct (Z.eqb_spec (t_fired (tm (co_timer s))) 0).
  - intros Hc. destruct (Z.eqb_spec (t_fired (tm (co_timer s))) 0); [|done].
    specialize (J4 (J5 Hc)). congruence.
  - intros Hf _. left. by rewrite (proj2 (Z.eqb_neq _ 0) Hf).
  - apply (tokens_run _ i d _ d _ _ _ _ _ J7 Hi). intros n' (-> & G1 & G2).
    destruct (_ =? 0); destruct B7 as (_ & -> & _); eexists; (split; [eassumption|lia]).
  - exists n. rewrite <- J8. destruct (_ =? 0); destruct B7 as (_ & _ & ->); [by rewrite app_nil_r|done].
Qed.

Lemma drop_begin_effect t t' :
  timer_run c [OwnerCall DropCall] t = Some t' ->
  owner t = None /\ t' = mkTimerSys (tm t) (Some (DropCall, timer_drop)) (dpc t) true (polls t).
Proof. cbn. destruct (owner t); [done|]. destruct (dropped t); [done|]. by intros [= <-]. Qed.

Lemma run_thread_step i ctr s s' :
  co_inv s -> m_ref_count (s_mem (co_task s)) < MAX_REFCOUNT ->
  co_step c (CoRun i ctr) s = Some s' -> co_inv s'.
Proof.
  intros Hs Hm Hstep. apply (step_inv _ s s' Hs Hm Hstep). intros x t Ha Hrx Hx' Hrt _ _.
  cbn [task_events ExecutorSem.run] in Hrx.
  destruct (ExecutorSem.step c true _ (co_task s)) as [x1|] eqn:Est; [|done]. injection Hrx as ->.
  destruct (run_step c _ _ _ _ Est) as (d & o & k & r & m' & Hi & Ho & He & ->).
  cbn [timer_events co_allowed] in Hrt, Ha. cbn [co_next timer_events]. rewrite Ho in Hrt, Ha |- *.
  destruct (plain_op o) eqn:Hpl.
  - assert (Hev : match o with PollBegin => [OwnerCall (PollCall 0); OwnerStep] | DropFuture => [OwnerCall DropCall] | _ => [] end = [])
      by (by destruct o).
    rewrite Hev in Hrt |- *. cbn in Hrt. injection Hrt as <-. split; [by apply ci_sane|]. by eapply run_plain.
  - pose proof Hs as [Hx _ _ Hsn Hj]. pose proof (woken_kept s i ctr _ Hj Est) as Hwk.
    destruct Hj as [J1 J2 J3 J4 J5 J6 J7 J8].
    destruct o; try discriminate Hpl.
    + (* StoreCompleted *)
      cbn in Hrt. injection Hrt as <-. pose proof (store_completed_ready s i d k Hs Hi) as Hr.
      cbn in He. injection He as <- <-. split; [done|]. split; cbn; try done.
      apply (tokens_run _ i d _ d _ _ _ _ _ J7 Hi). intros n Hg. exists n. split; [apply Hg|lia].
    + (* PollBegin *)
      pose proof (poll_begin_effect _ _ Hsn Hrt) as Hbe. split; [by apply Hbe|].
      eapply poll_begin_joint; try done. exact (inv_good _ Hx').
    + (* PollEnd *)
      cbn in Hrt. injection Hrt as <-. apply andb_true_iff in Ha as [_ Ha]. cbn in Ha.
      apply negb_true_iff in Ha. cbn in He. injection He as <- <-. split; [done|].
      split; cbn; try done; rewrite ?Ha; try done; auto.
      apply (tokens_run _ i d _ d _ _ _ _ _ J7 Hi). intros n [-> Hg]. exists 0%nat. split; [done|lia].
    + (* DropFuture *)
      apply drop_begin_effect in Hrt as [Hown ->]. cbn in He. injection He as <- <-. destruct Hsn as [S1 S2 S3 S4 S5].
      assert (Hfl : in_flight (co_timer s) = 0%nat) by (unfold in_flight, at_store; by rewrite Hown).
      assert (Hin : in_poll (co_timer s) = false) by (unfold in_poll; by rewrite Hown).
      rewrite Hin in J3. split; [by split|]. split; cbn; try done.
      * exact (Hwk (fun Howed => Howed)).
      * apply (tokens_run _ i d _ d _ _ _ _ _ J7 Hi). intros n Hg. exists n. split; [apply Hg|].
        rewrite Hfl. unfold slot. cbn. lia.
    + (* GiveWaker *)
      cbn in Hrt. injection Hrt as <-. cbn in He. injection He as <- <-. split; [done|]. split; cbn; try done.
      * exact (Hwk (fun Howed => Howed)).
      * apply (tokens_run _ i d _ d _ _ _ _ _ J7 Hi). intros [|n] Hg; [done|]. exists n. split; [apply Hg|lia].
Qed.

Lemma co_step_inv e s s' :
  co_inv s -> m_ref_count (s_mem (co_task s)) < MAX_REFCOUNT -> co_step c e s = Some s' -> co_inv s'.
Proof.
  destruct e; [apply run_thread_step|apply dispatch_step|apply handle_step|apply owner_step_keeps
    |apply expire_step|apply timer_dispatch_step|apply timer_dpc_step].
Qed.

Lemma co_run_inv es s s' :
  co_inv s -> co_within c es s -> co_run c es s = Some s' -> co_inv s'.
Proof.
  revert s. induction es as [|e es IH]; intros s Hs [Hm Hw] Hr; cbn in Hr; [by injection Hr as <-|].
  destruct (co_step c e s) as [s1|] eqn:E; [|done]. by apply (IH s1); [eapply co_step_inv|..].
Qed.
End Steps.
