(* ===== verification/TimerTaskProgress.v ===== *)
(** * The product of a task and its timer goes on

    In the product of [TimerTask] the code of one machine waits for calls into
    the other: the routine for [poll] and [drop] of the timer future, this
    code and the timer's DPC for the calls they make on the task's waker, and
    both for the lock.  Two more invariants, on who waits for whom and on the
    references that are on their way, show that nobody waits for ever. *)

From S2P Require Import Prelude Status Refcount Programs.
From S2P Require Import Timer.
From S2P Require Import Executor ExecutorSem ExecutorSafety ExecutorTheorems ExecutorWake TimerTask TimerTaskInv.

(** ** At rest *)

(** No thread runs, no DPC is queued or running, and the timer is not set. *)
Definition at_rest (s : co_sys) : Prop :=
  quiescent (co_task s) /\ m_queued (s_mem (co_task s)) = false
  /\ owner (co_timer s) = None /\ dpc (co_timer s) = None
  /\ t_set (tm (co_timer s)) = false /\ t_queued (tm (co_timer s)) = false.

(** What can happen without the client; a DPC routine is dispatched with
    [fuel] iterations. *)
Definition internal (fuel : nat) (e : co_event) : Prop :=
  match e with CoHandle _ => False | CoDispatch n _ => n = fuel | _ => True end.

(** ** Progress of the executor's threads *)

Section Threads.
Context (c : config) (x : ExecutorSem.sys) (Hx : Inv true x) (Hm : m_ref_count (s_mem x) < MAX_REFCOUNT).

(** The operation of a thread is not refused. *)
Lemma thread_runs i o ctr :
  next_op x i = Some o -> o <> NoFuel -> exists x', ExecutorSem.step c true (Run i ctr) x = Some x'.
Proof using Hm Hx.
  unfold next_op. destruct Hx as (gs & Ht & Hg). cbn [ExecutorSem.step].
  destruct (s_threads x !! i) as [[d [|o' k]]|] eqn:Hi; try done. intros [= ->] Hf.
  destruct (Forall2_lookup_r _ _ _ _ _ Ht Hi) as (g & Hgi & Hwp & _). cbn [th_prog Programs.wp] in Hwp.
  assert (Hr : (0 < own_of g)%nat -> 0 < m_ref_count (s_mem x)).
  { pose proof (sum_lookup own_of _ i g Hgi). destruct (gl_refs _ _ _ Hg) as [?|[?|?]]; lia. }
  unfold own_of in Hr. destruct o; try done; cbn;
    repeat match goal with |- context [if ?b then _ else _] => destruct b end; eauto.
  - destruct Hwp as (n & Hn & _). rewrite Hn in Hr. rewrite add_ok by lia. eauto.
  - rewrite sub_ok; [eauto|]. unfold MAX_REFCOUNT in Hm. widths.
    destruct Hwp as [(n & Hn & _)|(Hn & _)]; rewrite Hn in Hr; lia.
Qed.

(** Only the routine that polls is at the end of a poll. *)
Definition runs_dpc (i : nat) : Prop :=
  exists p, s_threads x !! i = Some (mkThread true p) /\ running (mkThread true p) = true.

Lemma polls_end_dpc i : next_op x i = Some PollEnd -> runs_dpc i /\ m_polling (s_mem x) = true.
Proof using Hx.
  unfold next_op. destruct Hx as (gs & Ht & Hg). destruct (s_threads x !! i) as [[d [|o k]]|] eqn:Hi; try done.
  intros [= ->]. destruct (Forall2_lookup_r _ _ _ _ _ Ht Hi) as (g & Hgi & (n & b & -> & _) & Hd).
  specialize (Hd eq_refl). cbn in Hd. subst d. split; [by exists (Vis PollEnd k)|].
  pose proof (sum_lookup (fun g => cap_poll (g_cap g)) _ i _ Hgi) as H. cbn in H.
  destruct (gl_future _ _ _ Hg eq_refl) as (_ & _ & Hp & _). destruct (m_polling _); [done|cbn in Hp; lia].
Qed.

(** During a poll a DPC routine runs. *)
Lemma polling_runs : m_polling (s_mem x) = true -> exists i, runs_dpc i.
Proof using Hx.
  destruct Hx as (gs & Ht & Hg). intros Hp. destruct (gl_future _ _ _ Hg eq_refl) as (_ & _ & Hs & _).
  rewrite Hp in Hs. cbn in Hs. clear -Ht Hs. unfold total in Hs. unfold runs_dpc.
  induction Ht as [|g t gs ts [Hwp Hd] _ IH]; [done|]. cbn [sum_list_with] in Hs.
  destruct (g_cap g) eqn:E; cbn in Hs, Hd; try (destruct IH as [i Hi]; [lia|by exists (S i)]).
  destruct t as [d p]. specialize (Hd eq_refl). cbn in Hd. subst d. exists 0%nat, p. split; [done|].
  unfold running. cbn. destruct p; [|done]. by destruct Hwp as [-> | ->].
Qed.

(** The future is there and nobody polls it when a poll or its destruction
    begins. *)
Lemma begins_idle i :
  next_op x i = Some PollBegin \/ next_op x i = Some DropFuture ->
  m_future (s_mem x) = true /\ m_polling (s_mem x) = false.
Proof using c Hx Hm.
  intros Hi. assert (exists o, next_op x i = Some o /\ o <> NoFuel /\ (o = PollBegin \/ o = DropFuture))
    as (o & Ho & Hf & Hor) by (destruct Hi as [?|?]; eauto).
  destruct (thread_runs i o (mkOracle ([], PollPending) (0, 0)) Ho Hf) as [x' Hs].
  assert (Hg : m_bad_future (s_mem x') = false) by (eapply inv_good, step_Inv; [exact Hx|exact Hm|exact Hs]).
  apply run_step in Hs as (d & o' & k & r & m' & _ & Ho' & He & ->).
  rewrite Ho in Ho'. injection Ho' as <-.
  destruct Hor as [-> | ->]; cbn in He; injection He as <- <-; cbn in Hg;
    by destruct (m_bad_future _), (m_future _), (m_polling _).
Qed.
End Threads.

(** ** Who waits for whom

    One routine of the task runs at a time, and it is the caller while it
    polls; the code of the timer future has a caller; and while a call on a
    stored waker that this code made is under way, another thread waits in it,
    so that the call does not get to the future. *)
Record order (s : co_sys) : Prop := {
  or_one : forall i j, runs_dpc (co_task s) i -> runs_dpc (co_task s) j -> i = j;
  or_polls : m_polling (s_mem (co_task s)) = true ->
    forall i, runs_dpc (co_task s) i -> co_caller s = Some i;
  or_owner : owner (co_timer s) <> None ->
    exists i, co_caller s = Some i /\ (i < length (s_threads (co_task s)))%nat;
  or_waits : busy (co_task s) (co_owner_call s) = true ->
    exists i, co_caller s = Some i /\ co_owner_call s <> Some i
      /\ (m_polling (s_mem (co_task s)) = true \/ m_future (s_mem (co_task s)) = false);
  or_range : forall j, co_owner_call s = Some j -> (j < length (s_threads (co_task s)))%nat;
  or_dpc : forall j, co_dpc_call s = Some j ->
    exists p, s_threads (co_task s) !! j = Some (mkThread false p)
}.

Lemma co_start_order b handle : order (co_start b handle).
Proof.
  split; cbn; try done. intros [|i] j (p & Hi & _); by cbn in Hi.
Qed.

(** *** Calls of the environment *)

Definition extends (es : list ExecutorSem.event) (x x' : ExecutorSem.sys) : Prop :=
  es = [] /\ x' = x
  \/ exists a n, es = [Env a] /\ x' = mkSys (upd_given n (s_mem x)) (s_threads x ++ [mkThread false (env_prog a)]).

Lemma env_extends c es x x' :
  es = [] \/ (exists a, es = [Env a]) -> ExecutorSem.run c true es x = Some x' -> extends es x x'.
Proof.
  intros [->|[a ->]] Hr; [left; by injection Hr|]. apply run_env in Hr as (n & _ & ->). right. by exists a, n.
Qed.

Lemma runs_dpc_app m ts p i x :
  s_threads x = ts -> runs_dpc (mkSys m (ts ++ [mkThread false p])) i -> runs_dpc x i.
Proof.
  intros <- (q & Hi & Hq). exists q. split; [|done]. cbn in Hi.
  by apply lookup_app_Some in Hi as [Hi|[_ Hi%list_lookup_singleton_Some]]; [|destruct Hi].
Qed.

Lemma busy_app m ts l j x :
  s_threads x = ts -> (forall i, j = Some i -> (i < length ts)%nat) -> busy (mkSys m (ts ++ l)) j = busy x j.
Proof. intros <- Hj. destruct j as [j|]; [|done]. cbn. by rewrite lookup_app_l by auto. Qed.

(** A step that only adds a call: one that the timer future made, one that
    the timer's DPC made, or another. *)
Lemma extends_order es s x' t' oc dc h hc :
  order s -> extends es (co_task s) x' -> (owner t' <> None -> owner (co_timer s) <> None) ->
  oc = co_owner_call s
  \/ oc = Some (length (s_threads (co_task s))) /\ (length (s_threads (co_task s)) < length (s_threads x'))%nat
     /\ (exists i, co_caller s = Some i /\ (i < length (s_threads (co_task s)))%nat)
     /\ (m_polling (s_mem (co_task s)) = true \/ m_future (s_mem (co_task s)) = false) ->
  dc = co_dpc_call s
  \/ dc = Some (length (s_threads (co_task s))) /\ (length (s_threads (co_task s)) < length (s_threads x'))%nat ->
  order (mkCo x' t' (co_caller s) oc dc h hc).
Proof.
  intros [O1 O2 O3 O4 O5 O6] Hex Hown Hoc Hdc.
  destruct Hex as [[_ ->]|(a & n & _ & ->)]; split; cbn [co_task co_timer co_caller co_owner_call co_dpc_call s_mem s_threads] in *.
  1-6: destruct Hoc as [->|(_ & Hl & _)]; [|lia]; destruct Hdc as [->|(_ & Hl)]; [|lia]; auto.
  - intros i j Hi Hj. apply O1; by eapply runs_dpc_app.
  - intros Hp i Hi. apply (O2 Hp). by eapply runs_dpc_app.
  - intros Ho. destruct (O3 (Hown Ho)) as (i & Hi & Hl). exists i. rewrite length_app. split; [done|lia].
  - destruct Hoc as [->|(-> & _ & (i & Hi & Hl) & Hp)].
    + rewrite (busy_app _ _ _ _ (co_task s)) by done. done.
    + intros _. exists i. split; [done|]. split; [intros [= E]; lia|done].
  - intros j Hj. rewrite length_app. destruct Hoc as [->|(-> & _)]; [specialize (O5 j Hj); lia|].
    injection Hj as <-. cbn. lia.
  - intros j Hj. destruct Hdc as [->|(-> & _)].
    + destruct (O6 j Hj) as [p Hp]. exists p. by apply lookup_app_l_Some.
    + injection Hj as <-. exists (env_prog a). by apply list_lookup_middle.
Qed.

(** A thread of the executor goes on. *)
Lemma runs_dpc_insert m' i d p' q x j :
  s_threads x !! i = Some (mkThread d q) -> running (mkThread d q) = true ->
  runs_dpc (mkSys m' (<[i := mkThread d p']> (s_threads x))) j -> runs_dpc x j.
Proof.
  intros Hi Hq (p & Hj & Hp). cbn in Hj. destruct (decide (j = i)) as [->|Hne].
  - apply list_lookup_insert_Some in Hj as [(_ & [= -> ->] & _)|[? _]]; [by exists q|done].
  - rewrite list_lookup_insert_ne in Hj by done. by exists p.
Qed.

Lemma busy_insert m' i d p' q x j :
  s_threads x !! i = Some (mkThread d q) -> running (mkThread d q) = true ->
  busy (mkSys m' (<[i := mkThread d p']> (s_threads x))) j = true -> busy x j = true.
Proof.
  intros Hi Hq. destruct j as [j|]; [|done]. cbn. destruct (decide (j = i)) as [->|Hne].
  - rewrite Hi. done.
  - by rewrite list_lookup_insert_ne by done.
Qed.

Lemma dpc_insert x i d p p' j q :
  s_threads x !! i = Some (mkThread d p) -> s_threads x !! j = Some (mkThread false q) ->
  exists q', <[i := mkThread d p']> (s_threads x) !! j = Some (mkThread false q').
Proof.
  intros Hi Hj. destruct (decide (j = i)) as [->|Hne]; [|exists q; by rewrite list_lookup_insert_ne].
  rewrite Hj in Hi. injection Hi as <- _. exists p'. apply list_lookup_insert_eq. by apply lookup_lt_Some in Hj.
Qed.

Definition calls_timer (o : op) : bool := match o with PollBegin | DropFuture => true | _ => false end.
Definition ends_poll (o : op) : bool := match o with PollEnd => true | _ => false end.

Section Order.
Context (c : config).

(** What an operation does to the flags the order depends on. *)
Lemma exec_flags o oc m r m' :
  exec c o oc m = Done (r, m') ->
  match o with
  | PollBegin => True
  | DropFuture => m_polling m' = m_polling m
  | _ => m_future m' = m_future m /\ m_polling m' = m_polling m && negb (ends_poll o)
  end.
Proof.
  intros He. destruct o; cbn in He; try done; repeat case_match; try done; injection He as _ <-; cbn;
    by rewrite ?andb_true_r, ?andb_false_r.
Qed.

Section Thread.
Context (s : co_sys) (i : nat) (d : bool) (o : op) (k : resp o -> prog unit) (p' : prog unit) (m' : task_mem).
Context (Hx : Inv true (co_task s)) (Ho : order s).
Context (Hi : s_threads (co_task s) !! i = Some (mkThread d (Vis o k))).
Abbreviation x' := (mkSys m' (<[i := mkThread d p']> (s_threads (co_task s)))).
Abbreviation after t caller :=
  (mkCo x' t caller (co_owner_call s) (co_dpc_call s) (co_handle s) (co_handle_call s)).

Lemma call_order t :
  calls_timer o = true -> m_polling (s_mem (co_task s)) = false -> m_future (s_mem (co_task s)) = true ->
  (o = DropFuture -> m_polling m' = false) -> order (after t (Some i)).
Proof using Hx Ho Hi.
  destruct Ho as [O1 O2 O3 O4 O5 O6]. intros Hc Hpo Hfu Hdrop.
  pose proof (fun j => runs_dpc_insert m' i d p' _ (co_task s) j Hi eq_refl) as Hdpc.
  split; cbn [co_task co_timer co_caller co_owner_call co_dpc_call s_mem s_threads].
  - intros a b Ha Hb. by apply O1; apply Hdpc.
  - intros Hp j Hj. f_equal. apply O1; [|by apply Hdpc]. destruct o; try done; [|by rewrite Hdrop in Hp].
    destruct Hx as (gs & Ht & _). destruct (Forall2_lookup_r _ _ _ _ _ Ht Hi) as (g & _ & (n & d' & -> & _) & Hd).
    specialize (Hd eq_refl). cbn in Hd. subst d. by exists (Vis PollBegin k).
  - intros _. exists i. rewrite length_insert. split; [done|]. by apply lookup_lt_Some in Hi.
  - intros Hb. destruct (O4 (busy_insert _ _ _ _ _ _ _ Hi eq_refl Hb)) as (_ & _ & _ & [?|?]); congruence.
  - intros j Hj. rewrite length_insert. by apply O5.
  - intros j Hj. destruct (O6 j Hj) as [q Hq]. by eapply dpc_insert.
Qed.

Lemma plain_order :
  (m_future m' = m_future (s_mem (co_task s))
   /\ m_polling m' = m_polling (s_mem (co_task s)) && negb (ends_poll o)) ->
  (busy (co_task s) (co_owner_call s) = true -> co_caller s <> Some i) ->
  order (after (co_timer s) (co_caller s)).
Proof using Hx Ho Hi.
  destruct Ho as [O1 O2 O3 O4 O5 O6]. intros [Hf Hp] Hwaits.
  pose proof (fun j => runs_dpc_insert m' i d p' _ (co_task s) j Hi eq_refl) as Hdpc.
  split; cbn [co_task co_timer co_caller co_owner_call co_dpc_call s_mem s_threads].
  - intros a b Ha Hb. by apply O1; apply Hdpc.
  - intros Hq j Hj. rewrite Hp in Hq. apply andb_true_iff in Hq as [Hq _]. by apply O2; [|apply Hdpc].
  - intros Hown. rewrite length_insert. by apply O3.
  - intros Hb. apply (busy_insert _ _ _ _ _ _ _ Hi eq_refl) in Hb.
    destruct (O4 Hb) as (j & Hj & Hne & Hor). exists j. split; [done|]. split; [done|].
    destruct Hor as [Hpo|Hfu]; [left|right; congruence]. rewrite Hp, Hpo. destruct o; try done.
    destruct (polls_end_dpc _ Hx i) as [Hr _]; [unfold next_op; by rewrite Hi|].
    by destruct (Hwaits Hb); apply O2.
  - intros j Hj. rewrite length_insert. by apply O5.
  - intros j Hj. destruct (O6 j Hj) as [q Hq]. by eapply dpc_insert.
Qed.
End Thread.

Lemma run_thread_order i ctr s s' :
  co_inv s -> m_ref_count (s_mem (co_task s)) < MAX_REFCOUNT -> order s ->
  co_step c (CoRun i ctr) s = Some s' -> order s'.
Proof.
  intros Hs Hm Hor Hstep. pose proof (ci_exec _ Hs) as Hx.
  apply co_step_split in Hstep as (x & t & Ha & Hrx & Hrt & ->).
  cbn [task_events ExecutorSem.run] in Hrx.
  destruct (ExecutorSem.step c true _ (co_task s)) as [x1|] eqn:Est; [|done]. injection Hrx as ->.
  destruct (run_step c _ _ _ _ Est) as (d & o & k & r & m' & Hi & Ho & He & ->).
  pose proof (begins_idle c _ Hx Hm i) as Hidle. pose proof (exec_flags _ _ _ _ _ He) as Hfl.
  cbn [timer_events] in Hrt. cbn [co_allowed] in Ha. cbn [co_next timer_events]. rewrite Ho in Hrt, Hidle |- *.
  destruct (calls_timer o) eqn:Hc.
  - assert (Hid : m_future (s_mem (co_task s)) = true /\ m_polling (s_mem (co_task s)) = false)
      by (apply Hidle; destruct o; try done; auto).
    destruct Hid as [Hfu Hpo]. destruct o; try done; by eapply call_order; try done; intros; congruence.
  - assert (Hwaits : busy (co_task s) (co_owner_call s) = true -> co_caller s <> Some i).
    { intros Hb E. rewrite (bool_decide_eq_true_2 _ E), Hb, orb_true_r in Ha. done. }
    destruct o; try done; cbn in Hrt; injection Hrt as <-; by eapply plain_order.
Qed.

Lemma dispatch_order fuel cpu s s' :
  co_inv s -> order s -> co_step c (CoDispatch fuel cpu) s = Some s' -> order s'.
Proof.
  intros Hs [O1 O2 O3 O4 O5 O6] Hstep. apply co_step_split in Hstep as (x & t & _ & Hrx & Hrt & ->).
  cbn in Hrt. injection Hrt as <-. cbn [task_events ExecutorSem.run ExecutorSem.step] in Hrx.
  destruct (can_dispatch true (co_task s)) eqn:Hd; [|done]. injection Hrx as <-.
  apply andb_true_iff in Hd as [_ Hd]. apply negb_true_iff in Hd.
  assert (Hidle : forall i, ~ runs_dpc (co_task s) i).
  { intros i (p & Hi & Hr). apply list_elem_of_lookup_2 in Hi.
    assert (existsb (fun t => th_dpc t && running t) (s_threads (co_task s)) = true); [|congruence].
    apply existsb_exists. exists (mkThread true p). by rewrite <- list_elem_of_In. }
  split; cbn [co_next co_task co_timer co_caller co_owner_call co_dpc_call s_mem s_threads].
  - assert (Hone : forall i, runs_dpc (mkSys (upd_queued false (s_mem (co_task s)))
        (s_threads (co_task s) ++ [mkThread true (dpc_routine fuel cpu)])) i -> i = length (s_threads (co_task s))).
    { intros i (p & Hi & Hr). cbn in Hi. apply lookup_app_Some in Hi as [Hi|[Hl Hi]]; [by destruct (Hidle i); exists p|].
      apply lookup_lt_Some in Hi. cbn in Hi. lia. }
    intros i j ->%Hone ->%Hone. done.
  - intros Hp. destruct (polling_runs _ (ci_exec _ Hs) Hp) as [i Hi]. by destruct (Hidle i).
  - intros Ho. destruct (O3 Ho) as (i & Hi & Hl). exists i. rewrite length_app. split; [done|lia].
  - by rewrite (busy_app _ _ _ _ (co_task s)).
  - intros j Hj. specialize (O5 j Hj). rewrite length_app. lia.
  - intros j Hj. destruct (O6 j Hj) as [p Hp]. exists p. by apply lookup_app_l_Some.
Qed.

(** The calls that the code of the timer future makes are made in a poll that
    has come to its end, or when the future is being dropped. *)
Lemma owner_order s s' :
  co_inv s -> order s -> co_step c CoOwner s = Some s' -> order s'.
Proof.
  intros [Hx (po & pd & Ht) _ _ Hj] Ho Hstep. apply co_step_split in Hstep as (x & t & Ha & Hrx & Hrt & ->).
  cbn [timer_events timer_run] in Hrt.
  destruct (timer_step c OwnerStep (co_timer s)) as [t'|] eqn:Et; [|done]. injection Hrt as ->.
  assert (Hown : owner (co_timer s) <> None)
    by (unfold timer_step in Et; by destruct (owner (co_timer s))).
  assert (Hes : task_events CoOwner s = [] \/ exists a, task_events CoOwner s = [Env a]).
  { cbn. unfold on_stored. destruct (_ || _); [destruct (t_waker _)|]; eauto. }
  cbn [co_next]. eapply extends_order; [done|by eapply env_extends|done| |by left].
  destruct Hes as [E|[a E]]; rewrite E in Hrx |- *; [by left|right]. apply run_env in Hrx as (n & _ & ->).
  split; [done|]. split; [cbn; rewrite length_app; cbn; lia|]. split; [by apply (or_owner _ Ho)|].
  cbn [task_events] in E. destruct (at_store (co_timer s)) eqn:Hst.
  - left. apply (jo_poll _ Hj). unfold at_store, in_poll in *. rewrite (tv_owner _ _ _ Ht) in *. by destruct po.
  - destruct (owner_at_free (co_timer s)) eqn:Hfr; [|done]. right.
    assert (Hd : dropped (co_timer s) = true).
    { unfold owner_at_free in Hfr. rewrite (tv_owner _ _ _ Ht) in Hfr. rewrite (tv_dropped _ _ _ Ht). by destruct po. }
    rewrite (jo_alive _ Hj) in Hd. by destruct (m_future _).
Qed.

Lemma timer_dpc_order s s' : order s -> co_step c CoTimerDpc s = Some s' -> order s'.
Proof.
  intros Ho Hstep. apply co_step_split in Hstep as (x & t & Ha & Hrx & Hrt & ->).
  cbn [timer_events timer_run] in Hrt.
  destruct (timer_step c DpcStep (co_timer s)) as [t'|] eqn:Et; [|done]. injection Hrt as ->.
  assert (Hown : owner t = owner (co_timer s)).
  { unfold timer_step in Et. destruct (dpc _) as [[|o k]|]; try done. destruct (timer_exec c o _). by injection Et as <-. }
  assert (Hes : task_events CoTimerDpc s = [] \/ exists a, task_events CoTimerDpc s = [Env a]).
  { cbn. unfold on_stored. destruct (dpc_at_wake (co_timer s)), (dpc_at_free (co_timer s)), (t_waker (tm (co_timer s))); eauto. }
  cbn [co_next]. eapply extends_order; [done|by eapply env_extends|by rewrite Hown|by left|].
  destruct Hes as [E|[a E]]; rewrite E in Hrx |- *; [by left|right]. apply run_env in Hrx as (n & _ & ->).
  split; [done|]. cbn. rewrite length_app. cbn. lia.
Qed.

Lemma quiet_order e s s' :
  order s -> match e with CoHandle _ | CoExpire | CoTimerDispatch => True | _ => False end ->
  co_step c e s = Some s' -> order s'.
Proof.
  intros Ho He Hstep. apply co_step_split in Hstep as (x & t & _ & Hrx & Hrt & ->).
  assert (Hex : extends (task_events e s) (co_task s) x) by (eapply env_extends; [|exact Hrx]; destruct e; try done; cbn; eauto).
  destruct e; try done; cbn [co_next]; eapply extends_order; eauto; cbn in Hrt;
    repeat case_match; by simplify_eq/=.
Qed.

Lemma co_step_order e s s' :
  co_inv s -> m_ref_count (s_mem (co_task s)) < MAX_REFCOUNT -> order s -> co_step c e s = Some s' -> order s'.
Proof.
  destruct e; eauto using run_thread_order, dispatch_order, owner_order, timer_dpc_order;
    intros _ _ Ho; by apply quiet_order.
Qed.

Lemma co_run_order es s s' :
  co_inv s -> order s -> co_within c es s -> co_run c es s = Some s' ->
  order s' /\ m_ref_count (s_mem (co_task s')) < MAX_REFCOUNT.
Proof.
  revert s. induction es as [|e es IH]; intros s Hs Ho [Hm Hw] Hr; cbn in Hr; [by injection Hr as <-|].
  destruct (co_step c e s) as [s1|] eqn:E; [|done].
  apply (IH s1); [by eapply co_step_inv|by eapply co_step_order|done..].
Qed.
End Order.

(** *** References on their way

    The references that have been taken and are still to be handed out: that
    of the handle, by the spawning thread or by a call on the handle; that of
    the waker in the block, by the call of the timer's DPC; and that of the
    clone a poll will store. *)

Lemma gives_unique {B : Type} n m (p : prog B) : gives n p -> gives m p -> n = m.
Proof.
  revert n m. induction p as [a|o k IH]; intros n m; [by intros -> ->|].
  destruct o; cbn; intros Hn Hm;
    try (by first [eapply (IH 0)|eapply (IH tt)|eapply (IH true)|eapply (IH (0, 0))]).
  - by destruct Hn as [-> _], Hm as [-> _].
  - by destruct Hn as [-> _], Hm as [-> _].
  - destruct n, m; try done. f_equal. by eapply (IH tt).
  - congruence.
Qed.

Lemma idle_gives x j d p n :
  busy x (Some j) = false -> s_threads x !! j = Some (mkThread d p) -> gives n p -> n = 0%nat.
Proof. cbn. intros Hb Hj. rewrite Hj in Hb. by destruct p. Qed.

Definition entitled (s : co_sys) (j : nat) : Prop :=
  co_handle s = true /\ (j = 0%nat \/ co_handle_call s = Some j)
  \/ co_dpc_call s = Some j /\ dpc (co_timer s) = Some (timer_release (PRet 0))
  \/ co_caller s = Some j /\ at_store (co_timer s) = true.

Record debts (s : co_sys) : Prop := {
  db_entitled : forall j d p n,
    s_threads (co_task s) !! j = Some (mkThread d p) -> gives (S n) p -> n = 0%nat /\ entitled s j;
  db_handle : co_handle_call s <> None -> busy (co_task s) (Some 0%nat) = false;
  db_some : (0 < length (s_threads (co_task s)))%nat
}.

Lemma co_start_debts b handle : debts (co_start b handle).
Proof.
  split; cbn; [|done|lia]. intros [|j] d p n Hj Hg; [|done]. injection Hj as <- <-.
  pose proof (gives_unique _ _ _ Hg (gives_spawn handle)) as E. destruct handle; [|done].
  injection E as ->. split; [done|]. left. auto.
Qed.

(** A step that only adds a call. *)
Lemma extends_debts es s s' :
  debts s -> extends es (co_task s) (co_task s') ->
  (forall j d p, s_threads (co_task s) !! j = Some (mkThread d p) -> gives 1 p -> entitled s j -> entitled s' j) ->
  (forall a, es = [Env a] ->
     env_gives a = 0%nat \/ env_gives a = 1%nat /\ entitled s' (length (s_threads (co_task s)))) ->
  (co_handle_call s' <> None -> busy (co_task s) (Some 0%nat) = false) -> debts s'.
Proof.
  intros [D1 D2 D3] Hex Hold Hnew Hh.
  assert (Hkeep : forall j d p n, s_threads (co_task s) !! j = Some (mkThread d p) -> gives (S n) p ->
    n = 0%nat /\ entitled s' j).
  { intros j d p n Hj Hg. destruct (D1 j d p n Hj Hg) as [-> He]. split; [done|]. by eapply Hold. }
  destruct Hex as [[_ Ex]|(a & n & He & Ex)].
  - split; rewrite Ex; auto.
  - destruct (Hnew a He) as [Ha|[Ha Hen]]; split; rewrite Ex; cbn [s_threads];
      try (by intros ?; rewrite (busy_app _ _ _ _ (co_task s)); [auto|done|intros ? [= <-]]);
      try (rewrite length_app; lia);
      intros j d p m Hj Hg; apply lookup_app_Some in Hj as [Hj|[Hl Hj]]; eauto;
      apply list_lookup_singleton_Some in Hj as [Hj [= <- <-]];
      pose proof (gives_unique _ _ _ Hg (gives_env a)) as E; rewrite Ha in E; [done|injection E as ->].
    split; [done|]. by replace j with (length (s_threads (co_task s))) by lia.
Qed.

Section Debts.
Context (c : config).

Lemma run_thread_debts i ctr s s' :
  co_inv s -> debts s -> co_step c (CoRun i ctr) s = Some s' -> debts s'.
Proof.
  intros Hs [D1 D2 D3] Hstep. apply co_step_split in Hstep as (x & t & Ha & Hrx & Hrt & ->).
  cbn [task_events ExecutorSem.run] in Hrx.
  destruct (ExecutorSem.step c true _ (co_task s)) as [x1|] eqn:Est; [|done]. injection Hrx as ->.
  destruct (run_step c _ _ _ _ Est) as (d & o & k & r & m' & Hi & Ho & He & ->).
  destruct (ci_joint _ Hs) as [_ _ _ _ _ _ (ns & Hns & _) _].
  destruct (Forall2_lookup_r _ _ _ _ _ Hns Hi) as (m & _ & Hm). cbn [th_prog] in Hm.
  split; [| |cbn; by rewrite length_insert].
  2: { cbn [co_next co_task co_handle_call]. intros Hh. apply not_true_iff_false. intros Hb.
       apply (busy_insert _ _ _ _ _ _ _ Hi eq_refl) in Hb. by rewrite D2 in Hb. }
  intros j d' p n Hj Hg. cbn [co_next co_task s_threads] in Hj.
  (* threads that have not moved, and the step's own thread unless it polls *)
  assert (Hent : forall q n', s_threads (co_task s) !! j = Some q -> gives (S n') (th_prog q) ->
    n' = 0%nat /\ entitled (co_next (CoRun i ctr) s
      (mkSys m' (<[i := mkThread d (k r)]> (s_threads (co_task s)))) t) j).
  { intros [d0 q] n' Hq Hgq. destruct (D1 j d0 q n' Hq Hgq) as [-> Hen]. split; [done|].
    unfold entitled in *. cbn [co_next co_handle co_handle_call co_dpc_call co_caller co_timer].
    cbn [timer_events] in Hrt |- *. rewrite Ho in Hrt |- *. destruct (calls_timer o) eqn:Hc.
    - assert (Hdo : owner (co_timer s) = None /\ dpc t = dpc (co_timer s)).
      { destruct o; try done.
        - destruct (poll_begin_effect c _ _ (ci_sane _ Hs) Hrt) as [B1 _ (_ & _ & B5) _ _ _]. done.
        - apply drop_begin_effect in Hrt as [Hown ->]. done. }
      destruct Hdo as [Hown Hdpc]. rewrite Hdpc.
      destruct Hen as [?|[?|[_ Hst]]]; auto. unfold at_store in Hst. by rewrite Hown in Hst.
    - destruct o; try done; cbn in Hrt; injection Hrt as <-; auto. }
  destruct (decide (j = i)) as [->|Hne].
  2: { rewrite list_lookup_insert_ne in Hj by done. by eapply Hent. }
  rewrite list_lookup_insert_eq in Hj by (by eapply lookup_lt_Some). injection Hj as <- <-.
  destruct o; cbn in Hm; try (pose proof (gives_unique _ _ _ Hg (Hm r)) as <-; by eapply (Hent _ n Hi)); try done.
  - (* PollBegin *) destruct Hm as (-> & H1 & H2). cbn in He. injection He as <- <-. clear Hent.
    unfold timer_answer in Hg. unfold entitled. cbn [co_next co_caller co_timer timer_events] in *. rewrite Ho in *.
    destruct (poll_begin_effect c _ _ (ci_sane _ Hs) Hrt) as [_ _ _ _ B7 _]. destruct (_ =? 0).
    + pose proof (gives_unique _ _ _ Hg H2) as [= ->]. destruct B7 as (_ & Hfl & _). unfold in_flight in Hfl.
      split; [done|]. right; right. split; [done|]. by destruct (at_store t).
    + by pose proof (gives_unique _ _ _ Hg H1).
  - (* PollEnd *) destruct Hm as (-> & H1). destruct r. by pose proof (gives_unique _ _ _ Hg H1).
  - (* GiveWaker *) destruct m as [|m]; [done|]. destruct r.
    pose proof (gives_unique _ _ _ Hg Hm) as <-. by destruct (D1 i d _ (S n) Hi Hm).
Qed.

Lemma dispatch_debts fuel cpu s s' :
  debts s -> co_step c (CoDispatch fuel cpu) s = Some s' -> debts s'.
Proof.
  intros [D1 D2 D3] Hstep. apply co_step_split in Hstep as (x & t & _ & Hrx & Hrt & ->).
  cbn in Hrt. injection Hrt as <-. cbn [task_events ExecutorSem.run ExecutorSem.step] in Hrx.
  destruct (can_dispatch true (co_task s)); [|done]. injection Hrx as <-.
  split; cbn [co_next co_task co_handle_call s_threads].
  - intros j d p n Hj Hg. apply lookup_app_Some in Hj as [Hj|[_ Hj]]; [by eapply D1|].
    apply list_lookup_singleton_Some in Hj as [_ [= <- <-]].
    by pose proof (gives_unique _ _ _ Hg (gives_dpc_routine fuel cpu)).
  - intros Hh. rewrite (busy_app _ _ _ _ (co_task s)); [auto|done|by intros ? [= <-]].
  - rewrite length_app. lia.
Qed.

Lemma handle_debts a s s' : debts s -> co_step c (CoHandle a) s = Some s' -> debts s'.
Proof.
  intros Hd Hstep. apply co_step_split in Hstep as (x & t & Ha & Hrx & Hrt & ->).
  cbn in Hrt. injection Hrt as <-. cbn [co_allowed] in Ha.
  apply andb_true_iff in Ha as [Ha Hb2]. apply andb_true_iff in Ha as [Ha Hb1].
  apply andb_true_iff in Ha as [Ha Hh]. apply negb_true_iff in Hb1, Hb2.
  eapply extends_debts; [done|eapply env_extends; [|exact Hrx]; cbn; eauto| | |done].
  - intros j d p Hj Hg [[_ Hr]|Hr].
    + exfalso. destruct Hr as [->|Hr]; [by pose proof (idle_gives _ _ _ _ _ Hb1 Hj Hg)|].
      rewrite Hr in Hb2. by pose proof (idle_gives _ _ _ _ _ Hb2 Hj Hg).
    + right. cbn [co_next co_dpc_call co_timer co_caller]. exact Hr.
  - intros a' [= <-]. destruct a; try discriminate Ha; cbn; auto; right; (split; [done|]); left; cbn; auto.
Qed.

Lemma owner_debts s s' : co_inv s -> debts s -> co_step c CoOwner s = Some s' -> debts s'.
Proof.
  intros Hs Hd Hstep. pose proof Hs as [Hx (po & pd & Ht) _ _ [_ _ _ _ _ _ (ns & Hns & _) _]].
  apply co_step_split in Hstep as (x & t & Ha & Hrx & Hrt & ->).
  cbn [timer_events timer_run] in Hrt.
  destruct (timer_step c OwnerStep (co_timer s)) as [t'|] eqn:Et; [|done]. injection Hrt as ->.
  assert (Hdpc : dpc t = dpc (co_timer s)).
  { unfold timer_step in Et. destruct (owner _) as [[call [|o k]]|]; try done. destruct (timer_exec c o _) as [r m].
    injection Et as <-. unfold settle. by destruct (k r). }
  assert (Hes : task_events CoOwner s = [] \/ task_events CoOwner s = [Env EnvDropWaker]).
  { cbn. unfold on_stored. destruct (_ || _); [destruct (t_waker _)|]; auto. }
  eapply extends_debts; [done|eapply env_extends; [|exact Hrx]; destruct Hes; eauto| | |apply Hd].
  - intros j d p Hj Hg [Hr|[Hr|[Hc Hst]]]; [by left|right; left; cbn; by rewrite Hdpc|exfalso].
    cbn [co_allowed] in Ha. rewrite Hst, Hc in Ha. apply andb_true_iff in Ha as [_ Ha]. cbn in Ha.
    apply andb_true_iff in Ha as [Ha _]. unfold next_op in Ha. rewrite Hj in Ha. destruct p as [|[] ?]; try done.
    destruct Hg; done.
  - intros a E. left. destruct Hes as [Hes|Hes]; rewrite Hes in E; by simplify_eq.
Qed.

Lemma timer_dpc_debts s s' : co_inv s -> debts s -> co_step c CoTimerDpc s = Some s' -> debts s'.
Proof.
  intros [_ (po & pd & Ht) _ _ _] Hd Hstep. apply co_step_split in Hstep as (x & t & Ha & Hrx & Hrt & ->).
  cbn [timer_events timer_run] in Hrt. cbn [co_allowed] in Ha. apply andb_true_iff in Ha as [Ha _].
  apply negb_true_iff in Ha.
  destruct (timer_step c DpcStep (co_timer s)) as [t'|] eqn:Et; [|done]. injection Hrt as ->.
  assert (Hes : task_events CoTimerDpc s = []
    \/ task_events CoTimerDpc s = [Env EnvWakeByRef] /\ dpc_at_wake (co_timer s) = true
    \/ task_events CoTimerDpc s = [Env EnvDropWaker]).
  { cbn. unfold on_stored. destruct (dpc_at_wake (co_timer s)), (dpc_at_free (co_timer s)), (t_waker (tm (co_timer s))); auto. }
  unfold timer_step in Et. pose proof (tv_dpc _ _ _ Ht) as Hpd.
  eapply extends_debts; [done|eapply env_extends; [|exact Hrx]; destruct Hes as [?|[[? _]|?]]; eauto| | |apply Hd].
  - intros j d p Hj Hg [Hr|[[Hc _]|[Hc Hst]]]; [by left|exfalso|].
    + rewrite Hc in Ha. by pose proof (idle_gives _ _ _ _ _ Ha Hj Hg).
    + right; right. cbn [co_next co_caller co_timer]. split; [done|]. unfold at_store in *.
      destruct (dpc (co_timer s)) as [[|o k]|]; try done. destruct (timer_exec c o _). by injection Et as <-.
  - intros a E. destruct Hes as [Hes|[[Hes Hw]|Hes]]; rewrite Hes in E; simplify_eq; [right|by left].
    split; [done|]. right; left. cbn [co_next co_dpc_call co_timer]. unfold new_call. rewrite Hes. split; [done|].
    unfold dpc_at_wake in Hw. rewrite Hpd in Hw, Et. destruct pd; try done. cbn in Et. by injection Et as <-.
Qed.

Lemma co_step_debts e s s' : co_inv s -> debts s -> co_step c e s = Some s' -> debts s'.
Proof.
  intros Hs Hd Hstep.
  destruct e; eauto using run_thread_debts, dispatch_debts, handle_debts, owner_debts, timer_dpc_debts.
  all: apply co_step_split in Hstep as (x & t & _ & Hrx & Hrt & ->); cbn in Hrx; injection Hrx as <-.
  all: eapply extends_debts; [done|by left|intros j d p _ _|done|apply Hd]; unfold entitled, at_store;
    cbn [co_next co_handle co_handle_call co_dpc_call co_caller co_timer].
  - cbn in Hrt. destruct (t_set _); [|done]. injection Hrt as <-. done.
  - cbn in Hrt. destruct (t_queued _); [|done]. destruct (dpc (co_timer s)) eqn:Hp; [done|]. injection Hrt as <-.
    intros [?|[[_ ?]|?]]; auto; done.
Qed.

Lemma co_run_debts es s s' :
  co_inv s -> debts s -> co_within c es s -> co_run c es s = Some s' -> debts s'.
Proof.
  revert s. induction es as [|e es IH]; intros s Hs Hd [Hm Hw] Hr; cbn in Hr; [by injection Hr as <-|].
  destruct (co_step c e s) as [s1|] eqn:E; [|done].
  apply (IH s1); [by eapply co_step_inv|by eapply co_step_debts|done..].
Qed.
End Debts.

Lemma sum_list_bound ns l :
  (forall j n, ns !! j = Some (S n) -> n = 0%nat /\ j ∈ l) -> (sum_list ns <= length l)%nat.
Proof.
  revert ns. induction l as [|a l IH]; intros ns Hns.
  - assert (sum_list ns = 0%nat); [|cbn; lia]. induction ns as [|m ns IHn]; [done|]. cbn.
    destruct m; [|by destruct (Hns 0%nat m eq_refl) as [_ ?%not_elem_of_nil]].
    apply IHn. intros j n Hj. by destruct (Hns (S j) n Hj) as [_ ?%not_elem_of_nil].
  - destruct (ns !! a) as [m|] eqn:Ha.
    + assert (Hm : (m <= 1)%nat) by (destruct m as [|m]; [lia|]; destruct (Hns a m Ha) as [-> _]; lia).
      pose proof (sum_list_insert ns a m 0 Ha) as Hs. specialize (IH (<[a := 0%nat]> ns)).
      cbn [length]. assert (sum_list (<[a := 0%nat]> ns) <= length l)%nat; [apply IH|lia].
      intros j n Hj. destruct (decide (j = a)) as [->|Hne].
      * rewrite list_lookup_insert_eq in Hj by (by eapply lookup_lt_Some). done.
      * rewrite list_lookup_insert_ne in Hj by done. destruct (Hns j n Hj) as [-> Hin].
        split; [done|]. by apply elem_of_cons in Hin as [?|?].
    + cbn [length]. assert (sum_list ns <= length l)%nat; [apply IH|lia].
      intros j n Hj. destruct (Hns j n Hj) as [-> Hin]. split; [done|].
      apply elem_of_cons in Hin as [->|?]; [congruence|done].
Qed.

(** The reference of the waker in the block is with the environment, unless
    the DPC's call has it. *)
Lemma stored_given s :
  co_inv s -> debts s ->
  busy (co_task s) (co_dpc_call s) = false \/ dpc (co_timer s) <> Some (timer_release (PRet 0)) ->
  (slot (co_timer s) <= m_given (s_mem (co_task s)))%nat.
Proof.
  intros Hs [D1 D2 _] Hc. destruct (ci_joint _ Hs) as [_ _ _ _ _ _ (ns & Hns & Hsum) _].
  set (h := match co_handle_call s with Some j => j | None => 0%nat end).
  assert (sum_list ns <= length ((if co_handle s then [h] else [])
    ++ (if at_store (co_timer s) then option_list (co_caller s) else [])))%nat as Hb.
  { apply sum_list_bound. intros j n Hj. destruct (Forall2_lookup_l _ _ _ _ _ Hns Hj) as ([d p] & Hp & Hg).
    cbn [th_prog] in Hg. destruct (D1 j d p n Hp Hg) as [-> Hen]. split; [done|]. apply elem_of_app.
    destruct Hen as [[-> Hr]|[[Hd Hr]|[-> ->]]]; [left|exfalso|right; by left].
    - apply list_elem_of_singleton. unfold h. destruct Hr as [->|Hr]; [|by rewrite Hr].
      destruct (co_handle_call s); [|done]. specialize (D2 ltac:(done)). by pose proof (idle_gives _ _ _ _ _ D2 Hp Hg).
    - destruct Hc as [Hc|Hc]; [|done]. rewrite Hd in Hc. by pose proof (idle_gives _ _ _ _ _ Hc Hp Hg). }
  rewrite length_app in Hb. unfold in_flight in Hsum.
  assert (length (if co_handle s then [h] else []) <= Nat.b2n (co_handle s))%nat by (by destruct (co_handle s)).
  assert (length (if at_store (co_timer s) then option_list (co_caller s) else []) <= Nat.b2n (at_store (co_timer s)))%nat
    by (destruct (at_store _), (co_caller s); cbn; lia).
  lia.
Qed.

(** ** The product goes on *)

Lemma owner_steps c t po pd :
  timer_inv t po pd -> owner t <> None -> exists t', timer_step c OwnerStep t = Some t'.
Proof.
  intros Ht Hown. pose proof (tv_owner _ _ _ Ht) as E. unfold timer_step.
  destruct (owner t) as [[call [r|o k]]|]; [by destruct po| |done]. destruct (timer_exec c o (tm t)). eauto.
Qed.

Lemma dpc_steps c t po pd :
  timer_inv t po pd -> dpc t <> None -> exists t', timer_step c DpcStep t = Some t'.
Proof.
  intros Ht Hd. pose proof (tv_dpc _ _ _ Ht) as E. unfold timer_step.
  destruct (dpc t) as [[r|o k]|]; [by destruct pd| |done]. destruct (timer_exec c o (tm t)). eauto.
Qed.

Section Progress.
Context (c : config) (s : co_sys).
Context (Hs : co_inv s) (Ho : order s) (Hd : debts s).
Context (Hm : m_ref_count (s_mem (co_task s)) < MAX_REFCOUNT).

Abbreviation goes e := (exists s', co_step c e s = Some s').

Lemma step_goes e x t :
  co_allowed e s = true -> ExecutorSem.run c true (task_events e s) (co_task s) = Some x ->
  timer_run c (timer_events e s) (co_timer s) = Some t -> goes e.
Proof. intros Ha Hx Ht. unfold co_step. rewrite Ha, Hx, Ht. eauto. Qed.

Lemma thread_goes i o :
  next_op (co_task s) i = Some o -> o <> NoFuel ->
  (co_caller s = Some i -> in_drop_call (co_timer s) = false /\ busy (co_task s) (co_owner_call s) = false) ->
  (o = PollEnd -> in_poll (co_timer s) = false) ->
  (calls_timer o = true -> owner (co_timer s) = None) -> goes (CoRun i (0, 0)).
Proof using Hs Hm.
  intros Hi Hf Hc Hend Hcall. pose proof (ci_exec _ Hs) as Hx.
  destruct (thread_runs c _ Hx Hm i o (mkOracle (timer_answer (co_timer s)) (0, 0)) Hi Hf) as [x Hst].
  assert (Hrx : ExecutorSem.run c true (task_events (CoRun i (0, 0)) s) (co_task s) = Some x)
    by (cbn [task_events ExecutorSem.run]; by rewrite Hst).
  assert (Hrt : exists t, timer_run c (timer_events (CoRun i (0, 0)) s) (co_timer s) = Some t).
  { cbn [timer_events]. rewrite Hi. destruct (calls_timer o) eqn:E; [|destruct o; try done; by eexists].
    assert (Hfu : m_future (s_mem (co_task s)) = true)
      by (apply (begins_idle c _ Hx Hm i); rewrite Hi; destruct o; auto; done).
    pose proof (jo_alive _ (ci_joint _ Hs)) as Hdr. rewrite Hfu in Hdr. cbn in Hdr.
    destruct o; try done; cbn; rewrite (Hcall eq_refl), Hdr; cbn; eauto. }
  destruct Hrt as [t Hrt]. apply (step_goes _ x t); [|done..]. cbn [co_allowed]. rewrite Hi.
  apply andb_true_iff. split; apply negb_true_iff.
  - destruct (bool_decide_reflect (co_caller s = Some i)) as [E|]; [|done]. by destruct (Hc E) as [-> ->].
  - destruct o; try done. by rewrite Hend.
Qed.

Lemma stored_runs a :
  t_freed (tm (co_timer s)) = false -> (slot (co_timer s) <= m_given (s_mem (co_task s)))%nat ->
  exists x, ExecutorSem.run c true (on_stored a (co_timer s)) (co_task s) = Some x.
Proof.
  intros Hf Hg. destruct (stored_slot a _ Hf) as [[-> Hl]|[-> _]]; [|by eexists].
  cbn. rewrite Hl in Hg. destruct (m_given _); [lia|by eexists].
Qed.

(** The code of the timer future is not kept from running: its calls are
    under way, or it waits for the routine to come to the end of its poll, or
    for the timer's DPC to leave the lock. *)
Lemma owner_goes :
  owner (co_timer s) <> None -> busy (co_task s) (co_owner_call s) = false ->
  (at_store (co_timer s) = true -> busy (co_task s) (co_dpc_call s) = false
     /\ exists i, co_caller s = Some i /\ next_op (co_task s) i = Some PollEnd) -> goes CoOwner.
Proof using Hs Hd.
  intros Hown Hb Hst. destruct Hs as [_ (po & pd & Ht) Hw Hsn Hj].
  destruct (owner_steps c _ po pd Ht Hown) as [t' Et]. pose proof (owner_step_effect c _ t' po pd Ht Hw Hsn (dropped_ready s Hs) Et) as He.
  assert (Hrx : exists x, ExecutorSem.run c true (task_events CoOwner s) (co_task s) = Some x).
  { cbn [task_events]. destruct (at_store (co_timer s)) eqn:Hat; [|destruct (owner_at_free (co_timer s)) eqn:Hfr];
      cbn [orb]; [| |by eexists].
    - apply stored_runs; [apply He; by left|]. apply stored_given; [done..|left]. by apply Hst.
    - apply stored_runs; [apply He; by right|]. apply stored_given; [done..|right].
      unfold owner_at_free in Hfr. rewrite (tv_owner _ _ _ Ht) in Hfr. rewrite (tv_dpc _ _ _ Ht).
      pose proof (tv_free _ _ _ Ht) as Hf. pose proof (tv_count _ _ _ Ht) as Hcnt. unfold frees, timer_refs in *.
      pose proof (b2z_range (t_freed (tm (co_timer s)))). pose proof (b2z_range (t_set (tm (co_timer s)))).
      pose proof (b2z_range (t_queued (tm (co_timer s)))). pose proof (owner_range po).
      destruct (Z.eqb_spec (t_ref_count (tm (co_timer s))) 0); destruct po, pd; cbn in *; try done; lia. }
  destruct Hrx as [x Hrx]. apply (step_goes _ x t'); [|done|cbn [timer_events timer_run]; by rewrite Et]. cbn [co_allowed]. rewrite Hb.
  destruct (at_store _); [|done]. destruct (Hst eq_refl) as [-> (i & -> & ->)]. done.
Qed.

Lemma timer_dpc_goes :
  dpc (co_timer s) <> None -> busy (co_task s) (co_owner_call s) = false ->
  busy (co_task s) (co_dpc_call s) = false -> goes CoTimerDpc.
Proof using Hs Hd.
  intros Hp Hb Hb'. destruct Hs as [_ (po & pd & Ht) Hw Hsn Hj].
  destruct (dpc_steps c _ po pd Ht Hp) as [t' Et]. pose proof (dpc_step_effect c _ t' po pd Ht Hw Hsn Et) as He.
  assert (Hgiven := stored_given s Hs Hd (or_introl Hb')).
  assert (Hrx : exists x, ExecutorSem.run c true (task_events CoTimerDpc s) (co_task s) = Some x).
  { cbn [task_events]. destruct (dpc_at_wake (co_timer s)) eqn:Hwk; [|destruct (dpc_at_free (co_timer s)) eqn:Hfr];
      [| |by eexists]; (apply stored_runs; [|done]); [|by apply He].
    pose proof (de_at_wake _ _ He Hwk) as Hsl. unfold slot in Hsl. by destruct (t_waker _), (t_freed _). }
  destruct Hrx as [x Hrx]. apply (step_goes _ x t'); [|done|cbn [timer_events timer_run]; by rewrite Et]. cbn [co_allowed].
  by rewrite Hb, Hb', andb_false_r.
Qed.

Lemma busy_runs j : busy (co_task s) (Some j) = true ->
  exists d o k, s_threads (co_task s) !! j = Some (mkThread d (Vis o k)) /\ next_op (co_task s) j = Some o.
Proof.
  unfold busy, next_op. destruct (s_threads (co_task s) !! j) as [[d [|o k]]|]; try done. eauto.
Qed.

Lemma poll_excludes i o :
  m_polling (s_mem (co_task s)) = true \/ m_future (s_mem (co_task s)) = false ->
  next_op (co_task s) i = Some o -> calls_timer o = true -> owner (co_timer s) = None.
Proof using Hs Hm c.
  intros Hp Hi Hc. destruct (begins_idle c _ (ci_exec _ Hs) Hm i) as [H1 H2]; [rewrite Hi; destruct o; auto; done|].
  destruct Hp; congruence.
Qed.

Context (Hfuel : forall i, next_op (co_task s) i <> Some NoFuel).

Lemma owner_call_goes j :
  co_owner_call s = Some j -> busy (co_task s) (Some j) = true -> exists i, goes (CoRun i (0, 0)).
Proof using Hs Ho Hm Hfuel.
  intros Ej Hb. destruct (or_waits _ Ho) as (i & Hi & Hne & Hp); [by rewrite Ej|]. rewrite Ej in Hne.
  destruct (busy_runs j Hb) as (d & o & k & Hj & Hn). exists j.
  apply (thread_goes j o); [done|by intros ->; destruct (Hfuel j)|congruence| |by eapply poll_excludes].
  intros ->. destruct (polls_end_dpc _ (ci_exec _ Hs) j Hn) as [Hr Hpo].
  pose proof (or_polls _ Ho Hpo j Hr). congruence.
Qed.

(** Before the waker is stored, the routine comes to the end of its poll and
    the DPC's call returns. *)
Lemma store_goes :
  at_store (co_timer s) = true -> busy (co_task s) (co_owner_call s) = false ->
  goes CoOwner \/ exists i, goes (CoRun i (0, 0)).
Proof using Hs Ho Hd Hm Hfuel.
  intros Hst Hb. pose proof (ci_exec _ Hs) as Hx.
  assert (Hin : in_poll (co_timer s) = true /\ in_drop_call (co_timer s) = false).
  { destruct (ci_timer _ Hs) as (po & pd & Ht). unfold at_store, in_poll, in_drop_call in *.
    rewrite (tv_owner _ _ _ Ht) in *. by destruct po. }
  destruct Hin as [Hin Hdr]. destruct (jo_poll _ (ci_joint _ Hs) Hin) as [Hpo _].
  destruct (polling_runs _ Hx Hpo) as [i Hr]. pose proof (or_polls _ Ho Hpo i Hr) as Hc.
  destruct Hr as ([|o k] & Hi & Hr); [done|].
  assert (Hn : next_op (co_task s) i = Some o) by (unfold next_op; by rewrite Hi).
  destruct (ends_poll o) eqn:He.
  2: { right. exists i. apply (thread_goes i o); [done|by intros ->; destruct (Hfuel i)|done|by intros ->|].
       eapply poll_excludes; eauto. }
  destruct o; try done. destruct (busy (co_task s) (co_dpc_call s)) eqn:Hb'.
  - right. destruct (co_dpc_call s) as [j|] eqn:Ej; [|done]. destruct (or_dpc _ Ho j Ej) as [p Hp].
    destruct (busy_runs j Hb') as (d' & o' & k' & Hj & Hn'). exists j.
    apply (thread_goes j o'); [done|by intros ->; destruct (Hfuel j)|done| |eapply poll_excludes; eauto].
    intros ->. destruct (polls_end_dpc _ Hx j Hn') as [(q & Hq & _) _]. congruence.
  - left. apply owner_goes; [|done|by eauto]. unfold at_store in Hst. by destruct (owner _).
Qed.

Lemma threads_go :
  owner (co_timer s) = None -> busy (co_task s) (co_owner_call s) = false ->
  quiescent (co_task s) \/ exists i, goes (CoRun i (0, 0)).
Proof using Hs Hm Hfuel.
  intros Hown Hb. destruct (decide (Forall (fun t => running t = false) (s_threads (co_task s)))) as [Hq|Hq]; [by left|right].
  apply not_Forall_Exists in Hq; [|solve_decision]. apply Exists_exists in Hq as (t & Hin & Hr).
  apply list_elem_of_In, list_elem_of_lookup in Hin as [i Hi].
  destruct (busy_runs i) as (d & o & k & Hj & Hn); [unfold busy; rewrite Hi; by apply not_false_iff_true|].
  exists i. unfold in_drop_call, in_poll in *.
  apply (thread_goes i o); [done|by intros ->; destruct (Hfuel i)|..]; unfold in_drop_call, in_poll; by rewrite Hown.
Qed.

(** Nobody waits for ever: unless everything is at rest, some event other
    than a call of the client can happen. *)
Lemma co_goes_on fuel : at_rest s \/ exists e, internal fuel e /\ goes e.
Proof using Hs Ho Hd Hm Hfuel.
  assert (Hgo : forall e, internal fuel e -> goes e -> at_rest s \/ exists e, internal fuel e /\ goes e) by eauto.
  destruct (busy (co_task s) (co_owner_call s)) eqn:Hb.
  { destruct (co_owner_call s) as [j|] eqn:Ej; [|done]. destruct (owner_call_goes j Ej Hb) as [i ?]. by apply (Hgo (CoRun i (0, 0))). }
  destruct (owner (co_timer s)) as [ow|] eqn:Hown.
  { destruct (at_store (co_timer s)) eqn:Hst.
    - destruct (store_goes Hst Hb) as [?|[i ?]]; [by apply (Hgo CoOwner)|by apply (Hgo (CoRun i (0, 0)))].
    - apply (Hgo CoOwner); [done|]. apply owner_goes; [congruence|done|congruence]. }
  destruct (threads_go Hown Hb) as [Hq|[i ?]]; [|by apply (Hgo (CoRun i (0, 0)))].
  assert (Hidle : forall j, busy (co_task s) j = false).
  { intros [j|]; [|done]. cbn. destruct (s_threads (co_task s) !! j) as [t|] eqn:Hj; [|done].
    exact (Forall_lookup_1 _ _ _ _ Hq Hj). }
  destruct (m_queued (s_mem (co_task s))) eqn:Hqd.
  { apply (Hgo (CoDispatch fuel None)); [done|]. eapply step_goes; [done| |done].
    cbn [task_events ExecutorSem.run ExecutorSem.step]. unfold can_dispatch. by rewrite Hqd, quiescent_idle. }
  destruct (dpc (co_timer s)) as [p|] eqn:Hp; [apply (Hgo CoTimerDpc); [done|]; apply timer_dpc_goes; auto; congruence|].
  destruct (t_set (tm (co_timer s))) eqn:Hset.
  { apply (Hgo CoExpire); [done|]. eapply step_goes; [done..|]. cbn. by rewrite Hset. }
  destruct (t_queued (tm (co_timer s))) eqn:Htq.
  { apply (Hgo CoTimerDispatch); [done|]. eapply step_goes; [done..|]. cbn. by rewrite Htq, Hp. }
  by left.
Qed.
End Progress.

(** Schedules shorter than the counter is wide. *)
Lemma short_co_runs_are_within c es s :
  co_inv s -> m_ref_count (s_mem (co_task s)) + Z.of_nat (length es) < MAX_REFCOUNT -> co_within c es s.
Proof.
  revert s. induction es as [|e es IH]; intros s Hs Hl; cbn [length co_within] in *; (split; [lia|]); [done|].
  destruct (co_step c e s) as [s'|] eqn:E; [|done].
  assert (Hm : m_ref_count (s_mem (co_task s)) < MAX_REFCOUNT) by lia. apply IH; [by eapply co_step_inv|].
  assert (m_ref_count (s_mem (co_task s')) <= m_ref_count (s_mem (co_task s)) + 1); [|lia].
  apply co_step_split in E as (x & t & _ & Hrx & _ & ->). destruct (co_next_parts e s x t) as [-> _].
  destruct (task_events_one e s) as [Ee|[ev Ee]]; rewrite Ee in Hrx; cbn in Hrx; [injection Hrx as <-; lia|].
  destruct (ExecutorSem.step c true ev (co_task s)) as [x'|] eqn:Es; [|done]. injection Hrx as <-.
  by eapply step_count; [apply ci_exec|..].
Qed.
