(* ===== verification/TimerTaskTheorems.v ===== *)
(** * A task that awaits a timer is completed

    What the invariant of [TimerTaskInv] gives: the block of the task and the
    block of the timer are both used safely, no wake-up is lost between them,
    and when everything has come to rest the task is complete and both blocks
    are freed; and what [TimerTaskProgress] adds: until then something can
    happen. *)

From S2P Require Import Prelude Status Refcount Programs.
From S2P Require Import Timer.
From S2P Require Import Executor ExecutorSem ExecutorSafety ExecutorTheorems ExecutorWake TimerTask TimerTaskInv TimerTaskProgress.

(** ** The task is completed *)

(** An incomplete task still has something to wait for. *)
Lemma rest_completed s : co_inv s -> at_rest s -> m_completed (s_mem (co_task s)) <> 0.
Proof.
  intros [Hx _ Hw Hsn [J1 J2 J3 J4 J5 J6 J7 J8]] (Hq & Hqd & Ho & Hd & Hset & Htq) Hc.
  destruct (Z.eq_dec (t_fired (tm (co_timer s))) 0) as [Hf|Hf].
  - destruct (J3 (rest_polled _ Hx Hq Hc Hqd)) as [Ha|Hin]; [|unfold in_poll in Hin; by rewrite Ho in Hin].
    destruct (wv_live _ _ Hw Ha Hf) as [Hdr|[Harm|[Hs|[Hs|Hs]]]]; try congruence.
    + rewrite J1 in Hdr. apply (inv_future _ Hx); [by destruct (m_future _)|done].
    + rewrite Ho in Harm. by apply arming_now_none in Harm.
  - destruct (J6 Hf Hc) as [Hr|[How|[H|[H|H]]]]; try congruence.
    + by rewrite (rest_ready _ Hx Hq Hc) in Hr.
    + by rewrite (rest_owed _ Hx Hq How Hc) in Hqd.
    + apply waking_busy in H. unfold busy in H. destruct (co_dpc_call s) as [j|]; [|done].
      destruct (s_threads (co_task s) !! j) as [t|] eqn:Hj; [|done].
      unfold quiescent in Hq. by rewrite (Forall_lookup_1 _ _ _ _ Hq Hj) in H.
Qed.

Lemma rest_timer_freed s : co_inv s -> at_rest s -> t_freed (tm (co_timer s)) = true.
Proof.
  intros Hs Hrest. pose proof (rest_completed s Hs Hrest) as Hc.
  destruct Hs as [Hx (po & pd & Ht) _ _ Hj], Hrest as (Hq & _ & Ho & Hd & Hset & Htq).
  assert (Hdr : dropped (co_timer s) = true) by (by rewrite (jo_alive s Hj), (rest_dropped _ Hx Hq Hc)).
  destruct Ht as [H1 H2 H3 _ H4 _ H5 _]. rewrite Ho in H1. rewrite Hd in H2. rewrite Hdr in H5.
  unfold timer_refs, frees in *. rewrite Hset, Htq in *. destruct po; try done. destruct pd; try done. cbn in *.
  rewrite H3 in H4. cbn in H4. by destruct (t_freed _).
Qed.

(** C8: a task that awaits a timer.  The future of a kernel timer is spawned
    on the executor, with a cancellation handle or without one.  In every
    interleaving of the executor's threads, the DPC of the task, the timer,
    its DPC and the client's calls on the handle (in which DPC routines of
    the task do not overlap): neither block is used after it was freed, the
    future is used as Rust's futures must be, and the kernel never gets a
    timer or DPC object that was not initialised.  And no wake-up is lost
    between the timer and the executor: whenever nothing runs, nothing is
    queued and the timer is not set, the task is complete; its polls were all
    pending but the last, which was ready; the future was dropped and its
    block freed; and once the handle is dropped too, or when there is none,
    the task has been freed and reported to its tracker once.  Until then it
    goes on: however the two machines wait for each other's calls and for the
    lock, some event other than a call of the client can happen, as long as no
    DPC routine has come to the end of the iterations it was given. *)
Theorem timer_task_completes (c : config) (b : budget) (handle : bool) (es : list co_event) (s : co_sys) :
  co_within c es (co_start b handle) -> co_run c es (co_start b handle) = Some s ->
  (m_use_after_free (s_mem (co_task s)) = false /\ m_bad_future (s_mem (co_task s)) = false
   /\ t_uaf (tm (co_timer s)) = false /\ t_uninit (tm (co_timer s)) = false)
  /\ (at_rest s ->
      m_completed (s_mem (co_task s)) <> 0 /\ m_future (s_mem (co_task s)) = false
      /\ (exists n, polls (co_timer s) = replicate n (0%nat, PENDING) ++ [(0%nat, READY)])
      /\ t_freed (tm (co_timer s)) = true
      /\ (co_handle s = false -> m_freed (s_mem (co_task s)) = true /\ m_tracked (s_mem (co_task s)) = 1%nat))
  /\ ((forall i, next_op (co_task s) i <> Some NoFuel) ->
      forall fuel, at_rest s \/ exists e s', internal fuel e /\ co_step c e s = Some s').
Proof.
  intros Hw Hr. pose proof (co_start_inv b handle) as Hs0. pose proof (co_run_inv c es _ s Hs0 Hw Hr) as Hs. split; [|split].
  - destruct Hs as [Hx (po & pd & Ht) _ Hsn _]. split_and!; [|by apply inv_good|apply Ht|apply Hsn].
    destruct Hx as (gs & _ & Hg). pose proof (gl_use _ _ _ Hg). by destruct (m_use_after_free _).
  - intros Hrest. pose proof (rest_completed s Hs Hrest) as Hc. pose proof (rest_timer_freed s Hs Hrest) as Hfr.
    destruct Hs as [Hx _ _ _ [J1 J2 J3 J4 J5 J6 J7 J8]], Hrest as (Hq & Hqd & Ho & _ & _ & _).
    split; [done|]. split; [by apply rest_dropped|]. split; [by rewrite (J5 Hc) in J8|]. split; [done|].
    intros Hh. apply rest_freed; try done. rewrite (tokens_idle _ _ _ J7 Hq), Hh.
    unfold slot, in_flight, at_store. rewrite Hfr, Ho. by destruct (t_waker _).
  - intros Hfuel fuel. destruct (co_run_order c es _ s Hs0 (co_start_order b handle) Hw Hr) as [Ho Hm].
    pose proof (co_run_debts c es _ s Hs0 (co_start_debts b handle) Hw Hr) as Hd.
    destruct (co_goes_on c s Hs Ho Hd Hm Hfuel fuel) as [?|(e & He & s' & Hst)]; [by left|right; eauto].
Qed.

(** Two pending polls, the second one because of a cancellation; then the
    timer fires and its DPC wakes the task, which is polled a third time. *)
Definition co_runs (n i : nat) : list co_event := replicate n (CoRun i (0, 0)).
Definition awaited : list co_event :=
  co_runs 7 0 ++ [CoDispatch 5 (Some 0)] ++ co_runs 9 1 ++ replicate 5 CoOwner ++ co_runs 5 1
  ++ [CoHandle EnvCancel] ++ co_runs 6 2 ++ [CoDispatch 5 (Some 1)] ++ co_runs 9 3
  ++ [CoOwner] ++ co_runs 1 4 ++ [CoOwner] ++ co_runs 5 3
  ++ [CoExpire; CoTimerDispatch] ++ replicate 3 CoTimerDpc ++ co_runs 5 5 ++ [CoTimerDpc]
  ++ [CoDispatch 5 None] ++ co_runs 9 6 ++ replicate 5 CoOwner ++ co_runs 1 7 ++ co_runs 2 6
  ++ [CoHandle EnvDropHandle] ++ co_runs 4 8.
Definition awaited_end : co_sys :=
  default (co_start default_budget true)
    (co_run (mkConfig Hardened true) awaited (co_start default_budget true)).

Example awaited_polls :
  polls (co_timer awaited_end) = [(0%nat, PENDING); (0%nat, PENDING); (0%nat, READY)].
Proof. vm_compute. reflexivity. Qed.

Lemma timer_task_completes_witness :
  m_freed (s_mem (co_task awaited_end)) = true /\ m_tracked (s_mem (co_task awaited_end)) = 1%nat.
Proof.
  apply (timer_task_completes (mkConfig Hardened true) default_budget true awaited awaited_end).
  - apply short_co_runs_are_within; [apply co_start_inv|]. vm_compute. reflexivity.
  - vm_compute. reflexivity.
  - unfold at_rest, quiescent. vm_compute. repeat split; repeat constructor.
  - vm_compute. reflexivity.
Defined.
