(* ===== verification/Descriptors.v ===== *)
(** * PortCls descriptors

    Models the macros of [src/src/descriptors.rs], which build the descriptor
    structs of the port class driver: every list becomes a static array with a
    pointer, a count and, where the struct has one, an item size.  The structs
    are those of the Windows headers, whose counts and sizes are 32-bit; the
    values a macro is given are its arguments here.  A static is placed by the
    linker; the addresses are parameters. *)

From S2P Require Import Prelude Status.

(** ** The structs *)

Record KSIDENTIFIER : Type := mkKsIdentifier { ks_set : GUID; ks_id : Z; ks_flags : Z }.

(** [PCPROPERTY_ITEM], [PCMETHOD_ITEM] and [PCEVENT_ITEM] have the same
    fields. *)
Record PCPROPERTY_ITEM : Type := mkProperty { p_set : Z; p_id : Z; p_flags : Z; p_handler : Z }.
Record PCMETHOD_ITEM : Type := mkMethodItem { m_set : Z; m_id : Z; m_flags : Z; m_handler : Z }.
Record PCEVENT_ITEM : Type := mkEvent { e_set : Z; e_id : Z; e_flags : Z; e_handler : Z }.

Record PCAUTOMATION_TABLE : Type := mkTable {
  PropertyItemSize : Z; PropertyCount : Z; Properties : Z;
  MethodItemSize : Z; MethodCount : Z; Methods : Z;
  EventItemSize : Z; EventCount : Z; Events : Z;
  TableReserved : Z
}.

Record PCNODE_DESCRIPTOR : Type := mkNode {
  NodeFlags : Z; NodeAutomationTable : Z; NodeType : Z; NodeName : Z
}.
Record KSTOPOLOGY_CONNECTION : Type := mkConnection {
  FromNode : Z; FromNodePin : Z; ToNode : Z; ToNodePin : Z
}.

(** The anonymous union is [Reserved], or the constrained ranges. *)
Inductive pin_union : Type :=
| Constrained (ConstrainedDataRangesCount ConstrainedDataRanges : Z)
| Reserved (value : Z).
Record KSPIN_DESCRIPTOR : Type := mkKsPin {
  InterfacesCount : Z; Interfaces : Z;
  MediumsCount : Z; Mediums : Z;
  DataRangesCount : Z; DataRanges : Z;
  DataFlow : Z; Communication : Z; Category : Z; PinName : Z;
  PinUnion : pin_union
}.
Record PCPIN_DESCRIPTOR : Type := mkPin {
  MaxGlobalInstanceCount : Z; MaxFilterInstanceCount : Z; MinFilterInstanceCount : Z;
  AutomationTable : Z; KsPinDescriptor : KSPIN_DESCRIPTOR
}.
Record KSDATAFORMAT : Type := mkFormat {
  FormatSize : Z; FormatFlags : Z; SampleSize : Z; FormatReserved : Z;
  MajorFormat : GUID; SubFormat : GUID; Specifier : GUID
}.
Record KSDATARANGE_AUDIO : Type := mkRange {
  DataRange : KSDATAFORMAT; MaximumChannels : Z;
  MinimumBitsPerSample : Z; MaximumBitsPerSample : Z;
  MinimumSampleFrequency : Z; MaximumSampleFrequency : Z
}.
Record PCFILTER_DESCRIPTOR : Type := mkFilter {
  Version : Z; FilterAutomationTable : Z;
  PinSize : Z; PinCount : Z; Pins : Z;
  NodeSize : Z; NodeCount : Z; Nodes : Z;
  ConnectionCount : Z; Connections : Z;
  CategoryCount : Z; Categories : Z
}.

(** What a static array holds. *)
Inductive cell : Type :=
| CPin (v : PCPIN_DESCRIPTOR) | CNode (v : PCNODE_DESCRIPTOR) | CConnection (v : KSTOPOLOGY_CONNECTION)
| CGuid (v : GUID) | CProperty (v : PCPROPERTY_ITEM) | CMethod (v : PCMETHOD_ITEM)
| CEvent (v : PCEVENT_ITEM) | CIdentifier (v : KSIDENTIFIER) | CRange (v : KSDATARANGE_AUDIO)
| CRangePtr (p : Z).

(** ** Static arrays *)

Record static : Type := mkStatic { st_base : Z; st_size : Z; st_items : list cell }.

(** [__kcom_count_exprs!]: the length of an array of units. *)
Definition __kcom_count_exprs {B : Type} (exprs : list B) : nat := length (map (fun _ => tt) exprs).

(** [X.len()], for an array type of the counted length, [X.len() as _] and
    [X.as_ptr()]. *)
Definition len (s : static) : nat := __kcom_count_exprs (st_items s).
Definition as_count (n : nat) : Z := wrap 32 (Z.of_nat n).
Definition as_ptr (s : static) : Z := st_base s.
Definition null : Z := 0.
(** [size_of::<T>() as _] *)
Definition item_size (s : static) : Z := wrap 32 (st_size s).

(** ** The macros *)

Definition pcpin_descriptor (max_global max_filter min_filter automation : Z)
    (kspin : KSPIN_DESCRIPTOR) : PCPIN_DESCRIPTOR :=
  {| MaxGlobalInstanceCount := max_global; MaxFilterInstanceCount := max_filter;
     MinFilterInstanceCount := min_filter; AutomationTable := automation; KsPinDescriptor := kspin |}.

(** The ranges are written [min ..= max]. *)
Definition ksdatarange_audio (data_range : KSDATAFORMAT) (max_channels : Z)
    (bits_per_sample sample_frequency : Z * Z) : KSDATARANGE_AUDIO :=
  {| DataRange := data_range; MaximumChannels := max_channels;
     MinimumBitsPerSample := fst bits_per_sample; MaximumBitsPerSample := snd bits_per_sample;
     MinimumSampleFrequency := fst sample_frequency; MaximumSampleFrequency := snd sample_frequency |}.

Definition ksidentifier (set : GUID) (id flags : Z) : KSIDENTIFIER :=
  {| ks_set := set; ks_id := id; ks_flags := flags |}.
Definition kspin_interface (set : GUID) (id flags : Z) : KSIDENTIFIER := ksidentifier set id flags.
Definition kspin_medium (set : GUID) (id flags : Z) : KSIDENTIFIER := ksidentifier set id flags.

Definition pcproperty_item (set id flags handler : Z) : PCPROPERTY_ITEM :=
  {| p_set := set; p_id := id; p_flags := flags; p_handler := handler |}.
Definition pcmethod_item (set id flags handler : Z) : PCMETHOD_ITEM :=
  {| m_set := set; m_id := id; m_flags := flags; m_handler := handler |}.
Definition pcevent_item (set id flags handler : Z) : PCEVENT_ITEM :=
  {| e_set := set; e_id := id; e_flags := flags; e_handler := handler |}.

Definition pcnode_descriptor (flags automation node_type node_name : Z) : PCNODE_DESCRIPTOR :=
  {| NodeFlags := flags; NodeAutomationTable := automation; NodeType := node_type; NodeName := node_name |}.
Definition pcconnection_descriptor (from_node from_pin to_node to_pin : Z) : KSTOPOLOGY_CONNECTION :=
  {| FromNode := from_node; FromNodePin := from_pin; ToNode := to_node; ToNodePin := to_pin |}.

Definition ksdataformat (format_size flags sample_size reserved : Z)
    (major_format sub_format specifier : GUID) : KSDATAFORMAT :=
  {| FormatSize := format_size; FormatFlags := flags; SampleSize := sample_size;
     FormatReserved := reserved; MajorFormat := major_format; SubFormat := sub_format;
     Specifier := specifier |}.

(** The macros with lists: the struct, and the statics it points to.  A list
    comes with the size of its item type; [at_] is where the linker puts the
    statics. *)
Definition typed_list : Type := Z * list cell.
Definition place (a : Z) (l : typed_list) : static := mkStatic a (fst l) (snd l).

Definition pcautomation_table (at_ : nat -> Z) (properties methods events : typed_list)
    : PCAUTOMATION_TABLE * list static :=
  let PROPERTIES := place (at_ 0%nat) properties in
  let METHODS := place (at_ 1%nat) methods in
  let EVENTS := place (at_ 2%nat) events in
  ({| PropertyItemSize := item_size PROPERTIES;
      PropertyCount := as_count (len PROPERTIES);
      Properties := if Nat.eqb (len PROPERTIES) 0 then null else as_ptr PROPERTIES;
      MethodItemSize := item_size METHODS;
      MethodCount := as_count (len METHODS);
      Methods := if Nat.eqb (len METHODS) 0 then null else as_ptr METHODS;
      EventItemSize := item_size EVENTS;
      EventCount := as_count (len EVENTS);
      Events := if Nat.eqb (len EVENTS) 0 then null else as_ptr EVENTS;
      TableReserved := 0 |}, [PROPERTIES; METHODS; EVENTS]).

Definition kspin_descriptor_constrained (at_ : nat -> Z)
    (interfaces mediums data_ranges : typed_list) (data_flow communication category name : Z)
    (constrained_data_ranges : typed_list) : KSPIN_DESCRIPTOR * list static :=
  let IFACES := place (at_ 0%nat) interfaces in
  let MEDIUMS := place (at_ 1%nat) mediums in
  let RANGES := place (at_ 2%nat) data_ranges in
  let CONSTRAINED := place (at_ 3%nat) constrained_data_ranges in
  ({| InterfacesCount := as_count (len IFACES);
      Interfaces := if Nat.eqb (len IFACES) 0 then null else as_ptr IFACES;
      MediumsCount := as_count (len MEDIUMS);
      Mediums := if Nat.eqb (len MEDIUMS) 0 then null else as_ptr MEDIUMS;
      DataRangesCount := as_count (len RANGES);
      DataRanges := if Nat.eqb (len RANGES) 0 then null else as_ptr RANGES;
      DataFlow := data_flow;
      Communication := communication;
      Category := category;
      PinName := name;
      PinUnion := Constrained (as_count (len CONSTRAINED))
                    (if Nat.eqb (len CONSTRAINED) 0 then null else as_ptr CONSTRAINED) |},
   [IFACES; MEDIUMS; RANGES; CONSTRAINED]).

Definition kspin_descriptor (at_ : nat -> Z) (interfaces mediums data_ranges : typed_list)
    (data_flow communication category name : Z) : KSPIN_DESCRIPTOR * list static :=
  let IFACES := place (at_ 0%nat) interfaces in
  let MEDIUMS := place (at_ 1%nat) mediums in
  let RANGES := place (at_ 2%nat) data_ranges in
  ({| InterfacesCount := as_count (len IFACES);
      Interfaces := if Nat.eqb (len IFACES) 0 then null else as_ptr IFACES;
      MediumsCount := as_count (len MEDIUMS);
      Mediums := if Nat.eqb (len MEDIUMS) 0 then null else as_ptr MEDIUMS;
      DataRangesCount := as_count (len RANGES);
      DataRanges := if Nat.eqb (len RANGES) 0 then null else as_ptr RANGES;
      DataFlow := data_flow;
      Communication := communication;
      Category := category;
      PinName := name;
      PinUnion := Reserved 0 |}, [IFACES; MEDIUMS; RANGES]).

Definition define_descriptor (at_ : nat -> Z) (version automation : Z)
    (pins nodes connections categories : typed_list) : PCFILTER_DESCRIPTOR * list static :=
  let PINS := place (at_ 0%nat) pins in
  let NODES := place (at_ 1%nat) nodes in
  let CONNECTIONS := place (at_ 2%nat) connections in
  let CATEGORIES := place (at_ 3%nat) categories in
  ({| Version := version;
      FilterAutomationTable := automation;
      PinSize := item_size PINS;
      PinCount := as_count (len PINS);
      Pins := if Nat.eqb (len PINS) 0 then null else as_ptr PINS;
      NodeSize := item_size NODES;
      NodeCount := as_count (len NODES);
      Nodes := if Nat.eqb (len NODES) 0 then null else as_ptr NODES;
      ConnectionCount := as_count (len CONNECTIONS);
      Connections := if Nat.eqb (len CONNECTIONS) 0 then null else as_ptr CONNECTIONS;
      CategoryCount := as_count (len CATEGORIES);
      Categories := if Nat.eqb (len CATEGORIES) 0 then null else as_ptr CATEGORIES |}, [PINS; NODES; CONNECTIONS; CATEGORIES]).

(** ** How the port class driver reads a list *)

(** The item at an address, in the statics of the driver. *)
Definition cell_at (s : static) (a : Z) : option cell :=
  if (st_base s <=? a) && ((a - st_base s) mod st_size s =? 0)
  then st_items s !! Z.to_nat ((a - st_base s) / st_size s)
  else None.
Fixpoint load (ss : list static) (a : Z) : option cell :=
  match ss with
  | [] => None
  | s :: ss => match cell_at s a with Some c => Some c | None => load ss a end
  end.

(** [count] items from [p] on, one every [size] bytes. *)
Definition read_list (ss : list static) (p size count : Z) : option (list cell) :=
  mapM (fun i => load ss (p + size * Z.of_nat i)) (seq 0 (Z.to_nat count)).

(** Statics the linker can have placed: at addresses that are not null,
    without overlaps, and with counts and sizes that fit their fields. *)
Definition static_end (s : static) : Z := st_base s + st_size s * Z.of_nat (length (st_items s)).
Definition apart (s t : static) : Prop := static_end s <= st_base t \/ static_end t <= st_base s.
Definition placed (ss : list static) : Prop :=
  Forall (fun s => 0 < st_base s /\ 0 < st_size s < 2 ^ 32 /\ Z.of_nat (length (st_items s)) < 2 ^ 32) ss
  /\ ForallOrdPairs apart ss.

Lemma count_exprs_length {B : Type} (l : list B) : __kcom_count_exprs l = length l.
Proof. unfold __kcom_count_exprs. apply length_map. Qed.

Lemma cell_at_item s i : 0 < st_size s -> cell_at s (st_base s + st_size s * Z.of_nat i) = st_items s !! i.
Proof.
  intros Hs. unfold cell_at. rewrite (proj2 (Z.leb_le _ _)) by nia.
  replace (st_base s + st_size s * Z.of_nat i - st_base s) with (Z.of_nat i * st_size s) by lia.
  rewrite Z.mod_mul, Z.eqb_refl, Z.div_mul, Nat2Z.id by lia. done.
Qed.

Lemma cell_at_range s a c : 0 < st_size s -> cell_at s a = Some c -> st_base s <= a < static_end s.
Proof.
  intros Hs. unfold cell_at. case_goal; [|done]. apply andb_prop in Heqb as [H1 H2]. to_prop.
  intros Hi%lookup_lt_Some. unfold static_end. split; [done|].
  pose proof (Z.div_mod (a - st_base s) (st_size s)) as Hd. rewrite H2 in Hd.
  pose proof (Z.div_pos (a - st_base s) (st_size s)). nia.
Qed.

Lemma load_item ss s i c :
  placed ss -> s ∈ ss -> st_items s !! i = Some c ->
  load ss (st_base s + st_size s * Z.of_nat i) = Some c.
Proof.
  intros [Hf Hp] Hin Hi. induction ss as [|t ss IH]; [by apply not_elem_of_nil in Hin|].
  apply Forall_cons_iff in Hf as [(_ & Ht & _) Hf]. inversion Hp as [|? ? Ha Hp']; subst.
  assert (Hsz : 0 < st_size s).
  { apply elem_of_cons in Hin as [->|Hin]; [lia|].
    pose proof (proj1 (list.Forall_forall _ _) Hf s Hin) as (_ & ? & _). lia. }
  cbn [load]. destruct (cell_at t _) as [c'|] eqn:E.
  - apply elem_of_cons in Hin as [->|Hin]; [by rewrite cell_at_item, Hi in E by done|].
    exfalso. apply cell_at_range in E; [|lia].
    pose proof (proj1 (list.Forall_forall _ _) Ha s Hin) as Hap.
    pose proof (lookup_lt_Some _ _ _ Hi). unfold apart, static_end in *. nia.
  - apply elem_of_cons in Hin as [->|Hin]; [by rewrite cell_at_item, Hi in E by done|].
    by apply IH.
Qed.

Lemma mapM_seq_lookup {B : Type} (f : nat -> option B) (l : list B) k :
  (forall i c, l !! i = Some c -> f (k + i)%nat = Some c) -> mapM f (seq k (length l)) = Some l.
Proof.
  revert k. induction l as [|c l IH]; intros k H; [done|]. cbn [length seq mapM].
  pose proof (H 0%nat c eq_refl) as H0. rewrite Nat.add_0_r in H0. cbn. rewrite H0. cbn.
  rewrite (IH (S k)); [done|]. intros i d Hi. rewrite <- (H (S i) d Hi). f_equal. lia.
Qed.

(** What a pointer and a count say of a list of items of a type. *)
Definition list_at (ss : list static) (l : typed_list) (ptr count : Z) : Prop :=
  read_list ss ptr (fst l) count = Some (snd l)
  /\ (snd l = [] <-> ptr = 0) /\ count = Z.of_nat (length (snd l)).

(** An array whose pointer is null when it is empty is read back. *)
Lemma static_list_at ss a l :
  placed ss -> place a l ∈ ss ->
  list_at ss l (if Nat.eqb (len (place a l)) 0 then null else as_ptr (place a l)) (as_count (len (place a l)))
  /\ item_size (place a l) = fst l.
Proof.
  intros Hp Hin. pose proof (proj1 (list.Forall_forall _ _) (proj1 Hp) _ Hin) as (Hb & Hs & Hl).
  cbn [place st_base st_size st_items] in Hb, Hs, Hl.
  unfold list_at, as_count, len, as_ptr, null. cbn [place st_items st_base]. rewrite count_exprs_length, wrap_small by lia.
  split; [split; [|split; [|done]]|apply wrap_small; cbn; lia].
  - unfold read_list. rewrite Nat2Z.id. apply mapM_seq_lookup. intros i c Hi. cbn [Nat.add].
    pose proof (lookup_lt_Some _ _ _ Hi) as Hlt. rewrite (proj2 (Nat.eqb_neq _ _)) by lia.
    by apply (load_item ss (place a l)).
  - destruct (snd l); cbn; split; intros; try done; lia.
Qed.

(** C36: the lists of a filter descriptor, an automation table and the two
    kinds of pin descriptors survive the trip through memory.  For statics
    the linker can have placed, reading each list through its pointer and
    count, one item every item size, gives the items the macro was given, in
    order; the count is the number of items; and the pointer is null exactly
    when the list is empty.  That holds of each of the lists, and where the
    struct has an item size it is that of the item type. *)
Theorem descriptor_lists_round_trip (ss : list static) (at_ : nat -> Z) (version automation : Z)
    (pins nodes connections categories properties methods events : typed_list)
    (interfaces mediums ranges constrained : typed_list) (flow communication category name : Z) :
  placed ss ->
  let '(f, fs) := define_descriptor at_ version automation pins nodes connections categories in
  let '(t, ts) := pcautomation_table at_ properties methods events in
  let '(p, ps) := kspin_descriptor_constrained at_ interfaces mediums ranges flow communication
                    category name constrained in
  let '(q, qs) := kspin_descriptor at_ interfaces mediums ranges flow communication category name in
  (fs ⊆ ss ->
     list_at ss pins (Pins f) (PinCount f) /\ PinSize f = fst pins
     /\ list_at ss nodes (Nodes f) (NodeCount f) /\ NodeSize f = fst nodes
     /\ list_at ss connections (Connections f) (ConnectionCount f)
     /\ list_at ss categories (Categories f) (CategoryCount f))
  /\ (ts ⊆ ss ->
     list_at ss properties (Properties t) (PropertyCount t) /\ PropertyItemSize t = fst properties
     /\ list_at ss methods (Methods t) (MethodCount t) /\ MethodItemSize t = fst methods
     /\ list_at ss events (Events t) (EventCount t) /\ EventItemSize t = fst events)
  /\ (ps ⊆ ss ->
     list_at ss interfaces (Interfaces p) (InterfacesCount p)
     /\ list_at ss mediums (Mediums p) (MediumsCount p)
     /\ list_at ss ranges (DataRanges p) (DataRangesCount p)
     /\ exists n a, PinUnion p = Constrained n a /\ list_at ss constrained a n)
  /\ (qs ⊆ ss ->
     list_at ss interfaces (Interfaces q) (InterfacesCount q)
     /\ list_at ss mediums (Mediums q) (MediumsCount q)
     /\ list_at ss ranges (DataRanges q) (DataRangesCount q)
     /\ PinUnion q = Reserved 0).
Proof.
  intros Hp.
  assert (Hr : forall sub k l, place (at_ k) l ∈ sub -> sub ⊆ ss ->
    list_at ss l (if Nat.eqb (len (place (at_ k) l)) 0 then null else as_ptr (place (at_ k) l))
      (as_count (len (place (at_ k) l)))
    /\ item_size (place (at_ k) l) = fst l) by (intros; apply static_list_at; auto).
  split; [|split; [|split]]; intros Hsub;
    cbn [Pins PinSize PinCount Nodes NodeSize NodeCount Connections ConnectionCount Categories CategoryCount
         Properties PropertyItemSize PropertyCount Methods MethodItemSize MethodCount Events EventItemSize
         EventCount Interfaces InterfacesCount Mediums MediumsCount DataRanges DataRangesCount PinUnion];
    split_and!; try (eapply (Hr _ _ _); [|exact Hsub]; set_solver); [|done].
  do 2 eexists. split; [done|]. eapply (Hr _ _ _); [|exact Hsub]. set_solver.
Qed.

(** ** Witness

    A filter with two pins, no nodes, one connection and no categories. *)
Definition page (k : nat) : Z := 4096 * (Z.of_nat k + 1).
Definition a_pin : PCPIN_DESCRIPTOR :=
  pcpin_descriptor 1 1 0 0 (fst (kspin_descriptor page (24, []) (24, []) (8, []) 1 0 0 0)).
Definition two_pins : typed_list := (128, [CPin a_pin; CPin a_pin]).
Definition a_connection : typed_list := (16, [CConnection (pcconnection_descriptor 0 1 2 3)]).
Definition a_filter : PCFILTER_DESCRIPTOR * list static :=
  define_descriptor page 0 0 two_pins (32, []) a_connection (16, []).

Lemma descriptor_lists_round_trip_witness :
  list_at (snd a_filter) two_pins (Pins (fst a_filter)) (PinCount (fst a_filter))
  /\ list_at (snd a_filter) (32, []) (Nodes (fst a_filter)) (NodeCount (fst a_filter)).
Proof.
  destruct (descriptor_lists_round_trip (snd a_filter) page 0 0 two_pins (32, []) a_connection
    (16, []) (8, []) (8, []) (8, []) (24, []) (24, []) (8, []) (8, []) 1 0 0 0) as (H & _).
  - split.
    + repeat constructor.
    + repeat first [apply FOP_cons | apply FOP_nil | apply Forall_cons | apply Forall_nil];
        left; vm_compute; discriminate.
  - destruct H as (H1 & _ & H2 & _); [intros x Hx; exact Hx|]. split; [exact H1|exact H2].
Defined.
