(* ===== verification/HostStubs.v ===== *)
(** * The host stubs of the executor

    Outside a driver build [src/src/executor.rs] replaces the executor by
    stubs: a waker that does nothing, spawn functions that poll the future
    once, and a [CancelHandle] that keeps a future that was pending.  The
    future is a parameter: its state, what a poll of it returns, and what its
    destructor does with the handle, which it can reach when the program
    stores the handle where the future can see it. *)

From S2P Require Import Prelude Status Executor.

(** What a destructor does with the handle of its task. *)
Inductive handle_call : Type := CallCancel | CallIsCancelled.

(** What can be observed of a future and its handle. *)
Inductive host_event : Type := Polled | Dropped | SawCancelled (b : bool).

Inductive host_outcome (A : Type) : Type :=
| HDone (a : A)
| HPanic            (* [BorrowMutError] *)
| HNoFuel.
Arguments HDone {A} a : assert.
Arguments HPanic {A} : assert.
Arguments HNoFuel {A} : assert.

(** ** The waker that does nothing *)

(** [RawWaker::new(null, &VTABLE)]: its data pointer. *)
Record host_waker : Type := mkHostWaker { waker_data : Z }.
Definition dummy_waker : host_waker := mkHostWaker 0.
Definition dummy_clone (_ : host_waker) : host_waker := dummy_waker.
Definition dummy_wake {S : Type} (_ : host_waker) (s : S) : S := s.

(** ** WorkItemTracker *)

Inductive WorkItemTrackerStub : Type := HostTracker.
Definition stub_new : WorkItemTrackerStub := HostTracker.
Definition stub_drain (_ : WorkItemTrackerStub) : unit := tt.

(** ** WorkItemCancelHandle *)

Inductive WorkItemCancelHandleStub : Type := HostWorkItemHandle.
Definition stub_cancel {S : Type} (_ : WorkItemCancelHandleStub) (s : S) : S := s.
Definition stub_is_cancelled (_ : WorkItemCancelHandleStub) : bool := false.

Section Host.
Context {F : Type}.
Context (poll : host_waker -> F -> Poll * F) (destructor : F -> list handle_call).

(** ** CancelHandle *)

(** The two cells, whether [future] is mutably borrowed, and the events. *)
Record CancelHandle : Type := mkHandle {
  hd_cancelled : bool;
  hd_future : option F;
  hd_borrowed : bool;
  hd_log : list host_event
}.

Definition handle_new (future : option F) (log : list host_event) : CancelHandle :=
  mkHandle false future false log.

Definition note (e : host_event) (h : CancelHandle) : CancelHandle :=
  mkHandle (hd_cancelled h) (hd_future h) (hd_borrowed h) (hd_log h ++ [e]).

Definition is_cancelled (h : CancelHandle) : bool := hd_cancelled h.

(** The destructor of a future taken out of the cell. *)
Fixpoint run_calls (cancel : CancelHandle -> host_outcome CancelHandle) (calls : list handle_call)
    (h : CancelHandle) : host_outcome CancelHandle :=
  match calls with
  | [] => HDone h
  | CallIsCancelled :: calls => run_calls cancel calls (note (SawCancelled (is_cancelled h)) h)
  | CallCancel :: calls =>
      match cancel h with
      | HDone h => run_calls cancel calls h
      | e => e
      end
  end.

(** [let _ = self.future.borrow_mut().take()]: both temporaries live to the
    end of the statement, and the future, created last, is dropped first,
    while the cell is still borrowed. *)
Definition take_future (cancel : CancelHandle -> host_outcome CancelHandle) (h : CancelHandle)
    : host_outcome CancelHandle :=
  if hd_borrowed h then HPanic
  else
    let taken := mkHandle (hd_cancelled h) None true (hd_log h) in
    let dropped :=
      match hd_future h with
      | None => HDone taken
      | Some f => run_calls cancel (destructor f) (note Dropped taken)
      end in
    match dropped with
    | HDone h => HDone (mkHandle (hd_cancelled h) (hd_future h) false (hd_log h))
    | e => e
    end.

(** [fuel] bounds the nesting of [cancel] in destructors. *)
Fixpoint cancel (fuel : nat) (h : CancelHandle) : host_outcome CancelHandle :=
  match fuel with
  | O => HNoFuel
  | S fuel =>
      take_future (cancel fuel) (mkHandle true (hd_future h) (hd_borrowed h) (hd_log h))
  end.

(** [Drop]: nothing else refers to the handle any more, so the destructor of
    the future cannot reach it; what remains is what happened. *)
Definition handle_drop (h : CancelHandle) : list host_event :=
  match hd_future h with
  | None => hd_log h
  | Some _ => hd_log h ++ [Dropped]
  end.

(** ** Spawning *)

(** The boxed future is dropped when the function returns without it. *)
Definition spawn_dpc_task_cancellable (future : F) : result CancelHandle NTSTATUS :=
  match poll dummy_waker future with
  | (PollReady _, _) => Ok (handle_new None [Polled; Dropped])
  | (PollPending, future) => Ok (handle_new (Some future) [Polled])
  end.

(** The status, and what happened to the future. *)
Definition spawn_task (future : F) : NTSTATUS * list host_event :=
  match poll dummy_waker future with
  | (PollReady _s, _) => (STATUS_SUCCESS, [Polled; Dropped])
  | (PollPending, _) => (STATUS_SUCCESS, [Polled; Dropped])
  end.

(** ** Properties *)

Definition is_cancel (a : handle_call) : bool :=
  match a with CallCancel => true | CallIsCancelled => false end.

(** While the cell is borrowed a destructor that does not cancel only looks. *)
Lemma run_calls_looks k calls h :
  existsb is_cancel calls = false ->
  run_calls k calls h
  = HDone (mkHandle (hd_cancelled h) (hd_future h) (hd_borrowed h)
      (hd_log h ++ map (fun _ => SawCancelled (hd_cancelled h)) calls)).
Proof.
  revert h. induction calls as [|[] calls IH]; intros [a b d e]; cbn; [by rewrite app_nil_r|done|].
  intros H. rewrite IH by done. cbn. by rewrite <- app_assoc.
Qed.

(** A destructor that cancels its own task finds the cell borrowed. *)
Lemma run_calls_reenters fuel calls h :
  hd_borrowed h = true -> existsb is_cancel calls = true ->
  run_calls (cancel (S fuel)) calls h = HPanic.
Proof.
  revert h. induction calls as [|[] calls IH]; intros h Hb; [done| |].
  - intros _. cbn. unfold take_future. cbn. by rewrite Hb.
  - cbn. intros H. by apply IH.
Qed.

(** The three cases of [cancel]. *)
Lemma cancel_borrowed fuel h : hd_borrowed h = true -> cancel (S fuel) h = HPanic.
Proof. intros H. cbn. unfold take_future. cbn. by rewrite H. Qed.

Lemma cancel_empty fuel h :
  hd_borrowed h = false -> hd_future h = None ->
  cancel (S fuel) h = HDone (mkHandle true None false (hd_log h)).
Proof. intros Hb Hf. cbn. unfold take_future. cbn. by rewrite Hb, Hf. Qed.

Lemma cancel_full fuel h f :
  hd_borrowed h = false -> hd_future h = Some f ->
  cancel (S (S fuel)) h
  = if existsb is_cancel (destructor f) then HPanic
    else HDone (mkHandle true None false
           ((hd_log h ++ [Dropped]) ++ map (fun _ => SawCancelled true) (destructor f))).
Proof.
  intros Hb Hf. remember (S fuel) as k eqn:Hk. cbn. unfold take_future. cbn. rewrite Hb, Hf.
  destruct (existsb is_cancel (destructor f)) eqn:E.
  - rewrite Hk. by rewrite run_calls_reenters.
  - by rewrite run_calls_looks.
Qed.

(** Cancelling terminates: nesting of depth two decides every call. *)
Theorem host_cancel_terminates (fuel : nat) (h : CancelHandle) :
  cancel (S (S fuel)) h = cancel 2 h /\ cancel 2 h <> HNoFuel.
Proof.
  destruct (hd_borrowed h) eqn:Hb; [by rewrite !cancel_borrowed|].
  destruct (hd_future h) as [f|] eqn:Hf; [|by rewrite !cancel_empty].
  rewrite !(cancel_full _ h f) by done. by destruct (existsb _ _).
Qed.

(** A future that cancels its task from its destructor makes [cancel] panic,
    where the handle of the kernel build just finds the request made. *)
Theorem host_cancel_panics_on_reentry (fuel : nat) (h : CancelHandle) (f : F) :
  hd_borrowed h = false -> hd_future h = Some f -> existsb is_cancel (destructor f) = true ->
  cancel (S (S fuel)) h = HPanic.
Proof. intros Hb Hf Hd. by rewrite (cancel_full _ h f), Hd. Qed.

(** ** The life of a spawned future *)

(** Calls of the program on the handle it was given. *)
Definition use_handle (calls : list handle_call) (h : CancelHandle) : host_outcome CancelHandle :=
  run_calls (cancel 2) calls h.

Definition is_polled (e : host_event) : bool := match e with Polled => true | _ => false end.
Definition is_dropped (e : host_event) : bool := match e with Dropped => true | _ => false end.
Definition events (p : host_event -> bool) (log : list host_event) : nat := length (List.filter p log).

Lemma events_app p l1 l2 : events p (l1 ++ l2) = (events p l1 + events p l2)%nat.
Proof. unfold events. by rewrite List.filter_app, length_app. Qed.

Lemma events_looks p b (calls : list handle_call) :
  p (SawCancelled b) = false -> events p (map (fun _ => SawCancelled b) calls) = 0%nat.
Proof. intros H. unfold events. induction calls as [|a calls IH]; [done|]. cbn. by rewrite H. Qed.

(** Polled once; dropped, or still in the cell. *)
Record alive (h : CancelHandle) : Prop := {
  al_borrowed : hd_borrowed h = false;
  al_polled : events is_polled (hd_log h) = 1%nat;
  al_dropped : (events is_dropped (hd_log h) + match hd_future h with None => 0 | Some _ => 1 end = 1)%nat
}.

Context (Hquiet : forall f, existsb is_cancel (destructor f) = false).

Lemma cancel_alive h :
  alive h -> exists h', cancel 2 h = HDone h' /\ alive h' /\ hd_cancelled h' = true /\ hd_future h' = None.
Proof using Hquiet.
  intros [Hb Hp Hd]. destruct (hd_future h) as [f|] eqn:Hf.
  - rewrite (cancel_full _ h f), Hquiet by done. eexists. split; [done|]. split; [|done].
    split; cbn [hd_borrowed hd_log hd_future]; [done| |];
      rewrite !events_app, events_looks by done; cbn; lia.
  - rewrite cancel_empty by done. eexists. split; [done|]. split; [|done]. by split.
Qed.

Lemma use_handle_alive calls h :
  alive h -> exists h', use_handle calls h = HDone h' /\ alive h'
                        /\ hd_cancelled h' = hd_cancelled h || existsb is_cancel calls.
Proof using Hquiet.
  unfold use_handle. revert h. induction calls as [|[] calls IH]; intros h Hh; cbn [run_calls].
  - exists h. by rewrite orb_false_r.
  - destruct (cancel_alive h Hh) as (h1 & -> & H1 & Hc & _).
    destruct (IH h1 H1) as (h2 & E & H2 & Hc2). exists h2. split; [done|]. split; [done|].
    rewrite Hc2, Hc. cbn. by rewrite orb_true_r.
  - destruct (IH (note (SawCancelled (is_cancelled h)) h)) as (h2 & E & H2 & Hc2); [|by exists h2].
    destruct Hh as [Hb Hp Hd]. split; cbn [note hd_borrowed hd_log hd_future]; [done| |];
      rewrite events_app; cbn; lia.
Qed.

Lemma alive_drop h :
  alive h -> events is_polled (handle_drop h) = 1%nat /\ events is_dropped (handle_drop h) = 1%nat.
Proof.
  intros [Hb Hp Hd]. unfold handle_drop. destruct (hd_future h); rewrite ?events_app; cbn; lia.
Qed.

Lemma spawned_alive future :
  exists h, spawn_dpc_task_cancellable future = Ok h /\ alive h /\ hd_cancelled h = false.
Proof.
  unfold spawn_dpc_task_cancellable. destruct (poll dummy_waker future) as [[status|] f];
    eexists; (split; [done|]); by split.
Qed.

(** The host executor keeps the contract of the kernel's handles for futures
    whose destructors do not cancel: spawning succeeds, however the handle is
    used no call panics, [is_cancelled] tells whether [cancel] was called,
    and from spawn to the drop of the handle the future is polled once and
    dropped once. *)
Theorem host_task_life (future : F) (calls : list handle_call) :
  exists h h', spawn_dpc_task_cancellable future = Ok h
    /\ use_handle calls h = HDone h'
    /\ is_cancelled h' = existsb is_cancel calls
    /\ events is_polled (handle_drop h') = 1%nat /\ events is_dropped (handle_drop h') = 1%nat.
Proof using Hquiet.
  destruct (spawned_alive future) as (h & E & Hh & Hc).
  destruct (use_handle_alive calls h Hh) as (h' & E' & Hh' & Hc').
  exists h, h'. unfold is_cancelled. rewrite Hc', Hc. by pose proof (alive_drop h' Hh').
Qed.
End Host.

(** A pending future that looks at its handle when it is dropped. *)
Example host_cancel_then_drop :
  let h := handle_new (Some 7) [Polled] in
  match use_handle (fun _ => [CallIsCancelled]) [CallIsCancelled; CallCancel; CallCancel] h with
  | HDone h' => handle_drop h' = [Polled; SawCancelled false; Dropped; SawCancelled true]
  | _ => False
  end.
Proof. reflexivity. Qed.

Lemma host_task_life_witness :
  exists h h', spawn_dpc_task_cancellable (fun _ f => (PollPending, f)) 7 = Ok h
    /\ use_handle (fun _ => [CallIsCancelled]) [CallIsCancelled; CallCancel; CallCancel] h = HDone h'
    /\ is_cancelled h' = true
    /\ events is_polled (handle_drop h') = 1%nat /\ events is_dropped (handle_drop h') = 1%nat.
Proof.
  apply (host_task_life (fun _ f => (PollPending, f)) (fun _ => [CallIsCancelled])
    ltac:(intros f; reflexivity) 7 [CallIsCancelled; CallCancel; CallCancel]).
Defined.
