(* ===== verification/Trace.v ===== *)
(** * Tracing

    Models [src/src/trace.rs] and the reporting macros of
    [src/src/macros/helpers.rs]: the trace hook, the text of an error report,
    and [ensure!].  A hook is a function of the driver, known by its address;
    the state records the calls it received.  Text is a list of bytes. *)

From Stdlib Require Import Ascii.
From stdpp Require Import strings.
From S2P Require Import Prelude Status.

Abbreviation text := (list ascii).
(** A literal. *)
Definition lit (s : string) : text := String.list_ascii_of_string s.

(** ** The hook *)

Record trace_state : Type := mkTrace {
  trace_hook : Z;              (* [TRACE_HOOK]; 0 is null *)
  trace_calls : list (Z * text)
}.

Definition set_trace_hook (hook : Z) (s : trace_state) : trace_state :=
  mkTrace hook (trace_calls s).
Definition clear_trace_hook (s : trace_state) : trace_state := mkTrace 0 (trace_calls s).

Definition trace (args : text) (s : trace_state) : trace_state :=
  let ptr := trace_hook s in
  if ptr =? 0 then s else mkTrace ptr (trace_calls s ++ [(ptr, args)]).

(** ** Formatting *)

Definition digit (d : Z) : ascii :=
  ascii_of_nat (Z.to_nat (if d <? 10 then 48 + d else 97 + (d - 10))).

(** The digits of [n], most significant first; [fuel] is their number. *)
Fixpoint digits (base : Z) (fuel : nat) (n : Z) : text :=
  match fuel with
  | O => []
  | S fuel => (if n <? base then [] else digits base fuel (n / base)) ++ [digit (n mod base)]
  end.

(** [{}] of a [u32] has at most ten digits, and [{:#x}] of an [i32] prints
    its two's complement with at most eight. *)
Definition fmt_u32 (n : Z) : text := digits 10 10 n.
Definition fmt_hex_i32 (n : Z) : text := lit "0x" ++ digits 16 8 (wrap 32 n).

Definition report_text (file : text) (line : Z) (status : NTSTATUS) : text :=
  lit "kcom error " ++ fmt_hex_i32 status ++ lit " at " ++ file ++ lit ":" ++ fmt_u32 line.

Definition report_error (file : text) (line : Z) (status : NTSTATUS) (s : trace_state) : trace_state :=
  trace (report_text file line status) s.
Definition report_error_msg (file : text) (line : Z) (status : NTSTATUS) (msg : text)
    (s : trace_state) : trace_state :=
  trace (report_text file line status ++ lit " - " ++ msg) s.

(** ** [ensure!]

    What an [ensure!] at [file] and [line] does: [Err] is the early return of
    the function it stands in.  [debug] is [debug_assertions]. *)
Definition ensure (debug : bool) (file : text) (line : Z) (cond : bool) (status : NTSTATUS)
    (msg : option text) (s : trace_state) : result unit NTSTATUS * trace_state :=
  if negb cond then
    (Err status,
     if debug then
       match msg with
       | None => report_error file line status s
       | Some msg => report_error_msg file line status msg s
       end
     else s)
  else (Ok tt, s).

(** ** Reading a report *)

Definition digit_value (c : ascii) : Z :=
  let n := Z.of_nat (nat_of_ascii c) in if n <? 97 then n - 48 else n - 97 + 10.
Definition value (base : Z) (t : text) : Z := fold_left (fun v c => v * base + digit_value c) t 0.

Lemma digit_facts d : 0 <= d < 16 -> digit_value (digit d) = d /\ digit d <> " "%char /\ digit d <> ":"%char.
Proof.
  intros H. assert (Hall : Forall (fun d => digit_value (digit d) = d /\ digit d <> " "%char /\ digit d <> ":"%char)
    (map Z.of_nat (seq 0 16))) by (vm_compute; repeat constructor; discriminate).
  rewrite list.Forall_forall in Hall. apply Hall. apply list_elem_of_fmap.
  exists (Z.to_nat d). split; [lia|]. apply elem_of_seq. lia.
Qed.

Lemma value_snoc base t c : value base (t ++ [c]) = value base t * base + digit_value c.
Proof. unfold value. by rewrite fold_left_app. Qed.

(** Digits can be read back. *)
Lemma value_digits base fuel n :
  2 <= base <= 16 -> 0 <= n < base ^ Z.of_nat fuel -> fuel <> 0%nat -> value base (digits base fuel n) = n.
Proof.
  intros Hb. revert n. induction fuel as [|fuel IH]; intros n Hn Hf; [done|].
  cbn [digits]. rewrite value_snoc, (proj1 (digit_facts (n mod base) ltac:(pose proof (Z.mod_pos_bound n base); lia))).
  destruct (n <? base) eqn:E; to_prop.
  - unfold value. cbn. rewrite Z.mod_small; lia.
  - assert (fuel <> 0%nat).
    { intros ->. change (base ^ Z.of_nat 1) with (base ^ 1) in Hn. rewrite Z.pow_1_r in Hn. lia. }
    rewrite IH; [pose proof (Z.div_mod n base); lia| |done].
    rewrite Nat2Z.inj_succ, Z.pow_succ_r in Hn by lia.
    split; [apply Z.div_pos; lia|]. apply Z.div_lt_upper_bound; lia.
Qed.

Lemma digits_plain base fuel n :
  2 <= base <= 16 -> Forall (fun c => c <> " "%char /\ c <> ":"%char) (digits base fuel n).
Proof.
  intros Hb. revert n. induction fuel as [|fuel IH]; intros n; [constructor|]. cbn [digits].
  apply Forall_app. split; [by destruct (n <? base)|]. constructor; [|constructor].
  apply digit_facts. pose proof (Z.mod_pos_bound n base). lia.
Qed.

(** A separator that does not occur in the first parts splits a text. *)
Lemma split_at_inj {A : Type} (c : A) l1 l2 r1 r2 :
  Forall (fun x => x <> c) l1 -> Forall (fun x => x <> c) l2 ->
  l1 ++ c :: r1 = l2 ++ c :: r2 -> l1 = l2 /\ r1 = r2.
Proof.
  intros H1. revert l2. induction H1 as [|x l1 Hx _ IH]; intros l2 H2 E.
  - destruct H2 as [|y l2 Hy _]; injection E; [done|]. intros _ Ey. by destruct Hy.
  - destruct H2 as [|y l2 Hy H2]; injection E; [intros _ Ex; by destruct Hx|].
    intros E' ->. by destruct (IH l2 H2 E') as [-> ->].
Qed.

Lemma split_at_last_inj {A : Type} (c : A) l1 l2 r1 r2 :
  Forall (fun x => x <> c) r1 -> Forall (fun x => x <> c) r2 ->
  l1 ++ c :: r1 = l2 ++ c :: r2 -> l1 = l2 /\ r1 = r2.
Proof.
  intros H1 H2 E. apply (f_equal reverse) in E. rewrite !reverse_app, !reverse_cons, <- !app_assoc in E.
  cbn in E. apply split_at_inj in E as [Er El]; [|by apply Forall_reverse..].
  by split; apply (inj reverse).
Qed.

Lemma fmt_hex_inj m n :
  - 2 ^ 31 <= m < 2 ^ 31 -> - 2 ^ 31 <= n < 2 ^ 31 -> fmt_hex_i32 m = fmt_hex_i32 n -> m = n.
Proof.
  unfold fmt_hex_i32. intros Hm Hn E. apply app_inv_head, (f_equal (value 16)) in E.
  assert (Hw : forall z, 0 <= wrap 32 z < 16 ^ Z.of_nat 8)
    by (intros z; unfold wrap; change (16 ^ Z.of_nat 8) with (2 ^ 32); apply Z.mod_pos_bound; lia).
  rewrite !value_digits in E by first [apply Hw|done|lia].
  change (m mod 4294967296 = n mod 4294967296) in E.
  change (2 ^ 31) with 2147483648 in *. Z.div_mod_to_equations. lia.
Qed.

Lemma fmt_u32_inj m n : 0 <= m < 2 ^ 32 -> 0 <= n < 2 ^ 32 -> fmt_u32 m = fmt_u32 n -> m = n.
Proof.
  unfold fmt_u32. intros Hm Hn E. apply (f_equal (value 10)) in E.
  rewrite !value_digits in E by (done || (change (10 ^ Z.of_nat 10) with 10000000000; lia)). done.
Qed.

(** ** Properties *)

(** An error report identifies its place and status: two reports with the
    same text are about the same file, line and status, whatever characters
    the file name has. *)
Theorem report_text_injective (f1 f2 : text) (l1 l2 : Z) (s1 s2 : NTSTATUS) :
  0 <= l1 < 2 ^ 32 -> 0 <= l2 < 2 ^ 32 -> - 2 ^ 31 <= s1 < 2 ^ 31 -> - 2 ^ 31 <= s2 < 2 ^ 31 ->
  report_text f1 l1 s1 = report_text f2 l2 s2 -> f1 = f2 /\ l1 = l2 /\ s1 = s2.
Proof.
  intros Hl1 Hl2 Hs1 Hs2 E. unfold report_text in E. apply app_inv_head in E.
  assert (Hp : forall s, Forall (fun c => c <> " "%char) (fmt_hex_i32 s)).
  { intros s. apply Forall_app. split; [repeat (constructor; [discriminate|]); constructor|].
    eapply Forall_impl; [|by apply digits_plain]; tauto. }
  change (lit " at ") with (" "%char :: lit "at ") in E.
  apply (split_at_inj " "%char) in E as [Es E]; [|apply Hp..].
  apply app_inv_head in E.
  apply (split_at_last_inj ":"%char) in E as [-> El].
  - split; [done|]. split; [by apply fmt_u32_inj|by apply fmt_hex_inj].
  - eapply Forall_impl; [|by apply digits_plain]; tauto.
  - eapply Forall_impl; [|by apply digits_plain]; tauto.
Qed.

Lemma report_text_injective_witness :
  report_text (lit "a:1.rs") 20 STATUS_UNSUCCESSFUL = lit "kcom error 0xc0000001 at a:1.rs:20"
  /\ lit "a:1.rs" = lit "a:1.rs" /\ 20 = 20 /\ STATUS_UNSUCCESSFUL = STATUS_UNSUCCESSFUL.
Proof.
  split; [vm_compute; reflexivity|].
  apply (report_text_injective (lit "a:1.rs") (lit "a:1.rs") 20 20 STATUS_UNSUCCESSFUL STATUS_UNSUCCESSFUL);
    try (split; [lia|lia]); try (vm_compute; split; discriminate || reflexivity); reflexivity.
Defined.

(** [ensure!] returns early with exactly the status it was given when the
    condition is false, and goes on otherwise; it calls the hook only when it
    fails in a debug build with a hook installed, and then once, with a
    report of its own place and status. *)
Theorem ensure_reports (debug : bool) (file : text) (line : Z) (cond : bool) (status : NTSTATUS)
    (msg : option text) (s : trace_state) :
  fst (ensure debug file line cond status msg s) = (if cond then Ok tt else Err status)
  /\ trace_hook (snd (ensure debug file line cond status msg s)) = trace_hook s
  /\ exists report,
       trace_calls (snd (ensure debug file line cond status msg s)) = trace_calls s ++ report
       /\ report = (if cond || negb debug || (trace_hook s =? 0) then []
                    else [(trace_hook s, report_text file line status
                                         ++ match msg with None => [] | Some m => lit " - " ++ m end)]).
Proof.
  unfold ensure, report_error, report_error_msg, trace.
  destruct cond, debug, msg, (trace_hook s =? 0); cbn [negb orb fst snd trace_hook trace_calls];
    (split; [done|split; [done|eexists; split; [|reflexivity]]]); by rewrite ?app_nil_r.
Qed.

(** After the hook is cleared nothing is reported until one is set again. *)
Lemma cleared_hook_is_silent args s : trace args (clear_trace_hook s) = clear_trace_hook s.
Proof. reflexivity. Qed.

Example trace_spec_boom :
  trace_calls (snd (ensure true (lit "t.rs") 20 false STATUS_UNSUCCESSFUL (Some (lit "boom 7"))
    (set_trace_hook 4096 (mkTrace 0 []))))
  = [(4096, lit "kcom error 0xc0000001 at t.rs:20 - boom 7")].
Proof. vm_compute. reflexivity. Qed.
