(* ===== verification/Examples.v ===== *)
(** * The example programs

    The programs of [src/examples/] that run on a host, from their
    declarations to their assertions: the interfaces they declare go through
    [InterfaceMacro], the impl macros they invoke through [ImplMacro], the
    objects they create through [SmartPtr] and [Wrapper], and the calls they
    make through the slots of the vtables that come out.  Also the future of
    the spawn example and the work-item example with its null device. *)

From stdpp Require Import strings.
From S2P Require Import Prelude Programs Status Refcount Wrapper SmartPtr WrapperFacts Interfaces ComTheorems.
From S2P Require Import SecondaryTuples InterfaceMacro ImplMacro MethodShims.
From S2P Require WorkItem HostStubs Task AsyncOp AsyncShims.
From S2P Require Import Tracker Executor ExecutorSem ExecutorTheorems TrackedTasks.

#[local] Open Scope string_scope.
#[local] Open Scope list_scope.
#[local] Open Scope Z_scope.

(** ** Programs over declared interfaces *)

(** Arguments and return values of the methods of the examples. *)
Inductive arg : Type := NoArg | U32 (value : Z) | Bool (value : bool).
Inductive answer : Type := AStatus (s : NTSTATUS) | AResult (r : result unit NTSTATUS).

Definition answer_into (a : answer) : NTSTATUS :=
  match a with AStatus s => into_ntstatus s | AResult r => into_ntstatus r end.
(** The value of a slot whose type is the one written, [NTSTATUS]. *)
Definition answer_plain (a : answer) : outcome NTSTATUS :=
  match a with AStatus s => Done s | AResult _ => Fault UB end.

Definition status : rust_ty := TPath false ["NTSTATUS"] [].
Definition u32_ty : rust_ty := TPath false ["u32"] [].
Definition bool_ty : rust_ty := TPath false ["bool"] [].

(** A program: what it declares and implements, and the wrapper instance of
    the object it makes (of a [ComObject] the interface counts only).  The
    wrapped types are unit structs without a destructor. *)
Record program : Type := mkProgram {
  p_iid : string -> GUID;
  p_object : wrapper_instance;
  p_interfaces : list interface;
  p_impls : list (string * com_impl);
  p_method : string -> string -> arg -> answer
}.

(** The body of the shim of a method, with the [async-com] feature or without
    it. *)
Definition body_of (async_com : bool) (p : program) (trait m : string) : option shim_body :=
  match find (fun i => String.eqb (iname i) trait) (p_interfaces p) with
  | Some (Interface n _ ms) =>
      match __kcom_define_interface async_com n (fun s => s) ms with
      | Some e => option_map s_body (find (fun s => String.eqb (s_name s) (shim_name n m)) (e_shims e))
      | None => None
      end
  | _ => None
  end.

(** The method slot of the vtable of the interface with identifier [g]. *)
Definition slot_at (async_com : bool) (p : program) (g : GUID) (trait m : string) : option (slot_fn * shim_body) :=
  match find (fun x => guid_eq (p_iid p x.1) g) (p_impls p) with
  | Some (_, ci) =>
      match find (fun f => String.eqb (sf_trait f) trait && String.eqb (sf_method f) m) (method_part (ci_vtable ci)),
            body_of async_com p trait m with
      | Some f, Some body => Some (f, body)
      | _, _ => None
      end
  | None => None
  end.

Section Running.
Context {A : Type} `{!Allocator A}.
Context (p : program) (c : config) (fuel : nat).

#[local] Instance no_foreign : Foreign unit := {|
  ext_AddRef := fun _ x => (0, x);
  ext_Release := fun _ x => (0, x);
  ext_QueryInterface := fun _ _ ppv x => ((STATUS_NOINTERFACE, ppv), x)
|}.
#[local] Instance program_impl : ComImpl string unit := impls_ComImpl (p_iid p) (p_object p) unit (p_impls p).
#[local] Instance unit_drop : DropGlue unit := fun t => (t, []).

Abbreviation W := (world string unit A unit).

(** A unit struct takes no space; neither does the global allocator. *)
Definition zero_sized : Layout := mkLayout 0 1.

Definition unwrap {B E : Type} (r : result B E) : M W B :=
  match r with Ok b => mret b | Err _ => mfault Panic end.
Definition unwrap_some {B : Type} (o : option B) : M W B :=
  match o with Some b => mret b | None => mfault Panic end.
Definition assert_eq (a b : NTSTATUS) : M W unit := if a =? b then mret tt else mfault Panic.

(** The [lpVtbl] field: which interface's vtable it is. *)
Definition lpVtbl (this : ptr) : M W GUID :=
  match this with
  | obj l => let* o := get_obj l in mret (vt_iid (Wrapper.vtable o))
  | sec l i =>
      let* o := get_obj l in
      match secondaries o !! i with
      | Some e => mret (vt_iid (se_vtable e))
      | None => mfault UB
      end
  | _ => mfault UB
  end.

(** The call of slot [m] of the vtable behind [this], the slot being one that
    [trait] declares. *)
Definition call_method (trait m : string) (this : ptr) (a : arg) : M W NTSTATUS :=
  let* g := lpVtbl this in
  match slot_at false p g trait m with
  | None | Some (_, BodyAsync _ _) => mfault UB
  | Some (f, BodySync _ _ conv) =>
      let method (_ : loc) (_ : unit) (a : arg) : M W answer :=
        mret (p_method p (sf_trait f) (sf_method f) a) in
      match sf_generics f, conv with
      | GPrimary, ViaIntoNtStatus => shim_result zero_sized zero_sized method answer_into this a
      | GSecondary, ViaIntoNtStatus => shim_result_secondary zero_sized zero_sized method answer_into this a
      | GPrimary, Unchanged =>
          let* r := shim_plain zero_sized zero_sized method this a in lift (answer_plain r)
      | GSecondary, Unchanged =>
          let* r := shim_plain_secondary zero_sized zero_sized method this a in lift (answer_plain r)
      end
  end.

Lemma zero_sized_good : good_layout zero_sized.
Proof. by split. Qed.

(** ** Calls on live objects *)

Lemma call_primary trait m f n args conv l o a (w : W) :
  heap w !! l = Some o -> slot_at false p (vt_iid (Wrapper.vtable o)) trait m = Some (f, BodySync n args conv) ->
  sf_generics f = GPrimary ->
  (conv = Unchanged -> exists s, p_method p (sf_trait f) (sf_method f) a = AStatus s) ->
  call_method trait m (obj l) a w = Done (answer_into (p_method p (sf_trait f) (sf_method f) a), w).
Proof.
  intros Hl Hs Hg Hc. unfold call_method. cbn [lpVtbl]. rewrite bind_assoc.
  erewrite bind_done by (by apply get_obj_live). erewrite bind_done by reflexivity. rewrite Hs, Hg.
  destruct conv; unfold shim_result, shim_plain, primary_inner; rewrite ?bind_assoc;
    (erewrite bind_done by (by apply from_ptr_live)); cbv beta iota; [done|].
  destruct (Hc eq_refl) as [s ->]. done.
Qed.

Lemma call_secondary trait m f n args conv l i e o a (w : W) :
  heap w !! l = Some o -> wf_obj l o -> secondaries o !! i = Some e ->
  slot_at false p (vt_iid (se_vtable e)) trait m = Some (f, BodySync n args conv) -> sf_generics f = GSecondary ->
  (conv = Unchanged -> exists s, p_method p (sf_trait f) (sf_method f) a = AStatus s) ->
  call_method trait m (sec l i) a w = Done (answer_into (p_method p (sf_trait f) (sf_method f) a), w).
Proof.
  intros Hl Hwf He Hs Hg Hc. unfold call_method. cbn [lpVtbl]. rewrite bind_assoc.
  erewrite bind_done by (by apply get_obj_live). rewrite He. erewrite bind_done by reflexivity. rewrite Hs, Hg.
  assert (Hi : (i < length (secondaries o))%nat) by (by eapply lookup_lt_Some).
  destruct conv; unfold shim_result_secondary, shim_plain_secondary, secondary_inner; rewrite ?bind_assoc;
    (erewrite bind_done by (by eapply from_secondary_ptr_live)); cbv beta iota; [done|].
  destruct (Hc eq_refl) as [s ->]. done.
Qed.

(** The last release of an object by name, as the examples call it. *)
Lemma last_shim_release (w : W) l o :
  alloc_block GlobalAllocator (dom (heap w)) = Some l -> wf_obj l o -> kind o = Single -> ref_count o = 1 ->
  standalone o ->
  shim_release c (call c fuel) (obj l) (write_obj w l o) = Done (0, created_and_destroyed w l GlobalAllocator).
Proof.
  intros Ha Hwf Hk Hr Hs.
  pose proof (create_then_destroy c fuel w l o (obj l) GlobalAllocator (inner o) Ha Hwf Hr eq_refl (or_introl Hs) eq_refl) as H.
  unfold Release_of, freeing_alloc in H. rewrite Hk in H.
  erewrite bind_done in H by (apply (unknown_vtbl_live (write_obj w l o) l o); [apply lookup_insert_eq|done|done]).
  rewrite Hk in H. exact H.
Qed.

Lemma last_N_shim_release (w : W) l o :
  alloc_block GlobalAllocator (dom (heap w)) = Some l -> wf_obj l o -> kind o = Multi -> ref_count o = 1 ->
  standalone o ->
  N_shim_release c (call c fuel) (obj l) (write_obj w l o) = Done (0, created_and_destroyed w l (alloc o)).
Proof.
  intros Ha Hwf Hk Hr Hs.
  pose proof (create_then_destroy c fuel w l o (obj l) GlobalAllocator (inner o) Ha Hwf Hr eq_refl (or_introl Hs) eq_refl) as H.
  unfold Release_of, freeing_alloc in H. rewrite Hk in H.
  erewrite bind_done in H by (apply (unknown_vtbl_live (write_obj w l o) l o); [apply lookup_insert_eq|done|done]).
  rewrite Hk in H. exact H.
Qed.

(** How a program ends that creates one object: with the object destroyed and
    its memory given back, or at the [unwrap] when there is no memory. *)
Definition clean_end (w : W) : outcome (unit * W) :=
  match alloc_block GlobalAllocator (dom (heap w)) with
  | Some l => Done (tt, created_and_destroyed w l GlobalAllocator)
  | None => Fault Panic
  end.
End Running.
#[local] Existing Instances no_foreign unit_drop.

(** What an invocation of [impl_com_interface!] or
    [impl_com_interface_multiple!] adds to a program. *)
Definition implemented (blocks : list (option (string * com_impl))) : list (string * com_impl) := omap id blocks.
Definition no_fallback (_ : string) : ptr -> GUID -> option ptr := default_query_interface.

(** ** declare_com_interface_minimal *)
Module Minimal.
Definition IFoo : interface := Interface "IFoo" IUnknown [mkMethod false "ping" [("value", u32_ty)] (Some status)].
Definition iid (_ : string) : GUID :=
  mkGUID 0x12345678 0x1234 0x5678 [0x90; 0xAB; 0xCD; 0xEF; 0x01; 0x23; 0x45; 0x67].
Definition Foo_ping (_value : Z) : NTSTATUS := STATUS_SUCCESS.
Definition Foo_IFoo : impl_args := mkArgs IFoo "IUnknown" None None None None ["ping"] None.

Definition Foo : program := {|
  p_iid := iid;
  p_object := mkInstance "IFoo" [] GlobalAllocator_name;
  p_interfaces := [IFoo];
  p_impls := implemented [impl_block iid no_fallback impl_com_interface Foo_IFoo];
  p_method := fun _ _ a => AStatus (match a with U32 v => Foo_ping v | _ => STATUS_UNSUCCESSFUL end)
|}.

Section Main.
Context {A : Type} `{!Allocator A} (c : config) (fuel : nat).
#[local] Instance impl : ComImpl string unit := program_impl Foo.

Definition main : M (world string unit A unit) unit :=
  let* r := new_com c fuel "IFoo" tt in
  let* raw := unwrap r in
  let* com := raw_from_raw_addref c fuel raw in
  let* com_ref := unwrap_some com in
  let* status := call_method Foo "IFoo" "ping" (as_ptr com_ref) (U32 42) in
  assert_eq status STATUS_SUCCESS ;;
  rc_drop c fuel com_ref ;;
  shim_release c (call c fuel) raw ;;
  mret tt.
End Main.
End Minimal.

(** ** declare_com_interface_result *)
Module ResultSample.
Definition result_ty : rust_ty := TPath false ["Result"] [TOther "()"; status].
Definition IResultSample : interface :=
  Interface "IResultSample" IUnknown [mkMethod false "do_work" [("ok", bool_ty)] (Some result_ty)].
Definition iid (_ : string) : GUID :=
  mkGUID 0xDEADBEEF 0xFEED 0xBEEF [0x01; 0x23; 0x45; 0x67; 0x89; 0xAB; 0xCD; 0xEF].
Definition Worker_do_work (ok : bool) : result unit NTSTATUS :=
  if ok then Ok tt else Err (u32_as_i32 0xC0000001).
Definition Worker_IResultSample : impl_args :=
  mkArgs IResultSample "IUnknown" None None None None ["do_work"] None.

Definition Worker : program := {|
  p_iid := iid;
  p_object := mkInstance "IResultSample" [] GlobalAllocator_name;
  p_interfaces := [IResultSample];
  p_impls := implemented [impl_block iid no_fallback impl_com_interface Worker_IResultSample];
  p_method := fun _ _ a =>
    match a with Bool ok => AResult (Worker_do_work ok) | _ => AStatus STATUS_UNSUCCESSFUL end
|}.

Section Main.
Context {A : Type} `{!Allocator A} (c : config) (fuel : nat).
#[local] Instance impl : ComImpl string unit := program_impl Worker.

Definition main : M (world string unit A unit) unit :=
  let* r := new_com c fuel "IResultSample" tt in
  let* raw := unwrap r in
  let* ok_status := call_method Worker "IResultSample" "do_work" raw (Bool true) in
  let* err_status := call_method Worker "IResultSample" "do_work" raw (Bool false) in
  assert_eq ok_status STATUS_SUCCESS ;;
  assert_eq err_status (u32_as_i32 0xC0000001) ;;
  shim_release c (call c fuel) raw ;;
  mret tt.
End Main.
End ResultSample.

(** ** declare_com_interface_inheritance *)
Module Inheritance.
Definition IMiniport : interface := Interface "IMiniport" IUnknown [mkMethod false "init" [] (Some status)].
Definition IMiniportWaveRT : interface :=
  Interface "IMiniportWaveRT" IMiniport [mkMethod false "new_stream" [("id", u32_ty)] (Some status)].
Definition iid (n : string) : GUID :=
  if String.eqb n "IMiniport" then
    mkGUID 0x11112222 0x3333 0x4444 [0x55; 0x66; 0x77; 0x88; 0x99; 0xAA; 0xBB; 0xCC]
  else mkGUID 0xAAAABBBB 0xCCCC 0xDDDD [0xEE; 0xFF; 0x10; 0x20; 0x30; 0x40; 0x50; 0x60].
Definition Miniport_init : NTSTATUS := STATUS_SUCCESS.
Definition Miniport_new_stream (_id : Z) : NTSTATUS := STATUS_SUCCESS.
Definition Miniport_IMiniport : impl_args := mkArgs IMiniport "IUnknown" None None None None ["init"] None.
Definition Miniport_IMiniportWaveRT : impl_args :=
  mkArgs IMiniportWaveRT "IMiniport" None None None None ["new_stream"] None.

(** The derived interface falls back to its parent. *)
Definition fallbacks (parent : string) : ptr -> GUID -> option ptr :=
  if String.eqb parent "IMiniport" then impl_single (iid "IMiniport") default_query_interface
  else default_query_interface.

Definition Miniport : program := {|
  p_iid := iid;
  p_object := mkInstance "IMiniportWaveRT" [] GlobalAllocator_name;
  p_interfaces := [IMiniport; IMiniportWaveRT];
  p_impls := implemented [impl_block iid fallbacks impl_com_interface Miniport_IMiniport;
                          impl_block iid fallbacks impl_com_interface Miniport_IMiniportWaveRT];
  p_method := fun _ m a =>
    AStatus (if String.eqb m "init" then Miniport_init
             else match a with U32 id => Miniport_new_stream id | _ => STATUS_UNSUCCESSFUL end)
|}.

Section Main.
Context {A : Type} `{!Allocator A} (c : config) (fuel : nat).
#[local] Instance impl : ComImpl string unit := program_impl Miniport.

Definition main : M (world string unit A unit) unit :=
  let* r := new_com c fuel "IMiniportWaveRT" tt in
  let* raw := unwrap r in
  let* init_status := call_method Miniport "IMiniport" "init" raw NoArg in
  let* stream_status := call_method Miniport "IMiniportWaveRT" "new_stream" raw (U32 7) in
  assert_eq init_status STATUS_SUCCESS ;;
  assert_eq stream_status STATUS_SUCCESS ;;
  shim_release c (call c fuel) raw ;;
  mret tt.
End Main.
End Inheritance.

(** ** declare_com_interface_multiple *)
Module Multiple.
Definition IFoo : interface := Interface "IFoo" IUnknown [mkMethod false "foo" [("value", u32_ty)] (Some status)].
Definition IBar : interface := Interface "IBar" IUnknown [mkMethod false "bar" [("value", u32_ty)] (Some status)].
Definition iid (n : string) : GUID :=
  if String.eqb n "IFoo" then
    mkGUID 0x12340001 0x5678 0x9ABC [0x10; 0x20; 0x30; 0x40; 0x50; 0x60; 0x70; 0x80]
  else mkGUID 0x12340002 0x5678 0x9ABC [0x11; 0x22; 0x33; 0x44; 0x55; 0x66; 0x77; 0x88].
Definition Multi_foo (_value : Z) : NTSTATUS := STATUS_SUCCESS.
Definition Multi_bar (_value : Z) : NTSTATUS := STATUS_SUCCESS.
Definition Multi_IFoo : impl_args := mkArgs IFoo "IUnknown" None None (Some ["IBar"]) None ["foo"] None.
Definition Multi_IBar : impl_args :=
  mkArgs IBar "IUnknown" (Some "IFoo") (Some 0%nat) (Some ["IBar"]) None ["bar"] None.

Definition Multi : program := {|
  p_iid := iid;
  p_object := mkInstance "IFoo" ["IBar"] GlobalAllocator_name;
  p_interfaces := [IFoo; IBar];
  p_impls := implemented [impl_block iid no_fallback impl_com_interface Multi_IFoo;
                          impl_block iid no_fallback impl_com_interface_multiple Multi_IBar];
  p_method := fun _ m a =>
    AStatus (match a with
             | U32 v => if String.eqb m "foo" then Multi_foo v else Multi_bar v
             | _ => STATUS_UNSUCCESSFUL
             end)
|}.

Section Main.
Context {A : Type} `{!Allocator A} (c : config) (fuel : nat).
#[local] Instance impl : ComImpl string unit := program_impl Multi.

Definition main : M (world string unit A unit) unit :=
  let* r := N_new c fuel "IFoo" ["IBar"] tt in
  let* raw := unwrap r in
  let foo_ptr := raw in
  let bar_ptr := secondary_ptr raw 0 in
  let* foo_status := call_method Multi "IFoo" "foo" foo_ptr (U32 1) in
  assert_eq foo_status STATUS_SUCCESS ;;
  let* bar_status := call_method Multi "IBar" "bar" bar_ptr (U32 2) in
  assert_eq bar_status STATUS_SUCCESS ;;
  N_shim_release c (call c fuel) raw ;;
  mret tt.
End Main.
End Multiple.

(** ** declare_com_interface_async

    With the [async-com] feature, on a host. *)
Module AsyncSample.
Import Task AsyncOp AsyncShims.

Definition IAsyncFoo : interface :=
  Interface "IAsyncFoo" IUnknown [mkMethod true "init" [("value", u32_ty)] (Some status)].
Definition iid (_ : string) : GUID :=
  mkGUID 0xABCD1234 0x5678 0x90AB [0xCD; 0xEF; 0x01; 0x23; 0x45; 0x67; 0x89; 0x0A].

(** [core::future::ready], which is polled once. *)
Definition ready_poll (value : NTSTATUS) : NTSTATUS * poll NTSTATUS := (value, Ready value).
(** The initialiser of the box is the future it makes. *)
Definition AsyncFoo_init (_value : Z) : NTSTATUS := STATUS_SUCCESS.
Definition AsyncFoo_IAsyncFoo : impl_args := mkArgs IAsyncFoo "IUnknown" None None None None ["init"] None.

Definition AsyncFoo : program := {|
  p_iid := iid;
  p_object := mkInstance "IAsyncFoo" [] GlobalAllocator_name;
  p_interfaces := [IAsyncFoo];
  p_impls := implemented [impl_block iid no_fallback impl_com_interface AsyncFoo_IAsyncFoo];
  p_method := fun _ _ _ => AStatus STATUS_UNSUCCESSFUL
|}.

Section Run.
Context {A : Type} `{!Allocator A} (c : config) (fuel : nat) (op_vtbl : AsyncOperationVtbl).
(** Whether there is memory for the box of the future. *)
Context (boxed : result unit NTSTATUS).
#[local] Instance impl : ComImpl string unit := program_impl AsyncFoo.
#[local] Existing Instance sys_foreign.

Abbreviation Objects := (world string unit A unit).
Abbreviation AsyncW :=
  (world AsyncOperationVtbl (AsyncOperationTask NTSTATUS) A (sys (I:=string) (T:=unit) (A:=A) (X:=unit) (F:=NTSTATUS))).

Definition init_method (_ : loc) (_ : unit) (value : Z) : M Objects NTSTATUS := mret (AsyncFoo_init value).
Definition pin_future (i : NTSTATUS) : M Objects (result NTSTATUS NTSTATUS) :=
  mret (match boxed with Ok _ => Ok i | Err e => Err e end).

(** The call of the [init] slot. *)
Definition call_init (this : ptr) (value : Z) : M AsyncW ptr :=
  let* g := on_objects (lpVtbl this) in
  match slot_at true AsyncFoo g "IAsyncFoo" "init" with
  | Some (f, BodyAsync _ _) =>
      match sf_generics f with
      | GPrimary => shim_async c fuel op_vtbl zero_sized zero_sized init_method pin_future
                      (host_executor c fuel ready_poll tt) this value
      | GSecondary => shim_async_secondary c fuel op_vtbl zero_sized zero_sized init_method pin_future
                        (host_executor c fuel ready_poll tt) this value
      end
  | _ => mfault UB
  end.

(** The shared state behind an operation. *)
Definition op_state (op : ComRc) : M AsyncW (AsyncOperationTask NTSTATUS) :=
  let* (_, wrapper) := from_ptr (as_ptr op) in mret (inner wrapper).
Definition panic_unless (b : bool) : M AsyncW unit := if b then mret tt else mfault Panic.

Definition run : M AsyncW unit :=
  let* r := on_objects (new_com c fuel "IAsyncFoo" tt) in
  let* raw := on_objects (unwrap r) in
  let* op := call_init raw 123 in
  panic_unless (negb (is_null op)) ;;
  match SmartPtr.from_raw op with
  | None => mfault Panic
  | Some op =>
      let* seen := op_state op in
      match get_status false seen with
      | Err _ => mfault Panic
      | Ok status =>
          panic_unless (bool_decide (status = Completed)) ;;
          let* seen := op_state op in
          let* later := op_state op in
          let* r := lift (get_result false seen later) in
          match r with
          | Err _ => mfault Panic
          | Ok result =>
              panic_unless (result =? STATUS_SUCCESS) ;;
              on_objects (shim_release c (call c fuel) raw) ;;
              rc_drop c fuel op ;;
              mret tt
          end
      end
  end.
End Run.
End AsyncSample.

(** ** They end cleanly *)

Abbreviation AsyncW :=
  (world AsyncOp.AsyncOperationVtbl (AsyncOp.AsyncOperationTask NTSTATUS) _
     (AsyncShims.sys (I:=string) (T:=unit) (A:=_) (X:=unit) (F:=NTSTATUS))).

Section Ends.
Context {A : Type} `{!Allocator A} (c : config) (n : nat).
Implicit Types (w : world string unit A unit).

(** Creating the object: it is at a new location with one reference, or
    [unwrap] panics. *)
Ltac created Ha :=
  unfold new_com, new; erewrite bind_done by (by rewrite new_in_result, Ha); cbv beta iota;
  erewrite bind_done by reflexivity.
Ltac not_created Ha :=
  unfold new_com, new, N_new;
  first [ erewrite bind_done by (by rewrite new_in_result, Ha)
        | erewrite bind_done by (by rewrite N_new_in_result, Ha) ]; reflexivity.

(** A call through a primary slot of an object that has just been written. *)
Ltac slot_call :=
  erewrite bind_done;
  [|eapply call_primary; [apply lookup_insert_eq|vm_compute; reflexivity|reflexivity|by eauto]].

Lemma minimal_ends w : Minimal.main c (S n) w = clean_end w.
Proof.
  unfold Minimal.main, clean_end. destruct (alloc_block GlobalAllocator (dom (heap w))) as [l|] eqn:Ha.
  2: not_created Ha.
  created Ha. set (o := fresh_object l "IFoo" None tt GlobalAllocator).
  assert (Hwf : wf_obj l o) by (by apply fresh_object_wf).
  unfold raw_from_raw_addref, from_raw_addref. cbn [is_null].
  erewrite bind_done.
  2: { unfold add_ref. erewrite bind_done; [reflexivity|].
       eapply (AddRef_counts c n _ l o); [apply lookup_insert_eq|done|done|by left|].
       unfold MAX_REFCOUNT, i32_MAX. cbn. lia. }
  erewrite bind_done by reflexivity. cbn [as_ptr rc_ptr]. rewrite write_write. slot_call.
  erewrite bind_done by reflexivity. unfold rc_drop, release. rewrite bind_assoc.
  erewrite bind_done.
  2: { eapply (Release_counts c n _ l (set_ref_count o 2)); [apply lookup_insert_eq| |done|by left|cbn; lia].
       by apply set_ref_count_wf; [|unfold u32, u32_MAX; lia]. }
  cbv beta. erewrite bind_done by reflexivity. rewrite write_write.
  change (write_obj w l (set_ref_count (set_ref_count o 2) (ref_count (set_ref_count o 2) - 1))) with (write_obj w l o).
  by erewrite bind_done by (by apply last_shim_release).
Qed.

Lemma result_ends w : ResultSample.main c n w = clean_end w.
Proof.
  unfold ResultSample.main, clean_end. destruct (alloc_block GlobalAllocator (dom (heap w))) as [l|] eqn:Ha.
  2: not_created Ha.
  created Ha. slot_call. slot_call. do 2 erewrite bind_done by reflexivity.
  by erewrite bind_done by (by apply last_shim_release; [|apply fresh_object_wf|..]).
Qed.

Lemma inheritance_ends w : Inheritance.main c n w = clean_end w.
Proof.
  unfold Inheritance.main, clean_end. destruct (alloc_block GlobalAllocator (dom (heap w))) as [l|] eqn:Ha.
  2: not_created Ha.
  created Ha. slot_call. slot_call. do 2 erewrite bind_done by reflexivity.
  by erewrite bind_done by (by apply last_shim_release; [|apply fresh_object_wf|..]).
Qed.

Lemma multiple_ends w : Multiple.main c n w = clean_end w.
Proof.
  unfold Multiple.main, clean_end. destruct (alloc_block GlobalAllocator (dom (heap w))) as [l|] eqn:Ha.
  2: not_created Ha.
  unfold N_new. erewrite bind_done by (by rewrite N_new_in_result, Ha). cbv beta iota.
  erewrite bind_done by reflexivity. cbn [secondary_ptr].
  set (o := fresh_objectN l "IFoo" ["IBar"] tt GlobalAllocator).
  assert (Hwf : wf_obj l o).
  { apply fresh_objectN_wf. split; [done|]. intros [|[|k]] s Hk; cbn in Hk; by simplify_eq. }
  slot_call. erewrite bind_done by reflexivity.
  erewrite bind_done.
  2: { eapply (call_secondary Multiple.Multi) with (o := o); [apply lookup_insert_eq|done|reflexivity
         |vm_compute; reflexivity|reflexivity|by eauto]. }
  erewrite bind_done by reflexivity. by erewrite bind_done by (by apply last_N_shim_release).
Qed.

(** How the asynchronous example ends: both its object and its operation are
    created and destroyed, or it panics, at the [unwrap] or at the first
    assertion that the missing memory makes fail. *)
Definition async_end (boxed : result unit NTSTATUS) (s : AsyncW) : outcome (unit * AsyncW) :=
  match alloc_block GlobalAllocator (dom (heap (AsyncShims.objects (ext_state s)))),
        alloc_block GlobalAllocator (dom (heap s)), boxed with
  | Some l, Some lo, Ok _ =>
      Done (tt, created_and_destroyed
        (AsyncShims.set_sys s (AsyncShims.mkSys
           (created_and_destroyed (AsyncShims.objects (ext_state s)) l GlobalAllocator)
           (AsyncShims.tasks (ext_state s)))) lo GlobalAllocator)
  | _, _, _ => Fault Panic
  end.

(** The call of the [init] slot of an object that has just been written. *)
Lemma async_call op_vtbl boxed (s : AsyncW) l :
  let o := fresh_object (ComImpl0 := program_impl AsyncSample.AsyncFoo) l "IAsyncFoo" None tt GlobalAllocator in
  heap (AsyncShims.objects (ext_state s)) !! l = Some o ->
  AsyncSample.call_init c (S n) op_vtbl boxed (obj l) 123 s
  = AsyncShims.host_outcome op_vtbl AsyncSample.ready_poll s (AsyncShims.objects (ext_state s))
      (match boxed with Ok _ => Ok STATUS_SUCCESS | Err e => Err e end).
Proof.
  intros o Hl. unfold AsyncSample.call_init.
  erewrite bind_done by (apply AsyncShims.on_objects_done; cbn [lpVtbl];
    erewrite bind_done by (by apply get_obj_live); reflexivity).
  rewrite AsyncShims.set_sys_id.
  replace (slot_at true AsyncSample.AsyncFoo (vt_iid (Wrapper.vtable o)) "IAsyncFoo" "init")
    with (Some (mkSlotFn "IAsyncFoo" "init" GPrimary None, BodyAsync "init" ["value"])) by (vm_compute; reflexivity).
  set (w := AsyncShims.objects (ext_state s)) in *.
  assert (Hr : 1 <= ref_count o < MAX_REFCOUNT) by (unfold MAX_REFCOUNT, i32_MAX; cbn; lia).
  rewrite <- (AsyncShims.uncounted_counted w l o Hl) at 1.
  apply (AsyncShims.shim_of_host c (S n) op_vtbl zero_sized zero_sized AsyncSample.init_method
    (AsyncSample.pin_future boxed) AsyncSample.ready_poll zero_sized_good zero_sized_good n eq_refl l o w)
    with (init := STATUS_SUCCESS) (wm := AsyncShims.counted w l o); try done.
  by apply AsyncShims.counted_still_there.
Qed.

Lemma async_op_state op_vtbl (s : AsyncW) lo st k :
  AsyncSample.op_state (mkRc (obj lo)) (write_obj s lo (AsyncOp.op_object op_vtbl lo st k))
  = Done (st, write_obj s lo (AsyncOp.op_object op_vtbl lo st k)).
Proof.
  unfold AsyncSample.op_state. by erewrite bind_done by (apply from_ptr_live, lookup_insert_eq).
Qed.

Lemma async_ends op_vtbl boxed (s : AsyncW) :
  AsyncSample.run c (S n) op_vtbl boxed s = async_end boxed s.
Proof.
  unfold AsyncSample.run, async_end.
  destruct (alloc_block GlobalAllocator (dom (heap (AsyncShims.objects (ext_state s))))) as [l|] eqn:Ha.
  2: { unfold new_com, new. erewrite bind_done by (apply AsyncShims.on_objects_done; by rewrite new_in_result, Ha).
       reflexivity. }
  unfold new_com, new. erewrite bind_done by (apply AsyncShims.on_objects_done; by rewrite new_in_result, Ha).
  erewrite bind_done by (apply AsyncShims.on_objects_done; reflexivity).
  set (o := fresh_object l "IAsyncFoo" None tt GlobalAllocator).
  set (w := write_obj (AsyncShims.objects (ext_state s)) l o).
  set (s1 := AsyncShims.set_sys s (AsyncShims.mkSys w (AsyncShims.tasks (ext_state s)))).
  match goal with |- _ ?s' = _ => change s' with s1 end.
  assert (Hcall := async_call op_vtbl boxed s1 l (lookup_insert_eq _ _ _)).
  unfold AsyncShims.host_outcome in Hcall. change (heap s1) with (heap s) in Hcall.
  destruct (alloc_block GlobalAllocator (dom (heap s))) as [lo|] eqn:Hlo;
    erewrite bind_done by exact Hcall; [|reflexivity].
  destruct boxed as [[]|e]; cbn [AsyncSample.ready_poll snd]; erewrite bind_done by reflexivity;
    cbn [is_null SmartPtr.from_raw]; erewrite bind_done by apply async_op_state; [|reflexivity].
  set (st := AsyncOp.apply_stores _ _).
  change (AsyncOp.get_status false st) with (Ok (E:=NTSTATUS) AsyncOp.Completed). cbv beta iota.
  erewrite bind_done by reflexivity. do 2 erewrite bind_done by apply async_op_state.
  erewrite bind_done by reflexivity. cbv beta iota. erewrite bind_done by reflexivity.
  erewrite bind_done by (apply AsyncShims.on_objects_done; by apply last_shim_release; [|apply fresh_object_wf|..]).
  unfold rc_drop, release. rewrite bind_assoc. cbn [rc_ptr].
  match goal with |- bind _ _ ?s' = _ =>
    set (s2 := AsyncShims.set_sys s (AsyncShims.mkSys
      (created_and_destroyed (AsyncShims.objects (ext_state s)) l GlobalAllocator) (AsyncShims.tasks (ext_state s))));
    change s' with (write_obj s2 lo (AsyncOp.op_object op_vtbl lo st 1)) end.
  erewrite bind_done; [reflexivity|].
  apply (create_then_destroy c n s2 lo (AsyncOp.op_object op_vtbl lo st 1) (obj lo) GlobalAllocator st); try done. by left.
Qed.
End Ends.

(** What the examples declare compiles, and so do their impls: the types are
    those of the crate, and the wrapped type implements the declared traits. *)
#[local] Existing Instance crate_facts.
Definition p_type (p : program) : wrapped_type := mkWrapped (map iname (p_interfaces p)) [] [].
Definition compiling (async_com : bool) (p : program) : Prop :=
  Forall (fun i => match i with Interface _ _ ms => declarable async_com ms | IUnknown => False end) (p_interfaces p)
  /\ well_typed (p_type p) (p_impls p).

Lemma single_declarable async_com m r :
  m_ret m = Some r -> (m_async m = true -> async_com = true) -> "parent" <> m_name m -> "IID" <> m_name m ->
  method_ok m ->
  declarable async_com [m].
Proof.
  intros Hr Ha Hp Hi Hok. split_and!.
  - constructor; [by rewrite Hr|done].
  - apply list.NoDup_singleton.
  - cbn. by intros ?%list_elem_of_singleton.
  - cbn. by intros ?%list_elem_of_singleton.
  - intros x y ->%list_elem_of_singleton ->%list_elem_of_singleton H.
    apply (f_equal String.length) in H. rewrite length_append in H. cbn in H. lia.
  - rewrite filter_cons. case_decide; cbn; lia.
  - by intros x ->%list_elem_of_singleton.
  - by intros x ->%list_elem_of_singleton.
Qed.

Ltac declares :=
  eapply single_declarable;
  [reflexivity|done|discriminate|discriminate
  |split; [apply (bool_decide_unpack _); vm_compute; exact Logic.I|reflexivity || exact Logic.I]].

(** C40: the example programs are correct.  Their declarations and impls compile;
    and from any memory, in every build of the reference counts, each of them
    ends with its assertions satisfied, its object destroyed once and the
    memory given back to the allocator, or panics at the [unwrap] of the
    constructor when there is no memory for the object.  So does, on a host,
    the asynchronous one, which creates an operation besides and panics at an
    assertion when there is no memory for it or for its future. *)
Theorem host_examples_end_cleanly {A : Type} `{!Allocator A} (c : config) (n : nat)
    (w : world string unit A unit) (op_vtbl : AsyncOp.AsyncOperationVtbl) (boxed : result unit NTSTATUS) (s : AsyncW) :
  (Forall (compiling false) [Minimal.Foo; ResultSample.Worker; Inheritance.Miniport; Multiple.Multi]
   /\ compiling true AsyncSample.AsyncFoo)
  /\ Minimal.main c (S n) w = clean_end w
  /\ ResultSample.main c n w = clean_end w
  /\ Inheritance.main c n w = clean_end w
  /\ Multiple.main c n w = clean_end w
  /\ AsyncSample.run c (S n) op_vtbl boxed s = async_end boxed s.
Proof.
  split; [|auto using minimal_ends, result_ends, inheritance_ends, multiple_ends, async_ends].
  split; [repeat apply Forall_cons; try apply Forall_nil|];
    (split; [repeat apply Forall_cons; try apply Forall_nil; by declares|
             split; [apply (bool_decide_unpack _); vm_compute; exact Logic.I|repeat constructor]]).
Qed.

(** ** spawn_task_host

    The future wakes itself and is pending once. *)
Module SpawnTaskHost.
Record YieldOnce : Type := mkYieldOnce { yielded : bool }.

(** What a poll does with its waker, and its answer. *)
Definition YieldOnce_poll (self : YieldOnce) : list poll_action * Poll * YieldOnce :=
  if yielded self then ([], PollReady STATUS_SUCCESS, self)
  else ([ActWakeByRef], PollPending, mkYieldOnce true).

(** On a host: the waker does nothing. *)
Definition host_main : NTSTATUS * list HostStubs.host_event :=
  HostStubs.spawn_task (fun _ f => let '(_, r, f) := YieldOnce_poll f in (r, f)) (mkYieldOnce false).

(** In a driver: spawned on a tracker that is then drained.  The events of one
    processor: the main function, its two DPCs and the signal it waits for. *)
Definition nth_poll (n : nat) : oracle :=
  mkOracle (fst (YieldOnce_poll (Nat.iter n (fun f => snd (YieldOnce_poll f)) (mkYieldOnce false)))) (0, 0).
Definition driver_main : list driver_event :=
  spawn_events 0 0 2 ++ [DrainTasks; TrackerRuns 1 false]
  ++ [TaskRuns 0 (ExecutorSem.Dispatch 3 (Some 0))] ++ task_runs 0 14 1 (nth_poll 0) ++ task_runs 0 7 1 (nth_poll 1)
  ++ [TaskRuns 0 (ExecutorSem.Dispatch 3 (Some 0))] ++ task_runs 0 6 2 (nth_poll 2)
  ++ [TrackerRuns 2 false; TrackerRuns 2 false; TrackerRuns 1 false].

(** On a host the future is polled once and dropped pending; in a driver it
    is polled twice, on one DPC, and [drain] waits until it is gone. *)
Theorem spawn_task_example (c : config) :
  host_main = (STATUS_SUCCESS, [HostStubs.Polled; HostStubs.Dropped])
  /\ exists s, driver_run c true true default_budget driver_main driver_start = Some s
       /\ drained (dr_tracker s) = [0] /\ Forall (gone true) (dr_tasks s) /\ length (dr_tasks s) = 1%nat.
Proof.
  split; [reflexivity|]. destruct c as [[] []]; eexists; (split; [vm_compute; reflexivity|]);
    repeat split; repeat constructor.
Qed.
End SpawnTaskHost.

(** ** work_item_task_driver

    The example passes a null device. *)
Module WorkItemTaskDriver.
Import WorkItem.
#[local] Open Scope prog_scope.

Definition ReadyOk_poll : list WorkItem.poll_action * WorkItem.Poll := ([], PollReady STATUS_SUCCESS).

Definition use_and_drop {C : Type} `{!TaskContext C} (handle : result task_ptr NTSTATUS) : prog C unit :=
  match handle with
  | Ok h => WorkItemCancelHandle_cancel h ;; WorkItemCancelHandle_drop h
  | Err _ => Ret tt
  end.

Definition run_wdm : prog PDEVICE_OBJECT NTSTATUS :=
  let device := mkPDEVICE 0 in
  status <- spawn_task device ;
  handle <- spawn_task_cancellable device ;
  use_and_drop handle ;;
  Ret status.
Definition run_kmdf : prog WDFDEVICE NTSTATUS :=
  let device := mkWDFDEVICE 0 in
  status <- spawn_task device ;
  handle <- spawn_task_cancellable device ;
  use_and_drop handle ;;
  Ret status.

(** Both are refused before anything happens. *)
Lemma null_device_is_refused :
  run_wdm = Ret STATUS_INVALID_PARAMETER /\ run_kmdf = Ret STATUS_INVALID_PARAMETER.
Proof. split; reflexivity. Qed.
End WorkItemTaskDriver.
